(* ===== verification/_CoqProject ===== *)
-Q . S2P
Prelude.v
GoLib.v
Record.v
Json.v
JsonFacts.v
Url.v
SearchQL.v
SearchQLFacts.v
Predicate.v
SearchSQL.v
SearchSQLFacts.v
Sqlite.v
SqlQuery.v
MemorySink.v
Inspect.v
MemoryReader.v
MemoryReaderFacts.v
AdminInspect.v
AdminInspectFacts.v
SqliteOpen.v
SqliteReader.v
SqliteFacts.v
SqliteDetailFacts.v
SqliteRootsSpec.v
SqliteTerms.v
SqliteRootsFacts.v
SqliteStatsFacts.v
SqliteServicesFacts.v
StoresFacts.v
Capture.v
CaptureFacts.v
Pipeline.v
PipelineFacts.v
Redact.v
RedactFacts.v
RedactHeap.v
RedactHeapFacts.v
GoTime.v
Serve.v
ServeFacts.v
Metrics.v
Config.v
Auth.v
AuthFacts.v
Events.v
EventsFacts.v
ConfigFacts.v
ConfigYaml.v
Stdout.v
RedactCmd.v
RedactCmdFacts.v
UiViews.v
UiChipsFacts.v
UiViewsFacts.v
InspectJson.v
AdminServer.v
AdminServerFacts.v
App.v
AppFacts.v
EndToEnd.v
Main.v
