(* ===== verification/Prelude.v ===== *)
(** * httpcatch: a verification library

    httpcatch receives copies of HTTP traffic. The capture port turns each
    request into a record and puts it on a bounded queue; applications report
    responses and outbound calls to the admin port's events endpoint, which
    feeds the same queue. A pool of workers takes records, redacts them and
    writes them to the configured sinks. The admin port, behind a token or
    session gate, serves searches, pages, details and histograms over what the
    memory sink and the SQLite sink hold, and without it counters for a metrics
    collector. The application loads its configuration, builds these parts,
    serves both ports and, on a signal, stops and drains them.

    ** Files and the code they model

    - [Prelude]: results, 64-bit integers, tactics, list lemmas.
    - [GoLib]: the functions of Go's standard library the program calls
      (strings, strconv, textproto, http.Header, net.SplitHostPort, sort, time).
    - [Record]: internal/capture/record.go, the three record types.
    - [Json], [JsonFacts]: encoding/json as far as the sinks use it: header
      maps and cookies printed, escaped, parsed.
    - [Url]: net/url query strings, escaped, encoded, parsed.
    - [SearchQL], [SearchQLFacts]: internal/searchql/searchql.go, tokeniser and
      parser of the search language.
    - [Predicate]: internal/searchql/compile_predicate.go, the matcher used on
      records in memory.
    - [SearchSQL], [SearchSQLFacts]: internal/searchql/compile_sql.go, the SQL
      fragments; the generated text itself is the model's output.
    - [MemorySink]: internal/sinks/memory.go, the ring of recent records.
    - [Inspect]: internal/inspect, rows, queries, cursors with their base64 and
      decimal codec, and what a page of an ordered row list is.
    - [MemoryReader], [MemoryReaderFacts]: internal/sinks/memory_reader.go.
    - [AdminInspect], [AdminInspectFacts]: internal/admin/inspect.go and
      query_parser.go. The two stores are values of the record [Reader] (the Go
      interface); the page-merge lemmas use only the class [Serves], of which
      both readers are shown to be instances.
    - [Sqlite]: internal/sinks/sqlite.go and sqlite_sweeper.go, schema,
      statements, row values, writing and sweeping; the engine is a record.
    - [SqliteOpen]: the opening of the database, as a function of an
      environment that answers every system call.
    - [SqlQuery]: the conditions of the statements as syntax with SQL's
      three-valued meaning; the compiled text is its rendering.
    - [SqliteReader]: internal/sinks/sqlite_reader.go, statement building, row
      scanning, and the relational meaning of each statement.
    - [SqliteFacts] (writes, sweeps), [SqliteDetailFacts] (details),
      [SqliteRootsSpec], [SqliteTerms], [SqliteRootsFacts] (the list: text and
      arguments, search terms, pages), [SqliteStatsFacts],
      [SqliteServicesFacts] (grouped statements).
    - [StoresFacts]: the memory ring and the SQLite tables together.
    - [Capture], [CaptureFacts]: internal/capture, body cap, correlation and
      service identification, queue, counters, the capture handler.
    - [Pipeline], [PipelineFacts]: internal/pipeline, the worker pool as a step
      relation in which workers, captures and events interleave freely.
    - [Redact], [RedactFacts]: internal/redact/ruleset.go on values.
    - [RedactHeap], [RedactHeapFacts]: the same functions on shared memory, with
      the copies they take and the loops that write in place.
    - [Auth], [AuthFacts]: internal/admin/session.go, authlimit.go,
      middleware.go, login.go, csrf.go, bindpolicy.go.
    - [Events], [EventsFacts]: internal/admin/events.go, events_counters.go.
    - [GoTime]: binary64 arithmetic and time.ParseDuration.
    - [Metrics]: internal/metrics/metrics.go, internal/admin/metrics.go and
      status.go, the samples of a scrape and the status page.
    - [Config], [ConfigFacts]: internal/config/config.go, defaults, file and
      environment overlays, validation; [ConfigYaml]: its strict decoders.
    - [Stdout]: internal/sinks/stdout.go, envelopes and the line encoder.
    - [RedactCmd], [RedactCmdFacts]: internal/cli/redactcmd, the diff and the
      command.
    - [UiViews]: internal/admin/ui_views.go, every page up to the data its
      template gets; [UiChipsFacts] (the chips of a query), [UiViewsFacts] (next
      links, details, services, configuration).
    - [InspectJson]: the JSON tags of the rows, histograms and records, the
      bodies inspect.go prints with them, and a client that reads them.
    - [AdminServer], [AdminServerFacts]: internal/admin/server.go with
      security_headers.go, static.go, healthz.go, login pages and cookies: every
      route with its middlewares, as a function from state and request to state
      and response.
    - [App], [AppFacts]: internal/app/app.go, Build and the start-up warnings.
    - [EndToEnd]: the assembled program as a whole, from accepted records to
      the answers of the admin port.
    - [Serve], [ServeFacts]: app.Serve, app.shutdown and the admin server's Serve
      as a step relation beside requests, events and workers.
    - [Main]: cmd/httpcatch/main.go.

    ** What the theorems show

    - Search: the parser inverts the printer, tokens are those of a declarative
      grammar, parsed terms are well formed, errors name the offending token;
      the compiled predicate means what the terms say; SQL fragments have one
      argument per placeholder, never contain user text, and select what the
      in-memory matcher selects (on ASCII for the folded columns; a lemma
      shows the difference outside).
    - Storage and reading: the ring with its index is the list of the newest
      records; following cursors visits every row exactly once in order;
      details, histograms and service statistics are the declarative ones.
    - SQLite: a failed opening holds no handle and no opening takes a symbolic
      link (the probe file stays if its removal fails, which the code ignores);
      writing stores the whole row or nothing; sweeping keeps exactly what the policy keeps; what
      was written is read back; the statement text of the list, evaluated over
      the tables, yields the pages of one ordered list of records; histograms
      and service statistics count those records.
    - Both stores: searches on shared fields give the same pages (bodies if
      ASCII); the merged list is the page of one ordered view of both as long as
      the ring drops what is older than all it keeps; details merge. Lemmas
      exhibit the page whose next cursor is lost, the event listed beside its
      request, and the late event that hides a request.
    - Capture and pipeline: records faithful in every field, bodies within the
      cap, exact
      accounting of counters modulo 2^64, conservation of accepted records,
      sinks see only redactions, the concurrent worker refines the sequential
      [process], and a closed pool drains in a bounded number of steps.
    - Redaction: cookies, listed headers and query keys carry the marker after
      all rules ran; nothing else changes; one lemma exhibits the header
      spelling the cookie rules miss. On shared memory the in-place loops compute
      the same and write only to copies, whatever the record aliases.
    - Admin access: sessions against a history specification, the lockout to
      the attempt in binary64, the gate and the login on every branch. On the
      whole port: without a credential nothing is revealed or changed, every
      answer carries its hardening headers, and the login page leads back to
      where the browser was refused; redirects are written as http.Redirect
      writes them, Location and body.
    - The whole program: every record with headers and body that any answer of
      the admin port carries, in any reachable state, is the redaction of a
      record accepted in this run or a row an earlier run left in the SQLite
      file; once the pool has drained without panics, the port serves every
      accepted record under its id, redacted, with its siblings, provided the
      ring holds all of them, and with memory alone lists exactly one row per
      record the window shows. A client that parses the JSON pages and sends the
      cursor back sees every row once; the JSON of a detail determines it to the
      last byte.
    - Metrics: every scrape is well formed; in every reachable state of a built
      program its series are the numbers of the outcomes that happened.
    - Start and stop: a loaded configuration builds exactly when its store opens,
      its rules compile and its bind is accepted; shutdown closes the queue
      once, drains before the store closes, unless it times out hands to each
      sink every accepted record whose worker did not panic before, and ends
      within its timers. Lemmas exhibit the event that meets the closed queue
      and the store left open by a failed start.
    - Events: a payload is rejected as a whole or offered as a whole.
    - Configuration: each setting is environment over file over default, bad
      input and unknown keys are refused, and the sizes of a loaded configuration
      are the ones queue, pool and ring are built with.
    - Pages: the chips of a query are search text for its terms; following next
      links visits the whole list in the window of the first page; copied
      request data decodes to the request; the configuration page shows the
      configuration as text and of the token only whether it is set.
    - Stdout and dry run: one parsable line per record, bytes that are not UTF-8
      as U+FFFD; the diff is exact,
      ordered, and masked values leave only their lengths.

    ** Modelling choices

    Go strings and byte slices are [string], a sequence of bytes. [int] and
    [int64] are [Z] with the wrap-around written where a value can leave the
    range; counters wrap at 2^64. Times and durations are [Z] nanoseconds.
    Floats are the executable binary64 of the Standard Library. A Go panic is
    [None]; an error is [Err]. State passes explicitly; a mutex-protected
    method is one step. Clock readings, uuids and random ids are arguments.
    Some recursions have fuel. The tokeniser's loop, [TrimSpace],
    [ParseDuration] and the JSON parser get at least the length of their input,
    of which each round consumes at least one byte: the theorems about them have
    no fuel premise and [parse_components_fuel] shows that more fuel changes
    nothing. [walk] and [client_walk], the clients that follow cursors, need one
    page per row.

    Code outside the repository enters as type classes, each instantiated in
    the witnesses: [Unicode] (case mapping of non-ASCII text), [MapRange] (the
    order of map iteration, any permutation), [TimeParse], [RedactDeps]
    (regexp, gjson, sjson, mime), [WebDeps] (url, net), [JsonDeps]
    (decoding of event payloads), [YamlDeps] (yaml), [TimeFormat] and [TimeJSON]
    (text of instants, read back by [TimeLaws]), [CaseTables] (two facts of the
    Unicode tables), [Printable] (strconv.IsPrint), [PageDeps] (YAML encoder,
    template, SHA-256), [SampleDeps] (decoding of a sample), [SqlText] (SQLite's LIKE
    and LOWER, by the clauses documented for UTF-8 text without NUL, read byte by
    byte everywhere; SQLite leaves other text undefined), [SqlJson] (json_extract and json_each on
    a stored header map), [Chi] with [ChiLaws] (the router: registered routes
    only, literal patterns first), [YamlLib] with [YamlLaws] (yaml nodes and the
    calls of UnmarshalYAML). [Target] is the operating system built for. The
    SQLite engine is the record [Engine]; [inserts],
    [deletes] and [answers] state per statement that it fails or does what the
    statement says, and each witness runs an executable engine that does.

    ** Not modelled

    The text of HTML templates and of log lines, and of error messages other than
    those of the search endpoints: the templates are executed by html/template
    from embedded files, and no code reads the other texts back. The wire format
    of metrics and the duration histogram, which the Prometheus client keeps.
    Query timeouts: a cancelled query is an error of the engine here, so what a
    reader answers then is covered, and when it happens is not; the two timers
    that order shutdown are modelled. The router's own answers to unknown paths,
    which come from the router. Whether an empty body is a nil slice: the records
    identify the two, and the JSON of a detail takes it as an argument. *)
From stdpp Require Export base gmap strings list sorting.
From Stdlib Require Export ZArith Lia Ascii.

#[global] Set Default Goal Selector "!".

#[global] Arguments String.append !_ _ / : simpl nomatch.

(** ** Results: Go's [(value, error)] pairs as a sum *)

Inductive result (E A : Type) : Type :=
| Ok (a : A)
| Err (e : E).
Arguments Ok {E A} a.
Arguments Err {E A} e.

Create HintDb go.

Declare Scope go_scope.
Delimit Scope go_scope with go.

Notation "'try' x <- c ; k" :=
  (match c with Ok x => k | Err e => Err e end)
  (at level 100, x pattern, c at next level, k at level 200, right associativity) : go_scope.

Definition is_ok {E A} (r : result E A) : bool :=
  match r with Ok _ => true | Err _ => false end.

(** ** Machine integers

    [int] and [int64] are 64-bit two's complement, [uint64] counters wrap. *)

Definition two64 : Z := 18446744073709551616.
Definition two63 : Z := 9223372036854775808.

Definition wrap_i64 (z : Z) : Z := ((z + two63) mod two64 - two63)%Z.
Definition wrap_u64 (z : Z) : Z := (z mod two64)%Z.
Definition u64_incr (z : Z) : Z := wrap_u64 (z + 1).

Definition in_i64 (z : Z) : Prop := (- two63 <= z < two63)%Z.

Lemma wrap_i64_id z : in_i64 z -> wrap_i64 z = z.
Proof. unfold in_i64, wrap_i64, two63, two64. intros H. rewrite Z.mod_small; lia. Qed.

Lemma wrap_i64_range z : in_i64 (wrap_i64 z).
Proof.
  unfold in_i64, wrap_i64, two63, two64.
  pose proof (Z.mod_pos_bound (z + 9223372036854775808) 18446744073709551616). lia.
Qed.

Lemma u64_incr_small z : (0 <= z < two64 - 1)%Z -> u64_incr z = (z + 1)%Z.
Proof. unfold u64_incr, wrap_u64, two64. intros H. rewrite Z.mod_small; lia. Qed.

(** ** Automation *)

(** Split boolean hypotheses into their propositional content. *)
Ltac bool_hyps :=
  repeat match goal with
  | H : (_ && _)%bool = true |- _ => apply andb_true_iff in H; destruct H
  | H : (_ || _)%bool = false |- _ => apply orb_false_iff in H; destruct H
  | H : negb _ = true |- _ => apply negb_true_iff in H
  | H : negb _ = false |- _ => apply negb_false_iff in H
  | H : String.eqb _ _ = true |- _ => apply String.eqb_eq in H
  | H : String.eqb _ _ = false |- _ => apply String.eqb_neq in H
  | H : Ascii.eqb _ _ = true |- _ => apply Ascii.eqb_eq in H
  | H : Ascii.eqb _ _ = false |- _ => apply Ascii.eqb_neq in H
  | H : Z.ltb _ _ = true |- _ => apply Z.ltb_lt in H
  | H : Z.ltb _ _ = false |- _ => apply Z.ltb_ge in H
  | H : Z.leb _ _ = true |- _ => apply Z.leb_le in H
  | H : Z.leb _ _ = false |- _ => apply Z.leb_gt in H
  | H : Z.eqb _ _ = true |- _ => apply Z.eqb_eq in H
  | H : Z.eqb _ _ = false |- _ => apply Z.eqb_neq in H
  end.

(** Case on the scrutinee of a [match] or [if] of the goal or a hypothesis. *)
Ltac case_step :=
  match goal with
  | H : context [match ?x with _ => _ end] |- _ => destruct x eqn:?
  | |- context [match ?x with _ => _ end] => destruct x eqn:?
  end.

(** Inversion that cleans up after itself. *)
Ltac invc H := inversion H; subst; clear H.

(** ** Lists *)

Section Lists.
Context {A : Type}.
Implicit Types (l : list A) (f g : A -> bool).

Lemma existsb_perm f l1 l2 : l1 ≡ₚ l2 -> existsb f l1 = existsb f l2.
Proof. induction 1; simpl; [done | congruence | | congruence]. by destruct (f x), (f y). Qed.

Lemma existsb_true_iff f l : existsb f l = true <-> exists x, x ∈ l /\ f x = true.
Proof.
  rewrite existsb_exists. setoid_rewrite <- list_elem_of_In. done.
Qed.

Lemma forallb_true_iff f l : forallb f l = true <-> forall x, x ∈ l -> f x = true.
Proof. rewrite forallb_forall. setoid_rewrite <- list_elem_of_In. done. Qed.

Lemma filter_id (P : A -> Prop) `{!forall x, Decision (P x)} l :
  (forall x, x ∈ l -> P x) -> filter P l = l.
Proof.
  induction l as [|x l IH]; intros Hl; [done|]. rewrite filter_cons, decide_True by (apply Hl; left).
  f_equal. apply IH. intros y Hy. apply Hl. by right.
Qed.

Lemma filter_none (P : A -> Prop) `{!forall x, Decision (P x)} l :
  (forall x, x ∈ l -> ~ P x) -> filter P l = [].
Proof.
  induction l as [|x l IH]; intros Hl; [done|]. rewrite filter_cons, decide_False by (apply Hl; left).
  apply IH. intros y Hy. apply Hl. by right.
Qed.

Lemma filter_ext_elem (P Q : A -> Prop) `{!forall x, Decision (P x), !forall x, Decision (Q x)} l :
  (forall x, x ∈ l -> P x <-> Q x) -> filter P l = filter Q l.
Proof.
  induction l as [|x l IH]; intros Hl; [done|]. rewrite !filter_cons.
  rewrite (decide_ext (P x) (Q x)) by (apply Hl; left). rewrite IH; [done|].
  intros y Hy. apply Hl. by right.
Qed.

End Lists.

Lemma length_omap_le {A B} (f : A -> option B) (l : list A) : length (omap f l) <= length l.
Proof. induction l as [|x l IH]; [done|]. cbn. destruct (f x); cbn in *; lia. Qed.

Lemma filter_fmap {A B} (f : A -> B) (P : B -> Prop) `{!forall x, Decision (P x)} (k : list A) :
  filter P (f <$> k) = f <$> filter (fun x => P (f x)) k.
Proof. induction k as [|x k IH]; [done|]. rewrite fmap_cons, !filter_cons, IH. by case_decide. Qed.

Lemma filter_const {A} (b : bool) (k : list A) (f : A -> bool) :
  (forall x, x ∈ k -> f x = b) -> filter (fun x => f x = true) k = if b then k else [].
Proof.
  intros Hf. destruct b; [apply filter_id|apply filter_none]; intros x Hx; rewrite (Hf x Hx); done.
Qed.

Lemma omap_cons {A B} (f : A -> option B) x (k : list A) :
  omap f (x :: k) = match f x with Some y => y :: omap f k | None => omap f k end.
Proof. done. Qed.

Lemma omap_filter {A B} (f : A -> option B) (g : A -> B) (p : A -> bool) (k : list A) :
  (forall x, x ∈ k -> f x = if p x then Some (g x) else None) -> omap f k = g <$> filter (fun x => p x = true) k.
Proof.
  induction k as [|x k IH]; intros Hf; [done|]. rewrite omap_cons, filter_cons, (Hf x) by left.
  rewrite IH by (intros; apply Hf; by right). by destruct (p x).
Qed.
