(* ===== verification/GoLib.v ===== *)
(** * The parts of Go's standard library the program uses

    Go strings and byte slices are byte sequences; both are Rocq's [string]
    (a list of 8-bit [ascii]). This file models [strings], [bytes], [strconv],
    [net/textproto], [net/http.Header], [net.SplitHostPort], [sort] and [time]
    as far as the program calls them. Unicode case mapping of strings with a
    byte above 0x7f is the only table left abstract (class [Unicode]); map
    iteration order, which Go leaves unspecified, is the class [MapRange]. *)
From S2P Require Import Prelude.
From Stdlib Require Import DecimalString DecimalN.

Open Scope string_scope.
Open Scope list_scope.

(** ** Bytes *)

Definition code (c : ascii) : N := N_of_ascii c.
Definition in_range (lo hi : N) (c : ascii) : bool := ((lo <=? code c) && (code c <=? hi))%N.

Definition dquote : ascii := "034"%char.
Definition backslash : ascii := "092"%char.

Definition is_upper (c : ascii) : bool := in_range 65 90 c.
Definition is_lower (c : ascii) : bool := in_range 97 122 c.
Definition is_digit (c : ascii) : bool := in_range 48 57 c.

Definition lower_byte (c : ascii) : ascii :=
  if is_upper c then ascii_of_N (code c + 32) else c.
Definition upper_byte (c : ascii) : ascii :=
  if is_lower c then ascii_of_N (code c - 32) else c.

Lemma byte_ind (P : ascii -> bool) :
  forallb (fun n => P (ascii_of_nat n)) (seq 0 256) = true -> forall c, P c = true.
Proof.
  intros H c. rewrite forallb_forall in H.
  specialize (H (nat_of_ascii c)). rewrite ascii_nat_embedding in H. apply H.
  apply in_seq. pose proof (nat_ascii_bounded c). lia.
Qed.

Lemma lower_byte_idem c : lower_byte (lower_byte c) = lower_byte c.
Proof.
  apply Ascii.eqb_eq. revert c.
  apply (byte_ind (fun c => Ascii.eqb (lower_byte (lower_byte c)) (lower_byte c))).
  by vm_compute.
Qed.

(** Case mapping neither makes nor hides a ['*']. *)
Lemma case_byte_star (u : bool) c :
  Ascii.eqb "*" (if u then upper_byte c else lower_byte c) = Ascii.eqb "*" c.
Proof.
  apply Bool.eqb_prop. revert c. destruct u.
  - apply (byte_ind (fun c => Bool.eqb (Ascii.eqb "*" (upper_byte c)) (Ascii.eqb "*" c))). by vm_compute.
  - apply (byte_ind (fun c => Bool.eqb (Ascii.eqb "*" (lower_byte c)) (Ascii.eqb "*" c))). by vm_compute.
Qed.

(** ** strings *)

Fixpoint str_map (f : ascii -> ascii) (s : string) : string :=
  match s with
  | "" => ""
  | String c s' => String (f c) (str_map f s')
  end.

Fixpoint str_forall (f : ascii -> bool) (s : string) : bool :=
  match s with
  | "" => true
  | String c s' => f c && str_forall f s'
  end.

Definition str_exists (f : ascii -> bool) (s : string) : bool :=
  negb (str_forall (fun c => negb (f c)) s).

Fixpoint str_take (n : nat) (s : string) : string :=
  match n, s with
  | S n', String c s' => String c (str_take n' s')
  | _, _ => ""
  end.

Fixpoint str_drop (n : nat) (s : string) : string :=
  match n, s with
  | 0%nat, _ => s
  | S _, "" => ""
  | S n', String _ s' => str_drop n' s'
  end.

Fixpoint str_rev_app (s acc : string) : string :=
  match s with
  | "" => acc
  | String c s' => str_rev_app s' (String c acc)
  end.
Definition str_rev (s : string) : string := str_rev_app s "".

Fixpoint HasPrefix (s p : string) {struct p} : bool :=
  match p, s with
  | "", _ => true
  | String c p', String d s' => Ascii.eqb c d && HasPrefix s' p'
  | String _ _, "" => false
  end.

Fixpoint HasSuffix (s p : string) : bool :=
  String.eqb s p ||
  match s with
  | "" => false
  | String _ s' => HasSuffix s' p
  end.

Fixpoint Contains (s sub : string) : bool :=
  HasPrefix s sub ||
  match s with
  | "" => false
  | String _ s' => Contains s' sub
  end.

Definition ContainsByte (s : string) (c : ascii) : bool := str_exists (Ascii.eqb c) s.

(** [None] is Go's [-1]. *)
Fixpoint IndexByte (s : string) (c : ascii) : option nat :=
  match s with
  | "" => None
  | String d s' => if Ascii.eqb c d then Some 0%nat else S <$> IndexByte s' c
  end.

Fixpoint LastIndexByte (s : string) (c : ascii) : option nat :=
  match s with
  | "" => None
  | String d s' =>
      match LastIndexByte s' c with
      | Some n => Some (S n)
      | None => if Ascii.eqb c d then Some 0%nat else None
      end
  end.

(** [strings.Split] with a one-byte separator: never the empty slice. *)
Fixpoint Split (s : string) (sep : ascii) : list string :=
  match s with
  | "" => [""]
  | String c s' =>
      if Ascii.eqb sep c then "" :: Split s' sep
      else match Split s' sep with
           | [] => [String c ""]
           | p :: ps => String c p :: ps
           end
  end.

Fixpoint Join (l : list string) (sep : string) : string :=
  match l with
  | [] => ""
  | [s] => s
  | s :: l' => s +:+ sep +:+ Join l' sep
  end.

(** [strings.ReplaceAll] for a non-empty [old]: leftmost, non-overlapping. *)
Fixpoint replace_all_from (skip : nat) (s old new : string) : string :=
  match s with
  | "" => ""
  | String c s' =>
      match skip with
      | S k => replace_all_from k s' old new
      | 0%nat =>
          if HasPrefix s old
          then new +:+ replace_all_from (String.length old - 1) s' old new
          else String c (replace_all_from 0 s' old new)
      end
  end.
Definition ReplaceAll (s old new : string) : string := replace_all_from 0 s old new.

Fixpoint TrimLeft (s : string) (cutset : ascii -> bool) : string :=
  match s with
  | "" => ""
  | String c s' => if cutset c then TrimLeft s' cutset else s
  end.

(** White space: the ASCII set, then U+0085, U+00A0 and the other Unicode
    [White_Space] code points by their UTF-8 encodings. *)
Definition is_ascii_space (c : ascii) : bool :=
  in_range 9 13 c || Ascii.eqb c " ".

Definition unicode_spaces : list string :=
  let b n := ascii_of_nat n in
  [String (b 194) (String (b 133) ""); String (b 194) (String (b 160) "");
   String (b 225) (String (b 154) (String (b 128) ""))] ++
  map (fun k => String (b 226) (String (b 128) (String (b k) "")))
      [128; 129; 130; 131; 132; 133; 134; 135; 136; 137; 138; 168; 169; 175] ++
  [String (b 226) (String (b 129) (String (b 159) ""));
   String (b 227) (String (b 128) (String (b 128) ""))].

(** The rest of [s] after one leading white-space rune of the given spellings. *)
Definition strip_space (spellings : list string) (s : string) : option string :=
  match s with
  | "" => None
  | String c s' =>
      if is_ascii_space c then Some s'
      else match List.find (fun w => HasPrefix s w) spellings with
           | Some w => Some (str_drop (String.length w) s)
           | None => None
           end
  end.

Fixpoint trim_spaces (fuel : nat) (spellings : list string) (s : string) : string :=
  match fuel with
  | 0%nat => s
  | S k => match strip_space spellings s with
           | Some s' => trim_spaces k spellings s'
           | None => s
           end
  end.

(** Each round drops at least one byte, so [length s] rounds suffice. *)
Definition TrimSpace (s : string) : string :=
  let s1 := trim_spaces (String.length s) unicode_spaces s in
  str_rev (trim_spaces (String.length s1) (map str_rev unicode_spaces) (str_rev s1)).

(** ** Unicode case mapping *)

Class Unicode := {
  uni_lower : string -> string;
  uni_upper : string -> string
}.

Definition is_ascii (s : string) : bool := str_forall (fun c => (code c <? 128)%N) s.

(** [strings.ToLower] / [bytes.ToLower] take the byte-wise path on ASCII. *)
Definition ToLower `{Unicode} (s : string) : string :=
  if is_ascii s then str_map lower_byte s else uni_lower s.
Definition ToUpper `{Unicode} (s : string) : string :=
  if is_ascii s then str_map upper_byte s else uni_upper s.

(** The instance the examples run with: bytes above 0x7f are left alone. *)
Definition ascii_unicode : Unicode := {|
  uni_lower := str_map lower_byte;
  uni_upper := str_map upper_byte
|}.

(** ** strconv *)

Definition parse_digits (s : string) : option N :=
  match s with
  | "" => None
  | _ => N.of_uint <$> NilEmpty.uint_of_string s
  end.

(** [strconv.Atoi] and [strconv.ParseInt(s, 10, 64)]: optional sign, at least
    one digit, value in range. *)
Definition Atoi (s : string) : option Z :=
  match (match s with
         | String c s' =>
             if Ascii.eqb c "-" then Z.opp ∘ Z.of_N <$> parse_digits s'
             else if Ascii.eqb c "+" then Z.of_N <$> parse_digits s'
             else Z.of_N <$> parse_digits s
         | "" => None
         end) with
  | Some v => if ((- two63 <=? v) && (v <? two63))%Z then Some v else None
  | None => None
  end.

Definition Itoa_N (n : N) : string := NilEmpty.string_of_uint (N.to_uint n).
Definition Itoa (z : Z) : string :=
  if (z <? 0)%Z then String "-" (Itoa_N (Z.abs_N z)) else Itoa_N (Z.abs_N z).

(** ** net/textproto and net/http.Header *)

Definition is_token_byte (c : ascii) : bool :=
  is_upper c || is_lower c || is_digit c ||
  existsb (Ascii.eqb c)
    ["!"; "#"; "$"; "%"; "&"; "'"; "*"; "+"; "-"; "."; "^"; "_"; "`"; "|"; "~"]%char.

Fixpoint canonical_from (upper : bool) (s : string) : string :=
  match s with
  | "" => ""
  | String c s' =>
      let c' := if upper then upper_byte c else lower_byte c in
      String c' (canonical_from (Ascii.eqb c' "-") s')
  end.

(** Keys with a byte outside the header-token alphabet are returned unchanged. *)
Definition CanonicalMIMEHeaderKey (s : string) : string :=
  if str_forall is_token_byte s then canonical_from true s else s.

Abbreviation header := (gmap string (list string)).

Definition Header_Get (h : header) (key : string) : string :=
  match h !! CanonicalMIMEHeaderKey key with
  | Some (v :: _) => v
  | _ => ""
  end.
Definition Header_Set (h : header) (key v : string) : header :=
  <[CanonicalMIMEHeaderKey key := [v]]> h.
Definition Header_Add (h : header) (key v : string) : header :=
  <[CanonicalMIMEHeaderKey key := default [] (h !! CanonicalMIMEHeaderKey key) ++ [v]]> h.

(** ** Map iteration: any order that lists every entry once *)

Class MapRange := {
  go_range : forall {V : Type}, gmap string V -> list (string * V);
  go_range_perm : forall {V : Type} (m : gmap string V), go_range m ≡ₚ map_to_list m
}.

Definition sorted_range : MapRange := {|
  go_range V m := map_to_list m;
  go_range_perm V m := Permutation_refl (map_to_list m)
|}.

(** ** net.SplitHostPort *)

Inductive AddrError := MissingPort | TooManyColons | MissingBracket | UnexpectedBracket.

Definition SplitHostPort (hostport : string) : result AddrError (string * string) :=
  match LastIndexByte hostport ":" with
  | None => Err MissingPort
  | Some i =>
      let finish (host : string) (j k : nat) :=
        if ContainsByte (str_drop j hostport) "[" then Err UnexpectedBracket
        else if ContainsByte (str_drop k hostport) "]" then Err UnexpectedBracket
        else Ok (host, str_drop (i + 1) hostport) in
      if HasPrefix hostport "[" then
        match IndexByte hostport "]" with
        | None => Err MissingBracket
        | Some e =>
            if Nat.eqb (e + 1) (String.length hostport) then Err MissingPort
            else if Nat.eqb (e + 1) i
            then finish (str_take (e - 1) (str_drop 1 hostport)) 1%nat (e + 1)%nat
            else if HasPrefix (str_drop (e + 1) hostport) ":" then Err TooManyColons
            else Err MissingPort
        end
      else
        let host := str_take i hostport in
        if ContainsByte host ":" then Err TooManyColons else finish host 0%nat 0%nat
  end.

(** ** time: an instant is its distance to the Unix epoch in nanoseconds *)

Definition time := Z.
Definition duration := Z.
Definition second : Z := 1000000000.
(** Go's zero [time.Time] is 1 January of year 1. *)
Definition time_zero : time := (-62135596800 * 1000000000)%Z.
Definition IsZero (t : time) : bool := Z.eqb t time_zero.
Definition Before (t u : time) : bool := Z.ltb t u.
Definition After (t u : time) : bool := Z.ltb u t.
Definition UnixNano (t : time) : Z := wrap_i64 t.
Definition Unix0 (ns : Z) : time := ns.
(** [t.Sub u] saturates at the bounds of [time.Duration]. *)
Definition TimeSub (t u : time) : duration := Z.max (- two63) (Z.min (two63 - 1) (t - u)).

(** ** sort.SliceStable: stable insertion sort *)

Section Sort.
Context {A : Type} (less : A -> A -> bool).

Fixpoint insert_stable (x : A) (l : list A) : list A :=
  match l with
  | [] => [x]
  | y :: l' => if less y x then y :: insert_stable x l' else x :: y :: l'
  end.

Definition SliceStable (l : list A) : list A := foldr insert_stable [] l.

End Sort.

(** Byte-wise order on strings, Go's [<]. *)
Fixpoint str_ltb (a b : string) : bool :=
  match a, b with
  | "", String _ _ => true
  | String x a', String y b' =>
      if Ascii.eqb x y then str_ltb a' b' else (code x <? code y)%N
  | _, "" => false
  end.

Definition str_leb (a b : string) : bool := negb (str_ltb b a).
Definition sort_strings (l : list string) : list string := SliceStable str_ltb l.

(** ** Lemmas: strings *)

Lemma str_app_nil_r s : s +:+ "" = s.
Proof. induction s; simpl; congruence. Qed.

Lemma str_app_assoc a b c : (a +:+ b) +:+ c = a +:+ (b +:+ c).
Proof. induction a; simpl; congruence. Qed.

Lemma str_length_app a b :
  String.length (a +:+ b) = (String.length a + String.length b)%nat.
Proof. induction a; simpl; congruence. Qed.

Lemma str_app_inj_r a b c : a +:+ c = b +:+ c -> a = b.
Proof.
  revert b. induction a as [|x a IH]; intros [|y b] H; simpl in *; try done.
  - apply (f_equal String.length) in H. simpl in H. rewrite str_length_app in H. lia.
  - apply (f_equal String.length) in H. simpl in H. rewrite str_length_app in H. lia.
  - inv H. f_equal. eauto.
Qed.

Lemma str_take_drop n s : str_take n s +:+ str_drop n s = s.
Proof. revert s. induction n; intros [|c s]; simpl; by rewrite ?IHn. Qed.

Lemma str_take_app a b : str_take (String.length a) (a +:+ b) = a.
Proof. induction a; simpl; [by destruct b | by rewrite ?IHa]. Qed.

Lemma str_drop_app a b : str_drop (String.length a) (a +:+ b) = b.
Proof. induction a; simpl; [by destruct b | by rewrite ?IHa]. Qed.

Lemma str_take_all s : str_take (String.length s) s = s.
Proof. induction s; simpl; congruence. Qed.

Lemma str_length_take n s : String.length (str_take n s) = Nat.min n (String.length s).
Proof. revert s. induction n; intros [|c s]; simpl; auto. Qed.

Lemma HasPrefix_app p s : HasPrefix (p +:+ s) p = true.
Proof. induction p; simpl; [by destruct s | by rewrite Ascii.eqb_refl]. Qed.

Lemma HasPrefix_spec s p : HasPrefix s p = true <-> exists r, s = p +:+ r.
Proof.
  split.
  - revert s. induction p as [|c p IH]; intros s H; [by exists s|].
    destruct s as [|d s]; simpl in H; [done|]. bool_hyps. subst.
    destruct (IH _ H0) as [r ->]. by exists r.
  - intros [r ->]. apply HasPrefix_app.
Qed.

Lemma HasSuffix_unfold c s p :
  HasSuffix (String c s) p = String.eqb (String c s) p || HasSuffix s p.
Proof. done. Qed.

Lemma HasSuffix_spec s p : HasSuffix s p = true <-> exists r, s = r +:+ p.
Proof.
  induction s as [|c s IH].
  - destruct p as [|d p]; simpl; split; [by exists "" | done | done | by intros [[|] H]].
  - rewrite HasSuffix_unfold, orb_true_iff, String.eqb_eq, IH. split.
    + intros [<- | [r ->]]; [by exists "" | by exists (String c r)].
    + intros [[|d r] H]; simpl in H; [by left|]. inv H. right. by exists r.
Qed.

Lemma Contains_unfold c s p :
  Contains (String c s) p = HasPrefix (String c s) p || Contains s p.
Proof. done. Qed.

Lemma Contains_spec s p : Contains s p = true <-> exists a b, s = a +:+ p +:+ b.
Proof.
  induction s as [|c s IH].
  - destruct p as [|d p]; simpl; split; [by exists "", "" | done | done |].
    by intros [[|] [b H]].
  - rewrite Contains_unfold, orb_true_iff, HasPrefix_spec, IH. split.
    + intros [[r ->] | (a & b & ->)]; [by exists "", r | by exists (String c a), b].
    + intros [[|d a] [b H]]; simpl in H; [left; by exists b|].
      inv H. right. by exists a, b.
Qed.

Lemma str_forall_app f a b : str_forall f (a +:+ b) = str_forall f a && str_forall f b.
Proof. induction a; simpl; [done|]. by rewrite IHa, andb_assoc. Qed.

Lemma ContainsByte_cons c d s :
  ContainsByte (String d s) c = Ascii.eqb c d || ContainsByte s c.
Proof.
  unfold ContainsByte, str_exists. simpl. by rewrite negb_andb, negb_involutive.
Qed.

Lemma ContainsByte_app a b c :
  ContainsByte (a +:+ b) c = ContainsByte a c || ContainsByte b c.
Proof. unfold ContainsByte, str_exists. by rewrite str_forall_app, negb_andb. Qed.

Lemma Contains_byte s c : Contains s (String c "") = ContainsByte s c.
Proof.
  induction s as [|d s IH]; [done|].
  rewrite Contains_unfold, ContainsByte_cons, IH. simpl.
  by destruct s; rewrite andb_true_r.
Qed.

(** [s[:i]] and [s[i+1:]] around the first separator. *)
Lemma IndexByte_Some s c i :
  IndexByte s c = Some i ->
  s = str_take i s +:+ String c (str_drop (i + 1) s) /\ ContainsByte (str_take i s) c = false.
Proof.
  revert i. induction s as [|d s IH]; intros i H; simpl in H; [done|].
  destruct (Ascii.eqb c d) eqn:E.
  - inv H. bool_hyps. subst. split; [by destruct s | done].
  - destruct (IndexByte s c) as [j|]; simpl in H; [|done]. inv H.
    destruct (IH j) as [H1 H2]; [done|]. simpl. split.
    + by f_equal.
    + rewrite ContainsByte_cons. rewrite E. exact H2.
Qed.

Lemma IndexByte_None s c : IndexByte s c = None <-> ContainsByte s c = false.
Proof.
  induction s as [|d s IH]; simpl; [done|]. rewrite ContainsByte_cons.
  destruct (Ascii.eqb c d); simpl; [done|]. rewrite <- IH. by destruct (IndexByte s c).
Qed.

Lemma IndexByte_app a c b :
  ContainsByte a c = false -> IndexByte (a +:+ String c b) c = Some (String.length a).
Proof.
  induction a as [|d a IH]; simpl; [by rewrite Ascii.eqb_refl|].
  rewrite ContainsByte_cons. intros H. bool_hyps. rewrite IH by done.
  destruct (Ascii.eqb c d) eqn:E; [|done]. bool_hyps. congruence.
Qed.

Lemma str_app_cons s c t : s +:+ String c t = (s +:+ String c "") +:+ t.
Proof. by rewrite str_app_assoc. Qed.

Lemma Split_nonempty s c : Split s c <> [].
Proof. destruct s as [|d s]; simpl; [done|]. destruct (Ascii.eqb c d); [done|]. by destruct (Split s c). Qed.

Lemma Join_Split s c : Join (Split s c) (String c "") = s.
Proof.
  induction s as [|d s IH]; simpl; [done|].
  destruct (Ascii.eqb c d) eqn:E.
  - bool_hyps. subst. pose proof (Split_nonempty s d).
    destruct (Split s d) as [|p ps]; [done|]. simpl in *. by rewrite IH.
  - destruct (Split s c) as [|p ps]; simpl in *; [congruence|].
    destruct ps; simpl in *; congruence.
Qed.

Lemma TrimLeft_spec s f :
  exists sp, s = sp +:+ TrimLeft s f /\ str_forall f sp = true /\
    match TrimLeft s f with "" => True | String c _ => f c = false end.
Proof.
  induction s as [|c s (sp & H1 & H2 & H3)]; [by exists ""|]. simpl. destruct (f c) eqn:E.
  - exists (String c sp). simpl. rewrite E, H2. repeat split; [congruence | done].
  - exists "". by rewrite E.
Qed.

Lemma TrimLeft_app sp s f :
  str_forall f sp = true ->
  match s with "" => True | String c _ => f c = false end -> TrimLeft (sp +:+ s) f = s.
Proof.
  induction sp as [|c sp IH]; simpl; intros H1 H2.
  - destruct s; simpl; [done|]. by rewrite H2.
  - bool_hyps. rewrite H. auto.
Qed.

Lemma Split_cons a c b : ContainsByte a c = false -> Split (a +:+ String c b) c = a :: Split b c.
Proof.
  induction a as [|x a IH]; intros Hn.
  - simpl. by rewrite Ascii.eqb_refl.
  - rewrite ContainsByte_cons in Hn. apply orb_false_iff in Hn as [Hx Hn].
    change (String x a +:+ String c b) with (String x (a +:+ String c b)).
    cbn [Split]. rewrite (IH Hn). apply Ascii.eqb_neq in Hx.
    by destruct (Ascii.eqb_spec c x).
Qed.

Lemma Split_no_sep s c p : p ∈ Split s c -> ContainsByte p c = false.
Proof.
  revert p. induction s as [|x s IH]; intros p; cbn [Split].
  { intros Hp%list_elem_of_singleton. by subst. }
  destruct (Ascii.eqb_spec c x) as [->|Hne].
  - intros [->|Hp]%elem_of_cons; [done|auto].
  - destruct (Split s c) as [|w ws] eqn:E; [by destruct (Split_nonempty s c)|].
    intros [->|Hp]%elem_of_cons.
    + rewrite ContainsByte_cons, IH by left. rewrite orb_false_r. by apply Ascii.eqb_neq.
    + apply IH. by right.
Qed.

Lemma Split_single a c : ContainsByte a c = false -> Split a c = [a].
Proof.
  induction a as [|x a IH]; intros Hn; [done|]. rewrite ContainsByte_cons in Hn.
  apply orb_false_iff in Hn as [Hx Hn]. cbn [Split]. by rewrite Hx, (IH Hn).
Qed.

Lemma Split_Join l c :
  l <> [] -> (forall p, p ∈ l -> ContainsByte p c = false) -> Split (Join l (String c "")) c = l.
Proof.
  induction l as [|p l IH]; intros Hne Hl; [done|]. destruct l as [|q l].
  - apply Split_single, Hl. left.
  - change (Join (p :: q :: l) (String c "")) with (p +:+ String c (Join (q :: l) (String c ""))).
    rewrite Split_cons by (apply Hl; left). rewrite IH; [done..|]. intros x Hx. apply Hl. by right.
Qed.

Lemma str_rev_app_spec s acc : str_rev_app s acc = str_rev s +:+ acc.
Proof.
  unfold str_rev. revert acc. induction s as [|c s IH]; intros acc; simpl; [done|].
  rewrite IH. rewrite (IH (String c "")). by rewrite str_app_assoc.
Qed.

Lemma str_rev_cons c s : str_rev (String c s) = str_rev s +:+ String c "".
Proof. unfold str_rev at 1. simpl. by rewrite str_rev_app_spec. Qed.

Lemma str_rev_snoc s c : str_rev (s +:+ String c "") = String c (str_rev s).
Proof. induction s as [|d s IH]; [done|]. simpl. by rewrite !str_rev_cons, IH. Qed.

Lemma str_rev_involutive s : str_rev (str_rev s) = s.
Proof. induction s as [|c s IH]; [done|]. by rewrite str_rev_cons, str_rev_snoc, IH. Qed.

(** ** Lemmas: strconv *)

Lemma parse_digits_Itoa_N n : parse_digits (Itoa_N n) = Some n.
Proof.
  unfold parse_digits, Itoa_N. rewrite NilEmpty.usu. simpl. rewrite DecimalN.Unsigned.of_to.
  destruct (NilEmpty.string_of_uint (N.to_uint n)) eqn:E; [|done].
  exfalso. destruct (N.to_uint n) eqn:E'; try done.
  assert (N.of_uint (N.to_uint n) = 0%N) as H by by rewrite E'.
  rewrite DecimalN.Unsigned.of_to in H. by subst.
Qed.

Lemma Itoa_N_digits n : str_forall is_digit (Itoa_N n) = true.
Proof. unfold Itoa_N. by induction (N.to_uint n). Qed.

Lemma Itoa_N_head n : exists c s, Itoa_N n = String c s /\ is_digit c = true.
Proof.
  pose proof (parse_digits_Itoa_N n) as H. pose proof (Itoa_N_digits n) as D.
  destruct (Itoa_N n) as [|c s]; [done|]. simpl in D. bool_hyps. eauto.
Qed.

Lemma Atoi_Itoa z : in_i64 z -> Atoi (Itoa z) = Some z.
Proof.
  intros Hz. unfold Itoa. destruct (z <? 0)%Z eqn:E.
  - bool_hyps. unfold Atoi. rewrite (Ascii.eqb_refl "-"), parse_digits_Itoa_N. simpl.
    rewrite N2Z.inj_abs_N. unfold in_i64 in Hz.
    replace (- Z.abs z)%Z with z by lia.
    by rewrite (proj2 (Z.leb_le _ _)), (proj2 (Z.ltb_lt _ _)) by lia.
  - bool_hyps. destruct (Itoa_N_head (Z.abs_N z)) as (c & s & Hs & Hc).
    unfold Atoi. pose proof (parse_digits_Itoa_N (Z.abs_N z)) as Hp. rewrite Hs in Hp |- *.
    destruct (Ascii.eqb c "-") eqn:E1; [bool_hyps; by subst|].
    destruct (Ascii.eqb c "+") eqn:E2; [bool_hyps; by subst|].
    rewrite Hp. simpl. rewrite N2Z.inj_abs_N. unfold in_i64 in Hz.
    replace (Z.abs z) with z by lia.
    by rewrite (proj2 (Z.leb_le _ _)), (proj2 (Z.ltb_lt _ _)) by lia.
Qed.

Lemma Atoi_range s v : Atoi s = Some v -> in_i64 v.
Proof.
  unfold Atoi, in_i64. intros H. repeat case_step; simplify_eq; bool_hyps; lia.
Qed.

(** ** Lemmas: string order *)

Lemma code_inj c d : code c = code d -> c = d.
Proof.
  unfold code. intros H. rewrite <- (ascii_N_embedding c), <- (ascii_N_embedding d). by rewrite H.
Qed.

Lemma str_ltb_irrefl s : str_ltb s s = false.
Proof. induction s; simpl; [done|]. by rewrite Ascii.eqb_refl. Qed.

Lemma str_ltb_trans a b c : str_ltb a b = true -> str_ltb b c = true -> str_ltb a c = true.
Proof.
  revert b c. induction a as [|x a IH]; intros [|y b] [|z c]; simpl; try done.
  destruct (Ascii.eqb_spec x y), (Ascii.eqb_spec y z), (Ascii.eqb_spec x z); subst; try done;
    rewrite ?N.ltb_lt; intros; try (by eauto); try lia.
Qed.

Lemma str_ltb_total a b : str_ltb a b = false -> str_ltb b a = false -> a = b.
Proof.
  revert b. induction a as [|x a IH]; intros [|y b]; simpl; try done.
  destruct (Ascii.eqb_spec x y), (Ascii.eqb_spec y x); subst; try done.
  - intros. f_equal. eauto.
  - rewrite !N.ltb_ge. intros. exfalso. assert (code x = code y) as ?%code_inj by lia. done.
Qed.

(** ** Lemmas: sorting *)

Class StrictWeak {A} (less : A -> A -> bool) := {
  sw_asym : forall x y, less x y = true -> less y x = false;
  sw_trans : forall x y z, less y x = false -> less z y = false -> less z x = false
}.

#[export] Instance str_ltb_strict_weak : StrictWeak str_ltb.
Proof.
  assert (forall x y, str_ltb x y = true -> str_ltb y x = false) as Hasym.
  { intros x y H. destruct (str_ltb y x) eqn:E; [|done].
    rewrite <- (str_ltb_irrefl x). symmetry. by eapply str_ltb_trans. }
  split; [done|].
  intros x y z H1 H2. destruct (str_ltb z x) eqn:E; [|done].
  destruct (str_ltb x y) eqn:E2.
  - by rewrite (str_ltb_trans z x y) in H2.
  - assert (x = y) as -> by by apply str_ltb_total. congruence.
Qed.

Lemma strict_weak_on {A B} (f : A -> B) (less : B -> B -> bool) :
  StrictWeak less -> StrictWeak (fun x y => less (f x) (f y)).
Proof. intros [Ha Ht]. split; intros; eauto. Qed.

Section SortLemmas.
Context {A : Type} (less : A -> A -> bool).
Implicit Types (x y : A) (l : list A).

Definition sorted_by l : Prop := StronglySorted (fun x y => less y x = false) l.

Lemma insert_stable_perm x l : insert_stable less x l ≡ₚ x :: l.
Proof.
  induction l as [|y l IH]; simpl; [done|]. destruct (less y x); [|done].
  rewrite IH. apply Permutation_swap.
Qed.

Lemma SliceStable_perm l : SliceStable less l ≡ₚ l.
Proof. induction l as [|x l IH]; simpl; [done|]. by rewrite insert_stable_perm, IH. Qed.

Lemma SliceStable_length l : length (SliceStable less l) = length l.
Proof. by rewrite SliceStable_perm. Qed.

Context `{!StrictWeak less}.

Lemma insert_stable_sorted x l : sorted_by l -> sorted_by (insert_stable less x l).
Proof.
  unfold sorted_by. induction 1 as [|y l Hl IH Hy]; simpl; [by repeat constructor|].
  destruct (less y x) eqn:E.
  - constructor; [done|]. rewrite insert_stable_perm. constructor; [|done].
    by apply sw_asym.
  - constructor; [by constructor|]. constructor; [done|].
    eapply Forall_impl; [exact Hy|]. simpl. intros z Hz. by eapply sw_trans.
Qed.

Lemma SliceStable_sorted l : sorted_by (SliceStable less l).
Proof. induction l; simpl; [constructor|]. by apply insert_stable_sorted. Qed.

Lemma sorted_by_cons x l :
  sorted_by (x :: l) <-> sorted_by l /\ (forall y, y ∈ l -> less y x = false).
Proof.
  unfold sorted_by. rewrite <- Forall_forall. split; [inversion 1 | intros []; constructor]; auto.
Qed.

Lemma insert_stable_head x l :
  (forall y, y ∈ l -> less y x = false) -> insert_stable less x l = x :: l.
Proof. destruct l as [|y l]; [done|]. simpl. intros H. by rewrite H by constructor. Qed.

(** Sorting a sorted list changes nothing. *)
Lemma SliceStable_id l : sorted_by l -> SliceStable less l = l.
Proof.
  induction l as [|x l IH]; [done|]. rewrite sorted_by_cons. intros [H1 H2]. simpl.
  rewrite IH by done. by apply insert_stable_head.
Qed.

Lemma sorted_by_filter (P : A -> Prop) `{!forall x, Decision (P x)} l :
  sorted_by l -> sorted_by (filter P l).
Proof.
  induction l as [|x l IH]; [by intros; constructor|].
  rewrite sorted_by_cons. intros [H1 H2]. rewrite filter_cons. case_decide; [|auto].
  apply sorted_by_cons. split; [auto|]. intros y [_ Hy]%list_elem_of_filter. auto.
Qed.

End SortLemmas.

(** A sorted list of strings is determined by its elements. *)
Lemma sorted_strings_unique l1 l2 :
  sorted_by str_ltb l1 -> sorted_by str_ltb l2 -> l1 ≡ₚ l2 -> l1 = l2.
Proof.
  apply StronglySorted_unique. intros x y H1 H2. by apply str_ltb_total.
Qed.

(** ** Lemmas: map iteration *)

Lemma elem_of_go_range `{MapRange} {V} (m : gmap string V) k v :
  (k, v) ∈ go_range m <-> m !! k = Some v.
Proof. rewrite go_range_perm. apply elem_of_map_to_list. Qed.

Lemma existsb_go_range `{MapRange} {V} (f : string * V -> bool) (m : gmap string V) :
  existsb f (go_range m) = true <-> exists k v, m !! k = Some v /\ f (k, v) = true.
Proof.
  rewrite existsb_true_iff. split.
  - intros ([k v] & Hin & Hf). exists k, v. by rewrite <- elem_of_go_range.
  - intros (k & v & Hin & Hf). exists (k, v). by rewrite elem_of_go_range.
Qed.

#[export] Hint Resolve SliceStable_perm SliceStable_sorted HasPrefix_app : go.
