(* ===== verification/Record.v ===== *)
(** * capture/record.go: the records that flow through queue, redactor and sinks

    Header and query maps are [option header]: [None] is Go's nil map, which
    several callers test for. Byte slices are [string]s; nil and empty bodies
    are identified, as every modelled operation treats them alike. *)
From S2P Require Import Prelude GoLib.

Open Scope string_scope.

Inductive RecordKind := KindRequest | KindResponseEvent | KindOutboundEvent.

Definition KindName (k : RecordKind) : string :=
  match k with
  | KindRequest => "request"
  | KindResponseEvent => "response_event"
  | KindOutboundEvent => "outbound_event"
  end.

#[export] Instance RecordKind_eq_dec : EqDecision RecordKind.
Proof. solve_decision. Defined.

Record Cookie := mkCookie { ck_Name : string; ck_Value : string }.

#[export] Instance Cookie_eq_dec : EqDecision Cookie.
Proof. solve_decision. Defined.

Record CapturedRequest := mkCapturedRequest {
  cr_ID : string;
  cr_Timestamp : time;
  cr_Method : string;
  cr_Path : string;
  cr_Query : option header;
  cr_Headers : option header;
  cr_Cookies : list Cookie;
  cr_Body : string;
  cr_BodyTruncated : bool;
  cr_BodyOriginalSize : Z;
  cr_ContentType : string;
  cr_SourceIP : string;
  cr_Service : string;
  cr_ServiceSource : string;
  cr_CorrelationID : string;
  cr_CorrelationSource : string
}.

Record ResponseEvent := mkResponseEvent {
  re_ID : string;
  re_Timestamp : time;
  re_CorrelationID : string;
  re_CorrelationSource : string;
  re_Service : string;
  re_ServiceSource : string;
  re_Status : Z;
  re_Headers : option header;
  re_Body : string;
  re_BodyTruncated : bool;
  re_BodyOriginalSize : Z;
  re_ContentType : string;
  re_DurationMS : Z
}.

Record OutboundRequestHalf := mkOutboundRequestHalf {
  oq_Method : string;
  oq_Path : string;
  oq_Headers : option header;
  oq_Body : string;
  oq_BodyTruncated : bool;
  oq_BodyOriginalSize : Z;
  oq_ContentType : string
}.

Record OutboundResponseHalf := mkOutboundResponseHalf {
  os_Status : Z;
  os_Headers : option header;
  os_Body : string;
  os_BodyTruncated : bool;
  os_BodyOriginalSize : Z;
  os_ContentType : string
}.

Record OutboundEvent := mkOutboundEvent {
  oe_ID : string;
  oe_Timestamp : time;
  oe_CorrelationID : string;
  oe_CorrelationSource : string;
  oe_Service : string;
  oe_ServiceSource : string;
  oe_DurationMS : Z;
  oe_Request : OutboundRequestHalf;
  oe_Response : option OutboundResponseHalf
}.

(** The [Record] interface is a closed sum of its three implementations. *)
Inductive CRecord :=
| RRequest (r : CapturedRequest)
| RResponse (e : ResponseEvent)
| ROutbound (e : OutboundEvent).

Definition Kind (r : CRecord) : RecordKind :=
  match r with
  | RRequest _ => KindRequest
  | RResponse _ => KindResponseEvent
  | ROutbound _ => KindOutboundEvent
  end.

Definition RecordTimestamp (r : CRecord) : time :=
  match r with
  | RRequest v => cr_Timestamp v
  | RResponse v => re_Timestamp v
  | ROutbound v => oe_Timestamp v
  end.

Definition RecordService (r : CRecord) : string :=
  match r with
  | RRequest v => cr_Service v
  | RResponse v => re_Service v
  | ROutbound v => oe_Service v
  end.

Definition RecordCorrelationID (r : CRecord) : string :=
  match r with
  | RRequest v => cr_CorrelationID v
  | RResponse v => re_CorrelationID v
  | ROutbound v => oe_CorrelationID v
  end.

Definition RecordID (r : CRecord) : string :=
  match r with
  | RRequest v => cr_ID v
  | RResponse v => re_ID v
  | ROutbound v => oe_ID v
  end.

(** A nil map reads as the empty map. *)
Definition headers_of (h : option header) : header := default ∅ h.
