(* ===== verification/Json.v ===== *)
(** * encoding/json as the program uses it

    Strings are quoted with HTML escaping, as [Marshal] and a default [Encoder]
    do, and read back with Go's treatment of escapes, surrogates and invalid
    UTF-8; values are printed compactly with object keys in the order given.
    Typed encoders and decoders exist for what the sinks store: header maps
    ([map[string][]string]) and cookie slices. Nil and empty slices are
    identified and print as an empty array. *)
From S2P Require Import Prelude GoLib Record.

Open Scope string_scope.

(** ** unicode/utf8 *)

Definition cont (c : ascii) : bool := in_range 128 191 c.

(** The accept ranges of two, three and four byte encodings. *)
Definition seq2 (a b : ascii) : bool := in_range 194 223 a && cont b.
Definition seq3 (a b c : ascii) : bool :=
  (if (code a =? 224)%N then in_range 160 191 b
   else if (code a =? 237)%N then in_range 128 159 b
   else in_range 225 239 a && cont b) && cont c.
Definition seq4 (a b c d : ascii) : bool :=
  (if (code a =? 240)%N then in_range 144 191 b
   else if (code a =? 244)%N then in_range 128 143 b
   else in_range 241 243 a && cont b) && cont c && cont d.

(** One step of a range loop over a string: an encoded rune, or a byte that
    starts none. *)
Inductive chunk := CRune (bytes : string) | CBad (b : ascii).

Fixpoint runes (s : string) : list chunk :=
  match s with
  | "" => []
  | String a r =>
      if (code a <? 128)%N then CRune (String a "") :: runes r else
      match r with
      | "" => CBad a :: runes r
      | String b r2 =>
          if seq2 a b then CRune (String a (String b "")) :: runes r2 else
          match r2 with
          | "" => CBad a :: runes r
          | String c r3 =>
              if seq3 a b c then CRune (String a (String b (String c ""))) :: runes r3 else
              match r3 with
              | "" => CBad a :: runes r
              | String d r4 =>
                  if seq4 a b c d then CRune (String a (String b (String c (String d "")))) :: runes r4
                  else CBad a :: runes r
              end
          end
      end
  end.

Definition str_concat (l : list string) : string := foldr String.append "" l.

Definition is_rune (c : chunk) : bool := match c with CRune _ => true | CBad _ => false end.
Definition ValidString (s : string) : bool := forallb is_rune (runes s).

(** The replacement character U+FFFD. *)
Definition RuneError : string := String "239" (String "191" (String "189" "")).

(** Every byte that starts no rune becomes U+FFFD. *)
Definition ToValidUTF8 (s : string) : string :=
  str_concat (map (fun c => match c with CRune bs => bs | CBad _ => RuneError end) (runes s)).

Definition EncodeRune (u : N) : string :=
  (if u <? 128 then String (ascii_of_N u) ""
   else if u <? 2048 then String (ascii_of_N (192 + u / 64)) (String (ascii_of_N (128 + u mod 64)) "")
   else if u <? 65536 then
     String (ascii_of_N (224 + u / 4096)) (String (ascii_of_N (128 + u / 64 mod 64))
       (String (ascii_of_N (128 + u mod 64)) ""))
   else
     String (ascii_of_N (240 + u / 262144)) (String (ascii_of_N (128 + u / 4096 mod 64))
       (String (ascii_of_N (128 + u / 64 mod 64)) (String (ascii_of_N (128 + u mod 64)) ""))))%N.

(** ** Quoting *)

Definition hex_digit (n : N) : ascii := default "0"%char (String.get (N.to_nat n) "0123456789abcdef").

Definition html_special (c : ascii) : bool :=
  (Ascii.eqb c "<" || Ascii.eqb c ">" || Ascii.eqb c "&")%bool.

Definition escape_ascii (c : ascii) : string :=
  if (Ascii.eqb c dquote || Ascii.eqb c backslash)%bool then String backslash (String c "")
  else if (code c =? 8)%N then String backslash "b"
  else if (code c =? 12)%N then String backslash "f"
  else if (code c =? 10)%N then String backslash "n"
  else if (code c =? 13)%N then String backslash "r"
  else if (code c =? 9)%N then String backslash "t"
  else if ((code c <? 32)%N || html_special c)%bool then
    String backslash ("u00" +:+ String (hex_digit (code c / 16)) (String (hex_digit (code c mod 16)) ""))
  else String c "".

(** U+2028 and U+2029. *)
Definition line_sep : string := String "226" (String "128" (String "168" "")).
Definition para_sep : string := String "226" (String "128" (String "169" "")).

Definition escape_chunk (c : chunk) : string :=
  match c with
  | CRune (String a "") => escape_ascii a
  | CRune bs =>
      if String.eqb bs line_sep then String backslash "u2028"
      else if String.eqb bs para_sep then String backslash "u2029" else bs
  | CBad _ => String backslash "ufffd"
  end.

Definition quote (s : string) : string :=
  String dquote (str_concat (map escape_chunk (runes s)) +:+ String dquote "").

(** ** Unquoting *)

Definition hex_val (c : ascii) : option N :=
  if is_digit c then Some (code c - 48)%N
  else if in_range 97 102 c then Some (code c - 87)%N
  else if in_range 65 70 c then Some (code c - 55)%N
  else None.

Definition hex4 (a b c d : ascii) : option N :=
  a ← hex_val a; b ← hex_val b; c ← hex_val c; d ← hex_val d;
  Some (((a * 16 + b) * 16 + c) * 16 + d)%N.

Definition is_surrogate (u : N) : bool := ((55296 <=? u) && (u <? 57344))%N.

(** [utf16.DecodeRune]: a high surrogate followed by a low one. *)
Definition surrogate_pair (u v : N) : option N :=
  if ((55296 <=? u) && (u <? 56320) && (56320 <=? v) && (v <? 57344))%N
  then Some ((u - 55296) * 1024 + (v - 56320) + 65536)%N else None.

Definition simple_escape (c : ascii) : option ascii :=
  if (Ascii.eqb c dquote || Ascii.eqb c backslash || Ascii.eqb c "/")%bool then Some c
  else if Ascii.eqb c "b" then Some "008"%char
  else if Ascii.eqb c "f" then Some "012"%char
  else if Ascii.eqb c "n" then Some "010"%char
  else if Ascii.eqb c "r" then Some "013"%char
  else if Ascii.eqb c "t" then Some "009"%char
  else None.

Definition prepend (b : string) (r : option (string * string)) : option (string * string) :=
  match r with Some (s, rest) => Some (b +:+ s, rest) | None => None end.

(** The text after an opening quote: the bytes it stands for, invalid UTF-8
    still in place, and what follows the closing quote. *)
Fixpoint unquote_raw (s : string) : option (string * string) :=
  match s with
  | "" => None
  | String a r =>
      if Ascii.eqb a dquote then Some ("", r)
      else if Ascii.eqb a backslash then
        match r with
        | "" => None
        | String e r1 =>
            if Ascii.eqb e "u" then
              match r1 with
              | String h1 (String h2 (String h3 (String h4 r2))) =>
                  match hex4 h1 h2 h3 h4 with
                  | None => None
                  | Some u =>
                      if is_surrogate u then
                        match r2 with
                        | String b1 (String b2 (String k1 (String k2 (String k3 (String k4 r3))))) =>
                            match (if (Ascii.eqb b1 backslash && Ascii.eqb b2 "u")%bool
                                   then v ← hex4 k1 k2 k3 k4; surrogate_pair u v else None) with
                            | Some w => prepend (EncodeRune w) (unquote_raw r3)
                            | None => prepend RuneError (unquote_raw r2)
                            end
                        | _ => prepend RuneError (unquote_raw r2)
                        end
                      else prepend (EncodeRune u) (unquote_raw r2)
                  end
              | _ => None
              end
            else match simple_escape e with
                 | Some c => prepend (String c "") (unquote_raw r1)
                 | None => None
                 end
        end
      else if (code a <? 32)%N then None
      else prepend (String a "") (unquote_raw r)
  end.

(** An escape never completes a rune begun by raw bytes, so replacing invalid
    bytes afterwards is the same as during the scan. *)
Definition unquote (s : string) : option (string * string) :=
  match unquote_raw s with Some (b, rest) => Some (ToValidUTF8 b, rest) | None => None end.

(** ** Values *)

(** A number keeps its literal. *)
Inductive json :=
| JNull
| JBool (b : bool)
| JNum (lit : string)
| JStr (s : string)
| JArr (l : list json)
| JObj (l : list (string * json)).

Definition join_with (sep : string) (l : list string) : string :=
  match l with
  | [] => ""
  | x :: r => x +:+ str_concat (map (fun y => sep +:+ y) r)
  end.

Fixpoint print_json (v : json) : string :=
  match v with
  | JNull => "null"
  | JBool b => if b then "true" else "false"
  | JNum lit => lit
  | JStr s => quote s
  | JArr l => "[" +:+ join_with "," (map print_json l) +:+ "]"
  | JObj l => "{" +:+ join_with "," (map (fun kv => quote kv.1 +:+ ":" +:+ print_json kv.2) l) +:+ "}"
  end.

Definition is_ws (c : ascii) : bool :=
  ((code c =? 32) || (code c =? 9) || (code c =? 10) || (code c =? 13))%N.

Fixpoint skip_ws (s : string) : string :=
  match s with
  | String c r => if is_ws c then skip_ws r else s
  | "" => ""
  end.

Fixpoint span (f : ascii -> bool) (s : string) : string * string :=
  match s with
  | String c r => if f c then let '(a, b) := span f r in (String c a, b) else ("", s)
  | "" => ("", "")
  end.

(** [-? (0 | [1-9][0-9]* ) (. [0-9]+)? ([eE] [+-]? [0-9]+)?] *)
Definition scan_digits (s : string) : option (string * string) :=
  match span is_digit s with ("", _) => None | (d, r) => Some (d, r) end.

Definition scan_int (s : string) : option (string * string) :=
  match s with
  | String "0" r => Some ("0", r)
  | _ => scan_digits s
  end.

Definition scan_frac (s : string) : option (string * string) :=
  match s with
  | String "." r => '(d, r') ← scan_digits r; Some (String "." d, r')
  | _ => Some ("", s)
  end.

Definition scan_exp (s : string) : option (string * string) :=
  match s with
  | String e r =>
      if (Ascii.eqb e "e" || Ascii.eqb e "E")%bool then
        match r with
        | String sg r' =>
            if (Ascii.eqb sg "+" || Ascii.eqb sg "-")%bool
            then '(d, t) ← scan_digits r'; Some (String e (String sg d), t)
            else '(d, t) ← scan_digits r; Some (String e d, t)
        | "" => None
        end
      else Some ("", s)
  | "" => Some ("", s)
  end.

Definition scan_number (s : string) : option (string * string) :=
  let '(sign, s) := match s with String "-" r => ("-", r) | _ => ("", s) end in
  '(i, s) ← scan_int s; '(f, s) ← scan_frac s; '(e, s) ← scan_exp s;
  Some (sign +:+ i +:+ f +:+ e, s).

Definition strip_prefix (p s : string) : option string :=
  if HasPrefix s p then Some (str_drop (String.length p) s) else None.

Definition parse_scalar (s : string) : option (json * string) :=
  match strip_prefix "null" s with
  | Some r => Some (JNull, r)
  | None =>
      match strip_prefix "true" s with
      | Some r => Some (JBool true, r)
      | None =>
          match strip_prefix "false" s with
          | Some r => Some (JBool false, r)
          | None => '(lit, r) ← scan_number s; Some (JNum lit, r)
          end
      end
  end.

Fixpoint parse_value (n : nat) (s : string) : option (json * string) :=
  match n with
  | 0 => None
  | S n =>
      match skip_ws s with
      | "" => None
      | String c r =>
          if Ascii.eqb c dquote then '(b, t) ← unquote r; Some (JStr b, t)
          else if Ascii.eqb c "[" then
            match skip_ws r with
            | String "]" t => Some (JArr [], t)
            | _ => '(l, t) ← parse_elems n r; Some (JArr l, t)
            end
          else if Ascii.eqb c "{" then
            match skip_ws r with
            | String "}" t => Some (JObj [], t)
            | _ => '(l, t) ← parse_members n r; Some (JObj l, t)
            end
          else parse_scalar (String c r)
      end
  end
with parse_elems (n : nat) (s : string) : option (list json * string) :=
  match n with
  | 0 => None
  | S n =>
      '(v, r) ← parse_value n s;
      match skip_ws r with
      | String "," t => '(l, u) ← parse_elems n t; Some (v :: l, u)
      | String "]" t => Some ([v], t)
      | _ => None
      end
  end
with parse_members (n : nat) (s : string) : option (list (string * json) * string) :=
  match n with
  | 0 => None
  | S n =>
      match skip_ws s with
      | String q r =>
          if Ascii.eqb q dquote then
            '(k, r) ← unquote r;
            match skip_ws r with
            | String ":" r =>
                '(v, r) ← parse_value n r;
                match skip_ws r with
                | String "," t => '(l, u) ← parse_members n t; Some ((k, v) :: l, u)
                | String "}" t => Some ([(k, v)], t)
                | _ => None
                end
            | _ => None
            end
          else None
      | "" => None
      end
  end.

(** The whole text is one value; each level of the recursion consumes a byte
    at least every second call. *)
Definition parse_json (s : string) : option json :=
  '(v, r) ← parse_value (2 * String.length s + 2) s;
  if String.eqb (skip_ws r) "" then Some v else None.

(** ** The types the sinks store *)

(** Go prints map entries in key order. *)
Definition sorted_entries {V} (m : gmap string V) : list (string * V) :=
  SliceStable (fun a b => str_ltb a.1 b.1) (map_to_list m).

Definition json_strings (vs : list string) : json := JArr (map JStr vs).

Definition json_header (h : option header) : json :=
  match h with
  | None => JNull
  | Some m => JObj (map (fun kv => (kv.1, json_strings kv.2)) (sorted_entries m))
  end.

Definition json_cookie (c : Cookie) : json :=
  JObj [("name", JStr (ck_Name c)); ("value", JStr (ck_Value c))].

Definition json_cookies (cs : list Cookie) : json := JArr (map json_cookie cs).

Definition MarshalHeader (h : option header) : string := print_json (json_header h).
Definition MarshalCookies (cs : list Cookie) : string := print_json (json_cookies cs).

(** Decoding into a Go value: null leaves the zero value, another JSON type is
    an [UnmarshalTypeError]. *)
Definition decode_string (v : json) : option string :=
  match v with JStr s => Some s | JNull => Some "" | _ => None end.

Definition decode_strings (v : json) : option (list string) :=
  match v with JArr l => mapM decode_string l | JNull => Some [] | _ => None end.

Definition decode_entry (kv : string * json) : option (string * list string) :=
  vs ← decode_strings kv.2; Some (kv.1, vs).

(** A repeated key keeps its last value. *)
Definition decode_header (v : json) : option (option header) :=
  match v with
  | JNull => Some None
  | JObj l => es ← mapM decode_entry l; Some (Some (list_to_map (rev es)))
  | _ => None
  end.

(** Struct fields match their tag case-insensitively; other members are skipped. *)
Definition decode_cookie_field (acc : option Cookie) (kv : string * json) : option Cookie :=
  c ← acc;
  let key := str_map lower_byte kv.1 in
  if String.eqb key "name" then
    match kv.2 with JStr s => Some (mkCookie s (ck_Value c)) | JNull => Some c | _ => None end
  else if String.eqb key "value" then
    match kv.2 with JStr s => Some (mkCookie (ck_Name c) s) | JNull => Some c | _ => None end
  else Some c.

Definition decode_cookie (v : json) : option Cookie :=
  match v with
  | JNull => Some (mkCookie "" "")
  | JObj l => foldl decode_cookie_field (Some (mkCookie "" "")) l
  | _ => None
  end.

Definition decode_cookies (v : json) : option (list Cookie) :=
  match v with JArr l => mapM decode_cookie l | JNull => Some [] | _ => None end.

Definition UnmarshalHeader (s : string) : option (option header) := v ← parse_json s; decode_header v.
Definition UnmarshalCookies (s : string) : option (list Cookie) := v ← parse_json s; decode_cookies v.
