(* ===== verification/JsonFacts.v ===== *)
(** * JSON text reads back *)
From S2P Require Import Prelude GoLib Record Json.
From Stdlib Require Import DecimalN DecimalFacts.

Open Scope string_scope.

(** ** Strings *)

Definition chunk_bytes (c : chunk) : string := match c with CRune bs => bs | CBad b => String b "" end.

Definition high (c : ascii) : bool := (128 <=? code c)%N.

(** An encoded rune is one ASCII byte or several bytes above 0x7f. *)
Definition chunk_ok (c : chunk) : Prop :=
  match c with
  | CRune (String a "") => (code a < 128)%N
  | CRune bs => str_forall high bs = true
  | CBad a => (128 <= code a)%N
  end.

Lemma in_range_high lo hi c : in_range lo hi c = true -> (128 <=? lo)%N = true -> high c = true.
Proof.
  unfold in_range, high. intros [H1%N.leb_le _]%andb_true_iff Hlo%N.leb_le. apply N.leb_le. lia.
Qed.

Ltac solve_high := repeat case_step; bool_hyps;
  (done || (by apply N.leb_le) || (eapply in_range_high; [eassumption|reflexivity])).

Lemma seq2_high a b : seq2 a b = true -> high a = true /\ high b = true.
Proof. unfold seq2, cont. intros [??]%andb_true_iff. split; solve_high. Qed.

Lemma seq3_high a b c : (128 <= code a)%N -> seq3 a b c = true -> high a = true /\ high b = true /\ high c = true.
Proof. unfold seq3, cont. intros Ha [H1 H2]%andb_true_iff. split_and!; solve_high. Qed.

Lemma seq4_high a b c d :
  (128 <= code a)%N -> seq4 a b c d = true -> high a = true /\ high b = true /\ high c = true /\ high d = true.
Proof.
  unfold seq4, cont. intros Ha [[H1 H2]%andb_true_iff H3]%andb_true_iff. split_and!; solve_high.
Qed.

(** The chunks are the string, cut. *)
Lemma runes_spec s : str_concat (map chunk_bytes (runes s)) = s /\ Forall chunk_ok (runes s).
Proof.
  remember (String.length s) as n eqn:Hn. revert s Hn.
  induction (lt_wf n) as [n _ IH]. intros s ->.
  assert (IH' : forall r, String.length r < String.length s ->
    str_concat (map chunk_bytes (runes r)) = r /\ Forall chunk_ok (runes r)) by (intros; by eapply IH).
  clear IH. destruct s as [|a r]; [by split; constructor|]. cbn [runes].
  destruct (N.ltb_spec (code a) 128) as [Ha|Ha].
  { destruct (IH' r) as [E F]; [simpl; lia|]. split; [simpl; by rewrite E|by constructor]. }
  assert (Hbad : str_concat (map chunk_bytes (CBad a :: runes r)) = String a r /\ Forall chunk_ok (CBad a :: runes r)).
  { destruct (IH' r) as [E F]; [simpl; lia|]. split; [simpl; by rewrite E|by constructor]. }
  destruct r as [|b r2]; [done|]. destruct (seq2 a b) eqn:E2.
  { destruct (IH' r2) as [E F]; [simpl; lia|]. split; [simpl; by rewrite E|constructor; [|done]].
    apply seq2_high in E2 as [Ea Eb]. simpl. by rewrite Ea, Eb. }
  destruct r2 as [|c r3]; [done|]. destruct (seq3 a b c) eqn:E3.
  { destruct (IH' r3) as [E F]; [simpl; lia|]. split; [simpl; by rewrite E|constructor; [|done]].
    apply seq3_high in E3 as (Ea & Eb & Ec); [|done]. simpl. by rewrite Ea, Eb, Ec. }
  destruct r3 as [|d r4]; [done|]. destruct (seq4 a b c d) eqn:E4; [|done].
  destruct (IH' r4) as [E F]; [simpl; lia|]. split; [simpl; by rewrite E|constructor; [|done]].
  apply seq4_high in E4 as (Ea & Eb & Ec & Ed); [|done]. simpl. by rewrite Ea, Eb, Ec, Ed.
Qed.

Lemma ToValidUTF8_valid s : ValidString s = true -> ToValidUTF8 s = s.
Proof.
  intros Hv. unfold ToValidUTF8. rewrite <- (proj1 (runes_spec s)) at 2. f_equal. apply map_ext_in.
  intros c Hc. unfold ValidString in Hv. rewrite forallb_forall in Hv. specialize (Hv c Hc). by destruct c.
Qed.

(** The bytes of a rune are one wherever they stand. *)
Definition stable_chunk (c : chunk) : Prop :=
  match c with CRune bs => forall t, runes (bs +:+ t) = CRune bs :: runes t | CBad _ => True end.

Lemma runes_stable s : Forall stable_chunk (runes s).
Proof.
  remember (String.length s) as n eqn:Hn. revert s Hn.
  induction (lt_wf n) as [n _ IH]. intros s ->.
  assert (IH' : forall r, String.length r < String.length s -> Forall stable_chunk (runes r)) by (intros; by eapply IH).
  clear IH. destruct s as [|a r]; [constructor|]. cbn [runes].
  destruct (N.ltb_spec (code a) 128) as [Ha|Ha].
  { constructor; [|apply IH'; simpl; lia]. intros t. apply N.ltb_lt in Ha. cbn [String.append runes]. by rewrite Ha. }
  assert (Hbad : Forall stable_chunk (CBad a :: runes r)) by (constructor; [done|apply IH'; simpl; lia]).
  apply N.ltb_ge in Ha.
  destruct r as [|b r2]; [done|]. destruct (seq2 a b) eqn:E2.
  { constructor; [|apply IH'; simpl; lia]. intros t. cbn [String.append runes]. by rewrite Ha, E2. }
  destruct r2 as [|c r3]; [done|]. destruct (seq3 a b c) eqn:E3.
  { constructor; [|apply IH'; simpl; lia]. intros t. cbn [String.append runes]. by rewrite Ha, E2, E3. }
  destruct r3 as [|d r4]; [done|]. destruct (seq4 a b c d) eqn:E4; [|done].
  constructor; [|apply IH'; simpl; lia]. intros t. cbn [String.append runes]. by rewrite Ha, E2, E3, E4.
Qed.

Lemma ValidString_ToValidUTF8 s : ValidString (ToValidUTF8 s) = true.
Proof.
  unfold ToValidUTF8, ValidString. induction (runes_stable s) as [|c l Hc _ IH]; [done|]. cbn [map str_concat foldr].
  fold (str_concat (map (fun c => match c with CRune bs => bs | CBad _ => RuneError end) l)).
  destruct c as [bs|b].
  - rewrite Hc. exact IH.
  - change (runes (RuneError +:+ ?t)) with (CRune RuneError :: runes t). exact IH.
Qed.

Lemma ToValidUTF8_idemp s : ToValidUTF8 (ToValidUTF8 s) = ToValidUTF8 s.
Proof. apply ToValidUTF8_valid, ValidString_ToValidUTF8. Qed.

Lemma prepend_app a b r : prepend a (prepend b r) = prepend (a +:+ b) r.
Proof. destruct r as [[s t]|]; simpl; [|done]. by rewrite str_app_assoc. Qed.

Lemma unquote_high bs t :
  str_forall high bs = true -> unquote_raw (bs +:+ t) = prepend bs (unquote_raw t).
Proof.
  induction bs as [|c bs IH]; [simpl; by destruct (unquote_raw t) as [[]|]|].
  intros [Hc Hbs]%andb_true_iff. unfold high in Hc. apply N.leb_le in Hc.
  cbn [String.append unquote_raw]. rewrite IH by done.
  replace (Ascii.eqb c dquote) with false.
  2:{ symmetry. apply Ascii.eqb_neq. intros ->. by apply Hc. }
  replace (Ascii.eqb c backslash) with false.
  2:{ symmetry. apply Ascii.eqb_neq. intros ->. by apply Hc. }
  replace (code c <? 32)%N with false by (symmetry; apply N.ltb_ge; lia).
  by rewrite prepend_app.
Qed.

Lemma unquote_ascii c t :
  (code c < 128)%N -> unquote_raw (escape_ascii c +:+ t) = prepend (String c "") (unquote_raw t).
Proof. destruct c as [[] [] [] [] [] [] [] []]; intros Hc; try (by vm_compute in Hc); reflexivity. Qed.

(** What the reader makes of a chunk: a byte that starts no rune was written
    as U+FFFD. *)
Definition chunk_text (c : chunk) : string := match c with CRune bs => bs | CBad _ => RuneError end.

Lemma unquote_chunk c t :
  chunk_ok c -> unquote_raw (escape_chunk c +:+ t) = prepend (chunk_text c) (unquote_raw t).
Proof.
  destruct c as [bs|b]; [|done]. intros Hok. destruct bs as [|a [|b bs]]; [by apply (unquote_high "")|by apply unquote_ascii|].
  cbn [escape_chunk chunk_text].
  destruct (String.eqb_spec (String a (String b bs)) line_sep) as [->|_]; [reflexivity|].
  destruct (String.eqb_spec (String a (String b bs)) para_sep) as [->|_]; [reflexivity|].
  by apply unquote_high.
Qed.

Lemma unquote_quote s rest :
  unquote (str_concat (map escape_chunk (runes s)) +:+ String dquote rest) = Some (ToValidUTF8 s, rest).
Proof.
  unfold unquote.
  assert (unquote_raw (str_concat (map escape_chunk (runes s)) +:+ String dquote rest) = Some (ToValidUTF8 s, rest)) as ->.
  2:{ by rewrite ToValidUTF8_idemp. }
  destruct (runes_spec s) as [_ Hok]. unfold ToValidUTF8. fold chunk_text.
  induction Hok as [|c l Hc _ IH]; [done|].
  cbn [map str_concat foldr]. rewrite str_app_assoc, unquote_chunk by done.
  unfold str_concat in IH. by rewrite IH.
Qed.

(** ** Values *)

(** Bytes that end a number: nothing after it extends the literal. *)
Definition stops (s : string) : bool :=
  match s with
  | "" => true
  | String c _ => negb (is_digit c || Ascii.eqb c "." || Ascii.eqb c "e" || Ascii.eqb c "E")
  end.

(** Integer literals without superfluous zeros. *)
Definition plain_digits (s : string) : bool :=
  match s with
  | "" => false
  | String "0" r => String.eqb r ""
  | String c r => is_digit c && str_forall is_digit r
  end.
Definition int_literal (s : string) : bool :=
  match s with String "-" r => plain_digits r | _ => plain_digits s end.

(** What encoding is lossless on: valid UTF-8 text and integers. *)
Fixpoint json_ok (v : json) : bool :=
  match v with
  | JNull | JBool _ => true
  | JNum lit => int_literal lit
  | JStr s => ValidString s
  | JArr l => forallb json_ok l
  | JObj l => forallb (fun kv => ValidString kv.1 && json_ok kv.2) l
  end.

(** Every number of the value is an integer literal. *)
Fixpoint json_ints (v : json) : bool :=
  match v with
  | JNum lit => int_literal lit
  | JArr l => forallb json_ints l
  | JObj l => forallb (fun kv => json_ints kv.2) l
  | _ => true
  end.

(** What encoding makes of a value: text with U+FFFD for what is not UTF-8. *)
Fixpoint json_clean (v : json) : json :=
  match v with
  | JStr s => JStr (ToValidUTF8 s)
  | JArr l => JArr (map json_clean l)
  | JObj l => JObj (map (fun kv => (ToValidUTF8 kv.1, json_clean kv.2)) l)
  | _ => v
  end.

Lemma span_digits d rest :
  str_forall is_digit d = true -> stops rest = true -> span is_digit (d +:+ rest) = (d, rest).
Proof.
  induction d as [|c d IH]; intros Hd Hr.
  - destruct rest as [|c r]; [done|]. simpl in *. apply negb_true_iff in Hr.
    destruct (is_digit c); [done|]. done.
  - cbn [str_forall] in Hd. apply andb_true_iff in Hd as [Hc Hd]. cbn [String.append span]. by rewrite Hc, IH.
Qed.

Lemma scan_int_literal d rest : plain_digits d = true -> stops rest = true -> scan_int (d +:+ rest) = Some (d, rest).
Proof.
  intros Hd Hr. destruct d as [|c d]; [done|]. destruct (Ascii.eqb_spec c "0") as [->|Hc].
  - cbn in Hd. apply String.eqb_eq in Hd as ->. done.
  - assert (is_digit c && str_forall is_digit d = true) as Hcd.
    { destruct c as [[] [] [] [] [] [] [] []]; try done; by destruct Hc. }
    assert (scan_int (String c d +:+ rest) = scan_digits (String c d +:+ rest)) as ->.
    { destruct c as [[] [] [] [] [] [] [] []]; try done; by destruct Hc. }
    unfold scan_digits. rewrite span_digits by done. done.
Qed.

Lemma stops_frac rest : stops rest = true -> scan_frac rest = Some ("", rest) /\ scan_exp rest = Some ("", rest).
Proof.
  destruct rest as [|c r]; [done|]. unfold stops. rewrite negb_true_iff. intros Hc. bool_hyps. split.
  - unfold scan_frac. destruct c as [[] [] [] [] [] [] [] []]; done.
  - unfold scan_exp. apply Ascii.eqb_neq in H0, H1. by rewrite H0, H1.
Qed.

Lemma scan_number_literal lit rest :
  int_literal lit = true -> stops rest = true -> scan_number (lit +:+ rest) = Some (lit, rest).
Proof.
  intros Hl Hr. destruct (stops_frac rest Hr) as [Hf He]. unfold scan_number.
  assert (Hgo : forall sign d, plain_digits d = true ->
    ('(i, s) ← scan_int (d +:+ rest); '(f, s) ← scan_frac s; '(e, s) ← scan_exp s;
     Some (sign +:+ i +:+ f +:+ e, s)) = Some (sign +:+ d, rest)).
  { intros sign d Hd. rewrite scan_int_literal by done. cbn. rewrite Hf. cbn. rewrite He. cbn.
    by rewrite str_app_nil_r. }
  destruct lit as [|c d]; [done|]. destruct (Ascii.eqb_spec c "-") as [->|Hc].
  - cbn [String.append]. exact (Hgo "-" d Hl).
  - assert (plain_digits (String c d) = true) as Hd
      by (destruct c as [[] [] [] [] [] [] [] []]; try done; by destruct Hc).
    specialize (Hgo "" (String c d) Hd).
    destruct c as [[] [] [] [] [] [] [] []]; try done; by destruct Hc.
Qed.

Lemma number_scalar lit rest :
  int_literal lit = true -> stops rest = true -> parse_scalar (lit +:+ rest) = Some (JNum lit, rest).
Proof.
  intros Hl Hr. pose proof (scan_number_literal lit rest Hl Hr) as Hs. unfold parse_scalar, strip_prefix.
  destruct lit as [|c d]; [done|].
  assert (is_digit c || Ascii.eqb c "-" = true) as Hc by (destruct c as [[] [] [] [] [] [] [] []]; done).
  assert (forall p ps, is_digit p || Ascii.eqb p "-" = false ->
    HasPrefix (String c d +:+ rest) (String p ps) = false) as Hp.
  { intros p ps Hp. cbn. destruct (Ascii.eqb_spec p c) as [->|]; [by rewrite Hc in Hp|done]. }
  rewrite !Hp, Hs by done. done.
Qed.

(** The first byte of a printed value. *)
Definition value_head (c : ascii) : Prop := is_ws c = false /\ c <> "]"%char /\ c <> "}"%char.

Lemma print_head v : json_ints v = true -> exists c t, print_json v = String c t /\ value_head c.
Proof.
  destruct v as [|[]|lit|s|l|l]; intros Hok; try (by eexists _, _; split; [reflexivity|]).
  destruct lit as [|c d]; [done|]. exists c, d. split; [done|].
  destruct c as [[] [] [] [] [] [] [] []]; done.
Qed.

Lemma skip_ws_head c t : is_ws c = false -> skip_ws (String c t) = String c t.
Proof. intros Hc. cbn. by rewrite Hc. Qed.

(** The statement carried through the recursion. *)
Definition reads_back (v : json) : Prop :=
  forall n rest, json_ints v = true -> stops rest = true -> 2 * String.length (print_json v) <= n ->
    parse_value n (print_json v +:+ rest) = Some (json_clean v, rest).

Definition tail_text {A} (f : A -> string) (l : list A) : string := str_concat (map (fun y => "," +:+ f y) l).

Lemma join_with_cons {A} (f : A -> string) x l :
  join_with "," (map f (x :: l)) = f x +:+ tail_text f l.
Proof. cbn [join_with map]. unfold tail_text. by rewrite map_map. Qed.

Lemma tail_text_cons {A} (f : A -> string) x l : tail_text f (x :: l) = String "," (f x +:+ tail_text f l).
Proof. done. Qed.

Lemma stops_tail {A} (f : A -> string) l close rest :
  stops (String close "") = true -> stops (tail_text f l +:+ String close rest) = true.
Proof. destruct l; [done|]. by rewrite tail_text_cons. Qed.

Lemma elems_read_back l : forall v n rest,
  Forall reads_back (v :: l) -> forallb json_ints (v :: l) = true ->
  2 * (String.length (print_json v +:+ tail_text print_json l) + 1) <= n ->
  parse_elems n ((print_json v +:+ tail_text print_json l) +:+ String "]" rest) = Some (map json_clean (v :: l), rest).
Proof.
  induction l as [|w l IH]; intros v n rest Hr Hok Hn; apply Forall_cons in Hr as [Hv Hr];
    cbn [forallb] in Hok; apply andb_true_iff in Hok as [Hokv Hok];
    rewrite str_length_app in Hn; (destruct n as [|n]; [lia|]); cbn [parse_elems]; rewrite str_app_assoc;
    rewrite Hv by (try apply stops_tail; done || lia); cbn [mbind option_bind].
  - done.
  - rewrite tail_text_cons in Hn |- *. cbn [String.append String.length] in Hn |- *.
    rewrite skip_ws_head by done. rewrite IH; [done|done|done|lia].
Qed.

Definition print_member (kv : string * json) : string := quote kv.1 +:+ ":" +:+ print_json kv.2.

Definition clean_member (kv : string * json) : string * json := (ToValidUTF8 kv.1, json_clean kv.2).

Lemma members_read_back l : forall kv n rest,
  Forall (fun kv => reads_back kv.2) (kv :: l) ->
  forallb (fun kv => json_ints kv.2) (kv :: l) = true ->
  2 * (String.length (print_member kv +:+ tail_text print_member l) + 1) <= n ->
  parse_members n ((print_member kv +:+ tail_text print_member l) +:+ String "}" rest) = Some (map clean_member (kv :: l), rest).
Proof.
  induction l as [|w l IH]; intros [k v] n rest Hr Hok Hn; apply Forall_cons in Hr as [Hv Hr];
    cbn [forallb fst snd] in Hok, Hv; apply andb_true_iff in Hok as [Hokv Hok];
    rewrite str_length_app in Hn; unfold print_member at 1 in Hn; cbn [fst snd] in Hn;
    rewrite str_length_app in Hn; (destruct n as [|n]; [lia|]); cbn [parse_members];
    unfold print_member at 1, quote; cbn [fst snd String.append]; rewrite !str_app_assoc;
    cbn [String.append]; rewrite skip_ws_head by done; rewrite (Ascii.eqb_refl dquote);
    rewrite unquote_quote; cbn [mbind option_bind]; rewrite skip_ws_head by done;
    cbn [String.append String.length] in Hn;
    rewrite Hv by (try apply stops_tail; done || lia); cbn [mbind option_bind].
  - done.
  - rewrite tail_text_cons in Hn |- *. cbn [String.append String.length] in Hn |- *.
    rewrite skip_ws_head by done. rewrite IH; [done|done|done|lia].
Qed.

(** Induction with the hypothesis at every element. *)
Lemma json_nested_ind (P : json -> Prop) :
  P JNull -> (forall b, P (JBool b)) -> (forall lit, P (JNum lit)) -> (forall s, P (JStr s)) ->
  (forall l, Forall P l -> P (JArr l)) -> (forall l, Forall (fun kv => P kv.2) l -> P (JObj l)) -> forall v, P v.
Proof.
  intros H1 H2 H3 H4 H5 H6. fix IH 1. intros [|b|lit|s|l|l]; [exact H1|apply H2|apply H3|apply H4|apply H5|apply H6].
  - induction l as [|v l IHl]; constructor; [apply IH|exact IHl].
  - induction l as [|[k v] l IHl]; constructor; [apply IH|exact IHl].
Qed.

Lemma scalar_reads_back v s rest :
  value_head (match s with String c _ => c | "" => " "%char end) ->
  (match s with String c _ => Ascii.eqb c dquote || Ascii.eqb c "[" || Ascii.eqb c "{" | "" => true end) = false ->
  parse_scalar (s +:+ rest) = Some (v, rest) -> forall n, 1 <= n -> parse_value n (s +:+ rest) = Some (v, rest).
Proof.
  intros [Hws _] Hc Hp [|n] Hn; [lia|]. destruct s as [|c t]; [done|]. bool_hyps.
  cbn [parse_value String.append] in *. rewrite skip_ws_head by done.
  by repeat match goal with H : c <> _ |- _ => apply Ascii.eqb_neq in H; rewrite H; clear H end.
Qed.

Lemma value_reads_back v : reads_back v.
Proof.
  induction v as [|b|lit|s|l Hl|l Hl] using json_nested_ind; intros n rest Hok Hr Hn.
  - apply scalar_reads_back; [done|done|done|simpl in Hn; lia].
  - destruct b; apply scalar_reads_back; (done || simpl in Hn; lia).
  - destruct (print_head (JNum lit) Hok) as (c & t & Hc & Hh). cbn in Hc. subst lit.
    apply scalar_reads_back; [done| |by apply number_scalar|simpl in Hn; lia].
    clear -Hok. destruct c as [[] [] [] [] [] [] [] []]; done.
  - destruct n as [|n]; [simpl in Hn; lia|]. cbn [print_json] in *. unfold quote. cbn [String.append parse_value].
    rewrite skip_ws_head, Ascii.eqb_refl, str_app_assoc by done. cbn [String.append].
    by rewrite unquote_quote.
  - destruct n as [|n]; [simpl in Hn; lia|]. cbn [print_json json_ints json_clean] in *. cbn [String.append parse_value].
    rewrite skip_ws_head by done. cbn [Ascii.eqb Bool.eqb dquote].
    destruct l as [|v l]; [done|]. rewrite join_with_cons, !str_length_app in *.
    apply andb_true_iff in Hok as Hok'. destruct Hok' as [Hokv _].
    destruct (print_head v Hokv) as (c & t & Hp & Hws & Hb & _).
    rewrite str_app_assoc. cbn [String.append String.length] in *.
    rewrite elems_read_back by (done || (rewrite str_length_app; lia)). cbn [mbind option_bind].
    rewrite Hp. cbn [String.append]. rewrite skip_ws_head by done.
    clear -Hb. destruct c as [[] [] [] [] [] [] [] []]; try done; by destruct Hb.
  - change (print_json (JObj l)) with ("{" +:+ join_with "," (map print_member l) +:+ "}") in *.
    change (json_clean (JObj l)) with (JObj (map clean_member l)). cbn [json_ints] in Hok.
    destruct n as [|n]; [simpl in Hn; lia|]. cbn [String.append parse_value].
    rewrite skip_ws_head by done. cbn [Ascii.eqb Bool.eqb dquote].
    destruct l as [|kv l]; [done|]. rewrite join_with_cons, !str_length_app in *.
    rewrite str_app_assoc. cbn [String.append String.length] in *.
    rewrite members_read_back by (done || (rewrite str_length_app; lia)). cbn [mbind option_bind].
    done.
Qed.

Lemma parse_print_clean v : json_ints v = true -> parse_json (print_json v) = Some (json_clean v).
Proof.
  intros Hok. unfold parse_json. rewrite <- (str_app_nil_r (print_json v)) at 2.
  rewrite value_reads_back by (done || lia). done.
Qed.

Lemma json_ok_ints v : json_ok v = true -> json_ints v = true.
Proof.
  induction v as [|b|lit|s|l Hl|l Hl] using json_nested_ind; cbn [json_ok json_ints]; try done;
    rewrite !forallb_forall; rewrite Forall_forall in Hl; intros Hv x Hx; specialize (Hv x Hx);
    apply Hl; [by apply list_elem_of_In|done|by apply list_elem_of_In|]. by apply andb_true_iff in Hv as [_ ?].
Qed.

Lemma json_ok_clean v : json_ok v = true -> json_clean v = v.
Proof.
  induction v as [|b|lit|s|l Hl|l Hl] using json_nested_ind; cbn [json_ok json_clean]; try done.
  - intros Hv. by rewrite ToValidUTF8_valid.
  - rewrite forallb_forall. rewrite Forall_forall in Hl. intros Hv. f_equal. rewrite <- (map_id l) at 2. apply map_ext_in.
    intros x Hx. apply Hl; [by apply list_elem_of_In|auto].
  - rewrite forallb_forall. rewrite Forall_forall in Hl. intros Hv. f_equal. rewrite <- (map_id l) at 2. apply map_ext_in.
    intros [k x] Hx. specialize (Hv _ Hx). cbn [fst snd] in *. apply andb_true_iff in Hv as [Hk Hv]. rewrite ToValidUTF8_valid by done.
    f_equal. apply (Hl (k, x)); [by apply list_elem_of_In|done].
Qed.

Lemma parse_print v : json_ok v = true -> parse_json (print_json v) = Some v.
Proof. intros Hv. rewrite parse_print_clean by (by apply json_ok_ints). by rewrite json_ok_clean. Qed.

(** ** Header maps and cookies *)

Definition valid_header (h : option header) : Prop :=
  forall m, h = Some m -> map_Forall (fun k vs => ValidString k = true /\ Forall (fun v => ValidString v = true) vs) m.

Definition valid_cookie (c : Cookie) : Prop := ValidString (ck_Name c) = true /\ ValidString (ck_Value c) = true.

Lemma decode_json_strings vs : decode_strings (json_strings vs) = Some vs.
Proof. by apply mapM_fmap_Some. Qed.

Lemma sorted_entries_perm {V} (m : gmap string V) : sorted_entries m ≡ₚ map_to_list m.
Proof. apply SliceStable_perm. Qed.

Lemma decode_json_header h : decode_header (json_header h) = Some h.
Proof.
  destruct h as [m|]; [|done]. cbn [json_header decode_header].
  assert (forall es : list (string * list string),
    mapM decode_entry (map (fun kv => (kv.1, json_strings kv.2)) es) = Some es) as Hm.
  { intros es. apply mapM_fmap_Some. intros [k vs]. unfold decode_entry. cbn [fst snd].
    by rewrite decode_json_strings. }
  rewrite Hm. cbn [mbind option_bind]. do 2 f_equal. rewrite <- (list_to_map_to_list m) at 2.
  assert (Hp : rev (sorted_entries m) ≡ₚ map_to_list m).
  { etrans; [symmetry; apply Permutation_rev|apply sorted_entries_perm]. }
  apply list_to_map_proper; [|done]. rewrite Hp. apply NoDup_fst_map_to_list.
Qed.

Lemma json_header_ok h : valid_header h -> json_ok (json_header h) = true.
Proof.
  intros Hv. destruct h as [m|]; [|done]. specialize (Hv m eq_refl). cbn [json_header json_ok].
  apply forallb_true_iff. intros kv ([k vs] & -> & Hin)%list_elem_of_fmap. cbn [fst snd].
  rewrite sorted_entries_perm in Hin. apply elem_of_map_to_list in Hin.
  destruct (Hv k vs Hin) as [Hk Hvs]. rewrite Hk. cbn [andb json_strings json_ok].
  apply forallb_true_iff. intros v (w & -> & Hw)%list_elem_of_fmap. rewrite Forall_forall in Hvs. by apply Hvs.
Qed.

Lemma decode_json_cookies cs : decode_cookies (json_cookies cs) = Some cs.
Proof. apply mapM_fmap_Some. by intros []. Qed.

Lemma json_cookies_ok cs : Forall valid_cookie cs -> json_ok (json_cookies cs) = true.
Proof.
  intros Hv. cbn [json_cookies json_ok]. apply forallb_true_iff. intros v (c & -> & Hc)%list_elem_of_fmap.
  rewrite Forall_forall in Hv. destruct (Hv c Hc) as [Hn Hvl]. cbn. by rewrite Hn, Hvl.
Qed.

Lemma UnmarshalHeader_Marshal h : valid_header h -> UnmarshalHeader (MarshalHeader h) = Some h.
Proof.
  intros Hv. unfold UnmarshalHeader, MarshalHeader. rewrite parse_print by (by apply json_header_ok).
  apply decode_json_header.
Qed.

Lemma UnmarshalCookies_Marshal cs : Forall valid_cookie cs -> UnmarshalCookies (MarshalCookies cs) = Some cs.
Proof.
  intros Hv. unfold UnmarshalCookies, MarshalCookies. rewrite parse_print by (by apply json_cookies_ok).
  apply decode_json_cookies.
Qed.

(** ** Integers *)

Lemma Itoa_literal z : int_literal (Itoa z) = true.
Proof.
  assert (Hn : forall n, plain_digits (Itoa_N n) = true).
  { intros n. unfold Itoa_N.
    pose proof (f_equal N.to_uint (DecimalN.Unsigned.of_to n)) as Hd.
    rewrite DecimalN.Unsigned.to_of in Hd. pose proof (Itoa_N_digits n) as Hdig. unfold Itoa_N in Hdig.
    revert Hd Hdig. generalize (N.to_uint n). intros d Hd Hdig. destruct d; try (exact Hdig || done).
    unfold Decimal.unorm in Hd. destruct (Decimal.nzhead (Decimal.D0 d)) eqn:E; try done.
    - by injection Hd as <-.
    - by apply DecimalFacts.nzhead_nonzero in E. }
  unfold Itoa. destruct (z <? 0)%Z; [apply Hn|]. specialize (Hn (Z.abs_N z)).
  destruct (Itoa_N_head (Z.abs_N z)) as (c & s & Hs & Hc). rewrite Hs in *.
  destruct c as [[] [] [] [] [] [] [] []]; done.
Qed.
