(* ===== verification/Url.v ===== *)
(** * net/url query strings

    [QueryEscape], [QueryUnescape], [Values.Encode] and [ParseQuery], which
    [URL.Query] calls and whose errors it drops. *)
From S2P Require Import Prelude GoLib Record Json.

Open Scope string_scope.

(** ** Escaping *)

Definition query_safe (c : ascii) : bool :=
  is_upper c || is_lower c || is_digit c || existsb (Ascii.eqb c) ["-"; "_"; "."; "~"]%char.

Definition upper_hex (n : N) : ascii := default "0"%char (String.get (N.to_nat n) "0123456789ABCDEF").

Fixpoint QueryEscape (s : string) : string :=
  match s with
  | "" => ""
  | String c r =>
      if query_safe c then String c (QueryEscape r)
      else if Ascii.eqb c " " then String "+" (QueryEscape r)
      else String "%" (String (upper_hex (code c / 16)) (String (upper_hex (code c mod 16)) (QueryEscape r)))
  end.

Fixpoint QueryUnescape (s : string) : option string :=
  match s with
  | "" => Some ""
  | String c r =>
      if Ascii.eqb c "%" then
        match r with
        | String a (String b r') =>
            match hex_val a, hex_val b with
            | Some x, Some y => t ← QueryUnescape r'; Some (String (ascii_of_N (x * 16 + y)) t)
            | _, _ => None
            end
        | _ => None
        end
      else t ← QueryUnescape r; Some (String (if Ascii.eqb c "+" then " "%char else c) t)
  end.

(** ** url.Values *)

(** [Values.Set] and [Values.Get] use the key as it is. *)
Definition Values_Set (v : header) (key val : string) : header := <[key := [val]]> v.

Definition encode_pair (k v : string) : string := QueryEscape k +:+ String "=" (QueryEscape v).

(** Keys in order, one [key=value] per value. *)
Definition Values_Encode (v : header) : string :=
  Join (concat (map (fun '(k, vs) => map (encode_pair k) vs) (sorted_entries v))) "&".

Definition Values_append (m : header) (k v : string) : header :=
  <[k := (default [] (m !! k) ++ [v])%list]> m.

(** [strings.Cut] at the first separator. *)
Definition Cut (s : string) (sep : ascii) : string * string :=
  match IndexByte s sep with
  | Some i => (str_take i s, str_drop (i + 1) s)
  | None => (s, "")
  end.

(** One [&]-separated part; a part that cannot be read is skipped. *)
Definition parse_part (m : header) (part : string) : header :=
  if ContainsByte part ";" || String.eqb part "" then m else
  let '(k, v) := Cut part "=" in
  match QueryUnescape k, QueryUnescape v with
  | Some k, Some v => Values_append m k v
  | _, _ => m
  end.

Definition ParseQuery (query : string) : header := foldl parse_part ∅ (Split query "&").

(** ** Round trips *)

Lemma unescape_byte c t :
  QueryUnescape (QueryEscape (String c "") +:+ t) = (r ← QueryUnescape t; Some (String c r)).
Proof.
  assert (Hsafe : implb (query_safe c) (negb (Ascii.eqb c "%" || Ascii.eqb c "+")) = true).
  { revert c. apply byte_ind. by vm_compute. }
  assert (Hhex : match hex_val (upper_hex (code c / 16)), hex_val (upper_hex (code c mod 16)) with
                 | Some x, Some y => Ascii.eqb (ascii_of_N (x * 16 + y)) c
                 | _, _ => false
                 end = true).
  { revert c Hsafe. intros c _. revert c.
    apply (byte_ind (fun c => match hex_val (upper_hex (code c / 16)), hex_val (upper_hex (code c mod 16)) with
                 | Some x, Some y => Ascii.eqb (ascii_of_N (x * 16 + y)) c
                 | _, _ => false
                 end)). by vm_compute. }
  cbn [QueryEscape]. destruct (query_safe c).
  - cbn [implb] in Hsafe. bool_hyps. cbn [String.append QueryUnescape].
    by rewrite (proj2 (Ascii.eqb_neq c "%")), (proj2 (Ascii.eqb_neq c "+")) by done.
  - destruct (Ascii.eqb_spec c " ") as [->|Hsp]; [done|].
    cbn [String.append QueryUnescape Ascii.eqb Bool.eqb].
    destruct (hex_val _) as [x|]; [|done]. destruct (hex_val _) as [y|]; [|done].
    by apply Ascii.eqb_eq in Hhex as ->.
Qed.

Lemma QueryEscape_cons c s : QueryEscape (String c s) = QueryEscape (String c "") +:+ QueryEscape s.
Proof. cbn [QueryEscape]. repeat case_step; done. Qed.

Lemma QueryUnescape_Escape s : QueryUnescape (QueryEscape s) = Some s.
Proof.
  induction s as [|c s IH]; [done|]. by rewrite QueryEscape_cons, unescape_byte, IH.
Qed.

(** The bytes of an escaped text. *)
Definition escaped_byte (c : ascii) : bool := query_safe c || Ascii.eqb c "+" || Ascii.eqb c "%".

Lemma QueryEscape_bytes s : str_forall escaped_byte (QueryEscape s) = true.
Proof.
  induction s as [|c s IH]; [done|]. rewrite QueryEscape_cons, str_forall_app, IH, andb_true_r. revert c.
  apply (byte_ind (fun c => str_forall escaped_byte (QueryEscape (String c "")))). by vm_compute.
Qed.

Lemma escaped_no_byte s c : escaped_byte c = false -> ContainsByte (QueryEscape s) c = false.
Proof.
  intros Hc. pose proof (QueryEscape_bytes s) as Hs. induction (QueryEscape s) as [|d t IH]; [done|].
  simpl in Hs. bool_hyps. rewrite ContainsByte_cons, IH by done. rewrite orb_false_r.
  apply Ascii.eqb_neq. congruence.
Qed.

Lemma encode_pair_no_byte k v c :
  escaped_byte c = false -> c <> "="%char -> ContainsByte (encode_pair k v) c = false.
Proof.
  intros Hc Hne. unfold encode_pair. rewrite ContainsByte_app, ContainsByte_cons, !escaped_no_byte by done.
  by rewrite (proj2 (Ascii.eqb_neq c "=")).
Qed.

Lemma Cut_app a c b : ContainsByte a c = false -> Cut (a +:+ String c b) c = (a, b).
Proof.
  intros Ha. unfold Cut. rewrite IndexByte_app by done. rewrite str_take_app. f_equal.
  rewrite (str_app_cons a). replace (String.length a + 1) with (String.length (a +:+ String c "")).
  - by rewrite str_drop_app.
  - rewrite str_length_app. simpl. lia.
Qed.

Lemma parse_part_pair m k v : parse_part m (encode_pair k v) = Values_append m k v.
Proof.
  unfold parse_part. rewrite encode_pair_no_byte by done. unfold encode_pair at 1.
  rewrite (proj2 (String.eqb_neq _ "")) by (by destruct (QueryEscape k)).
  unfold encode_pair. rewrite Cut_app by by apply escaped_no_byte. by rewrite !QueryUnescape_Escape.
Qed.

Lemma append_all m k vs w :
  m !! k = Some w -> foldl (fun m v => Values_append m k v) m vs = <[k := (w ++ vs)%list]> m.
Proof.
  revert m w. induction vs as [|v vs IH]; intros m w Hw; simpl.
  - by rewrite app_nil_r, insert_id.
  - rewrite (IH _ (w ++ [v])%list); unfold Values_append.
    + rewrite insert_insert_eq, <- app_assoc. done.
    + by rewrite Hw, lookup_insert_eq.
Qed.

Lemma parse_entry m k vs : m !! k = None -> vs <> [] ->
  foldl parse_part m (map (encode_pair k) vs) = <[k := vs]> m.
Proof.
  intros Hk Hne. assert (E : forall m, foldl parse_part m (map (encode_pair k) vs)
    = foldl (fun m v => Values_append m k v) m vs).
  { clear. induction vs as [|v vs IH]; intros m; [done|]. simpl. by rewrite parse_part_pair, IH. }
  rewrite E. destruct vs as [|v vs]; [done|]. simpl. rewrite (append_all _ _ _ [v]); unfold Values_append.
  - by rewrite insert_insert_eq.
  - by rewrite Hk, lookup_insert_eq.
Qed.

Lemma parse_entries (l : list (string * list string)) m :
  NoDup l.*1 -> (forall k vs, (k, vs) ∈ l -> vs <> []) -> (forall k, k ∈ l.*1 -> m !! k = None) ->
  foldl parse_part m (concat (map (fun '(k, vs) => map (encode_pair k) vs) l)) = list_to_map l ∪ m.
Proof.
  revert m. induction l as [|[k vs] l IH]; intros m Hnd Hne Hm; simpl; [by rewrite (left_id_L ∅ _)|].
  rewrite fmap_cons in Hnd. apply NoDup_cons in Hnd as [Hk Hnd].
  rewrite foldl_app, parse_entry by (apply Hm || eapply Hne; by left). rewrite IH; [|done| |].
  - rewrite <- insert_union_l, <- insert_union_r; [done|]. by apply not_elem_of_list_to_map.
  - intros ???. eapply Hne. by right.
  - intros k' Hk'. rewrite lookup_insert_ne by (by intros ->). apply Hm. by right.
Qed.

(** A query string made by [Encode] parses to the values it was made of. *)
Lemma ParseQuery_Encode v :
  (forall k vs, v !! k = Some vs -> vs <> []) -> ParseQuery (Values_Encode v) = v.
Proof.
  intros Hne. unfold ParseQuery, Values_Encode.
  set (parts := concat _).
  assert (Hp : forall p, p ∈ parts -> ContainsByte p "&" = false).
  { intros p. unfold parts. rewrite list_elem_of_In, in_concat. intros (l & Hl & Hp).
    apply in_map_iff in Hl as ([k vs] & <- & _). apply in_map_iff in Hp as (x & <- & _).
    by apply encode_pair_no_byte. }
  assert (E : foldl parse_part ∅ parts = v).
  { unfold parts. rewrite parse_entries.
    - rewrite (right_id_L ∅ _). unfold sorted_entries. rewrite (list_to_map_proper _ (map_to_list v)).
      + apply list_to_map_to_list.
      + rewrite SliceStable_perm. apply NoDup_fst_map_to_list.
      + apply SliceStable_perm.
    - unfold sorted_entries. rewrite SliceStable_perm. apply NoDup_fst_map_to_list.
    - intros k vs. unfold sorted_entries. rewrite SliceStable_perm, elem_of_map_to_list. apply Hne.
    - intros. apply lookup_empty. }
  destruct parts as [|p ps] eqn:Eparts; [done|]. by rewrite Split_Join.
Qed.

Example Encode_ex :
  Values_Encode {[ "q" := ["host:a b"]; "limit" := ["5"] ]} = "limit=5&q=host%3Aa+b".
Proof. by vm_compute. Qed.
Example ParseQuery_ex : ParseQuery "q=a%20b&&x;y=1&q=%zz&q=c" = {[ "q" := ["a b"; "c"] ]}.
Proof. by vm_compute. Qed.
