(* ===== verification/SearchQL.v ===== *)
(** * searchql/searchql.go: the search language

    Tokeniser, token parser and AST. [fmt.Errorf] texts are the constructors of
    [ParseMsg], carrying the strings they interpolate. *)
From S2P Require Import Prelude GoLib.

Open Scope string_scope.
Open Scope go_scope.

(** ** Fields *)

(** [FieldFree] is the empty [Field] of a freeform term. *)
Inductive Field :=
| FieldFree
| FieldHost | FieldPath | FieldService | FieldBody | FieldHeaders | FieldHeader
| FieldMethod | FieldStatus | FieldSourceIP | FieldCorrelationID | FieldHasEvents.

#[export] Instance Field_eq_dec : EqDecision Field.
Proof. solve_decision. Defined.

Definition field_name (f : Field) : string :=
  match f with
  | FieldFree => ""
  | FieldHost => "host"
  | FieldPath => "path"
  | FieldService => "service"
  | FieldBody => "body"
  | FieldHeaders => "headers"
  | FieldHeader => "header"
  | FieldMethod => "method"
  | FieldStatus => "status"
  | FieldSourceIP => "source_ip"
  | FieldCorrelationID => "correlation_id"
  | FieldHasEvents => "has_events"
  end.

(** Every key of the parser's table; [header.<name>] is handled apart. *)
Definition known_list : list Field :=
  [FieldHost; FieldPath; FieldService; FieldBody; FieldHeaders; FieldMethod; FieldStatus;
   FieldSourceIP; FieldCorrelationID; FieldHasEvents].

Definition knownFields (key : string) : option Field :=
  List.find (fun f => String.eqb (field_name f) key) known_list.

Definition indexedFields (f : Field) : bool :=
  match f with FieldHost | FieldPath | FieldService => true | _ => false end.

Definition structuredFields (f : Field) : bool :=
  match f with
  | FieldMethod | FieldStatus | FieldSourceIP | FieldCorrelationID | FieldHasEvents => true
  | _ => false
  end.

Inductive Wildcard := WildcardNone | WildcardPrefix | WildcardSubstring.

#[export] Instance Wildcard_eq_dec : EqDecision Wildcard.
Proof. solve_decision. Defined.

(** ** Terms *)

Record StatusFilter := mkStatusFilter { sf_Exact : Z; sf_Class : string }.

Record Term := mkTerm {
  t_Field : Field;
  t_Value : string;
  t_Wildcard : Wildcard;
  t_QuotedLiteral : bool;
  t_Negated : bool;
  t_HeaderName : string;
  t_StatusFilter : option StatusFilter;
  t_HasEvents : option bool
}.

#[export] Instance StatusFilter_eq_dec : EqDecision StatusFilter.
Proof. solve_decision. Defined.
#[export] Instance Term_eq_dec : EqDecision Term.
Proof. solve_decision. Defined.

(** [Query] is its slice of terms. *)
Record Query := mkQuery { q_Terms : list Term }.

(** [int(sf.Class[0]-'0') * 100]: the subtraction is on bytes and wraps. *)
Definition ClassRange (sf : StatusFilter) : Z * Z :=
  match sf_Class sf with
  | String c _ => let lo := (((Z.of_N (code c) - 48) mod 256) * 100)%Z in (lo, (lo + 99)%Z)
  | "" => (0, 0)%Z
  end.

Definition IsUnindexedScan (q : Query) : bool :=
  existsb (fun t =>
    match t_Wildcard t with
    | WildcardSubstring =>
        match t_Field t with FieldFree => true | f => indexedFields f end
    | _ => false
    end) (q_Terms q).

(** ** Errors *)

Inductive ParseMsg :=
| MsgUnclosedQuote
| MsgBareDash
| MsgMissingKey
| MsgEmptyValue
| MsgUnknownKey (key : string)
| MsgNoWildcards (key : string)
| MsgUnknownMethod (value : string)
| MsgBadStatus
| MsgBadHasEvents (value : string)
| MsgEmptyHeaderName
| MsgHeaderNameWildcard
| MsgOnlyWildcards
| MsgInnerWildcard.

Record ParseError := mkParseError { pe_Token : string; pe_Message : ParseMsg }.

(** ** Tokeniser *)

Definition isASCIISpace (c : ascii) : bool :=
  existsb (Ascii.eqb c) [" "; "009"; "010"; "013"; "011"; "012"]%char.

(** The inner loop: the token read from [s], what follows it, and [inQuote]. *)
Fixpoint scan_token (inQuote : bool) (s : string) : string * string * bool :=
  match s with
  | "" => ("", "", inQuote)
  | String c s' =>
      if inQuote then
        match s' with
        | String d s'' =>
            if Ascii.eqb c backslash && Ascii.eqb d dquote then
              let '(t, r, q) := scan_token true s'' in (String c (String d t), r, q)
            else
              let '(t, r, q) := scan_token (negb (Ascii.eqb c dquote)) s' in (String c t, r, q)
        | "" =>
            let '(t, r, q) := scan_token (negb (Ascii.eqb c dquote)) s' in (String c t, r, q)
        end
      else if Ascii.eqb c dquote then
        let '(t, r, q) := scan_token true s' in (String c t, r, q)
      else if isASCIISpace c then ("", s, false)
      else let '(t, r, q) := scan_token false s' in (String c t, r, q)
  end.

Fixpoint tokenize_loop (fuel : nat) (s : string) : result ParseError (list string) :=
  match fuel with
  | 0%nat => Ok []
  | S k =>
      match TrimLeft s isASCIISpace with
      | "" => Ok []
      | s1 =>
          let '(tok, rest, inQuote) := scan_token false s1 in
          if inQuote then Err (mkParseError s1 MsgUnclosedQuote)
          else try toks <- tokenize_loop k rest; Ok (tok :: toks)
      end
  end.

(** A token takes at least one byte ([tokenize_unfold]), so [length s] rounds
    and one for the end suffice. *)
Definition tokenize (s : string) : result ParseError (list string) :=
  tokenize_loop (S (String.length s)) s.

(** ** Values *)

Definition parseValue (valueRaw : string) : result ParseMsg (string * Wildcard * bool) :=
  if HasPrefix valueRaw (String dquote "") then
    if (String.length valueRaw <? 2)%nat || negb (HasSuffix valueRaw (String dquote ""))
    then Err MsgUnclosedQuote
    else
      let inner := str_take (String.length valueRaw - 2) (str_drop 1 valueRaw) in
      Ok (ReplaceAll inner (String backslash (String dquote "")) (String dquote ""),
          WildcardNone, true)
  else
    let leading := HasPrefix valueRaw "*" in
    let v := if leading then str_drop 1 valueRaw else valueRaw in
    let trailing := HasSuffix v "*" && (0 <? String.length v)%nat in
    let v := if trailing then str_take (String.length v - 1) v else v in
    if String.eqb v "" then Err MsgOnlyWildcards
    else if Contains v "*" then Err MsgInnerWildcard
    else if leading then Ok (v, WildcardSubstring, false)
    else if trailing then Ok (v, WildcardPrefix, false)
    else Ok (v, WildcardNone, false).

Definition canonicalHTTPMethods : list string :=
  ["GET"; "HEAD"; "POST"; "PUT"; "DELETE"; "CONNECT"; "OPTIONS"; "TRACE"; "PATCH"].

Definition parseStatusValue (s : string) : result ParseMsg StatusFilter :=
  let exact :=
    match Atoi s with
    | Some v => if ((v <? 100) || (599 <? v))%Z then Err MsgBadStatus
                else Ok (mkStatusFilter v "")
    | None => Err MsgBadStatus
    end in
  match s with
  | String d "xx" => if in_range 49 53 d then Ok (mkStatusFilter 0 s) else exact
  | _ => exact
  end.

(** ** Token parser *)

Section Parse.
Context `{Unicode}.

Definition at_token {A} (raw : string) (r : result ParseMsg A) : result ParseError A :=
  match r with Ok a => Ok a | Err m => Err (mkParseError raw m) end.

Definition freeform (raw tok : string) (negated : bool) : result ParseError Term :=
  try (value, wildcard, quoted) <- at_token raw (parseValue tok);
  Ok (mkTerm FieldFree value wildcard quoted negated "" None None).

Definition parseHeaderTerm (raw key valueRaw : string) (negated : bool) : result ParseError Term :=
  let name := str_drop (String.length "header.") key in
  if String.eqb name "" then Err (mkParseError raw MsgEmptyHeaderName)
  else if ContainsByte name "*" then Err (mkParseError raw MsgHeaderNameWildcard)
  else
    try (value, wildcard, quoted) <- at_token raw (parseValue valueRaw);
    Ok (mkTerm FieldHeader value wildcard quoted negated (CanonicalMIMEHeaderKey name) None None).

(** The per-field [switch] that validates and completes a known-key term. *)
Definition finish_term (raw : string) (t : Term) : result ParseError Term :=
  let '(mkTerm field value wildcard quoted negated hn sf he) := t in
  match field with
  | FieldMethod =>
      let upper := ToUpper value in
      if existsb (String.eqb upper) canonicalHTTPMethods
      then Ok (mkTerm field upper wildcard quoted negated hn sf he)
      else Err (mkParseError raw (MsgUnknownMethod value))
  | FieldStatus =>
      try f <- at_token raw (parseStatusValue value);
      Ok (mkTerm field value wildcard quoted negated hn (Some f) he)
  | FieldHasEvents =>
      let low := ToLower value in
      if String.eqb low "true"
      then Ok (mkTerm field value wildcard quoted negated hn sf (Some true))
      else if String.eqb low "false"
      then Ok (mkTerm field value wildcard quoted negated hn sf (Some false))
      else Err (mkParseError raw (MsgBadHasEvents value))
  | _ => Ok t
  end.

Definition parseKeyed (raw key valueRaw : string) (negated : bool) : result ParseError Term :=
  match knownFields (ToLower key) with
  | None =>
      if HasPrefix (ToLower key) "header."
      then parseHeaderTerm raw key valueRaw negated
      else Err (mkParseError raw (MsgUnknownKey key))
  | Some field =>
      try (value, wildcard, quoted) <- at_token raw (parseValue valueRaw);
      if structuredFields field && negb (bool_decide (wildcard = WildcardNone))
      then Err (mkParseError raw (MsgNoWildcards key))
      else finish_term raw (mkTerm field value wildcard quoted negated "" None None)
  end.

Definition parseToken (raw : string) : result ParseError Term :=
  let negated := HasPrefix raw "-" in
  let tok := if negated then str_drop 1 raw else raw in
  if negated && String.eqb tok "" then Err (mkParseError raw MsgBareDash)
  else if HasPrefix tok (String dquote "") then freeform raw tok negated
  else
    match IndexByte tok ":" with
    | None => freeform raw tok negated
    | Some 0%nat => Err (mkParseError raw MsgMissingKey)
    | Some idx =>
        let key := str_take idx tok in
        let valueRaw := str_drop (idx + 1) tok in
        if String.eqb valueRaw "" then Err (mkParseError raw MsgEmptyValue)
        else parseKeyed raw key valueRaw negated
    end.

Fixpoint parse_tokens (toks : list string) : result ParseError (list Term) :=
  match toks with
  | [] => Ok []
  | tok :: toks' =>
      try t <- parseToken tok;
      try ts <- parse_tokens toks';
      Ok (t :: ts)
  end.

Definition Parse (s : string) : result ParseError Query :=
  try tokens <- tokenize s;
  try terms <- parse_tokens tokens;
  Ok (mkQuery terms).

End Parse.
