(* ===== verification/SearchQLFacts.v ===== *)
(** * Theorems about the search-language parser

    The tokeniser against a declarative token grammar, the shape of parsed
    terms, the print/parse round trip and the error tokens. *)
From S2P Require Import Prelude GoLib SearchQL.

Open Scope string_scope.

(** ** The token grammar *)

(** [token_body q s]: [s] is a token tail, read inside a quoted region when
    [q] is true. Outside quotes no white space; inside, [\] followed by a
    quote is one unit. *)
Inductive token_body : bool -> string -> Prop :=
| body_end : token_body false ""
| body_char c s :
    isASCIISpace c = false -> c <> dquote -> token_body false s -> token_body false (String c s)
| body_open s : token_body true s -> token_body false (String dquote s)
| body_close s : token_body false s -> token_body true (String dquote s)
| body_esc s : token_body true s -> token_body true (String backslash (String dquote s))
| body_data c s :
    c <> dquote -> (c = backslash -> HasPrefix s (String dquote "") = false) ->
    token_body true s -> token_body true (String c s).

#[export] Hint Constructors token_body : go.

(** Where a token may stop: at the end of input or at white space. *)
Definition boundary (r : string) : Prop :=
  match r with "" => True | String c _ => isASCIISpace c = true end.

(** The words of [s]: tokens separated by white space. *)
Inductive words : string -> list string -> Prop :=
| words_nil sp : str_forall isASCIISpace sp = true -> words sp []
| words_cons sp t r ts :
    str_forall isASCIISpace sp = true -> t <> "" -> token_body false t -> boundary r ->
    words r ts -> words (sp +:+ t +:+ r) (t :: ts).

Lemma str_ind2 (P : string -> Prop) :
  P "" -> (forall c, P (String c "")) ->
  (forall c d s, P s -> P (String d s) -> P (String c (String d s))) -> forall s, P s.
Proof.
  intros H0 H1 H2 s. enough (P s /\ forall c, P (String c s)) by tauto.
  induction s as [|d s [IH1 IH2]]; split; auto.
Qed.

Lemma scan_token_cons2 q c d s :
  scan_token q (String c (String d s)) =
  if q then
    if Ascii.eqb c backslash && Ascii.eqb d dquote
    then let '(t, r, q) := scan_token true s in (String c (String d t), r, q)
    else let '(t, r, q) := scan_token (negb (Ascii.eqb c dquote)) (String d s) in (String c t, r, q)
  else if Ascii.eqb c dquote
  then let '(t, r, q) := scan_token true (String d s) in (String c t, r, q)
  else if isASCIISpace c then ("", String c (String d s), false)
  else let '(t, r, q) := scan_token false (String d s) in (String c t, r, q).
Proof. reflexivity. Qed.

Lemma scan_token_sound s : forall q t r q',
  scan_token q s = (t, r, q') ->
  s = t +:+ r /\ (if q' then r = "" else boundary r /\ token_body q t).
Proof.
  induction s as [|c|c d s IH1 IH2] using str_ind2; intros q t r q' Hs.
  - simpl in Hs. invc Hs. destruct q'; repeat split; auto with go.
  - simpl in Hs. destruct q.
    + destruct (Ascii.eqb_spec c dquote); simpl in Hs; invc Hs; repeat split; auto with go.
    + destruct (Ascii.eqb_spec c dquote); [invc Hs; auto|].
      destruct (isASCIISpace c) eqn:E; invc Hs; repeat split; auto with go.
  - rewrite scan_token_cons2 in Hs. destruct q.
    + destruct (Ascii.eqb c backslash && Ascii.eqb d dquote) eqn:E.
      * destruct (scan_token true s) as [[t1 r1] q1] eqn:E1.
        destruct (IH1 _ _ _ _ E1) as [Heq H1]. invc Hs. bool_hyps. subst.
        split; [done|]. destruct q'; [done|]. destruct H1. auto with go.
      * destruct (scan_token (negb (Ascii.eqb c dquote)) (String d s)) as [[t1 r1] q1] eqn:E1.
        destruct (IH2 _ _ _ _ E1) as [Heq H1]. invc Hs.
        split; [simpl; congruence|]. destruct q'; [done|]. destruct H1 as [Hb Ht]. split; [done|].
        destruct (Ascii.eqb_spec c dquote); simpl in Ht; subst; [auto with go|].
        constructor; [done| |done]. intros ->. rewrite Ascii.eqb_refl in E. simpl in E.
        destruct t1 as [|e t1]; [by invc Ht|]. invc Heq. cbn [HasPrefix].
        by rewrite Ascii.eqb_sym, E.
    + destruct (Ascii.eqb_spec c dquote).
      * destruct (scan_token true (String d s)) as [[t1 r1] q1] eqn:E1.
        destruct (IH2 _ _ _ _ E1) as [Heq H1]. invc Hs.
        split; [simpl; congruence|]. destruct q'; [done|]. destruct H1. auto with go.
      * destruct (isASCIISpace c) eqn:E; [invc Hs; auto with go|].
        destruct (scan_token false (String d s)) as [[t1 r1] q1] eqn:E1.
        destruct (IH2 _ _ _ _ E1) as [Heq H1]. invc Hs.
        split; [simpl; congruence|]. destruct q'; [done|]. destruct H1. auto with go.
Qed.

Lemma scan_token_complete q t : token_body q t -> forall r, boundary r ->
  scan_token q (t +:+ r) = (t, r, false).
Proof.
  induction 1 as [|c s Hsp Hq Hs IH|s Hs IH|s Hs IH|s Hs IH|c s Hq Hbs Hs IH]; intros r Hr.
  - destruct r as [|c r]; [done|]. simpl in Hr |- *.
    destruct (Ascii.eqb_spec c dquote) as [->|]; [done|]. by rewrite Hr.
  - specialize (IH r Hr). simpl. rewrite IH, Hsp.
    by destruct (Ascii.eqb_spec c dquote).
  - specialize (IH r Hr). simpl. by rewrite IH.
  - specialize (IH r Hr). simpl. rewrite IH. by destruct (s +:+ r).
  - specialize (IH r Hr). simpl. by rewrite IH.
  - specialize (IH r Hr). destruct s as [|d s]; [by invc Hs|].
    change (String c (String d s) +:+ r) with (String c (String d (s +:+ r))).
    change (String d s +:+ r) with (String d (s +:+ r)) in IH.
    rewrite scan_token_cons2.
    destruct (Ascii.eqb_spec c dquote); [done|]. simpl negb. rewrite IH.
    destruct (Ascii.eqb_spec c backslash) as [E|]; [|done].
    specialize (Hbs E). cbn [HasPrefix] in Hbs. rewrite Ascii.eqb_sym in Hbs.
    destruct (Ascii.eqb d dquote); [by destruct s|done].
Qed.

Lemma token_head t : t <> "" -> token_body false t ->
  exists c t', t = String c t' /\ isASCIISpace c = false.
Proof. intros Hne H. inversion H; subst; [by destruct Hne | eauto..]. Qed.

(** The loop against the grammar, for any sufficient fuel. *)
Lemma tokenize_loop_words fuel : forall s ts, (String.length s < fuel)%nat ->
  tokenize_loop fuel s = Ok ts <-> words s ts.
Proof.
  induction fuel as [|k IH]; intros s ts Hlen; [lia|]. cbn [tokenize_loop].
  destruct (TrimLeft_spec s isASCIISpace) as (sp & Hs & Hsp & Hhd).
  assert (String.length (TrimLeft s isASCIISpace) <= String.length s)%nat as Hle.
  { rewrite Hs at 2. rewrite str_length_app. lia. }
  destruct (TrimLeft s isASCIISpace) as [|c s1] eqn:Et.
  - rewrite str_app_nil_r in Hs. subst. split.
    + intros [= <-]. by constructor.
    + intros H. invc H; [done|]. destruct (token_head t) as (c & t' & -> & Hc); [done..|].
      rewrite TrimLeft_app in Et by done. done.
  - destruct (scan_token false (String c s1)) as [[t r] q] eqn:Esc.
    pose proof (scan_token_sound _ _ _ _ _ Esc) as [Heq Hq]. split.
    + destruct q; [intros; discriminate|]. destruct Hq as [Hb Ht].
      destruct (tokenize_loop k r) as [ts'|] eqn:Er; [|intros; discriminate]. intros [= <-].
      rewrite Hs, Heq. assert (t <> "") as Hne by by (intros ->; simpl in *; subst; simpl in Hb; congruence).
      constructor; [done..|]. apply IH; [|done].
      apply (f_equal String.length) in Heq. rewrite str_length_app in Heq.
      destruct t; [done|]. simpl in *. lia.
    + intros Hw. inversion Hw as [sp0 Hsp0|sp0 t0 r0 ts0 Hsp0 Hne0 Hb0 Hr0 Hw0]; subst ts; clear Hw.
      * subst sp0. rewrite <- (str_app_nil_r s) in Et. by rewrite TrimLeft_app in Et.
      * destruct (token_head t0) as (d & t' & -> & Hd); [done..|]. clear Hs. subst s.
        rewrite TrimLeft_app in Et by done. rewrite <- Et in Esc.
        rewrite scan_token_complete in Esc by done. invc Esc.
        apply IH in Hw0 as ->; [done|]. rewrite !str_length_app in Hlen. simpl in Hlen. lia.
Qed.

Lemma tokenize_ok s ts : words s ts -> tokenize s = Ok ts.
Proof. intros Hw. apply tokenize_loop_words; [lia|done]. Qed.

Lemma tokenize_loop_error fuel : forall s e,
  tokenize_loop fuel s = Err e ->
  pe_Message e = MsgUnclosedQuote /\ exists pre, s = pre +:+ pe_Token e.
Proof.
  induction fuel as [|k IH]; intros s e; [done|]. cbn [tokenize_loop].
  destruct (TrimLeft_spec s isASCIISpace) as (sp & Hs & _ & _).
  destruct (TrimLeft s isASCIISpace) as [|c s1]; [done|].
  destruct (scan_token false (String c s1)) as [[t r] q] eqn:Esc.
  apply scan_token_sound in Esc as [Heq _]. destruct q.
  - intros [= <-]. simpl. eauto.
  - destruct (tokenize_loop k r) eqn:Er; [done|]. intros [= <-].
    destruct (IH _ _ Er) as [? [pre Hpre]]. split; [done|].
    exists (sp +:+ t +:+ pre). rewrite !str_app_assoc. congruence.
Qed.

(** ** The shape of parsed terms *)

Definition star_free (s : string) : Prop := ContainsByte s "*" = false.

Section Facts.
Context `{Unicode}.

(** What every parsed term satisfies, whatever the input. *)
Definition wf_term (t : Term) : Prop :=
(if t_QuotedLiteral t then t_Wildcard t = WildcardNone
 else t_Value t <> "" /\ star_free (t_Value t)) /\
(structuredFields (t_Field t) = true -> t_Wildcard t = WildcardNone) /\
match t_Field t with
| FieldMethod => t_Value t ∈ canonicalHTTPMethods
| FieldStatus => exists sf, t_StatusFilter t = Some sf /\ parseStatusValue (t_Value t) = Ok sf
| FieldHasEvents =>
    exists b, t_HasEvents t = Some b /\ ToLower (t_Value t) = (if b then "true" else "false")
| FieldHeader => t_HeaderName t <> "" /\ star_free (t_HeaderName t)
| _ => True
end /\
(t_Field t <> FieldStatus -> t_StatusFilter t = None) /\
(t_Field t <> FieldHasEvents -> t_HasEvents t = None) /\
(t_Field t <> FieldHeader -> t_HeaderName t = "").

Lemma parseValue_shape v x w q :
parseValue v = Ok (x, w, q) -> if q then w = WildcardNone else x <> "" /\ star_free x.
Proof.
unfold parseValue, star_free. rewrite <- Contains_byte. intros Hp.
repeat case_step; simplify_eq; bool_hyps; auto.
Qed.

Lemma canonical_star_free u s : star_free s -> star_free (canonical_from u s).
Proof.
unfold star_free. revert u. induction s as [|c s IH]; intros u; [done|].
cbn [canonical_from]. rewrite !ContainsByte_cons. intros Hs. bool_hyps.
apply orb_false_iff. split; [|auto]. by rewrite case_byte_star, (proj2 (Ascii.eqb_neq _ _)).
Qed.

Lemma canonical_key_star_free s : star_free s -> star_free (CanonicalMIMEHeaderKey s).
Proof. unfold CanonicalMIMEHeaderKey. intros. case_step; auto using canonical_star_free. Qed.

Lemma canonical_key_nonempty s : s <> "" -> CanonicalMIMEHeaderKey s <> "".
Proof. unfold CanonicalMIMEHeaderKey. intros. case_step; [|done]. by destruct s. Qed.

Lemma method_star_free (m : string) : m ∈ canonicalHTTPMethods -> m <> "" /\ star_free m.
Proof.
intros Hm. assert (Forall (fun m => m <> "" /\ star_free m) canonicalHTTPMethods) as Hall.
{ unfold canonicalHTTPMethods. repeat (constructor; [by split|]). constructor. }
rewrite Forall_forall in Hall. auto.
Qed.

(** Terms before the per-field [switch]. *)
Lemma finish_term_wf raw f value w (q neg : bool) t :
(if q then w = WildcardNone else value <> "" /\ star_free value) ->
(structuredFields f = true -> w = WildcardNone) -> f <> FieldHeader ->
finish_term raw (mkTerm f value w q neg "" None None) = Ok t -> wf_term t.
Proof.
intros Hv Hst Hf Hfin. unfold finish_term, at_token in Hfin.
destruct f; try (injection Hfin as <-; unfold wf_term; simpl;
  split; [exact Hv|]; split; [exact Hst|]; by repeat split).
- destruct (existsb _ _) eqn:E; [|done]. injection Hfin as <-.
  apply existsb_true_iff in E as (m & Hm & ->%String.eqb_eq). unfold wf_term. simpl.
  split; [destruct q; [done|by apply method_star_free]|]. split; [auto|]. by repeat split.
- destruct (parseStatusValue value) as [sf|] eqn:E; [|done]. injection Hfin as <-.
  unfold wf_term. simpl. split; [exact Hv|]. split; [auto|]. split; [by exists sf|]. by repeat split.
- unfold wf_term. destruct (String.eqb_spec (ToLower value) "true").
  + injection Hfin as <-. simpl. split; [exact Hv|]. split; [auto|].
    split; [by exists true|]. by repeat split.
  + destruct (String.eqb_spec (ToLower value) "false"); [|done]. injection Hfin as <-. simpl.
    split; [exact Hv|]. split; [auto|]. split; [by exists false|]. by repeat split.
Qed.

Lemma freeform_wf raw tok neg t : freeform raw tok neg = Ok t -> wf_term t.
Proof.
unfold freeform, at_token, wf_term. destruct (parseValue tok) as [[[x w] q]|] eqn:E; [|done].
apply parseValue_shape in E. intros [= <-]. simpl. by repeat split.
Qed.

Lemma parseHeaderTerm_wf raw key v neg t : parseHeaderTerm raw key v neg = Ok t -> wf_term t.
Proof.
unfold parseHeaderTerm, at_token. generalize (str_drop (String.length "header.") key) as name.
intros name. destruct (String.eqb_spec name ""); [done|].
destruct (ContainsByte name "*") eqn:Es; [done|].
destruct (parseValue v) as [[[x w] q]|] eqn:E; [|done].
apply parseValue_shape in E. intros [= <-]. unfold wf_term. simpl.
split; [exact E|]. split; [done|].
split; [auto using canonical_key_nonempty, canonical_key_star_free|]. by repeat split.
Qed.

Lemma knownFields_not_header key : knownFields key <> Some FieldHeader.
Proof.
unfold knownFields. intros Hf%List.find_some. destruct Hf as [Hin _].
simpl in Hin. intuition discriminate.
Qed.

Lemma parseToken_wf raw t : parseToken raw = Ok t -> wf_term t.
Proof.
unfold parseToken, parseKeyed. intros Hp.
destruct (HasPrefix raw "-" && _); [done|].
destruct (HasPrefix _ (String dquote "")); [by eapply freeform_wf|].
destruct (IndexByte _ ":") as [[|idx]|]; [done| |by eapply freeform_wf].
destruct (String.eqb _ ""); [done|].
destruct (knownFields _) as [f|] eqn:Ef.
- destruct (at_token _ _) as [[[x w] q]|] eqn:Ev; [|done]. unfold at_token in Ev.
  destruct (parseValue _) as [p|] eqn:Ev'; [|done]. simplify_eq. apply parseValue_shape in Ev'.
  destruct (structuredFields f && _) eqn:Es; [done|].
  eapply finish_term_wf; [exact Ev' | | | exact Hp].
  + intros Hsf. rewrite Hsf in Es. simpl in Es. bool_hyps. by apply bool_decide_eq_true in Es.
  + intros ->. by eapply knownFields_not_header.
- destruct (HasPrefix _ "header."); [|done]. by eapply parseHeaderTerm_wf.
Qed.

Lemma parse_tokens_wf toks ts : parse_tokens toks = Ok ts -> Forall wf_term ts.
Proof.
revert ts. induction toks as [|tok toks IH]; intros ts; simpl; [intros [= <-]; constructor|].
destruct (parseToken tok) eqn:E; [|done]. destruct (parse_tokens toks); [|done].
intros [= <-]. constructor; [by eapply parseToken_wf | auto].
Qed.

Lemma parseStatusValue_shape s sf : parseStatusValue s = Ok sf ->
(sf_Class sf = "" /\ (100 <= sf_Exact sf <= 599)%Z) \/
(sf_Exact sf = 0%Z /\ exists k, (1 <= k <= 5)%Z /\ ClassRange sf = (100 * k, 100 * k + 99)%Z).
Proof.
intros Hs.
assert (forall d, in_range 49 53 d = true -> exists k, (1 <= k <= 5)%Z /\
  (((Z.of_N (code d) - 48) mod 256) * 100 = 100 * k)%Z) as Hd.
{ intros d Hin. unfold in_range in Hin. apply andb_true_iff in Hin as [H1%N.leb_le H2%N.leb_le].
  exists (Z.of_N (code d) - 48)%Z. split; [lia|]. rewrite Z.mod_small; lia. }
unfold parseStatusValue in Hs. repeat case_step; simplify_eq; simpl; bool_hyps;
  try (left; split; [done | lia]).
right. split; [done|]. destruct (Hd a) as (k & Hk & Hr); [done|]. exists k. split; [done|].
unfold ClassRange. simpl. by rewrite Hr.
Qed.

(** ** Printing terms *)

(** The spelling of a value inside double quotes. *)
Fixpoint escape_quotes (s : string) : string :=
match s with
| "" => ""
| String c s' =>
    if Ascii.eqb c dquote then String backslash (String dquote (escape_quotes s'))
    else String c (escape_quotes s')
end.

Definition render_value (t : Term) : string :=
if t_QuotedLiteral t
then String dquote (escape_quotes (t_Value t) +:+ String dquote "")
else match t_Wildcard t with
     | WildcardNone => t_Value t
     | WildcardPrefix => t_Value t +:+ "*"
     | WildcardSubstring => String "*" (t_Value t)
     end.

Definition render_key (t : Term) : string :=
match t_Field t with
| FieldFree => ""
| FieldHeader => "header." +:+ t_HeaderName t +:+ ":"
| f => field_name f +:+ ":"
end.

(** The canonical spelling of a term in the search language. *)
Definition render_term (t : Term) : string :=
(if t_Negated t then "-" else "") +:+ render_key t +:+ render_value t.

Definition render_query (q : Query) : string := Join (map render_term (q_Terms q)) " ".

Definition plain_byte (c : ascii) : bool := negb (isASCIISpace c) && negb (Ascii.eqb c dquote).

(** The parsed terms a query text can denote: a quoted value does not end in a
  backslash (it would escape the closing quote), an unquoted one has neither
  white space nor quotes, and an unquoted freeform word has no [':'] and no
  leading ['-'] that would read as syntax. *)
Definition renderable (t : Term) : Prop :=
wf_term t /\
(if t_QuotedLiteral t then HasSuffix (t_Value t) (String backslash "") = false
 else str_forall plain_byte (t_Value t) = true) /\
(t_Field t = FieldFree -> t_QuotedLiteral t = false ->
 ContainsByte (t_Value t) ":" = false /\ HasPrefix (t_Value t) "-" = false) /\
(t_Field t = FieldHeader ->
 str_forall is_token_byte (t_HeaderName t) = true /\
 CanonicalMIMEHeaderKey (t_HeaderName t) = t_HeaderName t).

Lemma token_body_plain a b :
str_forall plain_byte a = true -> token_body false b -> token_body false (a +:+ b).
Proof.
intros Ha Hb. induction a as [|c a IH]; simpl in *; [done|]. unfold plain_byte in Ha.
bool_hyps. auto with go.
Qed.

Lemma escape_quotes_body s r :
HasSuffix s (String backslash "") = false -> token_body false r ->
token_body true (escape_quotes s +:+ String dquote r).
Proof.
intros Hs Hr. induction s as [|c s IH]; [by constructor|].
rewrite HasSuffix_unfold in Hs. bool_hyps. specialize (IH H1). cbn [escape_quotes].
destruct (Ascii.eqb_spec c dquote) as [->|Hc]; simpl; [by constructor|].
constructor; [done| |done]. intros ->. destruct s as [|d s]; [done|]. cbn [escape_quotes].
destruct (Ascii.eqb_spec d dquote) as [->|Hd]; [done|].
cbn [String.append HasPrefix]. by rewrite (proj2 (Ascii.eqb_neq dquote d)) by congruence.
Qed.

Lemma unescape_escape s :
HasSuffix s (String backslash "") = false ->
ReplaceAll (escape_quotes s) (String backslash (String dquote "")) (String dquote "") = s.
Proof.
unfold ReplaceAll. induction s as [|c s IH]; [done|]. rewrite HasSuffix_unfold. intros Hs.
bool_hyps. specialize (IH H1). cbn [escape_quotes].
destruct (Ascii.eqb_spec c dquote) as [->|Hc]; [simpl; by rewrite IH|].
cbn [replace_all_from].
assert (HasPrefix (String c (escape_quotes s)) (String backslash (String dquote "")) = false) as ->.
{ cbn [HasPrefix]. destruct (Ascii.eqb_spec backslash c) as [<-|]; [|done].
  destruct s as [|d s]; [done|]. cbn [escape_quotes andb].
  destruct (Ascii.eqb_spec d dquote) as [->|Hd]; [done|]. cbn [HasPrefix].
  by rewrite (proj2 (Ascii.eqb_neq dquote d)) by congruence. }
by rewrite IH.
Qed.

Lemma parseValue_quoted v :
HasSuffix v (String backslash "") = false ->
parseValue (String dquote (escape_quotes v +:+ String dquote "")) = Ok (v, WildcardNone, true).
Proof.
intros Hv. unfold parseValue.
assert (HasSuffix (String dquote (escape_quotes v +:+ String dquote "")) (String dquote "") = true) as ->.
{ apply HasSuffix_spec. by exists (String dquote (escape_quotes v)). }
cbn [HasPrefix String.length str_drop]. rewrite Ascii.eqb_refl, str_length_app.
replace (S (String.length (escape_quotes v) + String.length (String dquote "")))%nat
  with (S (S (String.length (escape_quotes v)))) by (simpl; lia).
cbn [andb orb negb Nat.ltb Nat.leb].
replace (S (S (String.length (escape_quotes v))) - 2)%nat with (String.length (escape_quotes v)) by lia.
rewrite str_take_app. by rewrite unescape_escape.
Qed.

Lemma star_free_prefix v : star_free v -> HasPrefix v "*" = false.
Proof.
unfold star_free. destruct v as [|c v]; [done|]. rewrite ContainsByte_cons. intros Hs.
apply orb_false_iff in Hs as [Hs _]. cbn [HasPrefix]. by rewrite Hs.
Qed.

Lemma star_free_suffix v : star_free v -> HasSuffix v "*" = false.
Proof.
unfold star_free. intros Hv. destruct (HasSuffix v "*") eqn:E; [|done].
apply HasSuffix_spec in E as [r ->]. rewrite ContainsByte_app in Hv. bool_hyps. done.
Qed.

Lemma parseValue_plain v w :
v <> "" -> star_free v -> str_forall plain_byte v = true ->
parseValue (match w with
            | WildcardNone => v
            | WildcardPrefix => v +:+ "*"
            | WildcardSubstring => String "*" v
            end) = Ok (v, w, false).
Proof.
intros Hne Hs Hp. unfold parseValue.
pose proof (star_free_prefix _ Hs) as Hpre. pose proof (star_free_suffix _ Hs) as Hsuf.
assert (forall r, HasPrefix (v +:+ r) (String dquote "") = false) as Hq.
{ intros r. destruct v as [|c v]; [done|]. simpl in Hp. unfold plain_byte in Hp. bool_hyps.
  cbn [String.append HasPrefix]. by rewrite (proj2 (Ascii.eqb_neq dquote c)) by congruence. }
assert (Contains v "*" = false) as Hc by by rewrite Contains_byte.
destruct w.
- rewrite <- (str_app_nil_r v) at 1. rewrite Hq, Hpre, Hsuf. cbn [andb].
  rewrite (proj2 (String.eqb_neq v "")) by done. by rewrite Hc.
- assert (HasPrefix (v +:+ "*") "*" = false) as ->.
  { destruct v as [|c v]; [done|]. simpl in Hpre |- *. by destruct v. }
  rewrite Hq. assert (HasSuffix (v +:+ "*") "*" = true) as -> by (apply HasSuffix_spec; eauto).
  rewrite str_length_app. simpl String.length.
  replace (0 <? String.length v + 1)%nat with true by (symmetry; apply Nat.ltb_lt; lia).
  replace (String.length v + 1 - 1)%nat with (String.length v) by lia.
  cbn [andb]. rewrite str_take_app, (proj2 (String.eqb_neq v "")) by done. by rewrite Hc.
- cbn [HasPrefix]. rewrite (Ascii.eqb_refl "*").
  cbn [andb str_drop]. rewrite Hsuf. cbn [andb].
  rewrite (proj2 (String.eqb_neq v "")) by done. by rewrite Hc.
Qed.

Lemma parseValue_render t :
renderable t -> parseValue (render_value t) = Ok (t_Value t, t_Wildcard t, t_QuotedLiteral t).
Proof.
intros ((Hshape & _) & Hq & _). unfold render_value. destruct (t_QuotedLiteral t).
- rewrite Hshape. by apply parseValue_quoted.
- destruct Hshape. by apply parseValue_plain.
Qed.

Lemma render_value_nonempty t : renderable t -> render_value t <> "".
Proof.
intros ((Hshape & _) & _). unfold render_value. destruct (t_QuotedLiteral t); [done|].
destruct Hshape as [Hne _], (t_Wildcard t), (t_Value t); done.
Qed.

Lemma knownFields_name f : f ∈ known_list -> knownFields (ToLower (field_name f)) = Some f.
Proof.
intros Hf. unfold known_list in Hf. rewrite !elem_of_cons in Hf.
destruct_or!; [subst; reflexivity ..|]. by apply elem_of_nil in Hf.
Qed.

Lemma knownFields_header s : knownFields ("header." +:+ s) = None.
Proof. reflexivity. Qed.

Lemma ToUpper_method (m : string) : m ∈ canonicalHTTPMethods -> ToUpper m = m.
Proof.
intros Hm. unfold canonicalHTTPMethods in Hm. rewrite !elem_of_cons in Hm.
destruct_or!; [subst; reflexivity ..|]. by apply elem_of_nil in Hm.
Qed.

Lemma finish_term_render raw t :
wf_term t -> t_Field t <> FieldHeader ->
finish_term raw (mkTerm (t_Field t) (t_Value t) (t_Wildcard t) (t_QuotedLiteral t) (t_Negated t)
                   "" None None) = Ok t.
Proof.
destruct t as [f v w q neg hn sf he]. unfold wf_term. simpl.
intros (_ & _ & Hf & Hsf & Hhe & Hhn) Hne.
rewrite (Hhn Hne). unfold finish_term, at_token.
destruct f; try (by rewrite Hsf, Hhe by done).
- rewrite (ToUpper_method v Hf), Hsf, Hhe by done. unfold canonicalHTTPMethods in Hf.
  rewrite !elem_of_cons in Hf. destruct_or!; [subst; reflexivity ..|]. by apply elem_of_nil in Hf.
- destruct Hf as (x & -> & ->). by rewrite Hhe by done.
- destruct Hf as (b & -> & ->). rewrite Hsf by done. by destruct b.
Qed.

Lemma token_bytes_lower s :
str_forall is_token_byte s = true -> ToLower s = str_map lower_byte s /\ is_ascii s = true.
Proof.
intros Hs. assert (is_ascii s = true) as Ha.
{ unfold is_ascii. induction s as [|c s IH]; [done|]. simpl in *. bool_hyps.
  rewrite IH by done. rewrite andb_true_r.
  assert (implb (is_token_byte c) (code c <? 128)%N = true) as Hc.
  { revert c H0. intros c _. revert c.
    apply (byte_ind (fun c => implb (is_token_byte c) (code c <? 128)%N)). by vm_compute. }
  by rewrite H0 in Hc. }
unfold ToLower. by rewrite Ha.
Qed.

(** A header name the syntax can express and canonicalisation keeps. *)
Definition canonical_name (t : Term) : Prop :=
t_Field t = FieldHeader ->
str_forall is_token_byte (t_HeaderName t) = true /\
CanonicalMIMEHeaderKey (t_HeaderName t) = t_HeaderName t.

(** The key of a term, before any spelling of its value. *)
Lemma parseKeyed_value t v :
wf_term t -> canonical_name t -> t_Field t <> FieldFree ->
parseValue v = Ok (t_Value t, t_Wildcard t, t_QuotedLiteral t) ->
exists k, render_key t = k +:+ ":" /\ k <> "" /\ ContainsByte k ":" = false /\
  HasPrefix k "-" = false /\ HasPrefix k (String dquote "") = false /\
  str_forall plain_byte k = true /\
  forall raw, parseKeyed raw k v (t_Negated t) = Ok t.
Proof.
intros Hwf Hhdr Hfree Hv. unfold render_key.
destruct (decide (t_Field t = FieldHeader)) as [Hh|Hh].
- rewrite Hh. destruct (Hhdr Hh) as [Htok Hcan]. clear Hhdr.
  exists ("header." +:+ t_HeaderName t). destruct (token_bytes_lower _ Htok) as [_ Hasc].
  assert (ContainsByte (t_HeaderName t) ":" = false /\ str_forall plain_byte (t_HeaderName t) = true)
    as [Hcol Hpl].
  { clear - Htok. induction (t_HeaderName t) as [|c s IH]; [done|]. simpl in *.
    rewrite ContainsByte_cons. bool_hyps. destruct IH as [-> ->]; [done|].
    assert (implb (is_token_byte c) (negb (Ascii.eqb ":" c) && plain_byte c) = true) as Hc.
    { revert c H. intros c _. revert c.
      apply (byte_ind (fun c => implb (is_token_byte c) (negb (Ascii.eqb ":" c) && plain_byte c))).
      by vm_compute. }
    rewrite H in Hc. cbn [implb] in Hc. apply andb_true_iff in Hc as [Hc1%negb_true_iff Hc2].
    by rewrite Hc1, Hc2. }
  split; [by rewrite str_app_assoc|]. split; [done|].
  split; [by rewrite ContainsByte_app, Hcol|]. split; [done|]. split; [done|].
  split; [by rewrite str_forall_app, Hpl|].
  intros raw. unfold parseKeyed.
  assert (ToLower ("header." +:+ t_HeaderName t) = "header." +:+ str_map lower_byte (t_HeaderName t)) as ->.
  { unfold ToLower, is_ascii in *. by rewrite str_forall_app, Hasc. }
  rewrite knownFields_header, HasPrefix_app. unfold parseHeaderTerm. rewrite str_drop_app. unfold at_token.
  destruct Hwf as (_ & _ & Hname & Hsf & Hhe & _). rewrite Hh in Hname, Hsf, Hhe.
  destruct Hname as [Hne Hstar]. unfold star_free in Hstar.
  rewrite (proj2 (String.eqb_neq _ "")), Hstar, Hv, Hcan by done.
  destruct t; simpl in *. subst. by rewrite Hsf, Hhe by done.
- assert (t_Field t ∈ known_list) as Hk by (destruct (t_Field t); try done; by repeat constructor).
  exists (field_name (t_Field t)).
  split; [by destruct (t_Field t)|].
  split; [by destruct (t_Field t)|]. split; [by destruct (t_Field t)|].
  split; [by destruct (t_Field t)|]. split; [by destruct (t_Field t)|].
  split; [by destruct (t_Field t)|].
  intros raw. unfold parseKeyed. rewrite (knownFields_name _ Hk), Hv. unfold at_token.
  rewrite finish_term_render by done.
  destruct Hwf as (_ & Hst & _). destruct (structuredFields (t_Field t)) eqn:Es; [|done].
  by rewrite Hst by done.
Qed.

Lemma parseKeyed_render t :
renderable t -> t_Field t <> FieldFree ->
exists k, render_key t = k +:+ ":" /\ k <> "" /\ ContainsByte k ":" = false /\
  HasPrefix k "-" = false /\ HasPrefix k (String dquote "") = false /\
  str_forall plain_byte k = true /\
  forall raw, parseKeyed raw k (render_value t) (t_Negated t) = Ok t.
Proof.
intros Hr Hfree. pose proof (parseValue_render t Hr) as Hv. destruct Hr as (Hwf & _ & _ & Hhdr).
by apply parseKeyed_value.
Qed.

Lemma HasPrefix_app_ne k r p : k <> "" -> HasPrefix k (String p "") = false ->
HasPrefix (k +:+ r) (String p "") = false.
Proof. destruct k; [done|]. done. Qed.

(** A keyed body: [key:value]. *)
Lemma parseToken_keyed neg k v t :
k <> "" -> ContainsByte k ":" = false -> HasPrefix k "-" = false ->
HasPrefix k (String dquote "") = false -> v <> "" ->
(forall raw, parseKeyed raw k v neg = Ok t) ->
parseToken ((if neg then "-" else "") +:+ (k +:+ ":") +:+ v) = Ok t.
Proof.
intros Hk Hc Hd Hq Hv Hp. rewrite str_app_assoc. change (":" +:+ v) with (String ":" v).
set (body := k +:+ String ":" v).
assert (HasPrefix body "-" = false) as Hb1 by by apply HasPrefix_app_ne.
assert (HasPrefix body (String dquote "") = false) as Hb2 by by apply HasPrefix_app_ne.
assert (body <> "") as Hb3 by by destruct k.
unfold parseToken. set (raw := (if neg then "-" else "") +:+ body).
assert (HasPrefix raw "-" = neg) as -> by by destruct neg.
replace (if neg then str_drop 1 raw else raw) with body by by destruct neg.
rewrite (proj2 (String.eqb_neq body "")), andb_false_r, Hb2 by done.
unfold body. rewrite IndexByte_app by done.
destruct (String.length k) eqn:El; [by destruct k|]. rewrite <- El. rewrite str_take_app.
replace (str_drop (String.length k + 1) (k +:+ String ":" v)) with v.
- rewrite (proj2 (String.eqb_neq v "")) by done. apply Hp.
- rewrite (str_app_cons k). replace (String.length k + 1)%nat with (String.length (k +:+ ":")).
  + by rewrite str_drop_app.
  + by rewrite str_length_app.
Qed.

Lemma parseToken_free neg v t :
v <> "" -> (HasPrefix v (String dquote "") = true \/ ContainsByte v ":" = false) ->
(neg = false -> HasPrefix v "-" = false) ->
(forall raw, freeform raw v neg = Ok t) ->
parseToken ((if neg then "-" else "") +:+ v) = Ok t.
Proof.
intros Hne Hq Hd Hf. unfold parseToken. set (raw := (if neg then "-" else "") +:+ v).
assert (HasPrefix raw "-" = neg) as -> by (destruct neg; [done | by apply Hd]).
replace (if neg then str_drop 1 raw else raw) with v by by destruct neg.
rewrite (proj2 (String.eqb_neq v "")), andb_false_r by done.
destruct (HasPrefix v (String dquote "")); [apply Hf|]. destruct Hq as [|Hq]; [done|].
apply IndexByte_None in Hq as ->. apply Hf.
Qed.

Lemma render_free_shape t :
renderable t -> t_Field t = FieldFree ->
(HasPrefix (render_value t) (String dquote "") = true \/ ContainsByte (render_value t) ":" = false) /\
HasPrefix (render_value t) "-" = false.
Proof.
intros ((Hs & _) & _ & Hfree & _) Hf. specialize (Hfree Hf). unfold render_value.
destruct (t_QuotedLiteral t); [split; [by left | done]|].
destruct Hfree as [Hc Hd]; [done|]. destruct Hs as [Hne _].
destruct (t_Wildcard t); split; try done; try (by right).
- right. by rewrite ContainsByte_app, Hc.
- by apply HasPrefix_app_ne.
Qed.

Lemma parseToken_render t : renderable t -> parseToken (render_term t) = Ok t.
Proof.
intros Hr. unfold render_term.
destruct (decide (t_Field t = FieldFree)) as [Hf|Hf].
- destruct (render_free_shape t Hr Hf) as [Hq Hd]. unfold render_key. rewrite Hf. simpl ("" +:+ _).
  apply parseToken_free; [by apply render_value_nonempty | done | done |].
  intros raw. unfold freeform, at_token. rewrite (parseValue_render t Hr).
  destruct Hr as ((_ & _ & _ & Hsf & Hhe & Hhn) & _).
  destruct t; simpl in *. subst. by rewrite Hsf, Hhe, Hhn.
- destruct (parseKeyed_render t Hr Hf) as (k & -> & Hk & Hc & Hd & Hq & _ & Hp).
  apply parseToken_keyed; try done. by apply render_value_nonempty.
Qed.

Lemma render_value_body t : renderable t -> token_body false (render_value t).
Proof.
intros ((Hs & _) & Hq & _). unfold render_value. destruct (t_QuotedLiteral t).
- apply body_open. apply escape_quotes_body; [done | constructor].
- destruct (t_Wildcard t).
  + rewrite <- str_app_nil_r. apply token_body_plain; [done | constructor].
  + apply token_body_plain; [done|]. repeat constructor; done.
  + constructor; [done..|]. rewrite <- str_app_nil_r. apply token_body_plain; [done | constructor].
Qed.

Lemma render_term_body t : renderable t -> token_body false (render_term t) /\ render_term t <> "".
Proof.
intros Hr. pose proof (render_value_body t Hr) as Hb. unfold render_term.
assert (token_body false (render_key t +:+ render_value t) /\ render_key t +:+ render_value t <> "")
  as [Hk Hne].
{ destruct (decide (t_Field t = FieldFree)) as [Hf|Hf].
  - unfold render_key. rewrite Hf. split; [done|]. by apply render_value_nonempty.
  - destruct (parseKeyed_render t Hr Hf) as (k & -> & Hk & _ & _ & _ & Hp & _).
    rewrite str_app_assoc. split; [|by destruct k]. apply token_body_plain; [done|].
    simpl. by constructor. }
destruct (t_Negated t); [|done]. split; [|done]. simpl. by constructor.
Qed.

Lemma words_space c s ts : isASCIISpace c = true -> words s ts -> words (String c s) ts.
Proof.
intros Hc Hw. invc Hw.
- constructor. simpl. by rewrite Hc.
- apply (words_cons (String c sp)); try done. simpl. by rewrite Hc.
Qed.

Lemma words_join l : Forall (fun w => token_body false w /\ w <> "") l -> words (Join l " ") l.
Proof.
induction 1 as [|w l [Hb Hne] Hl IH]; [by constructor|]. destruct l as [|w' l].
- simpl. pose proof (words_cons "" w "" []) as Hw.
  rewrite str_app_nil_r in Hw. apply Hw; [done..|]. by constructor.
- change (Join (w :: w' :: l) " ") with ("" +:+ w +:+ String " " (Join (w' :: l) " ")).
  apply (words_cons "" w); [done..|]. by apply (words_space " ").
Qed.

(** Words that are the spellings [f] of the terms [g] parse to those terms. *)
Lemma Parse_words {A} (f : A -> string) (g : A -> Term) l :
Forall (fun x => (token_body false (f x) /\ f x <> "") /\ parseToken (f x) = Ok (g x)) l ->
Parse (Join (map f l) " ") = Ok (mkQuery (map g l)).
Proof.
intros Hl. unfold Parse. rewrite (tokenize_ok _ (map f l)).
- assert (parse_tokens (map f l) = Ok (map g l)) as ->; [|done].
  induction Hl as [|x l [_ Hx] _ IH]; [done|]. cbn [map parse_tokens]. by rewrite Hx, IH.
- apply words_join, List.Forall_map. eapply Forall_impl; [exact Hl|]. by intros x [? _].
Qed.

Lemma Parse_wf s q : Parse s = Ok q -> Forall wf_term (q_Terms q).
Proof.
unfold Parse. destruct (tokenize s); [|done]. destruct (parse_tokens a) eqn:E; [|done].
intros [= <-]. by eapply parse_tokens_wf.
Qed.

Lemma at_token_raw {A} raw (r : result ParseMsg A) e : at_token raw r = Err e -> pe_Token e = raw.
Proof. destruct r; [done|]. by intros [= <-]. Qed.

Lemma parseToken_error raw e : parseToken raw = Err e -> pe_Token e = raw.
Proof.
unfold parseToken, parseKeyed, freeform, parseHeaderTerm, finish_term. intros Hp.
repeat (case_step; simplify_eq; try done); simplify_eq; try done;
  by eapply at_token_raw.
Qed.

End Facts.

(** ** Properties *)

(** C4. Round trip: printing any query whose terms the syntax can express and
    parsing the text gives the query back, terms in order with every flag. *)
Theorem Parse_render `{Unicode} (q : Query) :
  Forall renderable (q_Terms q) -> Parse (render_query q) = Ok q.
Proof.
  intros Hq. unfold render_query. rewrite (Parse_words render_term id).
  - rewrite map_id. by destruct q.
  - eapply Forall_impl; [exact Hq|]. intros t Ht. split; [by apply render_term_body | by apply parseToken_render].
Qed.

Definition example_query : Query := mkQuery
  [ mkTerm FieldService "api" WildcardNone false false "" None None;
    mkTerm FieldPath "/v1/" WildcardPrefix false false "" None None;
    mkTerm FieldHeader "bot" WildcardNone false true "User-Agent" None None;
    mkTerm FieldStatus "5xx" WildcardNone false false "" (Some (mkStatusFilter 0 "5xx")) None;
    mkTerm FieldMethod "POST" WildcardNone false false "" None None;
    mkTerm FieldFree (String dquote "a b") WildcardNone true false "" None None ].

Lemma Parse_render_witness :
  Parse (H := ascii_unicode) (render_query example_query) = Ok example_query.
Proof.
  apply (Parse_render (H := ascii_unicode)). unfold example_query, renderable, wf_term. simpl.
  repeat (constructor; [repeat split; try done; try (by vm_compute); try (by eexists);
    try (apply list_elem_of_In; simpl; tauto)|]); constructor.
Defined.

(** The tokeniser accepts exactly the inputs that split into words of the
    token grammar (quotes closed, escaped quotes skipped, white space only
    inside quotes) and returns those words in order. *)
Lemma tokenize_words (s : string) (ts : list string) : tokenize s = Ok ts <-> words s ts.
Proof. apply tokenize_loop_words. lia. Qed.

(** Every term of a successfully parsed query is well formed: wildcards
    only where allowed and never inside the value, methods canonical,
    [has_events] and status filters set and consistent with the value, and a
    status filter is either one code in 100..599 or a class whose range is
    [100k..100k+99] with k in 1..5. *)
Lemma Parse_shape `{Unicode} (s : string) (q : Query) (t : Term) :
  Parse s = Ok q -> t ∈ q_Terms q ->
  wf_term t /\
  (forall sf, t_StatusFilter t = Some sf ->
    (sf_Class sf = "" /\ (100 <= sf_Exact sf <= 599)%Z) \/
    (sf_Exact sf = 0%Z /\ exists k, (1 <= k <= 5)%Z /\ ClassRange sf = (100 * k, 100 * k + 99)%Z)).
Proof.
  intros Hp Ht. apply Parse_wf in Hp. rewrite Forall_forall in Hp. specialize (Hp t Ht).
  split; [done|]. intros sf Hsf. destruct Hp as (_ & _ & Hf & Hs & _).
  destruct (decide (t_Field t = FieldStatus)) as [E|E]; [|by rewrite Hs in Hsf].
  rewrite E in Hf. destruct Hf as (sf' & Hsf' & Hv). simplify_eq. by eapply parseStatusValue_shape.
Qed.

Lemma Parse_shape_witness :
  let t := mkTerm FieldStatus "5xx" WildcardNone false true "" (Some (mkStatusFilter 0 "5xx")) None in
  Parse (H := ascii_unicode) "-status:5xx" = Ok (mkQuery [t]) /\ wf_term (H := ascii_unicode) t.
Proof.
  split; [by vm_compute|].
  apply (Parse_shape (H := ascii_unicode) "-status:5xx"
    (mkQuery [mkTerm FieldStatus "5xx" WildcardNone false true "" (Some (mkStatusFilter 0 "5xx")) None]));
    [by vm_compute | by left].
Defined.

(** A rejected query names its culprit: either an unclosed quote, reported
    with the rest of the input from the word that opens it, or the first word
    that is not a term, with every earlier word accepted. *)
Lemma Parse_error_token `{Unicode} (s : string) (e : ParseError) :
  Parse s = Err e ->
  (pe_Message e = MsgUnclosedQuote /\ exists pre, s = pre +:+ pe_Token e) \/
  (exists ws1 ws2, words s (ws1 ++ pe_Token e :: ws2) /\
     (forall w, w ∈ ws1 -> exists t, parseToken w = Ok t) /\ parseToken (pe_Token e) = Err e).
Proof.
  unfold Parse. destruct (tokenize s) as [ws|e'] eqn:Et.
  - apply tokenize_loop_words in Et; [|lia]. intros Hp. right.
    assert (exists ws1 ws2, ws = (ws1 ++ pe_Token e :: ws2)%list /\
      (forall w, w ∈ ws1 -> exists t, parseToken w = Ok t) /\ parseToken (pe_Token e) = Err e)
      as (ws1 & ws2 & -> & Hok & Herr); [|by exists ws1, ws2].
    clear Et. destruct (parse_tokens ws) eqn:E; [done|]. injection Hp as ->. revert E.
    induction ws as [|w ws IH]; [done|]. simpl. destruct (parseToken w) as [t|e0] eqn:Ew.
    + destruct (parse_tokens ws); [done|]. intros [= ->].
      destruct (IH eq_refl) as (ws1 & ws2 & -> & Hok & Herr). exists (w :: ws1), ws2.
      split; [done|]. split; [|done]. intros w' [->|Hw]%elem_of_cons; eauto.
    + intros [= ->]. pose proof (parseToken_error _ _ Ew). subst. exists [], ws.
      split; [done|]. split; [|done]. intros w Hw. by apply elem_of_nil in Hw.
  - intros [= ->]. left. by eapply tokenize_loop_error.
Qed.

Lemma Parse_error_token_witness :
  let e := mkParseError "nokey:x" (MsgUnknownKey "nokey") in
  Parse (H := ascii_unicode) "host:a nokey:x" = Err e /\
  ((pe_Message e = MsgUnclosedQuote /\ exists pre, "host:a nokey:x" = pre +:+ pe_Token e) \/
   (exists ws1 ws2, words "host:a nokey:x" (ws1 ++ pe_Token e :: ws2) /\
     (forall w, w ∈ ws1 -> exists t, parseToken (H := ascii_unicode) w = Ok t) /\
     parseToken (H := ascii_unicode) (pe_Token e) = Err e)).
Proof.
  split; [by vm_compute|]. apply (Parse_error_token (H := ascii_unicode)). by vm_compute.
Defined.
