(* ===== verification/Predicate.v ===== *)
(** * searchql/compile_predicate.go: the in-memory matcher *)
From S2P Require Import Prelude GoLib Record SearchQL.

Open Scope string_scope.

Definition HostHeader : string := "Host".

(** [matchString]: a term's wildcard shape applied to one field value. *)
Definition matchString (s : string) (t : Term) : bool :=
  match t_Wildcard t with
  | WildcardPrefix => HasPrefix s (t_Value t)
  | WildcardSubstring => Contains s (t_Value t)
  | WildcardNone => String.eqb s (t_Value t)
  end.

Definition hostOf (r : CapturedRequest) : string :=
  match headers_of (cr_Headers r) !! HostHeader with
  | Some (v :: _) => v
  | _ => ""
  end.

Create Rewrite HintDb match_spec.

Section Matcher.
Context `{Unicode} `{MapRange}.

Definition bodyContainsFold (body needle : string) : bool :=
  if String.eqb needle "" then true else Contains (ToLower body) needle.

Definition HeadersAny (h : option header) (needle : string) : bool :=
  let needleLower := ToLower needle in
  existsb (fun '(name, vs) =>
    Contains (ToLower name) needleLower ||
    existsb (fun v => Contains (ToLower v) needleLower) vs) (go_range (headers_of h)).

Definition HeaderValueContains (h : option header) (name needle : string) : bool :=
  match headers_of h !! name with
  | None => false
  | Some vs => existsb (fun v => Contains (ToLower v) (ToLower needle)) vs
  end.

Definition MatchFreeformRequest (t : Term) (bodyNeedle : string) (r : CapturedRequest) : bool :=
  if matchString (hostOf r) t then true
  else if matchString (cr_Path r) t then true
  else if matchString (cr_Service r) t then true
  else if bodyContainsFold (cr_Body r) bodyNeedle then true
  else HeadersAny (cr_Headers r) (t_Value t).

Definition MatchFreeformResponseEvent (t : Term) (ev : ResponseEvent) : bool :=
  let lowerVal := ToLower (t_Value t) in
  if matchString (re_Service ev) t then true
  else if bodyContainsFold (re_Body ev) lowerVal then true
  else HeadersAny (re_Headers ev) (t_Value t).

Definition MatchFreeformOutboundEvent (t : Term) (ev : OutboundEvent) : bool :=
  let lowerVal := ToLower (t_Value t) in
  let req := oe_Request ev in
  if matchString (oe_Service ev) t then true
  else if matchString (oq_Path req) t then true
  else if bodyContainsFold (oq_Body req) lowerVal then true
  else if HeadersAny (oq_Headers req) (t_Value t) then true
  else match oe_Response ev with
       | Some resp =>
           if bodyContainsFold (os_Body resp) lowerVal then true
           else HeadersAny (os_Headers resp) (t_Value t)
       | None => false
       end.

Definition evaluateTerm (t : Term) (bodyNeedle : string) (r : CapturedRequest) : bool :=
  match t_Field t with
  | FieldFree => MatchFreeformRequest t bodyNeedle r
  | FieldHost => matchString (hostOf r) t
  | FieldPath => matchString (cr_Path r) t
  | FieldService => matchString (cr_Service r) t
  | FieldBody => bodyContainsFold (cr_Body r) bodyNeedle
  | FieldHeaders => HeadersAny (cr_Headers r) (t_Value t)
  | FieldHeader => HeaderValueContains (cr_Headers r) (t_HeaderName t) (t_Value t)
  | FieldMethod => String.eqb (cr_Method r) (t_Value t)
  | FieldSourceIP => String.eqb (cr_SourceIP r) (t_Value t)
  | FieldCorrelationID => String.eqb (cr_CorrelationID r) (t_Value t)
  | FieldStatus | FieldHasEvents => false
  end.

(** Status and has_events terms are accepted here and left to the reader. *)
Definition matchTerm (t : Term) (bodyNeedle : string) (r : CapturedRequest) : bool :=
  match t_Field t with
  | FieldStatus | FieldHasEvents => true
  | _ => let matched := evaluateTerm t bodyNeedle r in
         if t_Negated t then negb matched else matched
  end.

(** The needle computed once per term; terms of other fields keep nil. *)
Definition bodyNeedleOf (t : Term) : string :=
  match t_Field t with
  | FieldBody | FieldFree => ToLower (t_Value t)
  | _ => ""
  end.

Definition CompilePredicate (q : Query) : CapturedRequest -> bool :=
  match q_Terms q with
  | [] => fun _ => true
  | terms =>
      let bodyNeedles := map bodyNeedleOf terms in
      fun r => forallb (fun '(t, needle) => matchTerm t needle r) (zip terms bodyNeedles)
  end.

(** ** Declarative meaning *)

Definition occurs_in (sub s : string) : Prop := exists a b, s = a +:+ sub +:+ b.

(** Case-insensitive occurrence, as the program folds case. *)
Definition occurs_fold (sub s : string) : Prop := occurs_in (ToLower sub) (ToLower s).

Definition shape_matches (t : Term) (s : string) : Prop :=
  match t_Wildcard t with
  | WildcardNone => s = t_Value t
  | WildcardPrefix => exists b, s = t_Value t +:+ b
  | WildcardSubstring => occurs_in (t_Value t) s
  end.

Definition some_header_occurs (h : option header) (sub : string) : Prop :=
  exists name vs, headers_of h !! name = Some vs /\
    (occurs_fold sub name \/ exists v, v ∈ vs /\ occurs_fold sub v).

Definition named_header_occurs (h : option header) (name sub : string) : Prop :=
  exists vs, headers_of h !! name = Some vs /\ exists v, v ∈ vs /\ occurs_fold sub v.

(** What a term means for a captured request, sign aside. *)
Definition denotes (t : Term) (r : CapturedRequest) : Prop :=
  match t_Field t with
  | FieldFree =>
      shape_matches t (hostOf r) \/ shape_matches t (cr_Path r) \/
      shape_matches t (cr_Service r) \/ occurs_fold (t_Value t) (cr_Body r) \/
      some_header_occurs (cr_Headers r) (t_Value t)
  | FieldHost => shape_matches t (hostOf r)
  | FieldPath => shape_matches t (cr_Path r)
  | FieldService => shape_matches t (cr_Service r)
  | FieldBody => occurs_fold (t_Value t) (cr_Body r)
  | FieldHeaders => some_header_occurs (cr_Headers r) (t_Value t)
  | FieldHeader => named_header_occurs (cr_Headers r) (t_HeaderName t) (t_Value t)
  | FieldMethod => cr_Method r = t_Value t
  | FieldSourceIP => cr_SourceIP r = t_Value t
  | FieldCorrelationID => cr_CorrelationID r = t_Value t
  | FieldStatus | FieldHasEvents => True
  end.

Lemma Contains_occurs s sub : Contains s sub = true <-> occurs_in sub s.
Proof. apply Contains_spec. Qed.

Lemma matchString_spec s t : matchString s t = true <-> shape_matches t s.
Proof.
  unfold matchString, shape_matches. destruct (t_Wildcard t).
  - apply String.eqb_eq.
  - apply HasPrefix_spec.
  - apply Contains_spec.
Qed.

Lemma bodyContainsFold_spec body sub :
  bodyContainsFold body (ToLower sub) = true <-> occurs_fold sub body.
Proof.
  unfold bodyContainsFold, occurs_fold. rewrite <- Contains_occurs.
  destruct (String.eqb_spec (ToLower sub) "") as [->|]; [|done].
  split; [|done]. intros _. by destruct (ToLower body).
Qed.

Lemma values_spec vs sub :
  existsb (fun v => Contains (ToLower v) (ToLower sub)) vs = true <->
  exists v, v ∈ vs /\ occurs_fold sub v.
Proof. rewrite existsb_true_iff. by setoid_rewrite Contains_occurs. Qed.

Lemma HeadersAny_spec h sub : HeadersAny h sub = true <-> some_header_occurs h sub.
Proof.
  unfold HeadersAny, some_header_occurs. rewrite existsb_go_range.
  by setoid_rewrite orb_true_iff; setoid_rewrite values_spec; setoid_rewrite Contains_occurs.
Qed.

Lemma HeaderValueContains_spec h name sub :
  HeaderValueContains h name sub = true <-> named_header_occurs h name sub.
Proof.
  unfold HeaderValueContains, named_header_occurs. destruct (headers_of h !! name) as [vs|].
  - rewrite values_spec. split; [eauto|]. by intros (vs' & [= <-] & Hv).
  - split; [done|]. by intros (vs & [=] & _).
Qed.

Lemma if_true_orb (a b : bool) : (if a then true else b) = a || b.
Proof. by destruct a. Qed.

#[local] Hint Rewrite if_true_orb orb_true_iff matchString_spec bodyContainsFold_spec HeadersAny_spec
  HeaderValueContains_spec String.eqb_eq : match_spec.

Lemma evaluateTerm_spec t r :
  t_Field t <> FieldStatus -> t_Field t <> FieldHasEvents ->
  evaluateTerm t (bodyNeedleOf t) r = true <-> denotes t r.
Proof.
  intros H1 H2. unfold evaluateTerm, denotes, bodyNeedleOf, MatchFreeformRequest.
  destruct (t_Field t); try done; by autorewrite with match_spec.
Qed.

Lemma matchTerm_spec t r :
  matchTerm t (bodyNeedleOf t) r = true <->
  (t_Field t = FieldStatus \/ t_Field t = FieldHasEvents \/
   if t_Negated t then ~ denotes t r else denotes t r).
Proof.
  destruct (decide (t_Field t = FieldStatus)) as [E|E1]; [unfold matchTerm; rewrite E; tauto|].
  destruct (decide (t_Field t = FieldHasEvents)) as [E|E2]; [unfold matchTerm; rewrite E; tauto|].
  assert (matchTerm t (bodyNeedleOf t) r =
    if t_Negated t then negb (evaluateTerm t (bodyNeedleOf t) r)
    else evaluateTerm t (bodyNeedleOf t) r) as ->.
  { unfold matchTerm. by destruct (t_Field t). }
  pose proof (evaluateTerm_spec t r E1 E2) as He.
  destruct (t_Negated t), (evaluateTerm t (bodyNeedleOf t) r); simpl; intuition congruence.
Qed.

Lemma CompilePredicate_forallb q r :
  CompilePredicate q r = forallb (fun t => matchTerm t (bodyNeedleOf t) r) (q_Terms q).
Proof.
  unfold CompilePredicate. destruct (q_Terms q) as [|t ts]; [done|].
  generalize (t :: ts) as l. induction l as [|x l IH]; [done|]. simpl. by rewrite IH.
Qed.

(** The compiled predicate accepts a request exactly when every term
    holds of it: exact, prefix or substring match on the indexed fields,
    case-folded occurrence in body and headers, equality on the structured
    fields, complemented under negation; freeform terms mean the union over
    host, path, service, body and headers. The pre-lowered needles and the
    map iteration order make no difference. *)
Lemma CompilePredicate_meaning (q : Query) (r : CapturedRequest) :
  CompilePredicate q r = true <->
  (forall t, t ∈ q_Terms q ->
    t_Field t = FieldStatus \/ t_Field t = FieldHasEvents \/
    if t_Negated t then ~ denotes t r else denotes t r).
Proof.
  rewrite CompilePredicate_forallb, forallb_true_iff. by setoid_rewrite matchTerm_spec.
Qed.

End Matcher.
