(* ===== verification/SearchSQL.v ===== *)
(** * searchql/compile_sql.go: the SQL fragments

    The compiler's output is the program's own text, so it is modelled as text:
    a [string] with [?] placeholders and the list of bound arguments. *)
From S2P Require Import Prelude GoLib Record SearchQL Predicate.

Open Scope string_scope.

Inductive sqlArg := ArgStr (s : string) | ArgInt (z : Z).

(** A fragment: text and arguments in placeholder order. *)
Abbreviation fragment := (string * list sqlArg)%type.

Section Compile.
Context `{Unicode}.

(** [strings.NewReplacer]: one pass, each metacharacter gets a backslash. *)
Fixpoint escapeLike (s : string) : string :=
  match s with
  | "" => ""
  | String c s' =>
      if Ascii.eqb c backslash || Ascii.eqb c "%" || Ascii.eqb c "_"
      then String backslash (String c (escapeLike s'))
      else String c (escapeLike s')
  end.

Definition scannedTextLike (col : string) : string :=
  "LOWER(CAST(" +:+ col +:+ " AS TEXT)) LIKE ? ESCAPE '\'".

Definition likeNeedle (t : Term) : string := "%" +:+ escapeLike (ToLower (t_Value t)) +:+ "%".

Definition scannedTextPredicate (col : string) (t : Term) : fragment :=
  (scannedTextLike col, [ArgStr (likeNeedle t)]).

Definition indexedPredicate (col : string) (t : Term) : string * sqlArg :=
  match t_Wildcard t with
  | WildcardPrefix => (col +:+ " LIKE ? ESCAPE '\'", ArgStr (escapeLike (t_Value t) +:+ "%"))
  | WildcardSubstring =>
      (col +:+ " LIKE ? ESCAPE '\'", ArgStr ("%" +:+ escapeLike (t_Value t) +:+ "%"))
  | WildcardNone => (col +:+ " = ?", ArgStr (t_Value t))
  end.

Definition freeformPredicate (t : Term) : fragment :=
  let '(hostPred, hostArg) := indexedPredicate "host" t in
  let '(pathPred, pathArg) := indexedPredicate "path" t in
  let '(servicePred, serviceArg) := indexedPredicate "service" t in
  let '(eventPathPred, eventPathArg) := indexedPredicate "e_ff.request_path" t in
  let needle := ArgStr (likeNeedle t) in
  ("cr.id IN (" +:+
   "SELECT id FROM captured_requests WHERE " +:+ hostPred +:+ " UNION " +:+
   "SELECT id FROM captured_requests WHERE " +:+ pathPred +:+ " UNION " +:+
   "SELECT id FROM captured_requests WHERE " +:+ servicePred +:+ " UNION " +:+
   "SELECT id FROM captured_requests WHERE " +:+ scannedTextLike "body" +:+ " UNION " +:+
   "SELECT id FROM captured_requests WHERE " +:+ scannedTextLike "headers" +:+ " UNION " +:+
   "SELECT cr_ff.id FROM captured_requests cr_ff JOIN events e_ff " +:+
   "ON e_ff.correlation_id = cr_ff.correlation_id " +:+
   "WHERE " +:+ eventPathPred +:+ " OR " +:+
   scannedTextLike "e_ff.request_body" +:+ " OR " +:+
   scannedTextLike "e_ff.request_headers" +:+ " OR " +:+
   scannedTextLike "e_ff.response_body" +:+ " OR " +:+
   scannedTextLike "e_ff.response_headers" +:+
   ")",
   [hostArg; pathArg; serviceArg; needle; needle; eventPathArg; needle; needle; needle; needle]).

Definition headersAnyPredicate (t : Term) : fragment :=
  let needle := ArgStr (likeNeedle t) in
  ("(" +:+ scannedTextLike "cr.headers" +:+ " OR " +:+
   "EXISTS (SELECT 1 FROM events e_h " +:+
   "WHERE e_h.correlation_id = cr.correlation_id " +:+
   "AND (" +:+ scannedTextLike "e_h.request_headers" +:+ " OR " +:+
   scannedTextLike "e_h.response_headers" +:+ ")))",
   [needle; needle; needle]).

(** [$."Name"] with [\] and the quote escaped. *)
Definition jsonHeaderPath (name : string) : string :=
  let escaped := ReplaceAll name (String backslash "") (String backslash (String backslash "")) in
  let escaped := ReplaceAll escaped (String dquote "") (String backslash (String dquote "")) in
  "$." +:+ String dquote (escaped +:+ String dquote "").

Definition jsonEachLike (col : string) : string :=
  "EXISTS (SELECT 1 FROM json_each(json_extract(" +:+ col +:+
  ", ?)) WHERE LOWER(value) LIKE ? ESCAPE '\')".

Definition headerNamedPredicate (t : Term) : fragment :=
  let needle := ArgStr (likeNeedle t) in
  let path := ArgStr (jsonHeaderPath (t_HeaderName t)) in
  ("(" +:+
   jsonEachLike "cr.headers" +:+ " OR " +:+
   "EXISTS (SELECT 1 FROM events e_h " +:+
   "WHERE e_h.correlation_id = cr.correlation_id " +:+
   "AND (" +:+
   jsonEachLike "e_h.request_headers" +:+ " OR " +:+
   jsonEachLike "e_h.response_headers" +:+
   "))" +:+
   ")",
   [path; needle; path; needle; path; needle]).

Definition negate (t : Term) (pred : string) : string :=
  if t_Negated t then "NOT (" +:+ pred +:+ ")" else pred.

Definition compileTermSQL (t : Term) : fragment :=
  let wrap '(pred, args) := (negate t pred, args) in
  let indexed col := let '(p, arg) := indexedPredicate col t in wrap (p, [arg]) in
  match t_Field t with
  | FieldFree => wrap (freeformPredicate t)
  | FieldHost => indexed "cr.host"
  | FieldPath => indexed "cr.path"
  | FieldService => indexed "cr.service"
  | FieldBody => wrap (scannedTextPredicate "cr.body" t)
  | FieldHeaders => wrap (headersAnyPredicate t)
  | FieldHeader => wrap (headerNamedPredicate t)
  | FieldMethod => wrap ("cr.method = ?", [ArgStr (t_Value t)])
  | FieldSourceIP => wrap ("cr.source_ip = ?", [ArgStr (t_Value t)])
  | FieldCorrelationID => wrap ("cr.correlation_id = ?", [ArgStr (t_Value t)])
  | FieldStatus | FieldHasEvents => ("", [])
  end.

(** The common tail of the three compilers: empty clauses are skipped, the
    rest joined with AND, the arguments concatenated. *)
Definition join_clauses (fs : list fragment) : fragment :=
  let kept := filter (fun f => f.1 <> "") fs in
  match kept with
  | [] => ("", [])
  | _ => (Join (map fst kept) " AND ", concat (map snd kept))
  end.

Definition CompileSQL (q : Query) : fragment := join_clauses (map compileTermSQL (q_Terms q)).

Definition max_status : string := "MAX(CASE WHEN e.type = 'response' THEN e.status ELSE NULL END)".

Definition compileHavingTerm (t : Term) : fragment :=
  match t_Field t, t_StatusFilter t, t_HasEvents t with
  | FieldStatus, Some sf, _ =>
      if Z.eqb (sf_Exact sf) 0
      then let '(lo, hi) := ClassRange sf in
           (negate t (max_status +:+ " BETWEEN ? AND ?"), [ArgInt lo; ArgInt hi])
      else (negate t (max_status +:+ " = ?"), [ArgInt (sf_Exact sf)])
  | FieldHasEvents, _, Some b =>
      (negate t (if b then "COUNT(e.id) > 0" else "COUNT(e.id) = 0"), [])
  | _, _, _ => ("", [])
  end.

Definition CompileSQLHaving (q : Query) : fragment :=
  join_clauses (map compileHavingTerm (q_Terms q)).

Definition freeformOrphanPredicate (t : Term) : fragment :=
  let '(servicePred, serviceArg) := indexedPredicate "service" t in
  let '(pathPred, pathArg) := indexedPredicate "request_path" t in
  let needle := ArgStr (likeNeedle t) in
  ("e.id IN (" +:+
   "SELECT id FROM events WHERE " +:+ servicePred +:+ " UNION " +:+
   "SELECT id FROM events WHERE " +:+ pathPred +:+ " UNION " +:+
   "SELECT id FROM events WHERE " +:+ scannedTextLike "request_body" +:+ " UNION " +:+
   "SELECT id FROM events WHERE " +:+ scannedTextLike "request_headers" +:+ " UNION " +:+
   "SELECT id FROM events WHERE " +:+ scannedTextLike "response_body" +:+ " UNION " +:+
   "SELECT id FROM events WHERE " +:+ scannedTextLike "response_headers" +:+
   ")",
   [serviceArg; pathArg; needle; needle; needle; needle]).

Definition compileOrphanTerm (t : Term) : fragment :=
  let wrap '(pred, args) := (negate t pred, args) in
  let needle := ArgStr (likeNeedle t) in
  match t_Field t with
  | FieldService => let '(p, arg) := indexedPredicate "e.service" t in wrap (p, [arg])
  | FieldCorrelationID => wrap ("e.correlation_id = ?", [ArgStr (t_Value t)])
  | FieldHeaders =>
      wrap ("(" +:+ scannedTextLike "e.request_headers" +:+ " OR " +:+
            scannedTextLike "e.response_headers" +:+ ")", [needle; needle])
  | FieldHeader =>
      let path := ArgStr (jsonHeaderPath (t_HeaderName t)) in
      wrap ("(" +:+ jsonEachLike "e.request_headers" +:+ " OR " +:+
            jsonEachLike "e.response_headers" +:+ ")", [path; needle; path; needle])
  | FieldStatus =>
      match t_StatusFilter t with
      | None => ("", [])
      | Some sf =>
          if Z.eqb (sf_Exact sf) 0
          then let '(lo, hi) := ClassRange sf in
               wrap ("e.type = 'response' AND e.status BETWEEN ? AND ?", [ArgInt lo; ArgInt hi])
          else wrap ("e.type = 'response' AND e.status = ?", [ArgInt (sf_Exact sf)])
      end
  | FieldFree => wrap (freeformOrphanPredicate t)
  | _ => ("", [])
  end.

Definition CompileSQLOrphans (q : Query) : fragment :=
  join_clauses (map compileOrphanTerm (q_Terms q)).

End Compile.

Definition HasRequestOnlyTerm (q : Query) : bool :=
  existsb (fun t =>
    match t_Field t with
    | FieldHost | FieldPath | FieldMethod | FieldSourceIP | FieldBody | FieldHasEvents => true
    | _ => false
    end) (q_Terms q).

Definition HasNonTemporalTerm (q : Query) : bool :=
  match q_Terms q with [] => false | _ => true end.
