(* ===== verification/SearchSQLFacts.v ===== *)
(** * Theorems about the SQL compiler

    Every placeholder has its argument, search text never reaches the SQL text,
    and the LIKE fragments agree with the in-memory matcher. *)
From S2P Require Import Prelude GoLib Record SearchQL Predicate SearchSQL.

Open Scope string_scope.

(** ** Placeholders *)

Fixpoint placeholders (s : string) : nat :=
  match s with
  | "" => 0
  | String c s' => (if Ascii.eqb c "?" then 1 else 0) + placeholders s'
  end.

Lemma placeholders_app a b : placeholders (a +:+ b) = (placeholders a + placeholders b)%nat.
Proof. induction a as [|c a IH]; simpl; [done|]. rewrite IH. lia. Qed.

(** As many arguments as placeholders. *)
Definition balanced (f : fragment) : Prop := placeholders f.1 = length f.2.

Lemma balanced_join_clauses fs : Forall balanced fs -> balanced (join_clauses fs).
Proof.
  intros Hfs. unfold join_clauses, balanced.
  assert (Forall balanced (filter (fun f : fragment => f.1 <> "") fs)) as Hk.
  { apply Forall_forall. intros f [_ Hf]%list_elem_of_filter. rewrite Forall_forall in Hfs. auto. }
  generalize dependent (filter (fun f : fragment => f.1 <> "") fs). intros kept Hk.
  assert (placeholders (Join (map fst kept) " AND ") = length (concat (map snd kept))) as Hj.
  { induction Hk as [|f kept Hf Hk IH]; [done|]. cbn [map Join concat]. rewrite length_app.
    destruct kept as [|g kept]; [by rewrite Nat.add_0_r|].
    cbn [map] in *. rewrite !placeholders_app, IH, Hf. done. }
  by destruct kept.
Qed.

Section Balanced.
Context `{Unicode}.

Lemma balanced_term t : balanced (compileTermSQL t).
Proof.
  unfold compileTermSQL, freeformPredicate, indexedPredicate, negate, balanced.
  by destruct (t_Field t), (t_Wildcard t), (t_Negated t).
Qed.

Lemma balanced_having t : balanced (compileHavingTerm t).
Proof.
  unfold compileHavingTerm, balanced, negate.
  destruct (t_Field t), (t_StatusFilter t) as [sf|], (t_HasEvents t) as [[]|], (t_Negated t);
    try done; destruct (Z.eqb (sf_Exact sf) 0), (ClassRange sf); done.
Qed.

Lemma balanced_orphan t : balanced (compileOrphanTerm t).
Proof.
  unfold compileOrphanTerm, freeformOrphanPredicate, indexedPredicate, negate, balanced.
  destruct (t_Field t), (t_Wildcard t), (t_Negated t), (t_StatusFilter t) as [sf|];
    try done; destruct (Z.eqb (sf_Exact sf) 0), (ClassRange sf); done.
Qed.

(** ** What the SQL text depends on *)

(** A term without its search strings: field, wildcard shape, sign, and which
    of the two status forms and has_events values it carries. *)
Definition skeleton (t : Term) : Field * Wildcard * bool * option bool * option bool :=
  (t_Field t, t_Wildcard t, t_Negated t,
   (fun sf => Z.eqb (sf_Exact sf) 0) <$> t_StatusFilter t, t_HasEvents t).

(** Terms with one skeleton compile to one text. *)
Definition text_by_skeleton (compile : Term -> fragment) : Prop :=
  forall t u, skeleton t = skeleton u -> (compile t).1 = (compile u).1.

Lemma text_term : text_by_skeleton compileTermSQL.
Proof.
  intros t u Hs. injection Hs as Hf Hw Hn Hsf Hhe.
  unfold compileTermSQL, freeformPredicate, indexedPredicate, negate.
  rewrite Hf, Hw, Hn. by destruct (t_Field u), (t_Wildcard u).
Qed.

Lemma text_having : text_by_skeleton compileHavingTerm.
Proof.
  intros t u Hs. injection Hs as Hf Hw Hn Hsf Hhe.
  unfold compileHavingTerm, negate. rewrite Hf, Hn, Hhe.
  destruct (t_StatusFilter t) as [sf|], (t_StatusFilter u) as [sg|]; try done;
    destruct (t_Field u), (t_HasEvents u); try done;
    injection Hsf as Hsf; rewrite Hsf; destruct (Z.eqb (sf_Exact sg) 0), (ClassRange sf), (ClassRange sg); done.
Qed.

Lemma text_orphan : text_by_skeleton compileOrphanTerm.
Proof.
  intros t u Hs. injection Hs as Hf Hw Hn Hsf Hhe.
  unfold compileOrphanTerm, freeformOrphanPredicate, indexedPredicate, negate.
  rewrite Hf, Hw, Hn.
  destruct (t_Field u), (t_Wildcard u); try done;
    destruct (t_StatusFilter t) as [sf|], (t_StatusFilter u) as [sg|]; try done;
    injection Hsf as Hsf; rewrite Hsf; destruct (Z.eqb (sf_Exact sg) 0), (ClassRange sf), (ClassRange sg); done.
Qed.

Lemma join_clauses_text fs gs : map fst fs = map fst gs -> (join_clauses fs).1 = (join_clauses gs).1.
Proof.
  intros Hfg. unfold join_clauses.
  assert (map fst (filter (fun f : fragment => f.1 <> "") fs) =
          map fst (filter (fun f : fragment => f.1 <> "") gs)) as Hk.
  { revert gs Hfg. induction fs as [|f fs IH]; intros [|g gs] Hfg; try done.
    cbn [map] in Hfg. injection Hfg as Hg Hgs. rewrite !filter_cons, Hg.
    case_decide; simpl; rewrite ?Hg; by rewrite (IH gs). }
  destruct (filter _ fs), (filter _ gs); try done. cbn [fst]. by rewrite Hk.
Qed.

Lemma text_list compile ts us :
  text_by_skeleton compile -> map skeleton ts = map skeleton us ->
  (join_clauses (map compile ts)).1 = (join_clauses (map compile us)).1.
Proof.
  intros Hc Hs. apply join_clauses_text. revert us Hs.
  induction ts as [|t ts IH]; intros [|u us] Hs; try done.
  cbn [map] in *. pose proof (f_equal (List.hd (skeleton t)) Hs : skeleton t = skeleton u) as Hsk.
  pose proof (f_equal (@List.tl _) Hs : map skeleton ts = map skeleton us) as Htl.
  by rewrite (Hc _ _ Hsk), (IH us).
Qed.

End Balanced.

(** ** The meaning of LIKE

    SQLite's operators as the fragments use them, by their documented clauses:
    [%] is any sequence, [\] escapes the next character (ESCAPE clause), other
    characters except [_] stand for themselves, comparison is case-sensitive
    (the connection sets case_sensitive_like), LOWER maps ASCII only. The
    clauses are those of SQLite for UTF-8 text without NUL bytes; elsewhere
    SQLite leaves the result undefined, and reading the text byte by byte is this
    model's idealisation. *)
Class SqlText := {
  sql_like : string -> string -> bool;
  sql_lower : string -> string;
  like_end : forall s, sql_like "" s = true <-> s = "";
  like_any : forall p s, sql_like (String "%" p) s = true <-> exists a b, s = a +:+ b /\ sql_like p b = true;
  like_escaped : forall c p s, sql_like (String backslash (String c p)) s = true <->
    exists s', s = String c s' /\ sql_like p s' = true;
  like_char : forall c p s, c <> backslash -> c <> "%"%char -> c <> "_"%char ->
    sql_like (String c p) s = true <-> exists s', s = String c s' /\ sql_like p s' = true;
  lower_ascii : forall s, sql_lower s = str_map lower_byte s
}.

Section Like.
Context `{SqlText}.

Lemma like_literal v p s :
  sql_like (escapeLike v +:+ p) s = true <-> exists r, s = v +:+ r /\ sql_like p r = true.
Proof.
  revert s. induction v as [|c v IH]; intros s.
  - simpl. split; [intros Hp; by exists s | by intros (r & -> & Hp)].
  - cbn [escapeLike].
    assert (sql_like (escapeLike (String c v) +:+ p) s = true <->
      exists s', s = String c s' /\ sql_like (escapeLike v +:+ p) s' = true) as Hstep.
    { cbn [escapeLike].
      destruct (Ascii.eqb c backslash || Ascii.eqb c "%" || Ascii.eqb c "_") eqn:E.
      - apply like_escaped.
      - apply orb_false_iff in E as [[E1%Ascii.eqb_neq E2%Ascii.eqb_neq]%orb_false_iff E3%Ascii.eqb_neq].
        by apply like_char. }
    cbn [escapeLike] in Hstep. rewrite Hstep. setoid_rewrite IH. split.
    + intros (s' & -> & r & -> & Hp). eauto.
    + intros (r & -> & Hp). eauto.
Qed.

Lemma like_all s : sql_like "%" s = true.
Proof. apply like_any. exists s, "". split; [by rewrite str_app_nil_r | by apply like_end]. Qed.

Lemma like_prefix v s : sql_like (escapeLike v +:+ "%") s = HasPrefix s v.
Proof.
  apply eq_true_iff_eq. rewrite like_literal, HasPrefix_spec. split.
  - intros (r & -> & _). eauto.
  - intros [r ->]. exists r. split; [done | apply like_all].
Qed.

Lemma like_substring v s : sql_like ("%" +:+ escapeLike v +:+ "%") s = Contains s v.
Proof.
  apply eq_true_iff_eq. change ("%" +:+ escapeLike v +:+ "%") with (String "%" (escapeLike v +:+ "%")).
  rewrite like_any, Contains_spec. setoid_rewrite like_prefix. setoid_rewrite HasPrefix_spec. split.
  - intros (a & b & -> & r & ->). eauto.
  - intros (a & b & ->). eauto.
Qed.

(** The value of an indexed fragment on a row whose column holds [s]; [None]
    for a text that is not one of the two forms. *)
Definition eval_indexed (col : string) (f : string * sqlArg) (s : string) : option bool :=
  match f.2 with
  | ArgStr a =>
      if String.eqb f.1 (col +:+ " = ?") then Some (String.eqb s a)
      else if String.eqb f.1 (col +:+ " LIKE ? ESCAPE '\'") then Some (sql_like a s)
      else None
  | ArgInt _ => None
  end.

(** The value of a scanned fragment on a column holding [s]. *)
Definition eval_scanned (col : string) (f : fragment) (s : string) : option bool :=
  match f.2 with
  | [ArgStr a] => if String.eqb f.1 (scannedTextLike col) then Some (sql_like a (sql_lower s)) else None
  | _ => None
  end.

Lemma eval_indexed_like col a s :
  eval_indexed col (col +:+ " LIKE ? ESCAPE '\'", ArgStr a) s = Some (sql_like a s).
Proof.
  unfold eval_indexed. cbn [fst snd].
  replace (String.eqb (col +:+ " LIKE ? ESCAPE '\'") (col +:+ " = ?")) with false;
    [by rewrite String.eqb_refl|].
  symmetry. apply String.eqb_neq. intros E%String.app_inj. done.
Qed.

End Like.

(** ** A concrete LIKE *)

Fixpoint any_suffix (f : string -> bool) (s : string) : bool :=
  f s || match s with "" => false | String _ s' => any_suffix f s' end.

Fixpoint like_exec (p s : string) {struct p} : bool :=
  match p with
  | "" => String.eqb s ""
  | String c p' =>
      if Ascii.eqb c "%" then any_suffix (like_exec p') s
      else if Ascii.eqb c backslash then
        match p', s with
        | String d p'', String e s' => Ascii.eqb d e && like_exec p'' s'
        | _, _ => false
        end
      else match s with
           | String e s' => (Ascii.eqb c "_" || Ascii.eqb c e) && like_exec p' s'
           | "" => false
           end
  end.

Lemma any_suffix_spec f s : any_suffix f s = true <-> exists a b, s = a +:+ b /\ f b = true.
Proof.
  induction s as [|c s IH].
  - cbn [any_suffix]. rewrite orb_false_r. split; [by exists "", ""|].
    by intros ([|] & [|] & [=] & Hf).
  - cbn [any_suffix]. rewrite orb_true_iff, IH. split.
    + intros [Hf|(a & b & -> & Hf)]; [by exists "", (String c s) | by exists (String c a), b].
    + intros ([|d a] & b & Heq & Hf); simpl in Heq; simplify_eq; eauto.
Qed.

Lemma cons_match_spec c e s f :
  Ascii.eqb c e && f s = true <-> exists s', String e s = String c s' /\ f s' = true.
Proof.
  rewrite andb_true_iff, Ascii.eqb_eq. split; [intros [-> Hf]; eauto | by intros (s' & [= -> ->] & Hf)].
Qed.

Lemma like_exec_end s : like_exec "" s = true <-> s = "".
Proof. apply String.eqb_eq. Qed.

Lemma like_exec_escaped c p s : like_exec (String backslash (String c p)) s = true <->
  exists s', s = String c s' /\ like_exec p s' = true.
Proof.
  destruct s as [|e s]; [split; [done | by intros (s' & [=] & _)]|].
  change (like_exec (String backslash (String c p)) (String e s)) with (Ascii.eqb c e && like_exec p s).
  apply cons_match_spec.
Qed.

Lemma like_exec_char c p s : c <> backslash -> c <> "%"%char -> c <> "_"%char ->
  like_exec (String c p) s = true <-> exists s', s = String c s' /\ like_exec p s' = true.
Proof.
  intros H1%Ascii.eqb_neq H2%Ascii.eqb_neq H3%Ascii.eqb_neq. cbn [like_exec]. rewrite H1, H2, H3.
  destruct s as [|e s]; [split; [done | by intros (s' & [=] & _)]|]. apply cons_match_spec.
Qed.

Definition sqlite_text : SqlText := {|
  sql_like := like_exec;
  sql_lower := str_map lower_byte;
  like_end := like_exec_end;
  like_any p s := any_suffix_spec (like_exec p) s;
  like_escaped := like_exec_escaped;
  like_char := like_exec_char;
  lower_ascii s := eq_refl
|}.

(** ** Properties *)

(** Each of the three compilers emits exactly one bound argument per [?]
    placeholder, for every query. *)
Lemma placeholders_match_args `{Unicode} (q : Query) :
  balanced (CompileSQL q) /\ balanced (CompileSQLHaving q) /\ balanced (CompileSQLOrphans q).
Proof.
  repeat split; apply balanced_join_clauses, Forall_map, Forall_true.
  - apply balanced_term.
  - apply balanced_having.
  - apply balanced_orphan.
Qed.

(** C5. No injection: the SQL text is a function of the terms' skeletons alone,
    so two queries that differ only in search values or header names compile
    to the same text; everything the user typed travels in the arguments. *)
Theorem sql_text_independent_of_values `{Unicode} (q q' : Query) :
  map skeleton (q_Terms q) = map skeleton (q_Terms q') ->
  (CompileSQL q).1 = (CompileSQL q').1 /\
  (CompileSQLHaving q).1 = (CompileSQLHaving q').1 /\
  (CompileSQLOrphans q).1 = (CompileSQLOrphans q').1.
Proof. intros Hq. repeat split; apply text_list; auto using text_term, text_having, text_orphan. Qed.

Lemma sql_text_independent_of_values_witness :
  let q v := mkQuery [mkTerm FieldHost v WildcardPrefix false true "" None None] in
  (CompileSQL (H := ascii_unicode) (q "api")).1 =
  (CompileSQL (H := ascii_unicode) (q "x%' OR '1'='1")).1.
Proof.
  apply (sql_text_independent_of_values (H := ascii_unicode)
    (mkQuery [mkTerm FieldHost "api" WildcardPrefix false true "" None None])
    (mkQuery [mkTerm FieldHost "x%' OR '1'='1" WildcardPrefix false true "" None None])).
  reflexivity.
Defined.

(** On an indexed column the SQL fragment with its bound argument selects
    exactly the rows the in-memory matcher accepts: exact, prefix and
    substring wildcards agree, with [%], [_] and [\] in the search value taken
    literally. *)
Lemma indexed_fragment_agrees `{SqlText} (col s : string) (t : Term) :
  eval_indexed col (indexedPredicate col t) s = Some (matchString s t).
Proof.
  unfold indexedPredicate, matchString. destruct (t_Wildcard t).
  - unfold eval_indexed. cbn [fst snd]. by rewrite String.eqb_refl.
  - by rewrite eval_indexed_like, like_prefix.
  - by rewrite eval_indexed_like, like_substring.
Qed.

Lemma indexed_fragment_agrees_witness :
  eval_indexed (H := sqlite_text) "cr.path"
    (indexedPredicate "cr.path" (mkTerm FieldPath "/a_b%" WildcardPrefix false false "" None None))
    "/a_b%/c" = Some true.
Proof. rewrite (indexed_fragment_agrees (H := sqlite_text)). reflexivity. Defined.

(** On a scanned column (body, headers text) the case-insensitive LIKE
    fragment agrees with the in-memory case-folded search for ASCII text. *)
Lemma scanned_fragment_agrees `{SqlText} `{Unicode} (col s : string) (t : Term) :
  is_ascii s = true ->
  eval_scanned col (scannedTextPredicate col t) s = Some (bodyContainsFold s (ToLower (t_Value t))).
Proof.
  intros Hs. unfold eval_scanned, scannedTextPredicate, likeNeedle. cbn [fst snd].
  rewrite String.eqb_refl, like_substring, lower_ascii. f_equal.
  unfold bodyContainsFold. replace (ToLower s) with (str_map lower_byte s) by (unfold ToLower; by rewrite Hs).
  destruct (String.eqb_spec (ToLower (t_Value t)) "") as [->|]; [|done]. by destruct (str_map lower_byte s).
Qed.

Lemma scanned_fragment_agrees_witness :
  eval_scanned (H := sqlite_text) "cr.body"
    (scannedTextPredicate (H := ascii_unicode) "cr.body"
      (mkTerm FieldBody "ToKeN" WildcardNone false false "" None None)) "x TOKEN=1" = Some true.
Proof. rewrite (scanned_fragment_agrees (H := sqlite_text) (H0 := ascii_unicode)); reflexivity. Defined.

(** U+00C9 and U+00E9 in UTF-8. *)
Definition E_acute : string := String (ascii_of_nat 195) (String (ascii_of_nat 137) "").
Definition e_acute : string := String (ascii_of_nat 195) (String (ascii_of_nat 169) "").

(** Outside ASCII the two backends differ: the needle is lowered by Go
    (Unicode) and the column by SQLite's LOWER (ASCII), so a body that is
    exactly the upper-case letter searched for is found in memory and missed
    by SQLite. *)
Lemma scanned_fragment_misses_non_ascii `{SqlText} `{Unicode} (col : string) :
  uni_lower E_acute = e_acute -> 
  let t := mkTerm FieldBody E_acute WildcardNone false false "" None None in
  bodyContainsFold E_acute (ToLower (t_Value t)) = true /\
  eval_scanned col (scannedTextPredicate col t) E_acute = Some false.
Proof.
  intros Hlow t.
  assert (ToLower E_acute = e_acute) as Hl by (unfold ToLower; simpl; exact Hlow).
  split.
  - unfold t. cbn [t_Value]. unfold bodyContainsFold. rewrite Hl. reflexivity.
  - unfold eval_scanned, scannedTextPredicate, likeNeedle, t. cbn [fst snd t_Value].
    rewrite String.eqb_refl, like_substring, lower_ascii, Hl. reflexivity.
Qed.

Definition latin_unicode : Unicode := {|
  uni_lower s := if String.eqb s E_acute then e_acute else s;
  uni_upper s := s
|}.

Lemma scanned_fragment_misses_non_ascii_witness :
  let t := mkTerm FieldBody E_acute WildcardNone false false "" None None in
  eval_scanned (H := sqlite_text) "cr.body"
    (scannedTextPredicate (H := latin_unicode) "cr.body" t) E_acute = Some false.
Proof.
  apply (scanned_fragment_misses_non_ascii (H := sqlite_text) (H0 := latin_unicode) "cr.body").
  reflexivity.
Defined.
