(* ===== verification/Sqlite.v ===== *)
(** * sinks/sqlite.go, the write side of the SQLite sink, and its sweeper

    The engine behind database/sql is code outside the repository. It is a
    record of operations on a [Database], the contents of the two tables; what
    the theorems need of it is stated per statement ([inserts], [deletes],
    [answers]): a statement either fails and changes nothing or has its
    documented relational meaning. A row is an association list of columns. *)
From S2P Require Import Prelude GoLib Record SearchSQL Json.

Open Scope string_scope.
Open Scope go_scope.

Definition NameSQLite : string := "sqlite".

(** ** Values, rows, tables *)

Inductive sqlVal := VNull | VInt (z : Z) | VText (s : string) | VBlob (s : string).

#[export] Instance sqlVal_eq_dec : EqDecision sqlVal.
Proof. solve_decision. Defined.

(** How database/sql hands a search argument to the driver. *)
Definition bind_arg (a : sqlArg) : sqlVal :=
  match a with ArgStr s => VText s | ArgInt z => VInt z end.

Abbreviation Row := (list (string * sqlVal)).

Record Database := mkDatabase { db_requests : list Row; db_events : list Row }.

Fixpoint cell (r : Row) (c : string) : sqlVal :=
  match r with
  | [] => VNull
  | (k, v) :: r' => if String.eqb k c then v else cell r' c
  end.

(** ** The engine *)

Record Engine := mkEngine {
  eng_exec : string -> list sqlVal -> Database -> result string (Database * Z);
  eng_query : string -> list sqlVal -> Database -> result string (list (list sqlVal));
  eng_begin : Database -> option string;
  eng_commit : Database -> option string
}.

(** ** Schema and statements *)

Definition sqliteSchema : string :=
  "
CREATE TABLE IF NOT EXISTS captured_requests (
    id TEXT PRIMARY KEY,
    timestamp INTEGER NOT NULL,
    service TEXT NOT NULL,
    service_source TEXT NOT NULL,
    host TEXT NOT NULL,
    correlation_id TEXT NOT NULL,
    correlation_source TEXT NOT NULL,
    method TEXT NOT NULL,
    path TEXT NOT NULL,
    source_ip TEXT NOT NULL,
    content_type TEXT NOT NULL,
    query TEXT NOT NULL,
    headers TEXT NOT NULL,
    cookies TEXT NOT NULL,
    body BLOB NOT NULL,
    body_truncated INTEGER NOT NULL,
    body_original_size INTEGER NOT NULL
);
CREATE INDEX IF NOT EXISTS idx_captured_requests_timestamp ON captured_requests(timestamp);
CREATE INDEX IF NOT EXISTS idx_captured_requests_service ON captured_requests(service);
CREATE INDEX IF NOT EXISTS idx_captured_requests_host ON captured_requests(host);
CREATE INDEX IF NOT EXISTS idx_captured_requests_correlation_id ON captured_requests(correlation_id);
CREATE INDEX IF NOT EXISTS idx_captured_requests_method ON captured_requests(method);
CREATE INDEX IF NOT EXISTS idx_captured_requests_path ON captured_requests(path);
CREATE INDEX IF NOT EXISTS idx_captured_requests_source_ip ON captured_requests(source_ip);

CREATE TABLE IF NOT EXISTS events (
    id TEXT PRIMARY KEY,
    timestamp INTEGER NOT NULL,
    type TEXT NOT NULL,
    correlation_id TEXT NOT NULL,
    service TEXT NOT NULL,
    service_source TEXT NOT NULL,
    status INTEGER,
    duration_ms INTEGER NOT NULL,
    request_method TEXT,
    request_path TEXT,
    request_headers TEXT,
    request_body BLOB,
    request_body_truncated INTEGER,
    request_body_original_size INTEGER,
    response_status INTEGER,
    response_headers TEXT,
    response_body BLOB,
    response_body_truncated INTEGER,
    response_body_original_size INTEGER
);
CREATE INDEX IF NOT EXISTS idx_events_timestamp ON events(timestamp);
CREATE INDEX IF NOT EXISTS idx_events_service ON events(service);
CREATE INDEX IF NOT EXISTS idx_events_correlation_id ON events(correlation_id);
CREATE INDEX IF NOT EXISTS idx_events_type ON events(type);
CREATE INDEX IF NOT EXISTS idx_events_status ON events(status);
CREATE INDEX IF NOT EXISTS idx_events_request_path ON events(request_path);
".

Definition sqlitePragmas : string :=
  "
PRAGMA journal_mode = WAL;
PRAGMA synchronous = NORMAL;
PRAGMA busy_timeout = 5000;
PRAGMA temp_store = MEMORY;
PRAGMA cache_size = -64000;
PRAGMA mmap_size = 268435456;
".

Definition sqliteInsertRequest : string :=
  "INSERT INTO captured_requests (
    id, timestamp, service, service_source, host, correlation_id, correlation_source,
    method, path, source_ip, content_type, query, headers, cookies,
    body, body_truncated, body_original_size
) VALUES (?, ?, ?, ?, ?, ?, ?, ?, ?, ?, ?, ?, ?, ?, ?, ?, ?)".

Definition sqliteInsertEvent : string :=
  "INSERT INTO events (
    id, timestamp, type, correlation_id, service, service_source,
    status, duration_ms,
    request_method, request_path, request_headers, request_body,
    request_body_truncated, request_body_original_size,
    response_status, response_headers, response_body,
    response_body_truncated, response_body_original_size
) VALUES (?, ?, ?, ?, ?, ?, ?, ?, ?, ?, ?, ?, ?, ?, ?, ?, ?, ?, ?)".

(** The columns of captured_requests in insert order; [true] where NULL is refused. *)
Definition request_schema : list (string * bool) :=
  [("id", false); ("timestamp", true); ("service", true); ("service_source", true);
   ("host", true); ("correlation_id", true); ("correlation_source", true); ("method", true);
   ("path", true); ("source_ip", true); ("content_type", true); ("query", true);
   ("headers", true); ("cookies", true); ("body", true); ("body_truncated", true);
   ("body_original_size", true)].

(** The columns of events in insert order; [true] where NULL is refused. *)
Definition event_schema : list (string * bool) :=
  [("id", false); ("timestamp", true); ("type", true); ("correlation_id", true);
   ("service", true); ("service_source", true); ("status", false); ("duration_ms", true);
   ("request_method", false); ("request_path", false); ("request_headers", false);
   ("request_body", false); ("request_body_truncated", false);
   ("request_body_original_size", false); ("response_status", false);
   ("response_headers", false); ("response_body", false); ("response_body_truncated", false);
   ("response_body_original_size", false)].

Definition request_columns : list string := request_schema.*1.
Definition event_columns : list string := event_schema.*1.

(** ** Inserting *)

(** A row for bound values: one value per column, no NULL where the schema
    refuses it, no row with the same primary key. *)
Definition insert_row (schema : list (string * bool)) (vals : list sqlVal) (table : list Row) : option (list Row) :=
  if negb (Nat.eqb (length vals) (length schema)) then None
  else if existsb (fun '(c, v) => (c.2 && bool_decide (v = VNull))%bool) (zip schema vals) then None
  else let row := zip schema.*1 vals in
       if existsb (fun r => bool_decide (cell r "id" = cell row "id")) table then None
       else Some (table ++ [row])%list.

(** What an INSERT does when the engine reports success. *)
Definition inserts (E : Engine) : Prop :=
  (forall vals db db' n, eng_exec E sqliteInsertRequest vals db = Ok (db', n) ->
     exists t, insert_row request_schema vals (db_requests db) = Some t /\ db' = mkDatabase t (db_events db)) /\
  (forall vals db db' n, eng_exec E sqliteInsertEvent vals db = Ok (db', n) ->
     exists t, insert_row event_schema vals (db_events db) = Some t /\ db' = mkDatabase (db_requests db) t).

(** An engine without faults refuses only what the schema refuses. *)
Definition inserts_succeed (E : Engine) : Prop :=
  (forall vals db, is_Some (insert_row request_schema vals (db_requests db)) ->
     is_ok (eng_exec E sqliteInsertRequest vals db) = true) /\
  (forall vals db, is_Some (insert_row event_schema vals (db_events db)) ->
     is_ok (eng_exec E sqliteInsertEvent vals db) = true).

(** ** Binding *)

(** [truncated := 0; if flag { truncated = 1 }] *)
Definition bool_int (b : bool) : sqlVal := VInt (if b then 1 else 0).

(** A nil byte slice binds NULL; an event without a body carries nil. A
    captured body is never nil. *)
Definition bind_event_body (s : string) : sqlVal := if String.eqb s "" then VNull else VBlob s.

(** [r.Headers[capture.HostHeader]], first value. *)
Definition request_host (r : CapturedRequest) : string :=
  match headers_of (cr_Headers r) !! "Host" with
  | Some (v :: _) => v
  | _ => ""
  end.

Definition request_values (r : CapturedRequest) : list sqlVal :=
  [VText (cr_ID r); VInt (UnixNano (cr_Timestamp r)); VText (cr_Service r); VText (cr_ServiceSource r);
   VText (request_host r); VText (cr_CorrelationID r); VText (cr_CorrelationSource r);
   VText (cr_Method r); VText (cr_Path r); VText (cr_SourceIP r); VText (cr_ContentType r);
   VBlob (MarshalHeader (cr_Query r)); VBlob (MarshalHeader (cr_Headers r)); VBlob (MarshalCookies (cr_Cookies r));
   VBlob (cr_Body r); bool_int (cr_BodyTruncated r); VInt (cr_BodyOriginalSize r)].

Definition response_values (r : ResponseEvent) : list sqlVal :=
  [VText (re_ID r); VInt (UnixNano (re_Timestamp r)); VText "response"; VText (re_CorrelationID r);
   VText (re_Service r); VText (re_ServiceSource r); VInt (re_Status r); VInt (re_DurationMS r);
   VNull; VNull; VNull; VNull; VNull; VNull; VNull;
   VBlob (MarshalHeader (re_Headers r)); bind_event_body (re_Body r);
   bool_int (re_BodyTruncated r); VInt (re_BodyOriginalSize r)].

Definition outbound_values (r : OutboundEvent) : list sqlVal :=
  let q := oe_Request r in
  let resp :=
    match oe_Response r with
    | None => [VNull; VNull; VNull; VNull; VNull]
    | Some p => [VInt (os_Status p); VBlob (MarshalHeader (os_Headers p)); bind_event_body (os_Body p);
                 bool_int (os_BodyTruncated p); VInt (os_BodyOriginalSize p)]
    end in
  ([VText (oe_ID r); VInt (UnixNano (oe_Timestamp r)); VText "outbound"; VText (oe_CorrelationID r);
    VText (oe_Service r); VText (oe_ServiceSource r); VNull; VInt (oe_DurationMS r);
    VText (oq_Method q); VText (oq_Path q); VBlob (MarshalHeader (oq_Headers q)); bind_event_body (oq_Body q);
    bool_int (oq_BodyTruncated q); VInt (oq_BodyOriginalSize q)] ++ resp)%list.

(** Marshalling header maps and cookies cannot fail, so the marshal errors of
    the three writers have no branch here. A failed statement leaves the
    tables as they were. *)
Section Write.
Variable E : Engine.

Definition exec_insert (what id stmt : string) (vals : list sqlVal) (db : Database) : Database * result string unit :=
  match eng_exec E stmt vals db with
  | Ok (db', _) => (db', Ok tt)
  | Err e => (db, Err ("insert " +:+ what +:+ " " +:+ id +:+ ": " +:+ e))
  end.

Definition writeCapturedRequest (db : Database) (r : CapturedRequest) :=
  exec_insert "request" (cr_ID r) sqliteInsertRequest (request_values r) db.
Definition writeResponseEvent (db : Database) (r : ResponseEvent) :=
  exec_insert "response event" (re_ID r) sqliteInsertEvent (response_values r) db.
Definition writeOutboundEvent (db : Database) (r : OutboundEvent) :=
  exec_insert "outbound event" (oe_ID r) sqliteInsertEvent (outbound_values r) db.

Definition SQLite_Write (db : Database) (r : CRecord) : Database * result string unit :=
  match r with
  | RRequest v => writeCapturedRequest db v
  | RResponse v => writeResponseEvent db v
  | ROutbound v => writeOutboundEvent db v
  end.

End Write.

(** [Close]: both statements and the handle are closed whatever fails; the
    first error in that order is returned. *)
Definition SQLite_Close (reqErr evtErr dbErr : option string) : option string :=
  match reqErr with
  | Some _ => reqErr
  | None => match evtErr with Some _ => evtErr | None => dbErr end
  end.

(** ** sqlite_sweeper.go *)

Definition defaultSweeperInterval : duration := (60 * second)%Z.

Record SweeperPolicy := mkSweeperPolicy { sp_MaxAge : duration; sp_MaxCount : Z }.

Definition deleteOldRequests : string := "DELETE FROM captured_requests WHERE timestamp < ?".
Definition deleteOldEvents : string := "DELETE FROM events WHERE timestamp < ?".
Definition trimRequests : string :=
  "DELETE FROM captured_requests WHERE id NOT IN (
				SELECT id FROM captured_requests ORDER BY timestamp DESC LIMIT ?
			)".
Definition trimEvents : string :=
  "DELETE FROM events WHERE id NOT IN (
				SELECT id FROM events ORDER BY timestamp DESC LIMIT ?
			)".

Section Sweep.
Variable E : Engine.

(** Begin, two deletes, commit; a failing delete rolls back, a failing commit
    leaves the tables as they were. [RowsAffected] counts are summed as int64. *)
Definition run_tx (reqStmt evtStmt : string) (arg : sqlVal) (db : Database) : Database * result string Z :=
  match eng_begin E db with
  | Some e => (db, Err e)
  | None =>
      match eng_exec E reqStmt [arg] db with
      | Err e => (db, Err e)
      | Ok (db1, n1) =>
          match eng_exec E evtStmt [arg] db1 with
          | Err e => (db, Err e)
          | Ok (db2, n2) =>
              match eng_commit E db2 with
              | Some e => (db, Err e)
              | None => (db2, Ok (wrap_i64 (wrap_i64 (0 + n1) + n2)))
              end
          end
      end
  end.

(** [now] is the clock reading; the checkpoint after a commit moves pages
    between files and its error is ignored. *)
Definition SQLite_Sweep (pol : SweeperPolicy) (now : time) (db : Database) : Database * result string Z :=
  if ((sp_MaxAge pol =? 0) && (sp_MaxCount pol =? 0))%Z then (db, Ok 0%Z)
  else if (sp_MaxAge pol >? 0)%Z then
    let cutoff := wrap_i64 (UnixNano now - sp_MaxAge pol) in
    run_tx deleteOldRequests deleteOldEvents (VInt cutoff) db
  else run_tx trimRequests trimEvents (VInt (sp_MaxCount pol)) db.

(** [StartSweeper]'s loop: one sweep per tick, errors logged and ignored. The
    ticks are the clock readings before the context is cancelled. *)
Definition sweeper_interval (interval : duration) : duration :=
  if (interval <=? 0)%Z then defaultSweeperInterval else interval.

Fixpoint sweeper_loop (pol : SweeperPolicy) (ticks : list time) (db : Database) : Database :=
  match ticks with
  | [] => db
  | now :: rest => sweeper_loop pol rest (SQLite_Sweep pol now db).1
  end.

End Sweep.

(** ** What the deletes do *)

Definition timestamp_of (r : Row) : Z := match cell r "timestamp" with VInt z => z | _ => 0%Z end.

Definition older_than (cutoff : Z) (r : Row) : bool := (timestamp_of r <? cutoff)%Z.

(** [ids] are the ids a SELECT id ... ORDER BY timestamp DESC LIMIT n may
    return: those of the first n rows (all of them for a negative n) of some
    arrangement by descending timestamp. *)
Definition newest_ids (table : list Row) (n : Z) (ids : list sqlVal) : Prop :=
  exists sorted, sorted ≡ₚ table /\
    StronglySorted (fun a b => (timestamp_of b <= timestamp_of a)%Z) sorted /\
    ids = (fun r => cell r "id") <$> (if (n <? 0)%Z then sorted else take (Z.to_nat n) sorted).

(** A successful DELETE keeps exactly the rows its condition does not select,
    in place, and reports how many went. *)
Definition deletes_where (gone : Row -> bool) (table table' : list Row) (n : Z) : Prop :=
  table' = filter (fun r => gone r = false) table /\ n = (Z.of_nat (length table) - Z.of_nat (length table'))%Z.

Definition not_in (ids : list sqlVal) (r : Row) : bool := negb (bool_decide (cell r "id" ∈ ids)).

Record deletes (E : Engine) : Prop := {
  del_old_requests : forall c db db' n, eng_exec E deleteOldRequests [VInt c] db = Ok (db', n) ->
    db_events db' = db_events db /\ deletes_where (older_than c) (db_requests db) (db_requests db') n;
  del_old_events : forall c db db' n, eng_exec E deleteOldEvents [VInt c] db = Ok (db', n) ->
    db_requests db' = db_requests db /\ deletes_where (older_than c) (db_events db) (db_events db') n;
  del_trim_requests : forall k db db' n, eng_exec E trimRequests [VInt k] db = Ok (db', n) ->
    db_events db' = db_events db /\ exists ids, newest_ids (db_requests db) k ids /\
    deletes_where (not_in ids) (db_requests db) (db_requests db') n;
  del_trim_events : forall k db db' n, eng_exec E trimEvents [VInt k] db = Ok (db', n) ->
    db_requests db' = db_requests db /\ exists ids, newest_ids (db_events db) k ids /\
    deletes_where (not_in ids) (db_events db) (db_events db') n
}.
