(* ===== verification/SqlQuery.v ===== *)
(** * The SQL the reader sends, as syntax with a meaning

    The reader builds statement text. To say what a statement means, the
    conditions that occur in it are given a syntax ([cond], [clause]), a
    rendering that is the text, and SQL's three-valued evaluation over the
    tables with the placeholders filled left to right. An operand is the text
    of a scalar expression, looked up in an environment; the aggregates of the
    HAVING clause are operands too. *)
From S2P Require Import Prelude GoLib Record SearchQL SearchSQL SearchSQLFacts Json JsonFacts Sqlite.

Open Scope string_scope.

(** ** Syntax *)

Inductive cond :=
| CEq (x : string)
| CLike (x : string)
| CScan (x : string)
| CJson (x : string)
| CLt (x : string)
| CGe (x : string)
| CBetween (x : string)
| CIsText (x lit : string)
| CPositive (x : string)
| CIsZero (x : string)
| COr (a b : cond)
| CAnd (a b : cond)
| CParen (a : cond)
| CExists (a : cond).

(** The selects an IN list is a union of. *)
Inductive source := FromRequests | FromEvents | FromCorrelated.

Inductive clause :=
| Plain (c : cond)
| InUnion (x : string) (arms : list (source * cond))
| Negate (cl : clause).

(** ** Text *)

Fixpoint render (c : cond) : string :=
  match c with
  | CEq x => x +:+ " = ?"
  | CLike x => x +:+ " LIKE ? ESCAPE '\'"
  | CScan x => scannedTextLike x
  | CJson x => jsonEachLike x
  | CLt x => x +:+ " < ?"
  | CGe x => x +:+ " >= ?"
  | CBetween x => x +:+ " BETWEEN ? AND ?"
  | CIsText x lit => x +:+ " = '" +:+ lit +:+ "'"
  | CPositive x => x +:+ " > 0"
  | CIsZero x => x +:+ " = 0"
  | COr a b => render a +:+ " OR " +:+ render b
  | CAnd a b => render a +:+ " AND " +:+ render b
  | CParen a => "(" +:+ render a +:+ ")"
  | CExists a =>
      "EXISTS (SELECT 1 FROM events e_h WHERE e_h.correlation_id = cr.correlation_id AND (" +:+ render a +:+ "))"
  end.

Definition render_source (s : source) : string :=
  match s with
  | FromRequests => "SELECT id FROM captured_requests WHERE "
  | FromEvents => "SELECT id FROM events WHERE "
  | FromCorrelated =>
      "SELECT cr_ff.id FROM captured_requests cr_ff JOIN events e_ff ON e_ff.correlation_id = cr_ff.correlation_id WHERE "
  end.

Fixpoint render_clause (cl : clause) : string :=
  match cl with
  | Plain c => render c
  | InUnion x arms =>
      x +:+ " IN (" +:+ Join (map (fun '(s, c) => render_source s +:+ render c) arms) " UNION " +:+ ")"
  | Negate cl => "NOT (" +:+ render_clause cl +:+ ")"
  end.

(** Read by SQL's precedence (OR below AND below the rest) the text is the
    syntax it was rendered from. *)
Definition prec (c : cond) : nat :=
  match c with COr _ _ => 1 | CAnd _ _ => 2 | _ => 3 end.

Fixpoint well_formed (c : cond) : bool :=
  match c with
  | COr a b => well_formed a && well_formed b && (2 <=? prec b)%nat
  | CAnd a b => well_formed a && well_formed b && (2 <=? prec a)%nat && (3 <=? prec b)%nat
  | CParen a | CExists a => well_formed a
  | _ => true
  end.

(** A clause stands between ANDs, or alone inside NOT's parentheses. *)
Definition well_formed_clause (cl : clause) : bool :=
  match cl with
  | Plain c => well_formed c && (2 <=? prec c)%nat
  | InUnion _ arms => forallb (fun '(_, c) => well_formed c) arms
  | Negate (Plain c) => well_formed c
  | Negate (InUnion _ arms) => forallb (fun '(_, c) => well_formed c) arms
  | Negate _ => false
  end.

(** ** Placeholders *)

Fixpoint arity (c : cond) : nat :=
  match c with
  | CEq _ | CLike _ | CScan _ | CLt _ | CGe _ => 1
  | CJson _ | CBetween _ => 2
  | CIsText _ _ | CPositive _ | CIsZero _ => 0
  | COr a b | CAnd a b => arity a + arity b
  | CParen a | CExists a => arity a
  end.

Fixpoint clause_arity (cl : clause) : nat :=
  match cl with
  | Plain c => arity c
  | InUnion _ arms => sum_list (map (fun '(_, c) => arity c) arms)
  | Negate cl => clause_arity cl
  end.

Definition clauses_arity (cls : list clause) : nat := sum_list (map clause_arity cls).

(** ** Three-valued logic; [None] is NULL *)

Definition and3 (a b : option bool) : option bool :=
  match a, b with
  | Some false, _ | _, Some false => Some false
  | Some true, Some true => Some true
  | _, _ => None
  end.

Definition or3 (a b : option bool) : option bool :=
  match a, b with
  | Some true, _ | _, Some true => Some true
  | Some false, Some false => Some false
  | _, _ => None
  end.

Definition not3 (a : option bool) : option bool := negb <$> a.

(** ** Evaluation *)

Definition lookup_env (env : Row) (x : string) : sqlVal := cell env x.

(** Comparison of a column with a value of its own storage class; columns of
    this schema are never compared across classes. *)
Definition eq3 (v w : sqlVal) : option bool :=
  match v, w with
  | VNull, _ | _, VNull => None
  | _, _ => Some (bool_decide (v = w))
  end.

Definition lt3 (v w : sqlVal) : option bool :=
  match v, w with
  | VNull, _ | _, VNull => None
  | VInt a, VInt b => Some (a <? b)%Z
  | VText a, VText b => Some (str_ltb a b)
  | _, _ => Some false
  end.

Definition int3 (v : sqlVal) (f : Z -> bool) : option bool :=
  match v with VNull => None | VInt z => Some (f z) | _ => Some false end.

(** CAST AS TEXT reads a blob's bytes as text. *)
Definition as_text (v : sqlVal) : option string :=
  match v with VNull => None | VText s | VBlob s => Some s | VInt z => Some (Itoa z) end.

Definition arg (n : nat) (args : list sqlVal) : sqlVal := default VNull (args !! n).

Definition text_arg (n : nat) (args : list sqlVal) : string :=
  match arg n args with VText s => s | _ => "" end.

(** SQLite's JSON functions as the header search uses them: the strings
    json_each lists for the value json_extract finds in a stored header map.
    The law is the documented meaning of a quoted path on an object of valid
    text. *)
Class SqlJson := {
  json_each_values : string -> string -> list string;
  json_each_header : forall h name, valid_header h ->
    str_forall (fun c => negb (Ascii.eqb c dquote || Ascii.eqb c backslash)) name = true ->
    json_each_values (MarshalHeader h) (jsonHeaderPath name) = default [] (headers_of h !! name)
}.

Section Eval.
Context `{SqlText} `{SqlJson}.
Variable db : Database.

Definition alias (a : string) (r : Row) : Row := map (fun '(c, v) => (a +:+ "." +:+ c, v)) r.

Fixpoint eval (env : Row) (c : cond) (args : list sqlVal) : option bool :=
  match c with
  | CEq x => eq3 (lookup_env env x) (arg 0 args)
  | CLike x => (fun s => sql_like (text_arg 0 args) s) <$> as_text (lookup_env env x)
  | CScan x => (fun s => sql_like (text_arg 0 args) (sql_lower s)) <$> as_text (lookup_env env x)
  | CJson x =>
      Some (match as_text (lookup_env env x) with
            | None => false
            | Some s => existsb (fun v => sql_like (text_arg 1 args) (sql_lower v))
                          (json_each_values s (text_arg 0 args))
            end)
  | CLt x => lt3 (lookup_env env x) (arg 0 args)
  | CGe x => not3 (lt3 (lookup_env env x) (arg 0 args))
  | CBetween x =>
      and3 (not3 (lt3 (lookup_env env x) (arg 0 args))) (not3 (lt3 (arg 1 args) (lookup_env env x)))
  | CIsText x lit => eq3 (lookup_env env x) (VText lit)
  | CPositive x => int3 (lookup_env env x) (fun z => z >? 0)%Z
  | CIsZero x => int3 (lookup_env env x) (fun z => z =? 0)%Z
  | COr a b => or3 (eval env a (take (arity a) args)) (eval env b (drop (arity a) args))
  | CAnd a b => and3 (eval env a (take (arity a) args)) (eval env b (drop (arity a) args))
  | CParen a => eval env a args
  | CExists a =>
      Some (existsb (fun e =>
        bool_decide (eq3 (cell e "correlation_id") (lookup_env env "cr.correlation_id") = Some true) &&
        bool_decide (eval (alias "e_h" e ++ env)%list a args = Some true)) (db_events db))
  end.

(** The rows an arm ranges over, with the environment its condition sees and
    the id it selects. *)
Definition source_rows (s : source) : list (Row * sqlVal) :=
  match s with
  | FromRequests => (fun r => (r, cell r "id")) <$> db_requests db
  | FromEvents => (fun r => (r, cell r "id")) <$> db_events db
  | FromCorrelated =>
      r ← db_requests db;
      (fun e => ((alias "e_ff" e ++ alias "cr_ff" r)%list, cell r "id")) <$>
        filter (fun e => eq3 (cell e "correlation_id") (cell r "correlation_id") = Some true) (db_events db)
  end.

Definition arm_ids (s : source) (c : cond) (args : list sqlVal) : list sqlVal :=
  snd <$> filter (fun rv => eval rv.1 c args = Some true) (source_rows s).

Fixpoint arms_ids (arms : list (source * cond)) (args : list sqlVal) : list sqlVal :=
  match arms with
  | [] => []
  | (s, c) :: rest => (arm_ids s c (take (arity c) args) ++ arms_ids rest (drop (arity c) args))%list
  end.

(** IN is NULL for a NULL operand; the listed ids are never NULL. *)
Fixpoint eval_clause (env : Row) (cl : clause) (args : list sqlVal) : option bool :=
  match cl with
  | Plain c => eval env c args
  | InUnion x arms =>
      match lookup_env env x with
      | VNull => None
      | v => Some (bool_decide (v ∈ arms_ids arms args))
      end
  | Negate cl => not3 (eval_clause env cl args)
  end.

(** Clauses joined by AND. *)
Fixpoint eval_clauses (env : Row) (cls : list clause) (args : list sqlVal) : option bool :=
  match cls with
  | [] => Some true
  | cl :: rest =>
      and3 (eval_clause env cl (take (clause_arity cl) args))
           (eval_clauses env rest (drop (clause_arity cl) args))
  end.

Definition selected (env : Row) (cls : list clause) (args : list sqlVal) : bool :=
  bool_decide (eval_clauses env cls args = Some true).

End Eval.

(** ** The clauses the compiler emits *)

Definition indexed_cond (x : string) (t : Term) : cond :=
  match t_Wildcard t with WildcardNone => CEq x | _ => CLike x end.

Definition sign (t : Term) (cl : clause) : clause := if t_Negated t then Negate cl else cl.

Definition or_all (c : cond) (cs : list cond) : cond := foldl COr c cs.

(** A term's clause on captured requests; [None] where the compiler emits
    nothing. *)
Definition term_clause (t : Term) : option clause :=
  sign t <$>
  match t_Field t with
  | FieldFree =>
      Some (InUnion "cr.id"
        [(FromRequests, indexed_cond "host" t); (FromRequests, indexed_cond "path" t);
         (FromRequests, indexed_cond "service" t); (FromRequests, CScan "body"); (FromRequests, CScan "headers");
         (FromCorrelated, or_all (indexed_cond "e_ff.request_path" t)
            [CScan "e_ff.request_body"; CScan "e_ff.request_headers";
             CScan "e_ff.response_body"; CScan "e_ff.response_headers"])])
  | FieldHost => Some (Plain (indexed_cond "cr.host" t))
  | FieldPath => Some (Plain (indexed_cond "cr.path" t))
  | FieldService => Some (Plain (indexed_cond "cr.service" t))
  | FieldBody => Some (Plain (CScan "cr.body"))
  | FieldHeaders =>
      Some (Plain (CParen (COr (CScan "cr.headers")
        (CExists (COr (CScan "e_h.request_headers") (CScan "e_h.response_headers"))))))
  | FieldHeader =>
      Some (Plain (CParen (COr (CJson "cr.headers")
        (CExists (COr (CJson "e_h.request_headers") (CJson "e_h.response_headers"))))))
  | FieldMethod => Some (Plain (CEq "cr.method"))
  | FieldSourceIP => Some (Plain (CEq "cr.source_ip"))
  | FieldCorrelationID => Some (Plain (CEq "cr.correlation_id"))
  | FieldStatus | FieldHasEvents => None
  end.

Definition having_clause (t : Term) : option clause :=
  match t_Field t, t_StatusFilter t, t_HasEvents t with
  | FieldStatus, Some sf, _ =>
      Some (sign t (Plain (if Z.eqb (sf_Exact sf) 0 then CBetween max_status else CEq max_status)))
  | FieldHasEvents, _, Some b =>
      Some (sign t (Plain (if b then CPositive "COUNT(e.id)" else CIsZero "COUNT(e.id)")))
  | _, _, _ => None
  end.

Definition orphan_clause (t : Term) : option clause :=
  sign t <$>
  match t_Field t with
  | FieldService => Some (Plain (indexed_cond "e.service" t))
  | FieldCorrelationID => Some (Plain (CEq "e.correlation_id"))
  | FieldHeaders => Some (Plain (CParen (COr (CScan "e.request_headers") (CScan "e.response_headers"))))
  | FieldHeader => Some (Plain (CParen (COr (CJson "e.request_headers") (CJson "e.response_headers"))))
  | FieldStatus =>
      match t_StatusFilter t with
      | None => None
      | Some sf =>
          Some (Plain (CAnd (CIsText "e.type" "response")
            (if Z.eqb (sf_Exact sf) 0 then CBetween "e.status" else CEq "e.status")))
      end
  | FieldFree =>
      Some (InUnion "e.id"
        [(FromEvents, indexed_cond "service" t); (FromEvents, indexed_cond "request_path" t);
         (FromEvents, CScan "request_body"); (FromEvents, CScan "request_headers");
         (FromEvents, CScan "response_body"); (FromEvents, CScan "response_headers")])
  | _ => None
  end.

(** A compiler's fragments are renderings of clauses of the same arity. *)
Definition renders (compile : Term -> fragment) (ast : Term -> option clause) : Prop :=
  forall t, match ast t with
            | Some cl => compile t = (render_clause cl, (compile t).2) /\ render_clause cl <> "" /\
                length (compile t).2 = clause_arity cl /\ well_formed_clause cl = true
            | None => compile t = ("", [])
            end.

Section Renders.
Context `{Unicode}.

Lemma term_renders : renders compileTermSQL term_clause.
Proof.
  intros t. unfold compileTermSQL, term_clause, freeformPredicate, indexedPredicate, indexed_cond, sign, negate.
  by destruct (t_Field t), (t_Wildcard t), (t_Negated t).
Qed.

Lemma having_renders : renders compileHavingTerm having_clause.
Proof.
  intros t. unfold compileHavingTerm, having_clause, negate, sign.
  destruct (t_Field t), (t_StatusFilter t) as [sf|], (t_HasEvents t) as [[]|], (t_Negated t);
    try done; destruct (Z.eqb (sf_Exact sf) 0), (ClassRange sf); done.
Qed.

Lemma orphan_renders : renders compileOrphanTerm orphan_clause.
Proof.
  intros t.
  unfold compileOrphanTerm, orphan_clause, freeformOrphanPredicate, indexedPredicate, indexed_cond, negate, sign.
  destruct (t_Field t), (t_Wildcard t), (t_Negated t), (t_StatusFilter t) as [sf|];
    try done; destruct (Z.eqb (sf_Exact sf) 0), (ClassRange sf); done.
Qed.
End Renders.
