(* ===== verification/MemorySink.v ===== *)
(** * sinks/memory.go: the bounded ring of recent records

    The mutex serialises [Write] and the readers, so each is one atomic step
    here. Ring positions are [nat]s below the capacity. *)
From S2P Require Import Prelude GoLib Record.

Record MemorySink := mkMemorySink {
  ms_buf : list (option CRecord);
  ms_head : nat;
  ms_size : nat;
  ms_capacity : nat;
  ms_corrIdx : gmap string nat
}.

Definition NewMemorySink (capacity : Z) : MemorySink :=
  let c := Z.to_nat (if (capacity <? 1)%Z then 1 else capacity) in
  mkMemorySink (replicate c None) 0 0 c ∅.

Definition Len (s : MemorySink) : nat := ms_size s.

Definition Write (s : MemorySink) (r : CRecord) : MemorySink :=
  let pos := ms_head s in
  let idx :=
    if (ms_size s =? ms_capacity s)%nat then
      match ms_buf s !! pos with
      | Some (Some old) =>
          let cid := RecordCorrelationID old in
          (** a missing key reads as position 0 *)
          if (default 0 (ms_corrIdx s !! cid) =? pos)%nat
          then delete cid (ms_corrIdx s) else ms_corrIdx s
      | _ => ms_corrIdx s
      end
    else ms_corrIdx s in
  mkMemorySink
    (<[pos := Some r]> (ms_buf s))
    ((ms_head s + 1) mod ms_capacity s)
    (if (ms_size s <? ms_capacity s)%nat then ms_size s + 1 else ms_size s)
    (ms_capacity s)
    (<[RecordCorrelationID r := pos]> idx).

(** The loop of [Recent]: [n] reads going back from [idx]; [head - 1 + capacity]
    is written [head + capacity - 1] to stay in [nat]. *)
Fixpoint recent_loop (buf : list (option CRecord)) (cap n idx : nat) : list (option CRecord) :=
  match n with
  | 0 => []
  | S k => default None (buf !! idx) :: recent_loop buf cap k ((idx + cap - 1) mod cap)
  end.

Definition Recent (s : MemorySink) (n : Z) : list (option CRecord) :=
  if (n <=? 0)%Z then [] else
  let n := if (n >? Z.of_nat (ms_size s))%Z then ms_size s else Z.to_nat n in
  recent_loop (ms_buf s) (ms_capacity s) n ((ms_head s + ms_capacity s - 1) mod ms_capacity s).

Definition ByCorrelationID (s : MemorySink) (cid : string) : option CRecord :=
  match ms_corrIdx s !! cid with
  | None => None
  | Some pos => default None (ms_buf s !! pos)
  end.

(** [s.Recent(s.Len())] as the readers use it: the entries are never nil
    ([Recent_repr]), so dereferencing them is total. *)
Definition snapshot (s : MemorySink) : list CRecord := omap id (Recent s (Z.of_nat (Len s))).

(** Correlation ids that have a captured request. *)
Definition request_corrs (all : list CRecord) : gset string :=
  list_to_set (omap (fun r => match r with RRequest v => Some (cr_CorrelationID v) | _ => None end) all).

Definition OrphanCounts (s : MemorySink) : nat * nat :=
  let all := snapshot s in
  let corrs := request_corrs all in
  fold_left (fun '(response, outbound) r =>
    if bool_decide (RecordCorrelationID r ∈ corrs) then (response, outbound)
    else match r with
         | RResponse _ => (S response, outbound)
         | ROutbound _ => (response, S outbound)
         | RRequest _ => (response, outbound)
         end) all (0, 0).

(** ** The ring represents a list, newest first *)

(** Position of the [i]-th newest record. *)
Definition slot (head cap i : nat) : nat :=
  if decide (i < head) then head - 1 - i else head + cap - 1 - i.

(** Index of the newest record of a correlation id. *)
Definition newest (cid : string) (l : list CRecord) : option nat :=
  fst <$> list_find (fun r => RecordCorrelationID r = cid) l.

Record ring_repr (s : MemorySink) (l : list CRecord) : Prop := {
  rr_len : length (ms_buf s) = ms_capacity s;
  rr_head : ms_head s < ms_capacity s;
  rr_size : ms_size s = length l;
  rr_fit : length l <= ms_capacity s;
  rr_buf : forall i r, l !! i = Some r -> ms_buf s !! slot (ms_head s) (ms_capacity s) i = Some (Some r);
  rr_idx : forall cid, ms_corrIdx s !! cid = slot (ms_head s) (ms_capacity s) <$> newest cid l
}.

Lemma mod_wrap a cap : a < 2 * cap -> a mod cap = if decide (a < cap) then a else a - cap.
Proof.
  intros Ha. case_decide; [by apply Nat.mod_small|].
  replace a with (a - cap + 1 * cap) at 1 by lia. rewrite Nat.Div0.mod_add. apply Nat.mod_small. lia.
Qed.

(** Moving the head by one shifts every position by one. *)
Lemma slot_next h cap i : h < cap -> S i < cap -> slot ((h + 1) mod cap) cap (S i) = slot h cap i.
Proof. intros. rewrite mod_wrap by lia. unfold slot. repeat case_decide; lia. Qed.

Lemma slot_newest h cap : h < cap -> slot ((h + 1) mod cap) cap 0 = h.
Proof. intros. rewrite mod_wrap by lia. unfold slot. repeat case_decide; lia. Qed.

Lemma slot_oldest h cap i : h < cap -> i < cap -> slot h cap i = h <-> S i = cap.
Proof. intros. unfold slot. case_decide; lia. Qed.

Lemma slot_back h cap i : h < cap -> S i < cap -> (slot h cap i + cap - 1) mod cap = slot h cap (S i).
Proof. intros. unfold slot. repeat case_decide; rewrite mod_wrap; try case_decide; lia. Qed.

Lemma NewMemorySink_repr c : ring_repr (NewMemorySink c) [].
Proof.
  unfold NewMemorySink. destruct (Z.ltb_spec c 1); split; simpl;
    rewrite ?length_replicate; intros; try done; try lia; apply lookup_empty.
Qed.

Lemma newest_cons cid r l :
  newest cid (r :: l) = if decide (RecordCorrelationID r = cid) then Some 0 else S <$> newest cid l.
Proof.
  unfold newest. cbn [list_find]. destruct (decide _); [done|]. by destruct (list_find _ l) as [[??]|].
Qed.

Lemma newest_take cid n l :
  newest cid (take n l) = i ← newest cid l; if decide (i < n) then Some i else None.
Proof.
  revert n. induction l as [|r l IH]; intros [|n]; [done | done | |]; cbn [take].
  { by destruct (newest cid (r :: l)). }
  rewrite !newest_cons, IH. destruct (decide _); [done|].
  destruct (newest cid l) as [i|]; [|done]. simpl. repeat case_decide; done || lia.
Qed.

Lemma newest_Some cid l i :
  newest cid l = Some i -> exists r, l !! i = Some r /\ RecordCorrelationID r = cid.
Proof.
  unfold newest. rewrite fmap_Some. intros ([j r] & (Hl & Hc & _)%list_find_Some & ->). eauto.
Qed.

Lemma newest_bound cid l i : newest cid l = Some i -> i < length l.
Proof. intros (r & H & _)%newest_Some. by apply lookup_lt_Some in H. Qed.

Lemma newest_here cid l r i : l !! i = Some r -> RecordCorrelationID r = cid -> is_Some (newest cid l).
Proof.
  intros Hl Hc. unfold newest. rewrite fmap_is_Some.
  destruct (list_find _ l) eqn:E; [done|]. apply list_find_None in E.
  rewrite Forall_lookup in E. by destruct (E i r).
Qed.


(** [corrIdx] after the eviction clean-up no longer mentions the overwritten slot. *)
Lemma evict_idx s l :
  ring_repr s l ->
  forall cid,
    (if (ms_size s =? ms_capacity s)%nat then
       match ms_buf s !! ms_head s with
       | Some (Some old) =>
           if (default 0 (ms_corrIdx s !! RecordCorrelationID old) =? ms_head s)%nat
           then delete (RecordCorrelationID old) (ms_corrIdx s) else ms_corrIdx s
       | _ => ms_corrIdx s
       end
     else ms_corrIdx s) !! cid
    = slot (ms_head s) (ms_capacity s) <$> newest cid (take (ms_capacity s - 1) l).
Proof.
  intros [Hlen Hhead Hsize Hfit Hbuf Hidx] cid. rewrite newest_take.
  destruct (Nat.eqb_spec (ms_size s) (ms_capacity s)) as [Hfull|Hfree].
  2:{ rewrite Hidx. destruct (newest cid l) as [i|] eqn:E; [|done]. simpl.
      apply newest_bound in E. case_decide; [done|lia]. }
  destruct (lookup_lt_is_Some_2 l (ms_capacity s - 1)) as [old Hold]; [lia|].
  pose proof (Hbuf _ _ Hold) as Hb.
  rewrite (proj2 (slot_oldest _ _ (ms_capacity s - 1) Hhead ltac:(lia)) ltac:(lia)) in Hb. rewrite Hb.
  destruct (newest_here _ _ _ _ Hold eq_refl) as [k Hk]. rewrite Hidx, Hk. simpl.
  pose proof (newest_bound _ _ _ Hk) as Hkb.
  pose proof (slot_oldest (ms_head s) (ms_capacity s) k Hhead ltac:(lia)) as Hslot.
  destruct (Nat.eqb_spec (slot (ms_head s) (ms_capacity s) k) (ms_head s)) as [Heq|Hne].
  - apply Hslot in Heq. destruct (decide (cid = RecordCorrelationID old)) as [->|Hc].
    + rewrite lookup_delete_eq, Hk. simpl. case_decide; [lia|done].
    + rewrite lookup_delete_ne, Hidx by done.
      destruct (newest cid l) as [i|] eqn:E; [|done]. simpl. case_decide; [done|].
      apply newest_Some in E as (r & Hr & <-). apply lookup_lt_Some in Hr as Hi.
      replace i with (ms_capacity s - 1) in Hr by lia. congruence.
  - rewrite Hidx. destruct (newest cid l) as [i|] eqn:E; [|done]. simpl. case_decide; [done|].
    apply newest_Some in E as E'. destruct E' as (r & Hr & Hc). apply lookup_lt_Some in Hr as Hi.
    assert (i = ms_capacity s - 1) by lia. subst i. simplify_eq. destruct Hne. apply Hslot. lia.
Qed.

Lemma Write_repr s l r : ring_repr s l -> ring_repr (Write s r) (take (ms_capacity s) (r :: l)).
Proof.
  intros R. pose proof (evict_idx s l R) as Hev. destruct R as [Hlen Hhead Hsize Hfit Hbuf Hidx].
  assert (Hc : 0 < ms_capacity s) by lia.
  split; unfold Write; cbn [ms_buf ms_head ms_size ms_capacity ms_corrIdx].
  - by rewrite length_insert.
  - apply Nat.mod_upper_bound. lia.
  - rewrite length_take. simpl. destruct (Nat.ltb_spec (ms_size s) (ms_capacity s)); lia.
  - rewrite length_take. lia.
  - intros i r' (Hi & Hlt)%lookup_take_Some. destruct i as [|i]; simpl in Hi.
    + simplify_eq. rewrite slot_newest by done. apply list_lookup_insert_eq. lia.
    + rewrite slot_next by lia. rewrite list_lookup_insert_ne; [by apply Hbuf|].
      intros Heq. symmetry in Heq. apply slot_oldest in Heq; lia.
  - intros cid. destruct (ms_capacity s) as [|c] eqn:Ecap; [lia|]. cbn [take]. rewrite newest_cons.
    destruct (decide _) as [<-|Hne].
    + rewrite lookup_insert_eq. cbn [fmap option_fmap option_map]. by rewrite slot_newest.
    + rewrite lookup_insert_ne by done. rewrite Hev. replace (S c - 1) with c by lia.
      destruct (newest cid (take c l)) as [i|] eqn:E; [|done]. cbn [fmap option_fmap option_map].
      apply newest_bound in E. rewrite length_take in E. rewrite slot_next by lia. done.
Qed.

Lemma recent_loop_repr s l n i :
  ring_repr s l -> i + n <= length l ->
  recent_loop (ms_buf s) (ms_capacity s) n (slot (ms_head s) (ms_capacity s) i)
  = Some <$> take n (drop i l).
Proof.
  intros R. revert i. induction n as [|n IH]; intros i Hn; [done|].
  destruct (lookup_lt_is_Some_2 l i) as [r Hr]; [lia|]. cbn [recent_loop].
  rewrite (rr_buf _ _ R _ _ Hr), (drop_S _ _ _ Hr). simpl. f_equal.
  pose proof (rr_fit _ _ R). pose proof (rr_head _ _ R).
  destruct n as [|n]; [done|]. rewrite slot_back by lia. apply IH. lia.
Qed.

Lemma Recent_repr s l n : ring_repr s l -> Recent s n = Some <$> take (Z.to_nat n) l.
Proof.
  intros R. unfold Recent. destruct (Z.leb_spec n 0); [by replace (Z.to_nat n) with 0 by lia|].
  pose proof (rr_head _ _ R). pose proof (rr_size _ _ R).
  replace ((ms_head s + ms_capacity s - 1) mod ms_capacity s) with (slot (ms_head s) (ms_capacity s) 0).
  2:{ rewrite mod_wrap by lia. unfold slot. repeat case_decide; lia. }
  destruct (Z.gtb_spec n (Z.of_nat (ms_size s))); rewrite (recent_loop_repr s l) by (done || lia);
    rewrite drop_0; [|done]. rewrite !take_ge by lia. done.
Qed.

Lemma snapshot_repr s l : ring_repr s l -> snapshot s = l.
Proof.
  intros R. unfold snapshot, Len. rewrite (Recent_repr _ _ _ R), Nat2Z.id, (rr_size _ _ R), take_ge by done.
  induction l as [|r l' IH]; [done|]. clear -l'. simpl. f_equal. induction l'; simpl; congruence.
Qed.

Lemma ByCorrelationID_repr s l cid :
  ring_repr s l ->
  ByCorrelationID s cid = snd <$> list_find (fun r => RecordCorrelationID r = cid) l.
Proof.
  intros R. unfold ByCorrelationID. rewrite (rr_idx _ _ R). unfold newest.
  destruct (list_find _ l) as [[i r]|] eqn:E; [|done]. cbn.
  apply list_find_Some in E as (Hl & _). by rewrite (rr_buf _ _ R _ _ Hl).
Qed.

(** A response (outbound) event no retained captured request accounts for. *)
Definition orphan (k : RecordKind) (l : list CRecord) (r : CRecord) : Prop :=
  Kind r = k /\ forall q, RRequest q ∈ l -> cr_CorrelationID q <> RecordCorrelationID r.

Lemma elem_of_request_corrs cid l :
  cid ∈ request_corrs l <-> exists q, RRequest q ∈ l /\ cr_CorrelationID q = cid.
Proof.
  unfold request_corrs. rewrite elem_of_list_to_set, list_elem_of_omap. split.
  - intros (r & Hr & E). destruct r; simplify_eq. eauto.
  - intros (q & Hq & <-). by exists (RRequest q).
Qed.

Lemma orphan_iff k l r : orphan k l r <-> Kind r = k /\ RecordCorrelationID r ∉ request_corrs l.
Proof. unfold orphan. rewrite elem_of_request_corrs. naive_solver. Qed.

#[export] Instance orphan_dec k l r : Decision (orphan k l r).
Proof.
  destruct (decide (Kind r = k /\ RecordCorrelationID r ∉ request_corrs l)) as [H|H];
    [left|right]; by rewrite orphan_iff.
Defined.

Lemma OrphanCounts_repr s l :
  ring_repr s l ->
  OrphanCounts s = (length (filter (orphan KindResponseEvent l) l),
                    length (filter (orphan KindOutboundEvent l) l)).
Proof.
  intros R. unfold OrphanCounts. rewrite (snapshot_repr _ _ R).
  set (step := fun '(response, outbound) r => _).
  enough (H : forall l' a b, fold_left step l' (a, b)
      = (a + length (filter (orphan KindResponseEvent l) l'),
         b + length (filter (orphan KindOutboundEvent l) l'))) by apply (H l 0 0).
  induction l' as [|r l' IH]; intros a b; [by rewrite !Nat.add_0_r|].
  pose proof (fun k => orphan_iff k l r) as Ho.
  cbn [fold_left]. unfold step at 2. rewrite !filter_cons.
  case_bool_decide as Hin.
  - rewrite IH, !decide_False by (rewrite Ho; naive_solver). done.
  - destruct r; simpl in Ho.
    all: destruct (decide _) as [[E1 _]%Ho|N1]; destruct (decide _) as [[E2 _]%Ho|N2];
      try discriminate; try (rewrite Ho in N1; by destruct N1); try (rewrite Ho in N2; by destruct N2).
    all: rewrite IH; simpl; f_equal; lia.
Qed.

(** ** The sink after any sequence of writes *)

Definition written (cap : Z) (rs : list CRecord) : MemorySink := foldl Write (NewMemorySink cap) rs.

Lemma Write_capacity s r : ms_capacity (Write s r) = ms_capacity s.
Proof. done. Qed.

Lemma written_repr cap rs :
  ring_repr (written cap rs) (take (ms_capacity (NewMemorySink cap)) (rev rs)).
Proof.
  unfold written. enough (H : forall s l, ring_repr s l ->
    ring_repr (foldl Write s rs) (take (ms_capacity s) (rev rs ++ l))).
  { pose proof (H _ _ (NewMemorySink_repr cap)) as H'. by rewrite app_nil_r in H'. }
  induction rs as [|r rs IH]; intros s l R; simpl.
  - rewrite take_ge; [done | apply (rr_fit _ _ R)].
  - pose proof (IH _ _ (Write_repr _ _ r R)) as H. rewrite Write_capacity in H.
    rewrite <- app_assoc. simpl. replace (take (ms_capacity s) (rev rs ++ r :: l))
      with (take (ms_capacity s) (rev rs ++ take (ms_capacity s) (r :: l))); [done|].
    rewrite !take_app. f_equal. rewrite take_take. f_equal. lia.
Qed.

(** C6. After any sequence of writes the memory sink holds exactly the newest
    [max 1 capacity] records: [Recent n] returns the first [n] of them newest
    first and without a nil entry, [Len] their number, [ByCorrelationID] the
    newest one of that correlation id (whatever was evicted and re-inserted
    before), and [OrphanCounts] the events among them whose request is gone. *)
Theorem MemorySink_is_recent_history cap rs :
  let s := written cap rs in
  let l := take (Z.to_nat (Z.max 1 cap)) (rev rs) in
  (forall n, Recent s n = Some <$> take (Z.to_nat n) l) /\
  Len s = length l /\
  (forall cid, ByCorrelationID s cid = snd <$> list_find (fun r => RecordCorrelationID r = cid) l) /\
  OrphanCounts s = (length (filter (orphan KindResponseEvent l) l),
                    length (filter (orphan KindOutboundEvent l) l)).
Proof.
  intros s l. assert (R : ring_repr s l).
  { unfold l. replace (Z.to_nat (Z.max 1 cap)) with (ms_capacity (NewMemorySink cap)).
    - apply written_repr.
    - unfold NewMemorySink. simpl. destruct (Z.ltb_spec cap 1); lia. }
  split_and!; [intros n; by apply Recent_repr | apply (rr_size _ _ R)
    | intros cid; by apply ByCorrelationID_repr | by apply OrphanCounts_repr].
Qed.
