(* ===== verification/Inspect.v ===== *)
(** * inspect/reader.go and inspect/cursor.go: rows, queries, cursors, the Reader contract

    The row order (timestamp descending, id descending) and what one page of a
    sorted row list is are stated once here; the readers are proved to serve
    such pages and their clients are proved against that contract. *)
From S2P Require Import Prelude GoLib Record SearchQL SearchSQL.

Open Scope string_scope.
Open Scope go_scope.

(** ** Data *)

Record Cursor := mkCursor { cur_Timestamp : time; cur_ID : string }.

Record RootRow := mkRootRow {
  row_ID : string;
  row_Kind : string;
  row_Timestamp : time;
  row_Service : string;
  row_Method : string;
  row_Path : string;
  row_CorrelationID : string;
  row_SourceIP : string;
  row_EventCount : option nat;
  row_HasEvents : option bool;
  row_Status : option Z
}.

#[export] Instance Cursor_eq_dec : EqDecision Cursor.
Proof. solve_decision. Defined.
#[export] Instance RootRow_eq_dec : EqDecision RootRow.
Proof. solve_decision. Defined.

Record DetailRecord := mkDetailRecord { dr_Root : CRecord; dr_Events : list CRecord }.

Record InspectQuery := mkInspectQuery {
  iq_Limit : Z;
  iq_Cursor : option Cursor;
  iq_Since : option time;
  iq_Until : option time;
  iq_Query : Query
}.

Definition HasRequestOnlyFilter (q : InspectQuery) : bool := HasRequestOnlyTerm (iq_Query q).

Record HistogramBucket := mkHistogramBucket {
  hb_Start : time;
  hb_S2xx : nat;
  hb_S3xx : nat;
  hb_S4xx : nat;
  hb_S5xx : nat;
  hb_Other : nat
}.

Record Aggregation := mkAggregation { ag_Total : nat; ag_Buckets : list HistogramBucket }.

Record ServiceStat := mkServiceStat {
  ss_Name : string;
  ss_Requests : nat;
  ss_LastSeen : time;
  ss_S2xx : nat;
  ss_S3xx : nat;
  ss_S4xx : nat;
  ss_S5xx : nat;
  ss_Other : nat
}.

(** ** Base64 (encoding/base64, StdEncoding) *)

Definition b64_alphabet : string := "ABCDEFGHIJKLMNOPQRSTUVWXYZabcdefghijklmnopqrstuvwxyz0123456789+/".

Definition b64_char (n : N) : ascii := default "="%char (String.get (N.to_nat n) b64_alphabet).
Definition b64_val (c : ascii) : option N := N.of_nat <$> IndexByte b64_alphabet c.

Fixpoint EncodeToString (s : string) : string :=
  match s with
  | "" => ""
  | String a "" =>
      let a := code a in
      String (b64_char (a / 4)) (String (b64_char (a mod 4 * 16)) "==")
  | String a (String b "") =>
      let a := code a in let b := code b in
      String (b64_char (a / 4)) (String (b64_char (a mod 4 * 16 + b / 16))
        (String (b64_char (b mod 16 * 4)) "="))
  | String a (String b (String c r)) =>
      let a := code a in let b := code b in let c := code c in
      String (b64_char (a / 4)) (String (b64_char (a mod 4 * 16 + b / 16))
        (String (b64_char (b mod 16 * 4 + c / 64)) (String (b64_char (c mod 64)) (EncodeToString r))))
  end.

(** Carriage returns and newlines are skipped wherever they stand. *)
Fixpoint strip_newlines (s : string) : string :=
  match s with
  | "" => ""
  | String c r => if (Ascii.eqb c "010"%char || Ascii.eqb c "013"%char)%bool
                  then strip_newlines r else String c (strip_newlines r)
  end.

(** Quanta of four; padding only in the last one; the bits below a padded
    byte are not checked (the encoding is not [Strict]). *)
Fixpoint decode_quanta (s : string) : option string :=
  match s with
  | "" => Some ""
  | String p (String q (String r (String t rest))) =>
      match b64_val p, b64_val q, b64_val r, b64_val t with
      | Some p, Some q, Some r, Some t =>
          tail ← decode_quanta rest;
          Some (String (ascii_of_N (p * 4 + q / 16)) (String (ascii_of_N (q mod 16 * 16 + r / 4))
                 (String (ascii_of_N (r mod 4 * 64 + t)) tail)))
      | Some p, Some q, Some r, None =>
          if (Ascii.eqb t "="%char && String.eqb rest "")%bool
          then Some (String (ascii_of_N (p * 4 + q / 16)) (String (ascii_of_N (q mod 16 * 16 + r / 4)) ""))
          else None
      | Some p, Some q, None, _ =>
          if (Ascii.eqb r "="%char && Ascii.eqb t "="%char && String.eqb rest "")%bool
          then Some (String (ascii_of_N (p * 4 + q / 16)) "")
          else None
      | _, _, _, _ => None
      end
  | _ => None
  end.

Definition DecodeString (s : string) : option string := decode_quanta (strip_newlines s).

(** ** Cursors *)

Definition Encode (c : Cursor) : string :=
  EncodeToString (Itoa (UnixNano (cur_Timestamp c)) +:+ ":" +:+ cur_ID c).

Inductive CursorError := CurBadBase64 | CurMissingColon | CurBadTimestamp | CurEmptyID.

(** [strconv.ParseInt(s, 10, 64)] accepts what [Atoi] accepts where [int] has 64 bits. *)
Definition DecodeCursor (s : string) : result CursorError Cursor :=
  match DecodeString s with
  | None => Err CurBadBase64
  | Some raw =>
      match IndexByte raw ":" with
      | None => Err CurMissingColon
      | Some idx =>
          match Atoi (str_take idx raw) with
          | None => Err CurBadTimestamp
          | Some nanos =>
              let id := str_drop (idx + 1) raw in
              if String.eqb id "" then Err CurEmptyID
              else Ok (mkCursor (Unix0 nanos) id)
          end
      end
  end.

(** ** Row order and pages *)

(** The [less] of both row sorts: newer first, larger id first. *)
Definition row_less (a b : RootRow) : bool :=
  if negb (Z.eqb (row_Timestamp a) (row_Timestamp b)) then After (row_Timestamp a) (row_Timestamp b)
  else str_ltb (row_ID b) (row_ID a).

(** The cursor filter: rows strictly after the cursor position in that order. *)
Definition past_cursor (c : Cursor) (row : RootRow) : bool :=
  Before (row_Timestamp row) (cur_Timestamp c) ||
  (Z.eqb (row_Timestamp row) (cur_Timestamp c) && str_ltb (row_ID row) (cur_ID c)).

Definition cursor_of (row : RootRow) : Cursor := mkCursor (row_Timestamp row) (row_ID row).

Definition after_cursor (cursor : option Cursor) (rows : list RootRow) : list RootRow :=
  match cursor with
  | None => rows
  | Some c => filter (fun row => past_cursor c row) rows
  end.

(** What a page of [rows] is: the rows past the cursor up to the limit, and a
    cursor at the last of them when more follow. *)
Definition page_of (rows : list RootRow) (limit : nat) (cursor : option Cursor)
  : list RootRow * option Cursor :=
  let rest := after_cursor cursor rows in
  (take limit rest,
   if (limit <? length rest)%nat then cursor_of <$> rest !! (limit - 1) else None).

(** Strictly descending in (timestamp, id): sorted and no two rows share a key. *)
Definition rows_ordered (rows : list RootRow) : Prop :=
  StronglySorted (fun a b => row_less a b = true) rows.

Lemma row_less_irrefl a : row_less a a = false.
Proof. unfold row_less. rewrite Z.eqb_refl. simpl. apply str_ltb_irrefl. Qed.

Lemma row_less_trans a b c : row_less a b = true -> row_less b c = true -> row_less a c = true.
Proof.
  unfold row_less, After.
  destruct (Z.eqb_spec (row_Timestamp a) (row_Timestamp b)), (Z.eqb_spec (row_Timestamp b) (row_Timestamp c)),
    (Z.eqb_spec (row_Timestamp a) (row_Timestamp c)); simpl; intros ??; bool_hyps; try lia;
    try (apply Z.ltb_lt; lia). by eapply str_ltb_trans.
Qed.

#[export] Instance row_less_strict_weak : StrictWeak row_less.
Proof.
  split.
  - intros x y H. destruct (row_less y x) eqn:E; [|done].
    rewrite <- (row_less_irrefl x). symmetry. by eapply row_less_trans.
  - intros x y z. unfold row_less, After.
    destruct (Z.eqb_spec (row_Timestamp x) (row_Timestamp y)), (Z.eqb_spec (row_Timestamp z) (row_Timestamp y)),
      (Z.eqb_spec (row_Timestamp z) (row_Timestamp x)), (Z.eqb_spec (row_Timestamp y) (row_Timestamp x));
      simpl; intros ??; bool_hyps; try lia; try (apply Z.ltb_ge; lia). by eapply sw_trans.
Qed.

Lemma past_cursor_of a b : past_cursor (cursor_of a) b = row_less a b.
Proof.
  unfold past_cursor, row_less, cursor_of, Before, After. simpl. rewrite (Z.eqb_sym (row_Timestamp a)).
  destruct (Z.eqb_spec (row_Timestamp b) (row_Timestamp a)) as [->|]; simpl; [by rewrite Z.ltb_irrefl|].
  by rewrite orb_false_r.
Qed.

(** Sorting candidates whose keys are distinct gives a strictly ordered list. *)
Lemma sorted_rows_ordered l :
  NoDup (cursor_of <$> l) -> sorted_by row_less l -> rows_ordered l.
Proof.
  intros Hnd Hs. unfold rows_ordered, sorted_by in *. induction Hs as [|x l Hl IH Hx]; [constructor|].
  rewrite fmap_cons in Hnd. apply NoDup_cons in Hnd as [Hni Hnd]. constructor; [auto|].
  rewrite Forall_forall in Hx |- *. intros y Hy. pose proof (Hx y Hy) as Hyx.
  destruct (row_less x y) eqn:E; [done|]. destruct Hni. apply list_elem_of_fmap. exists y. split; [|done].
  revert E Hyx. unfold row_less, After, cursor_of. rewrite (Z.eqb_sym (row_Timestamp y)).
  destruct (Z.eqb_spec (row_Timestamp x) (row_Timestamp y)) as [Et|]; simpl; intros; bool_hyps; [|lia].
  f_equal; [done|]. by apply str_ltb_total.
Qed.

Lemma SliceStable_rows_ordered l : NoDup (cursor_of <$> l) -> rows_ordered (SliceStable row_less l).
Proof.
  intros H. apply sorted_rows_ordered; [|apply SliceStable_sorted, _].
  rewrite (SliceStable_perm row_less l). done.
Qed.

(** The cursor of a row skips exactly the rows up to and including it. *)
Lemma after_cursor_drop l k r :
  rows_ordered l -> l !! k = Some r -> after_cursor (Some (cursor_of r)) l = drop (S k) l.
Proof.
  unfold rows_ordered. intros Hs. revert k. simpl.
  induction Hs as [|x l Hl IH Hx]; intros k Hk; [done|]. rewrite Forall_forall in Hx.
  rewrite filter_cons. destruct k as [|k]; simpl in Hk; simplify_eq; rewrite past_cursor_of.
  - rewrite row_less_irrefl. simpl. rewrite drop_0. apply filter_id.
    intros y Hy. by rewrite past_cursor_of, (Hx y Hy).
  - rewrite (sw_asym x r); [|by apply Hx, (list_elem_of_lookup_2 _ k)]. simpl. by apply IH.
Qed.

(** Following [next] from the first page, as a client of the list does. *)
Fixpoint walk (serve : option Cursor -> list RootRow * option Cursor) (fuel : nat)
    (cursor : option Cursor) : list RootRow :=
  match fuel with
  | 0 => []
  | S k =>
      let '(rows, next) := serve cursor in
      (rows ++ match next with None => [] | Some c => walk serve k (Some c) end)%list
  end.

Lemma walk_drop l limit k cursor fuel :
  rows_ordered l -> 1 <= limit -> after_cursor cursor l = drop k l -> length l - k < fuel ->
  walk (page_of l limit) fuel cursor = drop k l.
Proof.
  intros Hl Hlim. revert k cursor. induction fuel as [|fuel IH]; intros k cursor Hc Hf; [lia|].
  simpl. rewrite Hc, length_drop. destruct (Nat.ltb_spec limit (length l - k)) as [Hlt|Hge].
  - destruct (lookup_lt_is_Some_2 (drop k l) (limit - 1)) as [r Hr]; [rewrite length_drop; lia|].
    rewrite Hr. simpl. rewrite (IH (k + limit)); [| |lia].
    + rewrite <- drop_drop. apply take_drop.
    + rewrite lookup_drop in Hr. rewrite (after_cursor_drop _ _ _ Hl Hr). f_equal. lia.
  - rewrite app_nil_r. apply take_ge. rewrite length_drop. lia.
Qed.

Lemma walk_ext f g fuel c : (forall c, f c = g c) -> walk f fuel c = walk g fuel c.
Proof.
  intros E. revert c. induction fuel as [|fuel IH]; intros c; [done|]. simpl. rewrite E.
  destruct (g c) as [rows [c'|]]; [|done]. by rewrite IH.
Qed.

Lemma walk_all l limit fuel :
  rows_ordered l -> 1 <= limit -> length l < fuel -> walk (page_of l limit) fuel None = l.
Proof. intros. rewrite (walk_drop l limit 0); [by rewrite drop_0 | done | done | done | lia]. Qed.

(** ** Base64 and cursor round trips *)

Lemma sextet_ind (P : N -> Prop) :
  Forall P (N.of_nat <$> seq 0 64) -> forall n, (n < 64)%N -> P n.
Proof.
  rewrite Forall_forall. intros H n Hn. apply H. apply list_elem_of_fmap. exists (N.to_nat n).
  split; [by rewrite N2Nat.id|]. apply elem_of_seq. lia.
Qed.

Lemma b64_val_char n : (n < 64)%N -> b64_val (b64_char n) = Some n.
Proof. revert n. apply sextet_ind. repeat constructor. Qed.

Lemma b64_char_plain n : (n < 64)%N ->
  (Ascii.eqb (b64_char n) "010"%char || Ascii.eqb (b64_char n) "013"%char)%bool = false.
Proof. revert n. apply sextet_ind. repeat constructor. Qed.

Lemma code_lt c : (code c < 256)%N.
Proof. apply N_ascii_bounded. Qed.

(** Regrouping bits: each byte is recovered from the sextets that carry it. *)
Lemma regroup1 a r : (a < 256 -> r < 16 -> a / 4 * 4 + (a mod 4 * 16 + r) / 16 = a)%N.
Proof.
  intros. rewrite (N.mul_comm (a mod 4)), N.add_comm, (N.add_comm _ r), (N.mul_comm 16).
  rewrite N.div_add, (N.div_small r 16) by lia. rewrite (N.div_mod' a 4) at 3. lia.
Qed.

Lemma regroup2 a b r :
  (b < 256 -> r < 4 -> (a mod 4 * 16 + b / 16) mod 16 * 16 + (b mod 16 * 4 + r) / 4 = b)%N.
Proof.
  intros. assert (b / 16 < 16)%N by (apply N.Div0.div_lt_upper_bound; lia).
  rewrite (N.add_comm _ (b / 16)), N.Div0.mod_add, N.mod_small by done.
  rewrite (N.add_comm _ r), N.div_add, (N.div_small r 4) by lia. rewrite (N.div_mod' b 16) at 3. lia.
Qed.

Lemma regroup3 b c : (c < 256 -> (b mod 16 * 4 + c / 64) mod 4 * 64 + c mod 64 = c)%N.
Proof.
  intros. assert (c / 64 < 4)%N by (apply N.Div0.div_lt_upper_bound; lia).
  rewrite (N.add_comm _ (c / 64)), N.Div0.mod_add, N.mod_small by done.
  rewrite (N.div_mod' c 64) at 3. lia.
Qed.

Lemma sextet1 a : (a < 256 -> a / 4 < 64)%N.
Proof. intros. apply N.Div0.div_lt_upper_bound; lia. Qed.
Lemma sextet2 a b : (b < 256 -> a mod 4 * 16 + b / 16 < 64)%N.
Proof.
  intros. pose proof (N.mod_lt a 4). assert (b / 16 < 16)%N by (apply N.Div0.div_lt_upper_bound; lia). lia.
Qed.
Lemma sextet3 b c : (c < 256 -> b mod 16 * 4 + c / 64 < 64)%N.
Proof.
  intros. pose proof (N.mod_lt b 16). assert (c / 64 < 4)%N by (apply N.Div0.div_lt_upper_bound; lia). lia.
Qed.
Lemma sextet4 c : (c mod 64 < 64)%N.
Proof. by apply N.mod_lt. Qed.

#[local] Hint Resolve code_lt sextet1 sextet2 sextet3 sextet4 : go.

Lemma ascii_of_code c n : n = code c -> ascii_of_N n = c.
Proof. intros ->. apply ascii_N_embedding. Qed.

(** Induction by three bytes, the shape of the encoder. *)
Lemma str_ind3 (P : string -> Prop) :
  P "" -> (forall a, P (String a "")) -> (forall a b, P (String a (String b ""))) ->
  (forall a b c r, P r -> P (String a (String b (String c r)))) -> forall s, P s.
Proof.
  intros H0 H1 H2 H3. fix IH 1. intros [|a [|b [|c r]]]; [done | done | done | apply H3, IH].
Qed.

Lemma strip_char n s : (n < 64)%N ->
  strip_newlines (String (b64_char n) s) = String (b64_char n) (strip_newlines s).
Proof. intros H. cbn [strip_newlines]. by rewrite b64_char_plain. Qed.

Lemma sextet2' a : (a mod 4 * 16 < 64)%N.
Proof. pose proof (N.mod_lt a 4). lia. Qed.
Lemma sextet3' b : (b mod 16 * 4 < 64)%N.
Proof. pose proof (N.mod_lt b 16). lia. Qed.
#[local] Hint Resolve sextet2' sextet3' : go.

Lemma DecodeString_EncodeToString s : DecodeString (EncodeToString s) = Some s.
Proof.
  unfold DecodeString. induction s as [|a|a b|a b c r IH] using str_ind3; [done| | |].
  - cbn [EncodeToString]. rewrite !strip_char by eauto with go.
    cbn [strip_newlines decode_quanta Ascii.eqb Bool.eqb orb].
    rewrite !b64_val_char by eauto with go. cbn. repeat f_equal. apply ascii_of_code.
    rewrite <- (N.add_0_r (_ mod _ * _)). apply regroup1; [apply code_lt|lia].
  - cbn [EncodeToString]. rewrite !strip_char by eauto with go.
    cbn [strip_newlines decode_quanta Ascii.eqb Bool.eqb orb].
    rewrite !b64_val_char by eauto with go. cbn -[N.div N.modulo N.mul N.add].
    do 2 f_equal; [|f_equal]; apply ascii_of_code.
    + apply regroup1; [apply code_lt|]. apply N.Div0.div_lt_upper_bound, code_lt.
    + rewrite <- (N.add_0_r (code b mod _ * _)). apply regroup2; [apply code_lt|lia].
  - cbn [EncodeToString]. rewrite !strip_char by eauto with go. cbn [decode_quanta].
    rewrite !b64_val_char by eauto with go. rewrite IH. cbn -[N.div N.modulo N.mul N.add].
    do 2 f_equal; [|f_equal; [|f_equal]]; apply ascii_of_code.
    + apply regroup1; [apply code_lt|]. apply N.Div0.div_lt_upper_bound, code_lt.
    + apply regroup2; [apply code_lt|]. apply N.Div0.div_lt_upper_bound, code_lt.
    + apply regroup3, code_lt.
Qed.

Lemma Itoa_no_colon z : ContainsByte (Itoa z) ":" = false.
Proof.
  assert (H : forall s, str_forall is_digit s = true -> ContainsByte s ":" = false).
  { induction s as [|c s IH]; [done|]. simpl. intros [Hc Hs]%andb_true_iff.
    rewrite ContainsByte_cons, (IH Hs), orb_false_r. apply Ascii.eqb_neq. intros <-. by vm_compute in Hc. }
  unfold Itoa. case_step; [rewrite ContainsByte_cons|]; rewrite H by apply Itoa_N_digits; done.
Qed.

Lemma DecodeCursor_Encode c :
  in_i64 (cur_Timestamp c) -> cur_ID c <> "" -> DecodeCursor (Encode c) = Ok c.
Proof.
  intros Ht Hid. unfold DecodeCursor, Encode. rewrite DecodeString_EncodeToString.
  unfold UnixNano. rewrite wrap_i64_id by done.
  change (":" +:+ cur_ID c) with (String ":" (cur_ID c)). rewrite IndexByte_app by apply Itoa_no_colon.
  rewrite str_take_app, Atoi_Itoa by done.
  rewrite str_app_cons, Nat.add_comm.
  replace (1 + String.length (Itoa (cur_Timestamp c)))
    with (String.length (Itoa (cur_Timestamp c) +:+ ":")) by (rewrite str_length_app; simpl; lia).
  rewrite str_drop_app. destruct (String.eqb_spec (cur_ID c) ""); [done|]. by destruct c.
Qed.

(** Cursors survive the wire: a cursor with a representable timestamp and
    a non-empty id decodes, from its base64 encoding, to itself; and whatever
    string is decoded successfully yields such a cursor, so re-encoding it and
    decoding again gives the same position. *)
Lemma cursor_roundtrip :
  (forall c, in_i64 (cur_Timestamp c) -> cur_ID c <> "" -> DecodeCursor (Encode c) = Ok c) /\
  (forall s c, DecodeCursor s = Ok c ->
     in_i64 (cur_Timestamp c) /\ cur_ID c <> "" /\ DecodeCursor (Encode c) = Ok c).
Proof.
  split; [apply DecodeCursor_Encode|]. intros s c H.
  assert (in_i64 (cur_Timestamp c) /\ cur_ID c <> "") as [? ?].
  { unfold DecodeCursor in H. repeat case_step; simplify_eq. bool_hyps. simpl.
    split; [by eapply Atoi_range|done]. }
  eauto using DecodeCursor_Encode.
Qed.
