(* ===== verification/MemoryReader.v ===== *)
(** * sinks/memory_reader.go: the read side of the memory sink

    [None] results stand for the runtime panic of a slice index out of range
    (a limit below one). *)
From S2P Require Import Prelude GoLib Record SearchQL Predicate SearchSQL MemorySink Inspect.

Open Scope string_scope.

(** ** Orphan events against a query *)

Definition matchOrphanString (s : string) (t : Term) : bool :=
  match t_Wildcard t with
  | WildcardPrefix => HasPrefix s (t_Value t)
  | WildcardSubstring => Contains s (t_Value t)
  | WildcardNone => String.eqb s (t_Value t)
  end.

(** The pairs are (matched, applies). *)
Definition evaluateOrphanCommonTerm (t : Term) (service correlationID : string) : bool * bool :=
  match t_Field t with
  | FieldService => (matchOrphanString service t, true)
  | FieldCorrelationID => (String.eqb correlationID (t_Value t), true)
  | _ => (false, false)
  end.

Definition statusClass (s : option Z) : Z :=
  match s with
  | None => 0
  | Some v =>
      if (200 <=? v) && (v <? 300) then 2
      else if (300 <=? v) && (v <? 400) then 3
      else if (400 <=? v) && (v <? 500) then 4
      else if (500 <=? v) && (v <? 600) then 5
      else 0
  end%Z.

Section Reader.
Context `{Unicode} `{MapRange}.

Definition evaluateOrphanResponseTerm (t : Term) (ev : ResponseEvent) : bool * bool :=
  match t_Field t with
  | FieldFree => (MatchFreeformResponseEvent t ev, true)
  | FieldStatus =>
      match t_StatusFilter t with
      | None => (false, false)
      | Some sf =>
          if negb (Z.eqb (sf_Exact sf) 0) then (Z.eqb (re_Status ev) (sf_Exact sf), true)
          else let '(lo, hi) := ClassRange sf in
               (((lo <=? re_Status ev) && (re_Status ev <=? hi))%Z, true)
      end
  | FieldHeaders => (HeadersAny (re_Headers ev) (t_Value t), true)
  | FieldHeader => (HeaderValueContains (re_Headers ev) (t_HeaderName t) (t_Value t), true)
  | _ => evaluateOrphanCommonTerm t (re_Service ev) (re_CorrelationID ev)
  end.

Definition evaluateOutboundOrphanTerm (t : Term) (ev : OutboundEvent) : bool * bool :=
  match t_Field t with
  | FieldFree => (MatchFreeformOutboundEvent t ev, true)
  | FieldHeaders =>
      if HeadersAny (oq_Headers (oe_Request ev)) (t_Value t) then (true, true)
      else match oe_Response ev with
           | Some resp => (HeadersAny (os_Headers resp) (t_Value t), true)
           | None => (false, true)
           end
  | FieldHeader =>
      if HeaderValueContains (oq_Headers (oe_Request ev)) (t_HeaderName t) (t_Value t) then (true, true)
      else match oe_Response ev with
           | Some resp => (HeaderValueContains (os_Headers resp) (t_HeaderName t) (t_Value t), true)
           | None => (false, true)
           end
  | _ => evaluateOrphanCommonTerm t (oe_Service ev) (oe_CorrelationID ev)
  end.

Fixpoint match_response_terms (ts : list Term) (ev : ResponseEvent) : bool :=
  match ts with
  | [] => true
  | t :: ts' =>
      let '(matched, applies) := evaluateOrphanResponseTerm t ev in
      if negb applies then match_response_terms ts' ev
      else let matched := if t_Negated t then negb matched else matched in
           if negb matched then false else match_response_terms ts' ev
  end.
Definition matchOrphanResponse (q : Query) (ev : ResponseEvent) : bool :=
  match_response_terms (q_Terms q) ev.

Fixpoint match_outbound_terms (ts : list Term) (ev : OutboundEvent) : bool :=
  match ts with
  | [] => true
  | t :: ts' =>
      if decide (t_Field t = FieldStatus) then false else
      let '(matched, applies) := evaluateOutboundOrphanTerm t ev in
      if negb applies then match_outbound_terms ts' ev
      else let matched := if t_Negated t then negb matched else matched in
           if negb matched then false else match_outbound_terms ts' ev
  end.
Definition matchOrphanOutbound (q : Query) (ev : OutboundEvent) : bool :=
  match_outbound_terms (q_Terms q) ev.

(** ** ReadRoots *)

(** [eventCounts]: response and outbound events per correlation id. *)
Definition event_counts (all : list CRecord) : gmap string nat :=
  fold_left (fun m r =>
    match r with
    | RRequest _ => m
    | _ => <[RecordCorrelationID r := S (default 0 (m !! RecordCorrelationID r))]> m
    end) all ∅.

(** The two temporal [continue]s at the head of both loops. *)
Definition in_window (q : InspectQuery) (ts : time) : bool :=
  match iq_Since q with Some since => negb (Before ts since) | None => true end &&
  match iq_Until q with Some til => Before ts til | None => true end.

(** The body of the emit loop: the row appended for a record, if any. *)
Definition root_row (q : InspectQuery) (includeOrphans : bool) (matchRequest : CapturedRequest -> bool)
    (requestCorrs : gset string) (eventCounts : gmap string nat) (r : CRecord) : option RootRow :=
  if negb (in_window q (RecordTimestamp r)) then None else
  match r with
  | RRequest v =>
      if negb (matchRequest v) then None else
      let ec := default 0 (eventCounts !! cr_CorrelationID v) in
      let he := (0 <? ec)%nat in
      Some (mkRootRow (cr_ID v) "request" (cr_Timestamp v) (cr_Service v) (cr_Method v) (cr_Path v)
              (cr_CorrelationID v) (cr_SourceIP v) (Some ec) (Some he) None)
  | RResponse v =>
      if negb includeOrphans then None else
      if bool_decide (re_CorrelationID v ∈ requestCorrs) then None else
      if negb (matchOrphanResponse (iq_Query q) v) then None else
      Some (mkRootRow (re_ID v) "orphan_response" (re_Timestamp v) (re_Service v) "" ""
              (re_CorrelationID v) "" None None (Some (re_Status v)))
  | ROutbound v =>
      if negb includeOrphans then None else
      if bool_decide (oe_CorrelationID v ∈ requestCorrs) then None else
      if negb (matchOrphanOutbound (iq_Query q) v) then None else
      Some (mkRootRow (oe_ID v) "orphan_outbound" (oe_Timestamp v) (oe_Service v) "" ""
              (oe_CorrelationID v) "" None None None)
  end.

Definition candidates (all : list CRecord) (q : InspectQuery) : list RootRow :=
  omap (root_row q (negb (HasRequestOnlyFilter q)) (CompilePredicate (iq_Query q))
          (request_corrs all) (event_counts all)) all.

(** [candidates[:min(limit+1, len)]], the extra row deciding [nextCursor]. *)
Definition cut_page (cands : list RootRow) (limit : Z) : option (list RootRow * option Cursor) :=
  let n := Z.min (wrap_i64 (limit + 1)) (Z.of_nat (length cands)) in
  if (n <? 0)%Z then None else
  let page := take (Z.to_nat n) cands in
  if (Z.of_nat (length page) >? limit)%Z then
    if (limit <? 1)%Z then None else
    last ← page !! Z.to_nat (limit - 1);
    Some (take (Z.to_nat limit) page, Some (cursor_of last))
  else Some (page, None).

Definition ReadRoots (s : MemorySink) (q : InspectQuery) (limit : Z) (cursor : option Cursor)
  : option (list RootRow * option Cursor) :=
  let sorted := SliceStable row_less (candidates (snapshot s) q) in
  cut_page (after_cursor cursor sorted) limit.

(** ** ReadDetail *)

Definition record_less (a b : CRecord) : bool :=
  if negb (Z.eqb (RecordTimestamp a) (RecordTimestamp b)) then Before (RecordTimestamp a) (RecordTimestamp b)
  else str_ltb (RecordID a) (RecordID b).

(** [None] is [ErrNotFound]. *)
Definition ReadDetail (s : MemorySink) (id : string) : option DetailRecord :=
  let all := snapshot s in
  match List.find (fun r => String.eqb (RecordID r) id) all with
  | None => None
  | Some root =>
      let siblings := filter (fun r => RecordID r <> id /\ RecordCorrelationID r = RecordCorrelationID root) all in
      Some (mkDetailRecord root (SliceStable record_less siblings))
  end.

(** ** AggregateRoots *)

Definition bump (cls : Z) (b : HistogramBucket) : HistogramBucket :=
  let '(mkHistogramBucket st s2 s3 s4 s5 o) := b in
  match cls with
  | 2%Z => mkHistogramBucket st (S s2) s3 s4 s5 o
  | 3%Z => mkHistogramBucket st s2 (S s3) s4 s5 o
  | 4%Z => mkHistogramBucket st s2 s3 (S s4) s5 o
  | 5%Z => mkHistogramBucket st s2 s3 s4 (S s5) o
  | _ => mkHistogramBucket st s2 s3 s4 s5 (S o)
  end.

(** [sinceNS], [bucketWidth] and the bucket count when [bucketing] holds;
    division truncates toward zero. *)
Record Bucketing := mkBucketing { bk_since : Z; bk_width : Z; bk_count : Z }.

Definition bucketing (q : InspectQuery) (bucketCount : Z) : option Bucketing :=
  match iq_Since q, iq_Until q with
  | Some since, Some til =>
      if ((bucketCount >? 0)%Z && After til since)%bool then
        let sinceNS := UnixNano since in
        let w := Z.quot (wrap_i64 (UnixNano til - sinceNS)) bucketCount in
        Some (mkBucketing sinceNS (if (w <=? 0)%Z then 1 else w)%Z bucketCount)
      else None
  | _, _ => None
  end.

Definition empty_buckets (b : Bucketing) : list HistogramBucket :=
  (fun i => mkHistogramBucket (Unix0 (wrap_i64 (bk_since b + wrap_i64 (bk_width b * Z.of_nat i)))) 0 0 0 0 0)
    <$> seq 0 (Z.to_nat (bk_count b)).

Definition bucket_index (b : Bucketing) (ts : time) : Z :=
  let idx := Z.quot (wrap_i64 (UnixNano ts - bk_since b)) (bk_width b) in
  let idx := if (idx <? 0)%Z then 0%Z else idx in
  if (idx >=? bk_count b)%Z then (bk_count b - 1)%Z else idx.

Definition tally (b : option Bucketing) (ts : time) (status : option Z)
    (buckets : list HistogramBucket) : list HistogramBucket :=
  match b with
  | None => buckets
  | Some b => alter (bump (statusClass status)) (Z.to_nat (bucket_index b ts)) buckets
  end.

(** The loop body: [total++; tally(...)] on each branch that reaches it. *)
Definition aggregate_step (q : InspectQuery) (includeOrphans : bool) (matchRequest : CapturedRequest -> bool)
    (requestCorrs : gset string) (b : option Bucketing)
    (st : nat * list HistogramBucket) (r : CRecord) : nat * list HistogramBucket :=
  let '(total, buckets) := st in
  let ts := RecordTimestamp r in
  if negb (in_window q ts) then st else
  match r with
  | RRequest v =>
      if negb (matchRequest v) then st else (S total, tally b ts None buckets)
  | RResponse v =>
      if negb includeOrphans then st else
      if bool_decide (re_CorrelationID v ∈ requestCorrs) then st else
      if negb (matchOrphanResponse (iq_Query q) v) then st else
      (S total, tally b ts (Some (re_Status v)) buckets)
  | ROutbound v =>
      if negb includeOrphans then st else
      if bool_decide (oe_CorrelationID v ∈ requestCorrs) then st else
      if negb (matchOrphanOutbound (iq_Query q) v) then st else
      (S total, tally b ts None buckets)
  end.

Definition AggregateRoots (s : MemorySink) (q : InspectQuery) (bucketCount : Z) : Aggregation :=
  let all := snapshot s in
  let b := bucketing q bucketCount in
  let '(total, buckets) :=
    fold_left (aggregate_step q (negb (HasRequestOnlyFilter q)) (CompilePredicate (iq_Query q))
                 (request_corrs all) b) all
      (0, match b with Some b => empty_buckets b | None => [] end) in
  mkAggregation total buckets.

(** ** ServicesSeen and ServiceStats *)

Definition since_ok (since : time) (r : CRecord) : bool :=
  negb (negb (IsZero since) && Before (RecordTimestamp r) since).

Definition seen_step (since : time) (m : gmap string unit) (r : CRecord) : gmap string unit :=
  if negb (since_ok since r) then m else
  let svc := RecordService r in
  if negb (String.eqb svc "") then <[svc := tt]> m else m.

Definition ServicesSeen (s : MemorySink) (since : time) : list string :=
  sort_strings (fst <$> go_range (fold_left (seen_step since) (snapshot s) ∅)).

Definition addStatusClass (st : ServiceStat) (cls : Z) : ServiceStat :=
  let '(mkServiceStat n r l s2 s3 s4 s5 o) := st in
  match statusClass (Some cls) with
  | 2%Z => mkServiceStat n r l (S s2) s3 s4 s5 o
  | 3%Z => mkServiceStat n r l s2 (S s3) s4 s5 o
  | 4%Z => mkServiceStat n r l s2 s3 (S s4) s5 o
  | 5%Z => mkServiceStat n r l s2 s3 s4 (S s5) o
  | _ => mkServiceStat n r l s2 s3 s4 s5 (S o)
  end.

(** One record folded into its service's entry. *)
Definition stat_update (st : ServiceStat) (r : CRecord) : ServiceStat :=
  let ts := RecordTimestamp r in
  let st := if After ts (ss_LastSeen st)
            then mkServiceStat (ss_Name st) (ss_Requests st) ts (ss_S2xx st) (ss_S3xx st) (ss_S4xx st)
                   (ss_S5xx st) (ss_Other st)
            else st in
  match r with
  | RRequest _ => mkServiceStat (ss_Name st) (S (ss_Requests st)) (ss_LastSeen st) (ss_S2xx st)
                    (ss_S3xx st) (ss_S4xx st) (ss_S5xx st) (ss_Other st)
  | RResponse rec => addStatusClass st (re_Status rec)
  | ROutbound _ => st
  end.

Definition new_stat (svc : string) : ServiceStat := mkServiceStat svc 0 time_zero 0 0 0 0 0.

Definition stat_step (since : time) (stats : gmap string ServiceStat) (r : CRecord) : gmap string ServiceStat :=
  if negb (since_ok since r) then stats else
  let svc := RecordService r in
  if String.eqb svc "" then stats else
  <[svc := stat_update (default (new_stat svc) (stats !! svc)) r]> stats.

Definition ServiceStats (s : MemorySink) (since : time) : list ServiceStat :=
  let stats := fold_left (stat_step since) (snapshot s) ∅ in
  (** [sort.Slice] is not stable, but the names are distinct keys *)
  SliceStable (fun a b => str_ltb (ss_Name a) (ss_Name b)) (snd <$> go_range stats).

End Reader.
