(* ===== verification/MemoryReaderFacts.v ===== *)
(** * Correctness of the memory reader: pages, details, histograms, services *)
From S2P Require Import Prelude GoLib Record SearchQL Predicate SearchSQL MemorySink Inspect MemoryReader.

Open Scope string_scope.

Section Facts.
Context `{Unicode} `{MapRange}.

(** The rows a reader has for a query, in the order it serves them. *)
Definition roots (s : MemorySink) (q : InspectQuery) : list RootRow :=
  SliceStable row_less (candidates (snapshot s) q).

(** ** Pages *)

Lemma cut_page_spec cands limit :
  (1 <= limit < two63 - 1)%Z ->
  cut_page cands limit =
    Some (take (Z.to_nat limit) cands,
          if (Z.to_nat limit <? length cands)%nat
          then cursor_of <$> cands !! (Z.to_nat limit - 1) else None).
Proof.
  intros Hl. unfold cut_page. rewrite wrap_i64_id by (unfold in_i64, two63 in *; lia).
  set (k := Z.to_nat (Z.min (limit + 1) (Z.of_nat (length cands)))).
  assert ((Z.min (limit + 1) (Z.of_nat (length cands)) <? 0) = false)%Z as -> by (apply Z.ltb_ge; lia).
  cbv zeta. fold k. rewrite length_take.
  assert (Hk : k = Nat.min (Z.to_nat limit + 1) (length cands)) by (unfold k; lia).
  destruct (Nat.ltb_spec (Z.to_nat limit) (length cands)) as [Hlt|Hge].
  - assert ((Z.of_nat (k `min` length cands) >? limit) = true)%Z as -> by (rewrite Z.gtb_lt; lia).
    assert ((limit <? 1) = false)%Z as -> by (apply Z.ltb_ge; lia).
    replace (Z.to_nat (limit - 1)) with (Z.to_nat limit - 1) by lia.
    rewrite lookup_take_lt by lia.
    destruct (lookup_lt_is_Some_2 cands (Z.to_nat limit - 1)) as [r Hr]; [lia|]. rewrite Hr. simpl.
    rewrite take_take. do 3 f_equal. lia.
  - assert ((Z.of_nat (k `min` length cands) >? limit) = false)%Z as ->.
    { destruct (Z.gtb_spec (Z.of_nat (k `min` length cands)) limit); [lia|done]. }
    do 2 f_equal. rewrite !take_ge by lia. done.
Qed.

Lemma ReadRoots_page s q limit cursor :
  (1 <= limit < two63 - 1)%Z ->
  ReadRoots s q limit cursor = Some (page_of (roots s q) (Z.to_nat limit) cursor).
Proof. intros Hl. unfold ReadRoots. by rewrite cut_page_spec. Qed.

Lemma root_row_key q b f rc ec r row :
  root_row q b f rc ec r = Some row -> cursor_of row = mkCursor (RecordTimestamp r) (RecordID r).
Proof. unfold root_row. intros E. repeat case_step; simplify_eq; done. Qed.

Lemma omap_key_sublist (f : CRecord -> option RootRow) l :
  (forall r row, f r = Some row -> cursor_of row = mkCursor (RecordTimestamp r) (RecordID r)) ->
  (cursor_of <$> omap f l) `sublist_of` ((fun r => mkCursor (RecordTimestamp r) (RecordID r)) <$> l).
Proof.
  intros Hf. induction l as [|r l IH]; simpl; [constructor|].
  destruct (f r) as [row|] eqn:E; simpl; [|by constructor]. rewrite (Hf _ _ E). by constructor.
Qed.

Lemma candidates_keys all q :
  NoDup (RecordID <$> all) -> NoDup (cursor_of <$> candidates all q).
Proof.
  intros Hnd. eapply sublist_NoDup; [|apply omap_key_sublist; intros ??; apply root_row_key].
  apply (NoDup_fmap_1 cur_ID). by rewrite <- list_fmap_compose.
Qed.

Lemma snapshot_written cap rs : snapshot (written cap rs) = take (Z.to_nat (Z.max 1 cap)) (rev rs).
Proof.
  rewrite (snapshot_repr _ _ (written_repr cap rs)). f_equal. simpl.
  destruct (Z.ltb_spec cap 1); lia.
Qed.

Lemma snapshot_ids cap rs : NoDup (RecordID <$> rs) -> NoDup (RecordID <$> snapshot (written cap rs)).
Proof.
  intros Hnd. rewrite snapshot_written, fmap_take. eapply sublist_NoDup; [|apply sublist_take].
  by rewrite <- (Permutation_rev rs).
Qed.

Lemma roots_ordered s q : NoDup (RecordID <$> snapshot s) -> rows_ordered (roots s q).
Proof. intros. by apply SliceStable_rows_ordered, candidates_keys. Qed.

Lemma roots_bound cap rs q : length (roots (written cap rs) q) <= length rs.
Proof.
  unfold roots. rewrite SliceStable_length. unfold candidates. rewrite snapshot_written.
  etrans; [apply length_omap_le|]. rewrite length_take, length_rev. lia.
Qed.

(** Pagination over the memory sink neither loses nor repeats rows: for
    records with distinct ids and any page size the parser admits, every
    [ReadRoots] call returns (it does not panic) and the pages reached by
    following [next_cursor] concatenate to all candidate rows, in strictly
    descending (timestamp, id) order. *)
Lemma ReadRoots_walk_complete cap rs q limit fuel :
  NoDup (RecordID <$> rs) -> (1 <= limit <= 500)%Z -> length rs < fuel ->
  let s := written cap rs in
  (forall cursor, is_Some (ReadRoots s q limit cursor)) /\
  walk (fun cursor => default ([], None) (ReadRoots s q limit cursor)) fuel None = roots s q /\
  roots s q ≡ₚ candidates (snapshot s) q /\
  rows_ordered (roots s q).
Proof.
  intros Hnd Hl Hf s. assert (Hlim : (1 <= limit < two63 - 1)%Z) by (unfold two63; lia).
  pose proof (roots_ordered s q (snapshot_ids cap rs Hnd)) as Ho.
  pose proof (roots_bound cap rs q) as Hb.
  split_and!; [|..|done].
  - intros cursor. rewrite ReadRoots_page by done. eauto.
  - etrans; [|apply (walk_all _ (Z.to_nat limit) fuel Ho); unfold s; lia].
    apply walk_ext. intros cursor. by rewrite ReadRoots_page.
  - apply SliceStable_perm.
Qed.

(** ** Which records become rows *)

Lemma event_counts_lookup all cid :
  default 0 (event_counts all !! cid) =
  length (filter (fun r => Kind r <> KindRequest /\ RecordCorrelationID r = cid) all).
Proof.
  unfold event_counts. set (step := fun m r => _).
  enough (E : forall m, default 0 (fold_left step all m !! cid) = default 0 (m !! cid) +
    length (filter (fun r => Kind r <> KindRequest /\ RecordCorrelationID r = cid) all)) by apply E.
  induction all as [|r all IH]; intros m; [simpl; lia|]. cbn [fold_left]. rewrite IH, filter_cons.
  assert (Hs : step m r = m /\ Kind r = KindRequest \/
    Kind r <> KindRequest /\ step m r = <[RecordCorrelationID r := S (default 0 (m !! RecordCorrelationID r))]> m)
    by (destruct r; simpl; auto).
  destruct Hs as [[-> Hk]|[Hk ->]]; case_decide as Hd; try tauto; simpl.
  - destruct Hd as [_ <-]. rewrite lookup_insert_eq. simpl. lia.
  - rewrite lookup_insert_ne; [done|]. intros <-. tauto.
Qed.

(** A record the list shows: inside the window, and a matching request or a
    matching orphan event of a query without request-only terms. *)
Definition shown (all : list CRecord) (q : InspectQuery) (r : CRecord) : Prop :=
  (forall t, iq_Since q = Some t -> t <= RecordTimestamp r)%Z /\
  (forall t, iq_Until q = Some t -> RecordTimestamp r < t)%Z /\
  match r with
  | RRequest v => CompilePredicate (iq_Query q) v = true
  | RResponse v => HasRequestOnlyFilter q = false /\ orphan KindResponseEvent all r /\
                   matchOrphanResponse (iq_Query q) v = true
  | ROutbound v => HasRequestOnlyFilter q = false /\ orphan KindOutboundEvent all r /\
                   matchOrphanOutbound (iq_Query q) v = true
  end.

(** The row of a record; a request carries the number of its events. *)
Definition row_for (all : list CRecord) (r : CRecord) : RootRow :=
  match r with
  | RRequest v =>
      let n := length (filter (fun e => Kind e <> KindRequest /\ RecordCorrelationID e = cr_CorrelationID v) all) in
      mkRootRow (cr_ID v) "request" (cr_Timestamp v) (cr_Service v) (cr_Method v) (cr_Path v)
        (cr_CorrelationID v) (cr_SourceIP v) (Some n) (Some (0 <? n)%nat) None
  | RResponse v =>
      mkRootRow (re_ID v) "orphan_response" (re_Timestamp v) (re_Service v) "" ""
        (re_CorrelationID v) "" None None (Some (re_Status v))
  | ROutbound v =>
      mkRootRow (oe_ID v) "orphan_outbound" (oe_Timestamp v) (oe_Service v) "" ""
        (oe_CorrelationID v) "" None None None
  end.

Lemma in_window_spec q ts :
  in_window q ts = true <->
  (forall t, iq_Since q = Some t -> t <= ts)%Z /\ (forall t, iq_Until q = Some t -> ts < t)%Z.
Proof.
  unfold in_window, Before. rewrite andb_true_iff.
  destruct (iq_Since q) as [a|], (iq_Until q) as [b|]; rewrite ?negb_true_iff, ?Z.ltb_ge, ?Z.ltb_lt;
    split; intros [H1 H2]; split; try done; intros; simplify_eq; auto.
Qed.

Lemma root_row_spec all q r row :
  root_row q (negb (HasRequestOnlyFilter q)) (CompilePredicate (iq_Query q))
    (request_corrs all) (event_counts all) r = Some row <->
  shown all q r /\ row = row_for all r.
Proof.
  unfold root_row, shown. pose proof (in_window_spec q (RecordTimestamp r)) as Hw.
  destruct (in_window q (RecordTimestamp r)); cbn [negb].
  2:{ split; [done|]. intros [(Hs & Hu & _) _]. by pose proof (proj2 Hw (conj Hs Hu)). }
  destruct (proj1 Hw eq_refl) as [Hs Hu]. clear Hw.
  destruct r as [v|v|v]; simpl; rewrite ?orphan_iff, ?event_counts_lookup; simpl.
  - destruct (CompilePredicate _ v); simpl; naive_solver.
  - destruct (HasRequestOnlyFilter q); simpl; [naive_solver|]. case_bool_decide; [naive_solver|].
    destruct (matchOrphanResponse _ v); simpl; naive_solver.
  - destruct (HasRequestOnlyFilter q); simpl; [naive_solver|]. case_bool_decide; [naive_solver|].
    destruct (matchOrphanOutbound _ v); simpl; naive_solver.
Qed.

Lemma elem_of_candidates all q row :
  row ∈ candidates all q <-> exists r, r ∈ all /\ shown all q r /\ row = row_for all r.
Proof. unfold candidates. rewrite list_elem_of_omap. by setoid_rewrite root_row_spec. Qed.

(** The rows listed for a query are exactly the retained records it
    shows: requests inside the time window that match the query, and, for a
    query without request-only terms, response and outbound events in the
    window whose request is not retained and which match it; a request row
    carries the number of its retained events. *)
Lemma roots_are_shown_records cap rs q row :
  let all := take (Z.to_nat (Z.max 1 cap)) (rev rs) in
  row ∈ roots (written cap rs) q <->
  exists r, r ∈ all /\ shown all q r /\ row = row_for all r.
Proof.
  cbv zeta. unfold roots. rewrite (SliceStable_perm row_less), elem_of_candidates. by rewrite snapshot_written.
Qed.

(** ** Details *)

Lemma record_less_strict_weak : StrictWeak record_less.
Proof.
  split.
  - intros x y. unfold record_less, Before. rewrite (Z.eqb_sym (RecordTimestamp y)).
    destruct (Z.eqb_spec (RecordTimestamp x) (RecordTimestamp y)); simpl; [apply sw_asym|].
    rewrite Z.ltb_lt, Z.ltb_ge. lia.
  - intros x y z. unfold record_less, Before.
    destruct (Z.eqb_spec (RecordTimestamp x) (RecordTimestamp y)), (Z.eqb_spec (RecordTimestamp z) (RecordTimestamp y)),
      (Z.eqb_spec (RecordTimestamp z) (RecordTimestamp x)), (Z.eqb_spec (RecordTimestamp y) (RecordTimestamp x));
      simpl; intros ??; bool_hyps; try lia; try (apply Z.ltb_ge; lia). by eapply sw_trans.
Qed.

(** [ReadDetail] finds a record exactly when its id is retained; the
    root is then the newest record of that id, and the events are all other
    retained records of its correlation id, oldest first. *)
Lemma ReadDetail_spec cap rs id :
  let all := take (Z.to_nat (Z.max 1 cap)) (rev rs) in
  match ReadDetail (written cap rs) id with
  | None => forall r, r ∈ all -> RecordID r <> id
  | Some d =>
      (exists before after, all = (before ++ dr_Root d :: after)%list /\
         forall r, r ∈ before -> RecordID r <> id) /\
      RecordID (dr_Root d) = id /\
      (forall e, e ∈ dr_Events d <->
         e ∈ all /\ RecordID e <> id /\ RecordCorrelationID e = RecordCorrelationID (dr_Root d)) /\
      sorted_by record_less (dr_Events d)
  end.
Proof.
  cbv zeta. unfold ReadDetail. rewrite snapshot_written. set (all := take _ _).
  destruct (List.find _ all) as [root|] eqn:E; cbn [dr_Root dr_Events].
  - split_and!.
    + clear -E. induction all as [|r all IH]; [done|]. cbn [List.find] in E.
      destruct (String.eqb_spec (RecordID r) id); simplify_eq.
      * exists [], all. split; [done|]. by intros ? ?%elem_of_nil.
      * destruct (IH E) as (b & a & -> & Hb). exists (r :: b), a. split; [done|].
        intros x [->|Hx]%elem_of_cons; auto.
    + by apply find_some in E as [_ ?%String.eqb_eq].
    + intros e. rewrite (SliceStable_perm record_less), list_elem_of_filter. tauto.
    + apply SliceStable_sorted, record_less_strict_weak.
  - intros r Hr Heq. rewrite list_elem_of_In in Hr. apply (find_none _ _ E) in Hr.
    by rewrite Heq, String.eqb_refl in Hr.
Qed.

(** ** Aggregation *)

(** What the aggregate loop does with one listed row. *)
Definition tally_row (b : option Bucketing) (st : nat * list HistogramBucket) (row : RootRow)
  : nat * list HistogramBucket :=
  (S st.1, tally b (row_Timestamp row) (row_Status row) st.2).

Lemma aggregate_step_row q io mr rc ec b st r :
  aggregate_step q io mr rc b st r =
  match root_row q io mr rc ec r with Some row => tally_row b st row | None => st end.
Proof.
  unfold aggregate_step, root_row. destruct st as [n bs].
  destruct (negb (in_window q _)); [done|]. destruct r; simpl; repeat case_step; done.
Qed.

Lemma aggregate_fold all q b st :
  fold_left (aggregate_step q (negb (HasRequestOnlyFilter q)) (CompilePredicate (iq_Query q))
               (request_corrs all) b) all st
  = fold_left (tally_row b) (candidates all q) st.
Proof.
  unfold candidates. generalize (request_corrs all) as rc, (event_counts all) as ec. intros rc ec.
  revert st. induction all as [|r all IH]; intros st; [done|]. cbn [fold_left omap list_omap].
  rewrite IH, (aggregate_step_row _ _ _ _ ec).
  by destruct (root_row _ _ _ _ _ r).
Qed.

(** The counter of a status class; everything else is [Other]. *)
Definition class_count (cls : Z) (b : HistogramBucket) : nat :=
  match cls with
  | 2%Z => hb_S2xx b | 3%Z => hb_S3xx b | 4%Z => hb_S4xx b | 5%Z => hb_S5xx b | _ => hb_Other b
  end.

Definition classes : list Z := [0; 2; 3; 4; 5]%Z.

Lemma statusClass_classes st : statusClass st ∈ classes.
Proof. unfold statusClass, classes. repeat case_step; set_solver. Qed.

Lemma bump_count cls c b : cls ∈ classes -> c ∈ classes ->
  class_count c (bump cls b) = class_count c b + (if decide (cls = c) then 1 else 0).
Proof.
  destruct b. unfold classes. rewrite !elem_of_cons, !elem_of_nil.
  intros H1 H2. destruct_or?; subst; case_decide; simpl; done || lia.
Qed.

Lemma bump_start cls b : hb_Start (bump cls b) = hb_Start b.
Proof. destruct b; simpl. repeat case_step; done. Qed.

Lemma tally_rows_total b l st : (fold_left (tally_row b) l st).1 = st.1 + length l.
Proof.
  revert st. induction l as [|row l IH]; intros st; simpl; [lia|]. rewrite IH. simpl. lia.
Qed.

Lemma tally_rows_buckets b l n bs i bk :
  bs !! i = Some bk ->
  exists bk', (fold_left (tally_row (Some b)) l (n, bs)).2 !! i = Some bk' /\
    hb_Start bk' = hb_Start bk /\
    forall c, c ∈ classes -> class_count c bk' = class_count c bk +
      length (filter (fun row => Z.to_nat (bucket_index b (row_Timestamp row)) = i /\
                                 statusClass (row_Status row) = c) l).
Proof.
  revert n bs bk. induction l as [|row l IH]; intros n bs bk Hi.
  { exists bk. split_and!; [done..|]. intros. simpl. lia. }
  cbn [fold_left]. unfold tally_row at 2. cbn [fst snd tally].
  set (k := Z.to_nat (bucket_index b (row_Timestamp row))).
  set (bk1 := if decide (k = i) then bump (statusClass (row_Status row)) bk else bk).
  destruct (IH (S n) (alter (bump (statusClass (row_Status row))) k bs) bk1) as (bk' & Hl & Hs & Hc).
  { unfold bk1. case_decide as E; [subst i; by rewrite list_lookup_alter_eq, Hi|].
    by rewrite list_lookup_alter_ne. }
  exists bk'. split_and!; [done| |].
  - rewrite Hs. unfold bk1. case_decide; [apply bump_start|done].
  - intros c Hcls. rewrite (Hc c Hcls), filter_cons. unfold bk1. fold k.
    destruct (decide (k = i)).
    + rewrite bump_count by (done || apply statusClass_classes).
      repeat case_decide; simpl; tauto || lia.
    + rewrite decide_False by tauto. done.
Qed.

Lemma tally_rows_length b l st : length (fold_left (tally_row b) l st).2 = length st.2.
Proof.
  revert st. induction l as [|row l IH]; intros st; simpl; [done|]. rewrite IH. simpl.
  unfold tally. case_step; [apply length_alter|done].
Qed.

(** A window whose arithmetic stays inside [int64]. *)
Definition good_window (since til n : Z) : Prop :=
  in_i64 since /\ in_i64 til /\ (since < til)%Z /\ (til - since < two63)%Z /\
  (0 < n < two63)%Z /\ (since + n < two63)%Z.

Definition width (since til n : Z) : Z := Z.max 1 ((til - since) / n).

Lemma bucketing_good q since til n :
  iq_Since q = Some since -> iq_Until q = Some til -> good_window since til n ->
  bucketing q n = Some (mkBucketing since (width since til n) n).
Proof.
  intros Hs Hu (H1 & H2 & H3 & H4 & H5 & _). unfold bucketing, After, UnixNano. rewrite Hs, Hu.
  rewrite (wrap_i64_id since), (wrap_i64_id til), wrap_i64_id by (done || (unfold in_i64, two63 in *; lia)).
  destruct (Z.gtb_spec n 0), (Z.ltb_spec since til); try lia. cbn [andb]. do 2 f_equal.
  rewrite Z.quot_div_nonneg by lia. unfold width. destruct (Z.leb_spec ((til - since) / n) 0); lia.
Qed.

Lemma width_index since til n i :
  good_window since til n -> (0 <= i < n)%Z -> (0 <= width since til n * i < two63)%Z /\
    in_i64 (since + width since til n * i).
Proof.
  intros (H1 & H2 & H3 & H4 & H5 & H6) Hi. unfold width, in_i64 in *.
  pose proof (Z.mul_div_le (til - since) n ltac:(lia)). assert (0 <= (til - since) / n)%Z by (apply Z.div_pos; lia).
  destruct (Z.max_spec 1 ((til - since) / n)) as [[? ->]|[? ->]]; [|unfold two63 in *; nia].
  assert ((til - since) / n * i <= (til - since) / n * n)%Z by nia. nia.
Qed.

Lemma empty_buckets_lookup since til n i :
  good_window since til n -> i < Z.to_nat n ->
  empty_buckets (mkBucketing since (width since til n) n) !! i
  = Some (mkHistogramBucket (since + width since til n * Z.of_nat i)%Z 0 0 0 0 0).
Proof.
  intros Hg Hi. unfold empty_buckets. simpl. rewrite list_lookup_fmap, lookup_seq_lt by done. simpl.
  destruct (width_index since til n (Z.of_nat i) Hg ltac:(lia)) as [Hw Hin].
  unfold Unix0. rewrite (wrap_i64_id (_ * _)) by (unfold in_i64, two63 in *; lia).
  by rewrite wrap_i64_id.
Qed.

Lemma bucket_index_spec since til n ts i :
  good_window since til n -> (since <= ts < til)%Z -> (0 <= i < n)%Z ->
  bucket_index (mkBucketing since (width since til n) n) ts = i <->
  (since + width since til n * i <= ts /\
   (ts < since + width since til n * (i + 1) \/ i = n - 1))%Z.
Proof.
  intros (H1 & H2 & H3 & H4 & H5 & _) Hts Hi. unfold bucket_index, UnixNano. cbn [bk_since bk_width bk_count].
  rewrite (wrap_i64_id ts), wrap_i64_id by (unfold in_i64, two63 in *; lia).
  set (w := width since til n). assert (Hw : (1 <= w)%Z) by (unfold w, width; lia).
  rewrite Z.quot_div_nonneg by lia.
  pose proof (Z.div_mod (ts - since) w ltac:(lia)) as Hd.
  pose proof (Z.mod_pos_bound (ts - since) w ltac:(lia)) as Hm.
  set (d := ((ts - since) / w)%Z) in *. assert (0 <= d)%Z by (apply Z.div_pos; lia).
  destruct (Z.ltb_spec d 0); [lia|]. destruct (Z.geb_spec d n); split; intros; nia.
Qed.

(** The histogram [a] is a partition of [rows]: its total is their number, there
    are [n] buckets evenly spaced from [since], and each counter of a bucket is
    the number of rows of that status class between the bucket's start and the
    next one's; the last bucket takes the remainder up to [til]. *)
Definition histogram_of (rows : list RootRow) (since til n : Z) (a : Aggregation) : Prop :=
  let w := width since til n in
  ag_Total a = length rows /\
  length (ag_Buckets a) = Z.to_nat n /\
  forall i, i < Z.to_nat n -> exists b, ag_Buckets a !! i = Some b /\
    hb_Start b = (since + w * Z.of_nat i)%Z /\
    forall c, c ∈ classes -> class_count c b =
      length (filter (fun row =>
        statusClass (row_Status row) = c /\ (hb_Start b <= row_Timestamp row)%Z /\
        ((row_Timestamp row < hb_Start b + w)%Z \/ S i = Z.to_nat n)) rows).

#[export] Instance histogram_of_proper : Proper ((≡ₚ) ==> (=) ==> (=) ==> (=) ==> (=) ==> iff) histogram_of.
Proof.
  assert (Himp : forall l1 l2 since til n a, l1 ≡ₚ l2 -> histogram_of l1 since til n a -> histogram_of l2 since til n a).
  { intros l1 l2 since til n a Hp (Ht & Hl & Hb). split_and!; [by rewrite <- Hp|done|]. intros i Hi.
    destruct (Hb i Hi) as (b & Hbi & Hst & Hc). exists b. split_and!; [done..|]. intros c Hcls.
    rewrite (Hc c Hcls). by rewrite Hp. }
  intros l1 l2 Hp since _ <- til _ <- n _ <- a _ <-. split; by apply Himp.
Qed.

Definition tally_all (b : Bucketing) (rows : list RootRow) : Aggregation :=
  let st := fold_left (tally_row (Some b)) rows (0, empty_buckets b) in mkAggregation st.1 st.2.

(** Tallying rows of the window one by one makes their histogram. *)
Lemma tally_histogram rows since til n :
  good_window since til n -> Forall (fun row => since <= row_Timestamp row < til)%Z rows ->
  histogram_of rows since til n (tally_all (mkBucketing since (width since til n) n) rows).
Proof.
  intros Hg Hrows. set (B := mkBucketing since (width since til n) n). unfold tally_all.
  pose proof (tally_rows_total (Some B) rows (0, empty_buckets B)) as Htot.
  pose proof (tally_rows_length (Some B) rows (0, empty_buckets B)) as Hlen.
  pose proof (fun i bk => tally_rows_buckets B rows 0 (empty_buckets B) i bk) as Hbk.
  destruct (fold_left _ rows _) as [tot bs]. cbn [fst snd] in *. split_and!; [done| |].
  { cbn [ag_Buckets]. rewrite Hlen. unfold empty_buckets. by rewrite length_fmap, length_seq. }
  intros i Hi. destruct (Hbk i _ (empty_buckets_lookup since til n i Hg Hi)) as (b & Hb & Hst & Hc).
  exists b. split_and!; [done..|]. intros c Hcl. rewrite (Hc c Hcl).
  replace (class_count c _) with 0 by (unfold class_count; repeat case_step; done).
  rewrite Nat.add_0_l. f_equal. apply filter_ext_elem. intros row Hrow.
  rewrite Forall_forall in Hrows. specialize (Hrows row Hrow).
  rewrite Hst. simpl. pose proof (bucket_index_spec since til n _ (Z.of_nat i) Hg Hrows ltac:(lia)) as Hx.
  assert (0 <= bucket_index B (row_Timestamp row))%Z.
  { unfold bucket_index, B. simpl. destruct Hg as (_ & _ & _ & _ & ? & _). repeat case_match; bool_hyps; lia. }
  unfold B in *. split; intros; destruct_and?; [split; [done|]|split; [|done]]; lia.
Qed.

(** Histograms of the memory store: for a window inside the [int64]
    nanosecond range AggregateRoots returns the partition of exactly the rows
    [ReadRoots] serves into evenly spaced buckets and status classes. *)
Lemma AggregateRoots_partitions_roots s q since til n :
  iq_Since q = Some since -> iq_Until q = Some til -> good_window since til n ->
  histogram_of (roots s q) since til n (AggregateRoots s q n).
Proof.
  intros Hs Hu Hg. unfold AggregateRoots. rewrite (bucketing_good q since til n), aggregate_fold by done.
  unfold roots. rewrite (SliceStable_perm row_less). set (cs := candidates (snapshot s) q).
  pose proof (tally_histogram cs since til n Hg) as Ht. unfold tally_all in Ht.
  destruct (fold_left _ cs _) as [tot bs]. apply Ht. apply Forall_forall.
  intros row (r & _ & (Hin1 & Hin2 & _) & ->)%elem_of_candidates. destruct r; simpl in *; split; auto.
Qed.

(** ** Services *)

(** The records of the window that carry the service. *)
Definition of_service (since : time) (svc : string) (l : list CRecord) : list CRecord :=
  filter (fun r => since_ok since r = true /\ RecordService r = svc) l.

Lemma of_service_cons since svc r l :
  of_service since svc (r :: l) =
  if decide (since_ok since r = true /\ RecordService r = svc)
  then r :: of_service since svc l else of_service since svc l.
Proof. unfold of_service. by rewrite filter_cons. Qed.

Lemma seen_lookup since l svc :
  fold_left (seen_step since) l ∅ !! svc = Some tt <-> svc <> "" /\ of_service since svc l <> [].
Proof.
  enough (E : forall m, fold_left (seen_step since) l m !! svc = Some tt <->
    m !! svc = Some tt \/ (svc <> "" /\ of_service since svc l <> [])).
  { rewrite E, lookup_empty. naive_solver. }
  induction l as [|r l IH]; intros m; [simpl; naive_solver|]. cbn [fold_left].
  rewrite IH, of_service_cons. unfold seen_step.
  destruct (since_ok since r); cbn [negb]; [|rewrite decide_False by naive_solver; done].
  destruct (String.eqb_spec (RecordService r) "") as [He|Hne]; cbn [negb].
  - case_decide as Hd; [|done]. naive_solver.
  - destruct (decide (RecordService r = svc)) as [<-|Hs].
    + rewrite lookup_insert_eq, decide_True by done. naive_solver.
    + rewrite lookup_insert_ne, decide_False by naive_solver. done.
Qed.

Lemma stats_lookup since l svc :
  svc <> "" ->
  fold_left (stat_step since) l ∅ !! svc =
  match of_service since svc l with [] => None | rs => Some (fold_left stat_update rs (new_stat svc)) end.
Proof.
  intros Hsvc.
  enough (E : forall m, fold_left (stat_step since) l m !! svc =
    match of_service since svc l with
    | [] => m !! svc
    | rs => Some (fold_left stat_update rs (default (new_stat svc) (m !! svc)))
    end) by (rewrite E, lookup_empty; done).
  induction l as [|r l IH]; intros m; [done|]. cbn [fold_left]. rewrite IH, of_service_cons.
  unfold stat_step. destruct (since_ok since r); cbn [negb]; [|rewrite decide_False by naive_solver; done].
  destruct (String.eqb_spec (RecordService r) "") as [He|Hne].
  - rewrite decide_False; [done|]. intros [_ E]. congruence.
  - destruct (decide (RecordService r = svc)) as [<-|Hs].
    + rewrite lookup_insert_eq, decide_True by done. simpl. by case_match.
    + rewrite lookup_insert_ne, decide_False by naive_solver. done.
Qed.

Lemma stats_no_empty since l : fold_left (stat_step since) l ∅ !! "" = None.
Proof.
  enough (E : forall m : gmap string ServiceStat, m !! "" = None -> fold_left (stat_step since) l m !! "" = None)
    by (apply E, lookup_empty).
  induction l as [|r l IH]; intros m Hm; [done|]. cbn [fold_left]. apply IH. unfold stat_step.
  case_match; [done|]. destruct (String.eqb_spec (RecordService r) ""); [done|]. by rewrite lookup_insert_ne.
Qed.

Definition stat_class (c : Z) (st : ServiceStat) : nat :=
  match c with
  | 2%Z => ss_S2xx st | 3%Z => ss_S3xx st | 4%Z => ss_S4xx st | 5%Z => ss_S5xx st | _ => ss_Other st
  end.

(** The status class a record adds to: only responses have one. *)
Definition response_class (r : CRecord) : option Z :=
  match r with RResponse v => Some (statusClass (Some (re_Status v))) | _ => None end.

Lemma addStatusClass_count st code c : c ∈ classes ->
  stat_class c (addStatusClass st code) =
  stat_class c st + (if decide (statusClass (Some code) = c) then 1 else 0).
Proof.
  pose proof (statusClass_classes (Some code)) as Hc. revert Hc. destruct st. unfold addStatusClass.
  generalize (statusClass (Some code)) as k. intros k. unfold classes. rewrite !elem_of_cons, !elem_of_nil.
  intros H1 H2. destruct_or?; subst; case_decide; simpl; done || lia.
Qed.

Lemma addStatusClass_rest st code :
  ss_Name (addStatusClass st code) = ss_Name st /\ ss_Requests (addStatusClass st code) = ss_Requests st /\
  ss_LastSeen (addStatusClass st code) = ss_LastSeen st.
Proof. destruct st. unfold addStatusClass. repeat case_step; done. Qed.

Lemma stat_update_fields st r :
  ss_Name (stat_update st r) = ss_Name st /\
  ss_Requests (stat_update st r) = ss_Requests st + (if decide (Kind r = KindRequest) then 1 else 0) /\
  ss_LastSeen (stat_update st r) = Z.max (ss_LastSeen st) (RecordTimestamp r) /\
  forall c, c ∈ classes -> stat_class c (stat_update st r) =
    stat_class c st + (if decide (response_class r = Some c) then 1 else 0).
Proof.
  unfold stat_update, After. set (st1 := if (_ <? _)%Z then _ else _).
  assert (H1 : ss_Name st1 = ss_Name st /\ ss_Requests st1 = ss_Requests st /\
    ss_LastSeen st1 = Z.max (ss_LastSeen st) (RecordTimestamp r) /\ forall c, stat_class c st1 = stat_class c st).
  { unfold st1. destruct (Z.ltb_spec (ss_LastSeen st) (RecordTimestamp r)); simpl; split_and!; try done; lia. }
  destruct H1 as (<- & <- & <- & Hc). destruct r as [v|v|v]; cbn [Kind response_class].
  - split_and!; [done|simpl; lia|done|]. intros c _. rewrite decide_False, <- Hc, Nat.add_0_r by done. done.
  - destruct (addStatusClass_rest st1 (re_Status v)) as (-> & -> & ->). split_and!; [done|simpl; lia|done|].
    intros c Hcls. rewrite addStatusClass_count, Hc by done. f_equal.
    destruct (decide (_ = c)), (decide (_ = Some c)); congruence.
  - split_and!; [done|simpl; lia|done|]. intros c _. rewrite decide_False, Hc by done. lia.
Qed.

Lemma stats_fields rs st :
  let st' := fold_left stat_update rs st in
  ss_Name st' = ss_Name st /\
  ss_Requests st' = ss_Requests st + length (filter (fun r => Kind r = KindRequest) rs) /\
  ss_LastSeen st' = foldr Z.max (ss_LastSeen st) (RecordTimestamp <$> rs) /\
  forall c, c ∈ classes -> stat_class c st' =
    stat_class c st + length (filter (fun r => response_class r = Some c) rs).
Proof.
  cbv zeta. revert st. induction rs as [|r rs IH]; intros st; [split_and!; simpl; intros; lia || done|].
  cbn [fold_left]. destruct (IH (stat_update st r)) as (-> & -> & -> & Hc).
  destruct (stat_update_fields st r) as (-> & -> & -> & Hu). split_and!; [done| | |].
  - rewrite filter_cons. case_decide; simpl; lia.
  - simpl. generalize (ss_LastSeen st) as t. clear. induction rs as [|x rs IH]; intros t; simpl; [lia|].
    rewrite IH. lia.
  - intros c Hcls. rewrite Hc, Hu, filter_cons by done. case_decide; simpl; lia.
Qed.

Lemma stat_names s since :
  ss_Name <$> ServiceStats s since = ServicesSeen s since.
Proof.
  unfold ServiceStats, ServicesSeen. set (stats := fold_left (stat_step since) (snapshot s) ∅).
  set (seen := fold_left (seen_step since) (snapshot s) ∅). apply sorted_strings_unique.
  - unfold sorted_by. pose proof (strict_weak_on ss_Name str_ltb _) as Hsw.
    pose proof (SliceStable_sorted _ (snd <$> go_range stats)) as Hs. unfold sorted_by in Hs. induction Hs; simpl; constructor; [done|]. by rewrite Forall_fmap.
  - apply SliceStable_sorted, _.
  - rewrite (SliceStable_perm _ (snd <$> go_range stats)). unfold sort_strings. rewrite (SliceStable_perm str_ltb).
    assert (Hname : forall k st, stats !! k = Some st -> ss_Name st = k).
    { intros k st Hk. destruct (decide (k = "")) as [->|Hne]; [unfold stats in Hk; by rewrite stats_no_empty in Hk|].
      unfold stats in Hk. rewrite stats_lookup in Hk by done. case_match; simplify_eq.
      by destruct (stats_fields (c :: l) (new_stat k)) as (-> & _). }
    assert (ss_Name <$> (snd <$> go_range stats) = fst <$> go_range stats) as ->.
    { rewrite <- list_fmap_compose. apply list_fmap_ext. intros i [k st] Hi. simpl. apply Hname.
      apply elem_of_go_range, (list_elem_of_lookup_2 _ i). done. }
    rewrite !go_range_perm. apply NoDup_Permutation; [apply NoDup_fst_map_to_list..|].
    intros k. rewrite !list_elem_of_fmap. setoid_rewrite (surjective_pairing (A := string)).
    assert (Hk : is_Some (stats !! k) <-> is_Some (seen !! k)).
    { destruct (decide (k = "")) as [->|Hne].
      - unfold stats, seen. rewrite stats_no_empty. split; [by intros []|]. intros [[] Hs%seen_lookup]. naive_solver.
      - unfold stats, seen. rewrite stats_lookup by done. split.
        + intros _x. exists tt. apply seen_lookup. split; [done|]. intros E. rewrite E in _x. by destruct _x.
        + intros [[] [_ Hs]%seen_lookup]. by destruct (of_service since k (snapshot s)). }
    split.
    + intros ([k' st] & -> & Hin%elem_of_map_to_list). simpl. destruct (proj1 Hk) as [u Hu]; [by eexists|].
      exists (k', u). split; [done|]. by apply elem_of_map_to_list.
    + intros ([k' u] & -> & Hin%elem_of_map_to_list). simpl. destruct (proj2 Hk) as [st Hst]; [by eexists|].
      exists (k', st). split; [done|]. by apply elem_of_map_to_list.
Qed.

Lemma ServiceStats_elem s since st :
  st ∈ ServiceStats s since ->
  st = fold_left stat_update (of_service since (ss_Name st) (snapshot s)) (new_stat (ss_Name st)).
Proof.
  unfold ServiceStats. rewrite (SliceStable_perm _), list_elem_of_fmap.
  intros ([k st'] & -> & Hk%elem_of_go_range). simpl.
  destruct (decide (k = "")) as [->|Hne]; [by rewrite stats_no_empty in Hk|].
  rewrite stats_lookup in Hk by done. case_match eqn:E; simplify_eq. rewrite <- E.
  destruct (stats_fields (of_service since k (snapshot s)) (new_stat k)) as (Hn & _). by rewrite Hn.
Qed.

(** Service statistics and the service list agree: both name, in
    strictly ascending order, exactly the non-empty services of the records
    in the window, and each entry counts that service's requests, its
    responses per status class, and the latest timestamp of any of its
    records. *)
Lemma ServiceStats_spec s since :
  ss_Name <$> ServiceStats s since = ServicesSeen s since /\
  StronglySorted (fun a b => str_ltb a b = true) (ServicesSeen s since) /\
  (forall svc, svc ∈ ServicesSeen s since <-> svc <> "" /\ of_service since svc (snapshot s) <> []) /\
  forall st, st ∈ ServiceStats s since ->
    let mine := of_service since (ss_Name st) (snapshot s) in
    ss_Requests st = length (filter (fun r => Kind r = KindRequest) mine) /\
    ss_LastSeen st = foldr Z.max time_zero (RecordTimestamp <$> mine) /\
    forall c, c ∈ classes -> stat_class c st = length (filter (fun r => response_class r = Some c) mine).
Proof.
  split_and!; [apply stat_names| | |].
  - assert (Hnd : NoDup (ServicesSeen s since)).
    { unfold ServicesSeen, sort_strings. rewrite (SliceStable_perm str_ltb), go_range_perm.
      apply NoDup_fst_map_to_list. }
    pose proof (SliceStable_sorted str_ltb (fst <$> go_range (fold_left (seen_step since) (snapshot s) ∅))) as Hs.
    change (SliceStable _ _) with (ServicesSeen s since) in Hs. unfold sorted_by in Hs.
    induction Hs as [|x l Hl IH Hx]; [constructor|]. apply NoDup_cons in Hnd as [Hni Hnd].
    constructor; [auto|]. rewrite Forall_forall in Hx |- *. intros y Hy.
    destruct (str_ltb x y) eqn:E; [done|]. by rewrite (str_ltb_total x y E (Hx y Hy)) in Hni.
  - intros svc. unfold ServicesSeen, sort_strings. rewrite (SliceStable_perm str_ltb), list_elem_of_fmap.
    rewrite <- seen_lookup. split.
    + intros ([k []] & -> & Hk%elem_of_go_range). done.
    + intros Hk. exists (svc, tt). by rewrite elem_of_go_range.
  - intros st Hst. apply ServiceStats_elem in Hst. cbv zeta.
    set (mine := of_service since (ss_Name st) (snapshot s)) in *.
    destruct (stats_fields mine (new_stat (ss_Name st))) as (_ & Hr & Hl & Hc). rewrite <- Hst in *.
    split_and!; [done|done|]. intros c Hcls. rewrite Hc by done. unfold stat_class. repeat case_match; done.
Qed.
End Facts.

(** ** Examples *)

Definition sample_request (id : string) (ts : time) (corr : string) : CRecord :=
  RRequest (mkCapturedRequest id ts "GET" "/a" None None [] "" false 0 "" "10.0.0.1" "svc" "header" corr "generated").
Definition sample_response (id : string) (ts : time) (corr : string) (status : Z) : CRecord :=
  RResponse (mkResponseEvent id ts corr "header" "svc" "header" status None "" false 0 "" 5).

Definition sample_history : list CRecord :=
  [sample_request "r1" 10 "c1"; sample_response "e1" 20 "c1" 200;
   sample_response "e2" 30 "c2" 404; sample_request "r2" 30 "c3"]%Z.

Definition everything : InspectQuery := mkInspectQuery 50%Z None None None (mkQuery []).
Definition window (since til : Z) : InspectQuery := mkInspectQuery 50 None (Some since) (Some til) (mkQuery []).

Lemma ReadRoots_walk_complete_witness :
  walk (fun c => default ([], None) (@ReadRoots ascii_unicode sorted_range (written 8 sample_history) everything 1 c)) 9 None
    = @roots ascii_unicode sorted_range (written 8 sample_history) everything /\
  (row_ID <$> @roots ascii_unicode sorted_range (written 8 sample_history) everything) = ["r2"; "e2"; "r1"].
Proof.
  split; [|vm_compute; reflexivity].
  refine (proj1 (proj2 (@ReadRoots_walk_complete ascii_unicode sorted_range 8 sample_history everything 1 9 _ _ _))).
  - apply (bool_decide_unpack _). vm_compute. exact I.
  - lia.
  - simpl. lia.
Defined.

Lemma AggregateRoots_partitions_roots_witness :
  let a := @AggregateRoots ascii_unicode sorted_range (written 8 sample_history) (window 0 40) 4 in
  ag_Total a = length (@roots ascii_unicode sorted_range (written 8 sample_history) (window 0 40)) /\
  (hb_S4xx <$> ag_Buckets a) = [0; 0; 0; 1] /\ (hb_Other <$> ag_Buckets a) = [0; 1; 0; 1].
Proof.
  split; [|split; vm_compute; reflexivity].
  refine (proj1 (@AggregateRoots_partitions_roots ascii_unicode sorted_range (written 8 sample_history)
    (window 0 40) 0%Z 40%Z 4%Z _ _ _)); [reflexivity | reflexivity |].
  unfold good_window, in_i64, two63. lia.
Defined.
