(* ===== verification/AdminInspect.v ===== *)
(** * admin/inspect.go and admin/query_parser.go: the inspect endpoints

    The two readers are values of [Reader], the operations of the Go interface;
    the merge theorems are proved against the laws of class [Serves].
    Response bodies are kept as values instead of their JSON text. *)
From S2P Require Import Prelude GoLib Record SearchQL SearchSQL Inspect.

Open Scope string_scope.
Open Scope go_scope.

(** ** The Reader interface *)

(** [ReadPanic] is a runtime panic inside a reader, [ErrBackend] any error
    other than [ErrNotFound]. *)
Inductive ReadError := ErrNotFound | ErrBackend (msg : string) | ReadPanic.

Record Reader := mkReader {
  rd_ReadRoots : InspectQuery -> Z -> option Cursor -> result ReadError (list RootRow * option Cursor);
  rd_ReadDetail : string -> result ReadError DetailRecord;
  rd_AggregateRoots : InspectQuery -> Z -> result ReadError Aggregation;
  rd_ServicesSeen : time -> result ReadError (list string);
  rd_ServiceStats : time -> result ReadError (list ServiceStat)
}.

(** A header name both stores read the same way: no quote, no backslash. *)
Definition plain_name (t : Term) : Prop :=
  t_Field t = FieldHeader ->
  str_forall (fun c => negb (Ascii.eqb c dquote || Ascii.eqb c backslash)) (t_HeaderName t) = true.

Definition plain_names (q : Query) : Prop := Forall plain_name (q_Terms q).

(** Cursors the code makes: decoded from int64 nanoseconds or taken from a row. *)
Definition cursor_in_range (cursor : option Cursor) : Prop :=
  forall c, cursor = Some c -> in_i64 (cur_Timestamp c).

(** What the interface promises of [ReadRoots] for a query: pages of one
    ordered row list. *)
Class Serves (r : Reader) (q : InspectQuery) (rows : list RootRow) : Prop := {
  sv_ordered : rows_ordered rows;
  sv_pages : forall limit cursor, cursor_in_range cursor -> (1 <= limit <= 500)%Z ->
    rd_ReadRoots r q limit cursor = Ok (page_of rows (Z.to_nat limit) cursor)
}.

(** ** gatherRoots *)

Inductive readSource := readSourceMemory | readSourceSQLite | readSourceMemorySQLite | readSourceNone.

Definition defaultLimit : Z := 50.
Definition maxLimit : Z := 500.
Definition histogramBucketCount : Z := 40.
Definition maxHistogramBuckets : Z := 240.

Definition hasNonTemporalFilter (q : InspectQuery) : bool := HasNonTemporalTerm (iq_Query q).

(** Memory rows first, then the SQLite rows whose id memory did not return. *)
Definition dedup_rows (memRows sqlRows : list RootRow) : list RootRow :=
  (memRows ++ filter (fun row => row_ID row ∉ (list_to_set (row_ID <$> memRows) : gset string)) sqlRows)%list.

(** Sort and trim the merged rows; [deduped[limit-1]] needs a positive limit. *)
Definition merge_rows (memRows sqlRows : list RootRow) (limit : Z) : result ReadError (list RootRow * option Cursor) :=
  let deduped := SliceStable row_less (dedup_rows memRows sqlRows) in
  if (Z.of_nat (length deduped) >? limit)%Z then
    if (limit <? 1)%Z then Err ReadPanic else
    match deduped !! Z.to_nat (limit - 1) with
    | Some last => Ok (take (Z.to_nat limit) deduped, Some (cursor_of last))
    | None => Err ReadPanic
    end
  else Ok (deduped, None).

Definition gatherRoots (q : InspectQuery) (memReader sqlReader : option Reader)
  : result ReadError (list RootRow * option Cursor * readSource) :=
  let limit := iq_Limit q in
  match memReader, sqlReader with
  | None, None => Ok ([], None, readSourceNone)
  | None, Some sql =>
      try (rows, next) <- rd_ReadRoots sql q limit (iq_Cursor q);
      Ok (rows, next, readSourceSQLite)
  | Some mem, _ =>
      if hasNonTemporalFilter q then
        match sqlReader with
        | None => Ok ([], None, readSourceNone)
        | Some sql =>
            try (rows, next) <- rd_ReadRoots sql q limit (iq_Cursor q);
            Ok (rows, next, readSourceSQLite)
        end
      else
        try (memRows, memNext) <- rd_ReadRoots mem q limit (iq_Cursor q);
        match sqlReader with
        | None => Ok (memRows, memNext, readSourceMemory)
        | Some sql =>
            if (Z.of_nat (length memRows) >=? limit)%Z then Ok (memRows, memNext, readSourceMemory) else
            try (sqlRows, _) <- rd_ReadRoots sql q limit (iq_Cursor q);
            try (page, nextCur) <- merge_rows memRows sqlRows limit;
            Ok (page, nextCur,
                match memRows, sqlRows with
                | _ :: _, _ :: _ => readSourceMemorySQLite
                | _, _ :: _ => readSourceSQLite
                | _, [] => readSourceMemory
                end)
        end
  end.

(** ** gatherAggregation, gatherDetail *)

Definition gatherAggregation (q : InspectQuery) (bucketCount : Z) (memReader sqlReader : option Reader)
  : result ReadError Aggregation :=
  match sqlReader, memReader with
  | Some sql, _ => rd_AggregateRoots sql q bucketCount
  | None, Some mem => rd_AggregateRoots mem q bucketCount
  | None, None => Ok (mkAggregation 0 [])
  end.

(** Siblings: timestamp ascending, id ascending. *)
Definition sibling_less (a b : CRecord) : bool :=
  if negb (Z.eqb (RecordTimestamp a) (RecordTimestamp b)) then Before (RecordTimestamp a) (RecordTimestamp b)
  else str_ltb (RecordID a) (RecordID b).

(** The loop over [secondary.Events] with the growing [seen] set. *)
Fixpoint append_unseen (seen : gset string) (es : list CRecord) : list CRecord :=
  match es with
  | [] => []
  | e :: es' =>
      if bool_decide (RecordID e ∈ seen) then append_unseen seen es'
      else e :: append_unseen ({[RecordID e]} ∪ seen) es'
  end.

(** Every event is a record, so the type assertions to [recordMeta] succeed. *)
Definition mergeDetailSiblings (primary secondary : DetailRecord) : DetailRecord :=
  let seen : gset string := {[RecordID (dr_Root primary)]} ∪ list_to_set (RecordID <$> dr_Events primary) in
  let merged := (dr_Events primary ++ append_unseen seen (dr_Events secondary))%list in
  mkDetailRecord (dr_Root primary) (SliceStable sibling_less merged).

Definition gatherDetail (id : string) (memReader sqlReader : option Reader) : result ReadError DetailRecord :=
  let from_sql :=
    match sqlReader with
    | None => Err ErrNotFound
    | Some sql =>
        try detail <- rd_ReadDetail sql id;
        match memReader with
        | None => Ok detail
        | Some mem =>
            match rd_ReadDetail mem id with
            | Ok memDetail => Ok (mergeDetailSiblings detail memDetail)
            | Err ReadPanic => Err ReadPanic
            | Err _ => Ok detail
            end
        end
    end in
  match memReader with
  | None => from_sql
  | Some mem =>
      match rd_ReadDetail mem id with
      | Ok detail =>
          match sqlReader with
          | None => Ok detail
          | Some sql =>
              match rd_ReadDetail sql id with
              | Ok sqlDetail => Ok (mergeDetailSiblings detail sqlDetail)
              | Err ReadPanic => Err ReadPanic
              | Err _ => Ok detail
              end
          end
      | Err ErrNotFound => from_sql
      | Err e => Err e
      end
  end.

Definition requiresNarrowing (q : InspectQuery) : bool :=
  match iq_Since q, iq_Until q with
  | None, None =>
      existsb (fun t => bool_decide (t_Field t = FieldService) && bool_decide (t_Wildcard t = WildcardNone)
                        && negb (t_Negated t)) (q_Terms (iq_Query q))
  | _, _ => true
  end.

(** ** parseInspectQuery *)

Definition knownQueryKeys : list string := ["limit"; "cursor"; "since"; "until"; "q"; "live"; "buckets"].

Inductive FieldMsg :=
| FmUnknownParameter (key : string)
| FmNotAnInteger
| FmLimitRange (max : Z)
| FmCursor (e : CursorError)
| FmNotRFC3339
| FmQuery (e : ParseError)
| FmNeedsNarrowing
| FmBucketsRange (max : Z).

Record parseFieldError := mkFieldError { fe_field : string; fe_message : FieldMsg }.

(** [time.Parse(time.RFC3339, s)]. *)
Class TimeParse := { parse_rfc3339 : string -> option time }.

(** [url.Values.Get]: first value, exact key. *)
Definition Values_Get (v : header) (key : string) : string :=
  match v !! key with Some (x :: _) => x | _ => "" end.

Section Parser.
Context `{Unicode} `{MapRange} `{TimeParse}.

Definition unknown_keys (values : header) : list parseFieldError :=
  omap (fun '(key, _) => if bool_decide (key ∈ knownQueryKeys) then None
                         else Some (mkFieldError key (FmUnknownParameter key))) (go_range values).

(** An optional parameter: absent or empty keeps the default. *)
Definition optional {A} (s : string) (dflt : A) (parse : string -> result parseFieldError A)
  : A * list parseFieldError :=
  if String.eqb s "" then (dflt, [])
  else match parse s with Ok v => (v, []) | Err e => (dflt, [e]) end.

Definition parse_limit (ls : string) : result parseFieldError Z :=
  match Atoi ls with
  | None => Err (mkFieldError "limit" FmNotAnInteger)
  | Some v => if ((v <? 1) || (v >? maxLimit))%Z then Err (mkFieldError "limit" (FmLimitRange maxLimit)) else Ok v
  end.

Definition parse_cursor (cs : string) : result parseFieldError (option Cursor) :=
  match DecodeCursor cs with
  | Err e => Err (mkFieldError "cursor" (FmCursor e))
  | Ok c => Ok (Some c)
  end.

Definition parse_time (field s : string) : result parseFieldError (option time) :=
  match parse_rfc3339 s with
  | None => Err (mkFieldError field FmNotRFC3339)
  | Some t => Ok (Some t)
  end.

Definition parse_q (qs : string) : result parseFieldError Query :=
  match Parse qs with
  | Err e => Err (mkFieldError "q" (FmQuery e))
  | Ok parsed => Ok parsed
  end.

Definition parseInspectQuery (values : header) : InspectQuery * list parseFieldError :=
  match unknown_keys values with
  | e :: errs => (mkInspectQuery 0 None None None (mkQuery []), e :: errs)
  | [] =>
      let '(limit, e1) := optional (Values_Get values "limit") defaultLimit parse_limit in
      let '(cursor, e2) := optional (Values_Get values "cursor") None parse_cursor in
      let '(since, e3) := optional (Values_Get values "since") None (parse_time "since") in
      let '(til, e4) := optional (Values_Get values "until") None (parse_time "until") in
      let '(q, e5) := optional (Values_Get values "q") (mkQuery []) parse_q in
      (mkInspectQuery limit cursor since til q, (e1 ++ e2 ++ e3 ++ e4 ++ e5)%list)
  end.

(** ** Handlers *)

(** What the handler writes: status, the two marker headers, and the body. *)
Inductive InspectResponse :=
| RespFieldError (e : parseFieldError)
| RespReadError
| RespRoots (records : list RootRow) (nextCursor : option string) (scan : bool) (source : readSource)
| RespAggregate (agg : Aggregation) (scan : bool)
| RespDetail (detail : DetailRecord)
| RespDetailNotFound (id : string).

Definition resp_status (r : InspectResponse) : Z :=
  match r with
  | RespFieldError _ => 400
  | RespReadError => 500
  | RespDetailNotFound _ => 404
  | _ => 200
  end.

Record ReadSources := mkReadSources { rs_Memory : option Reader; rs_SQLite : option Reader }.

(** A panic inside the handler is reported as a read error here; the server
    drops the connection. *)
Definition requestsHandler (rs : ReadSources) (values : header) : InspectResponse :=
  let '(q, fieldErrs) := parseInspectQuery values in
  match fieldErrs with
  | e :: _ => RespFieldError e
  | [] =>
      let scan := IsUnindexedScan (iq_Query q) in
      if scan && negb (requiresNarrowing q) then RespFieldError (mkFieldError "q" FmNeedsNarrowing)
      else match gatherRoots q (rs_Memory rs) (rs_SQLite rs) with
           | Err _ => RespReadError
           | Ok (rows, nextCur, source) => RespRoots rows (Encode <$> nextCur) scan source
           end
  end.

Definition parse_buckets (bs : string) : result parseFieldError Z :=
  let err := Err (mkFieldError "buckets" (FmBucketsRange maxHistogramBuckets)) in
  match Atoi bs with
  | None => err
  | Some n => if ((n <? 1) || (n >? maxHistogramBuckets))%Z then err else Ok n
  end.

Definition requestsAggregateHandler (rs : ReadSources) (vals : header) : InspectResponse :=
  match optional (Values_Get vals "buckets") histogramBucketCount parse_buckets with
  | (_, e :: _) => RespFieldError e
  | (bucketCount, []) =>
      let '(q, fieldErrs) := parseInspectQuery vals in
      match fieldErrs with
      | e :: _ => RespFieldError e
      | [] =>
          let scan := IsUnindexedScan (iq_Query q) in
          if scan && negb (requiresNarrowing q) then RespFieldError (mkFieldError "q" FmNeedsNarrowing)
          else
            let q := mkInspectQuery 0 None (iq_Since q) (iq_Until q) (iq_Query q) in
            match gatherAggregation q bucketCount (rs_Memory rs) (rs_SQLite rs) with
            | Err _ => RespReadError
            | Ok agg => RespAggregate agg scan
            end
      end
  end.

Definition requestDetailHandler (rs : ReadSources) (id : string) : InspectResponse :=
  match rs_Memory rs, rs_SQLite rs with
  | None, None => RespDetailNotFound id
  | mem, sql =>
      match gatherDetail id mem sql with
      | Err ErrNotFound => RespDetailNotFound id
      | Err _ => RespReadError
      | Ok detail => RespDetail detail
      end
  end.

End Parser.
