(* ===== verification/AdminInspectFacts.v ===== *)
(** * The inspect endpoints against readers that serve ordered pages

    Page merging, detail merging, the query gate; the memory sink discharges
    the reader contract. *)
From S2P Require Import Prelude GoLib Record SearchQL SearchSQL MemorySink Inspect MemoryReader MemoryReaderFacts AdminInspect.

Open Scope string_scope.

(** ** The memory sink serves its rows *)

Section MemoryInstance.
Context `{Unicode} `{MapRange}.

Definition memory_reader (s : MemorySink) : Reader := {|
  rd_ReadRoots q limit cursor :=
    match ReadRoots s q limit cursor with Some p => Ok p | None => Err ReadPanic end;
  rd_ReadDetail id := match ReadDetail s id with Some d => Ok d | None => Err ErrNotFound end;
  rd_AggregateRoots q n := Ok (AggregateRoots s q n);
  rd_ServicesSeen since := Ok (ServicesSeen s since);
  rd_ServiceStats since := Ok (ServiceStats s since)
|}.

#[export] Instance memory_reader_serves s q :
  NoDup (RecordID <$> snapshot s) -> Serves (memory_reader s) q (roots s q).
Proof.
  intros Hnd. split.
  - by apply roots_ordered.
  - intros limit cursor _ Hl. simpl. rewrite ReadRoots_page; [done|]. unfold two63. lia.
Qed.

End MemoryInstance.

(** ** Merging two pages *)

Definition row_ids (l : list RootRow) : gset string := list_to_set (row_ID <$> l).

Lemma elem_of_row_ids i l : i ∈ row_ids l <-> exists r, r ∈ l /\ row_ID r = i.
Proof. unfold row_ids. rewrite elem_of_list_to_set, list_elem_of_fmap. naive_solver. Qed.

Lemma dedup_rows_eq A B : dedup_rows A B = (A ++ filter (fun row => row_ID row ∉ row_ids A) B)%list.
Proof. done. Qed.

Lemma elem_of_after_cursor c l row :
  row ∈ after_cursor c l <-> row ∈ l /\ (forall cur, c = Some cur -> past_cursor cur row = true).
Proof.
  destruct c as [cur|]; simpl; [|naive_solver]. rewrite list_elem_of_filter. split.
  - intros [Hp Hr]. split; [done|]. intros ? [= <-]. by destruct (past_cursor cur row).
  - intros [Hr Hp]. by rewrite (Hp _ eq_refl).
Qed.

Lemma past_cursor_key c a b : cursor_of a = cursor_of b -> past_cursor c a = past_cursor c b.
Proof. unfold cursor_of, past_cursor. by intros [= -> ->]. Qed.

Lemma rows_ordered_filter (P : RootRow -> Prop) `{!forall x, Decision (P x)} l :
  rows_ordered l -> rows_ordered (filter P l).
Proof.
  unfold rows_ordered. induction 1 as [|x l Hl IH Hx]; [constructor|].
  rewrite filter_cons. case_decide; [|done]. constructor; [done|].
  rewrite Forall_forall in Hx |- *. intros y [_ Hy]%list_elem_of_filter. auto.
Qed.

Lemma rows_ordered_after c l : rows_ordered l -> rows_ordered (after_cursor c l).
Proof. destruct c as [c|]; [apply rows_ordered_filter | done]. Qed.

Lemma rows_ordered_keys l : rows_ordered l -> NoDup (cursor_of <$> l).
Proof.
  induction 1 as [|x l Hl IH Hx]; [constructor|]. rewrite fmap_cons. apply NoDup_cons. split; [|done].
  rewrite list_elem_of_fmap. intros (y & Hk & Hy). rewrite Forall_forall in Hx.
  pose proof (Hx y Hy) as E. rewrite <- past_cursor_of, Hk, past_cursor_of, row_less_irrefl in E. done.
Qed.

Lemma rows_ordered_take n l : rows_ordered l -> rows_ordered (take n l).
Proof.
  unfold rows_ordered. intros Hl. revert n. induction Hl as [|x l Hl IH Hx]; intros [|n]; simpl; constructor; auto.
  by apply Forall_take.
Qed.

(** How the two readers' rows relate: an id names one position, and what
    memory no longer has is older than everything it has. *)
Record coherent (M Q : list RootRow) : Prop := {
  co_key : forall m x, m ∈ M -> x ∈ Q -> row_ID m = row_ID x -> cursor_of m = cursor_of x;
  co_newer : forall m x, m ∈ M -> x ∈ Q -> row_ID x ∉ row_ids M -> row_less m x = true
}.

Lemma dedup_ordered A B :
  rows_ordered A -> rows_ordered B -> (forall m x, m ∈ A -> x ∈ B -> row_ID x ∉ row_ids A -> row_less m x = true) ->
  rows_ordered (dedup_rows A B).
Proof.
  intros HA HB Hn. rewrite dedup_rows_eq.
  pose proof (rows_ordered_filter (fun row => row_ID row ∉ row_ids A) B HB) as HF.
  assert (Hn' : forall m x, m ∈ A -> x ∈ filter (fun row => row_ID row ∉ row_ids A) B -> row_less m x = true).
  { intros m x Hm [Hx1 Hx2]%list_elem_of_filter. by apply Hn. }
  revert Hn' HF. generalize (filter (fun row => row_ID row ∉ row_ids A) B) as F. clear Hn HB. intros F Hn HF.
  induction HA as [|x l Hl IH Hx]; [done|]. simpl. constructor.
  - apply IH. intros m y Hm. apply Hn. by right.
  - rewrite Forall_forall in Hx |- *. intros y [Hy|Hy]%elem_of_app; [auto|]. apply Hn; [by left|done].
Qed.

Lemma filter_filter_comm {A} (P R : A -> Prop) `{!forall x, Decision (P x), !forall x, Decision (R x)} (l : list A) :
  filter P (filter R l) = filter R (filter P l).
Proof. rewrite !list_filter_filter. apply filter_ext_elem. tauto. Qed.

(** Filtering by the cursor commutes with merging. *)
Lemma after_cursor_dedup c M Q :
  coherent M Q -> after_cursor c (dedup_rows M Q) = dedup_rows (after_cursor c M) (after_cursor c Q).
Proof.
  intros [Hk _]. destruct c as [c|]; [|done]. rewrite !dedup_rows_eq. unfold after_cursor. rewrite filter_app. f_equal.
  rewrite filter_filter_comm. apply filter_ext_elem. intros x [Hp Hx]%list_elem_of_filter.
  rewrite !elem_of_row_ids. split; intros Hn (m & Hm & Hid); apply Hn; exists m; (split; [|done]).
  - apply list_elem_of_filter in Hm. tauto.
  - apply list_elem_of_filter. split; [|done]. by rewrite (past_cursor_key c m x) by (apply Hk; done).
Qed.

(** At most [length A] rows of an ordered list share an id with [A]. *)
Lemma shared_bound (A B : list RootRow) :
  rows_ordered B -> (forall m x, m ∈ A -> x ∈ B -> row_ID m = row_ID x -> cursor_of m = cursor_of x) ->
  length (filter (fun row => ~ (row_ID row ∉ row_ids A)) B) <= length A.
Proof.
  intros HB Hk. rewrite <- (length_fmap cursor_of), <- (length_fmap cursor_of A).
  apply submseteq_length, NoDup_submseteq.
  - by apply rows_ordered_keys, rows_ordered_filter.
  - intros k. rewrite !list_elem_of_fmap. intros (x & -> & [Hx1%dec_stable Hx2]%list_elem_of_filter).
    apply elem_of_row_ids in Hx1 as (m & Hm & Hid). exists m. split; [|done]. symmetry. by apply Hk.
Qed.

Lemma length_filter_split {A} (P : A -> Prop) `{!forall x, Decision (P x)} (l : list A) :
  length (filter P l) + length (filter (fun x => ~ P x) l) = length l.
Proof. induction l as [|x l IH]; [done|]. rewrite !filter_cons. repeat case_decide; simpl; try lia; tauto. Qed.

(** Cutting the SQLite rows to the page size first does not change the page. *)
Lemma take_dedup n (A B : list RootRow) :
  rows_ordered B -> (forall m x, m ∈ A -> x ∈ B -> row_ID m = row_ID x -> cursor_of m = cursor_of x) ->
  take n (dedup_rows A (take n B)) = take n (dedup_rows A B).
Proof.
  intros HB Hk. rewrite !dedup_rows_eq. set (F := filter (fun row => row_ID row ∉ row_ids A)).
  destruct (decide (length B <= n)) as [Hle|Hgt]; [by rewrite (take_ge B)|].
  assert (HF : F B = (F (take n B) ++ F (drop n B))%list) by (unfold F; by rewrite <- filter_app, take_drop).
  rewrite HF, app_assoc, (take_app_le (A ++ F (take n B))); [done|].
  rewrite length_app. pose proof (shared_bound A (take n B) (rows_ordered_take n B HB)) as Hs.
  pose proof (length_filter_split (fun row => row_ID row ∉ row_ids A) (take n B)) as Hl.
  rewrite length_take in Hl. unfold F. enough (length (filter (fun row => ~ (row_ID row ∉ row_ids A)) (take n B)) <= length A) by lia.
  apply Hs. intros m x Hm Hx. apply Hk; [done|]. apply elem_of_take in Hx as (i & Hi & _). by apply list_elem_of_lookup_2 in Hi.
Qed.

Lemma NoDup_fmap_filter {A B} (f : A -> B) (P : A -> Prop) `{!forall x, Decision (P x)} (l : list A) :
  NoDup (f <$> l) -> NoDup (f <$> filter P l).
Proof.
  induction l as [|x l IH]; [constructor|]. rewrite fmap_cons, NoDup_cons. intros [Hn Hnd].
  rewrite filter_cons. case_decide; [|auto]. rewrite fmap_cons. constructor; [|auto].
  intros (y & Hid & [_ Hy]%list_elem_of_filter)%list_elem_of_fmap. apply Hn.
  rewrite Hid. by apply list_elem_of_fmap_2.
Qed.

(** A list of distinct ids is not covered by a shorter one. *)
Lemma uncovered_id (l rows : list RootRow) :
  NoDup (row_ID <$> l) -> length rows < length l -> exists x, x ∈ l /\ row_ID x ∉ row_ids rows.
Proof.
  intros Hnd Hlen. destruct (decide (Forall (fun x => row_ID x ∈ row_ids rows) l)) as [Ha|Hn].
  2:{ apply not_Forall_Exists in Hn; [|apply _]. by apply Exists_exists in Hn. }
  exfalso. rewrite Forall_forall in Ha.
  assert (length (row_ID <$> l) <= length (row_ID <$> rows)); [|rewrite !length_fmap in *; lia].
  apply submseteq_length, NoDup_submseteq; [done|]. intros i (x & -> & Hx)%list_elem_of_fmap.
  specialize (Ha x Hx). apply elem_of_row_ids in Ha as (r & Hr & <-). by apply list_elem_of_fmap_2.
Qed.

Lemma merge_rows_spec A B limit :
  (1 <= limit)%Z -> rows_ordered (dedup_rows A B) ->
  merge_rows A B limit = Ok (take (Z.to_nat limit) (dedup_rows A B),
    if (Z.to_nat limit <? length (dedup_rows A B))%nat
    then cursor_of <$> dedup_rows A B !! (Z.to_nat limit - 1) else None).
Proof.
  intros Hl Ho. unfold merge_rows.
  assert (Hs : SliceStable row_less (dedup_rows A B) = dedup_rows A B).
  { apply SliceStable_id. unfold sorted_by. clear -Ho. induction Ho as [|x l Ho IH Hx]; constructor; [done|].
    eapply Forall_impl; [exact Hx|]. simpl. intros y Hy. by apply sw_asym. }
  rewrite Hs. set (D := dedup_rows A B).
  destruct (Nat.ltb_spec (Z.to_nat limit) (length D)) as [Hlt|Hge].
  - destruct (Z.gtb_spec (Z.of_nat (length D)) limit), (Z.ltb_spec limit 1); try lia.
    replace (Z.to_nat (limit - 1)) with (Z.to_nat limit - 1) by lia.
    destruct (lookup_lt_is_Some_2 D (Z.to_nat limit - 1)) as [r Hr]; [lia|]. by rewrite Hr.
  - destruct (Z.gtb_spec (Z.of_nat (length D)) limit); [lia|]. rewrite take_ge by lia. done.
Qed.

(** With both readers serving pages of coherent lists, and a query without field
    terms, a page of the merged list is the page of the combined view: memory's
    rows followed by the SQLite rows memory no longer has, which is strictly
    ordered; no row is lost, repeated or out of order on the page, whether or
    not memory alone could fill it. *)
Lemma gatherRoots_page mem sql M Q q :
  Serves mem q M -> Serves sql q Q -> coherent M Q ->
  hasNonTemporalFilter q = false -> cursor_in_range (iq_Cursor q) -> (1 <= iq_Limit q <= 500)%Z ->
  rows_ordered (dedup_rows M Q) /\
  exists next source,
    gatherRoots q (Some mem) (Some sql) =
      Ok (take (Z.to_nat (iq_Limit q)) (after_cursor (iq_Cursor q) (dedup_rows M Q)), next, source).
Proof.
  intros LM LQ Hco Hf Hcr Hl. split.
  { apply dedup_ordered; [apply LM | apply LQ | apply Hco]. }
  unfold gatherRoots. rewrite Hf, (sv_pages (iq_Limit q) (iq_Cursor q)) by done.
  rewrite (sv_pages (Serves := LQ) (iq_Limit q) (iq_Cursor q)) by done.
  rewrite after_cursor_dedup by done. unfold page_of.
  set (n := Z.to_nat (iq_Limit q)). set (A := after_cursor (iq_Cursor q) M).
  set (B := after_cursor (iq_Cursor q) Q).
  assert (HB : rows_ordered B) by apply rows_ordered_after, LQ.
  assert (Hk : forall m x, m ∈ A -> x ∈ B -> row_ID m = row_ID x -> cursor_of m = cursor_of x).
  { intros m x [Hm _]%elem_of_after_cursor [Hx _]%elem_of_after_cursor. by apply Hco. }
  rewrite length_take. destruct (Z.geb_spec (Z.of_nat (n `min` length A)) (iq_Limit q)) as [Hge|Hlt].
  - eexists _, _. do 3 f_equal. rewrite dedup_rows_eq, take_app_le; [done|]. lia.
  - rewrite (take_ge A) by lia. rewrite merge_rows_spec; [|lia|].
    + eexists _, _. do 3 f_equal. by apply take_dedup.
    + apply dedup_ordered; [apply rows_ordered_after, LM | by apply rows_ordered_take |].
      intros m x Hm Hx Hn. apply elem_of_take in Hx as (i & Hx & _). apply list_elem_of_lookup_2 in Hx.
      apply elem_of_after_cursor in Hm as Hm', Hx as Hx'. apply Hco; [tauto..|].
      rewrite elem_of_row_ids. intros (m' & Hm'' & Hid). apply Hn, elem_of_row_ids. exists m'. split; [|done].
      apply elem_of_after_cursor. split; [done|]. intros cur Hcur.
      rewrite (past_cursor_key cur m' x); [by apply Hx'|]. apply Hco; tauto.
Qed.

(** The merged page ends the listing early: when memory cannot fill the
    page and all its rows also are on SQLite's page (both sinks hold the same
    records, or the ring is empty after a restart), no next cursor is returned,
    however many further rows SQLite has. *)
Lemma gatherRoots_drops_next_cursor mem sql M Q q :
  Serves mem q M -> Serves sql q Q -> coherent M Q ->
  hasNonTemporalFilter q = false -> (1 <= iq_Limit q <= 500)%Z ->
  NoDup (row_ID <$> M) -> NoDup (row_ID <$> Q) -> iq_Cursor q = None ->
  length M < Z.to_nat (iq_Limit q) ->
  (forall m, m ∈ M -> row_ID m ∈ row_ids (take (Z.to_nat (iq_Limit q)) Q)) ->
  Z.to_nat (iq_Limit q) < length Q ->
  exists rows source, gatherRoots q (Some mem) (Some sql) = Ok (rows, None, source) /\
    exists x, x ∈ Q /\ row_ID x ∉ row_ids rows.
Proof.
  intros LM LQ Hco Hf Hl HndM HndQ Hc HlenM Hsub Hmore.
  assert (Hcr : cursor_in_range (iq_Cursor q)) by (by rewrite Hc).
  unfold gatherRoots. rewrite Hf, (sv_pages (iq_Limit q) (iq_Cursor q)) by done.
  rewrite (sv_pages (Serves := LQ) (iq_Limit q) (iq_Cursor q)) by done.
  unfold page_of. rewrite Hc. unfold after_cursor. set (n := Z.to_nat (iq_Limit q)) in *.
  rewrite (take_ge M) by lia. destruct (Z.geb_spec (Z.of_nat (length M)) (iq_Limit q)); [lia|].
  assert (Hlen : length (dedup_rows M (take n Q)) <= n).
  { etrans; [|apply (firstn_le_length n Q)]. rewrite <- (length_fmap row_ID), <- (length_fmap row_ID (take n _)).
    apply submseteq_length, NoDup_submseteq.
    - rewrite dedup_rows_eq, fmap_app. apply NoDup_app. split_and!; [done| |].
      + intros i (m & -> & Hm)%list_elem_of_fmap (x & Hid & [Hx _]%list_elem_of_filter)%list_elem_of_fmap.
        apply Hx, elem_of_row_ids. eauto.
      + rewrite <- (take_drop n Q), fmap_app in HndQ. apply NoDup_app in HndQ as [HndQ _].
        by apply NoDup_fmap_filter.
    - rewrite dedup_rows_eq, fmap_app. intros i [(m & -> & Hm)%list_elem_of_fmap|(x & -> & [_ Hx]%list_elem_of_filter)%list_elem_of_fmap]%elem_of_app.
      + apply Hsub, elem_of_row_ids in Hm as (x & Hx & <-). by apply list_elem_of_fmap_2.
      + by apply list_elem_of_fmap_2. }
  rewrite merge_rows_spec; [|lia|].
  - fold n. destruct (Nat.ltb_spec n (length (dedup_rows M (take n Q)))); [lia|].
    eexists _, _. split; [done|]. apply uncovered_id; [done|]. rewrite length_take. lia.
  - apply dedup_ordered; [apply LM | apply rows_ordered_take, LQ |].
    intros m x Hm Hx Hn. apply elem_of_take in Hx as (i & Hx & _). apply list_elem_of_lookup_2 in Hx. by apply Hco.
Qed.

(** ** Details *)

Lemma append_unseen_spec seen es e :
  e ∈ append_unseen seen es -> e ∈ es /\ RecordID e ∉ seen.
Proof.
  revert seen. induction es as [|x es IH]; intros seen; simpl; [by intros ?%elem_of_nil|].
  case_bool_decide; [intros [? ?]%IH; split; [by right|done]|].
  intros [->|[? ?]%IH]%elem_of_cons; [split; [by left|done]|]. split; [by right|set_solver].
Qed.

Lemma append_unseen_ids seen es i :
  i ∈ RecordID <$> append_unseen seen es <-> i ∈ RecordID <$> es /\ i ∉ seen.
Proof.
  revert seen. induction es as [|x es IH]; intros seen; simpl; [set_solver|].
  case_bool_decide; simpl; rewrite ?elem_of_cons, IH; [set_solver|].
  destruct (decide (i = RecordID x)); set_solver.
Qed.

Lemma append_unseen_NoDup seen es : NoDup (RecordID <$> append_unseen seen es).
Proof.
  revert seen. induction es as [|x es IH]; intros seen; simpl; [constructor|].
  case_bool_decide; [done|]. simpl. constructor; [|done].
  rewrite append_unseen_ids. set_solver.
Qed.

Lemma sibling_less_strict_weak : StrictWeak sibling_less.
Proof. apply record_less_strict_weak. Qed.

(** Detail lookup over both stores: the record is found exactly when one
    store has it (memory's copy of the root wins), the merged siblings carry
    every sibling id of either store once, without the root, oldest first; and
    a missing id is reported as not found only when both stores miss it. *)
Lemma gatherDetail_merges mem sql id :
  (forall dm ds, rd_ReadDetail mem id = Ok dm -> rd_ReadDetail sql id = Ok ds ->
     NoDup (RecordID (dr_Root dm) :: (RecordID <$> dr_Events dm)) ->
     exists d, gatherDetail id (Some mem) (Some sql) = Ok d /\
       dr_Root d = dr_Root dm /\
       NoDup (RecordID <$> dr_Events d) /\
       sorted_by sibling_less (dr_Events d) /\
       forall i, i ∈ RecordID <$> dr_Events d <->
         i <> RecordID (dr_Root dm) /\ (i ∈ RecordID <$> dr_Events dm \/ i ∈ RecordID <$> dr_Events ds)) /\
  (rd_ReadDetail mem id = Err ErrNotFound -> gatherDetail id (Some mem) (Some sql) = rd_ReadDetail sql id) /\
  (forall dm, rd_ReadDetail mem id = Ok dm -> rd_ReadDetail sql id = Err ErrNotFound ->
     gatherDetail id (Some mem) (Some sql) = Ok dm).
Proof.
  split_and!.
  - intros dm ds Hm Hs Hnd. unfold gatherDetail. rewrite Hm, Hs. eexists. split; [done|].
    unfold mergeDetailSiblings. cbn [dr_Root dr_Events]. apply NoDup_cons in Hnd as [Hr Hnd].
    pose proof sibling_less_strict_weak. split_and!; [done| |apply SliceStable_sorted, _|].
    + rewrite (SliceStable_perm sibling_less), fmap_app. apply NoDup_app. split_and!; [done| |apply append_unseen_NoDup].
      intros i Hi. rewrite append_unseen_ids, elem_of_union, elem_of_list_to_set. tauto.
    + intros i. rewrite (SliceStable_perm sibling_less), fmap_app, elem_of_app, append_unseen_ids.
      rewrite elem_of_union, elem_of_singleton, elem_of_list_to_set.
      destruct (decide (i ∈ RecordID <$> dr_Events dm)); [|tauto]. split; [|tauto]. intros _. split; [|by left]. by intros ->.
  - intros Hm. unfold gatherDetail. rewrite Hm. by destruct (rd_ReadDetail sql id).
  - intros dm Hm Hs. unfold gatherDetail. by rewrite Hm, Hs.
Qed.

(** ** The query gate *)

Section Gate.
Context `{Unicode} `{MapRange} `{TimeParse}.

Lemma optional_ok {A} s (d : A) p v : optional s d p = (v, []) -> v = d \/ p s = Ok v.
Proof. unfold optional. repeat case_step; intros; simplify_eq; auto. Qed.

Lemma unknown_keys_nil values k :
  unknown_keys values = [] -> is_Some (values !! k) -> k ∈ knownQueryKeys.
Proof.
  intros Hn [vs Hk]. destruct (decide (k ∈ knownQueryKeys)) as [|Hni]; [done|]. exfalso.
  assert (Hin : mkFieldError k (FmUnknownParameter k) ∈ unknown_keys values).
  { unfold unknown_keys. apply list_elem_of_omap. exists (k, vs). rewrite elem_of_go_range. split; [done|].
    by rewrite bool_decide_eq_false_2. }
  rewrite Hn in Hin. by apply elem_of_nil in Hin.
Qed.

Lemma parseInspectQuery_ok values q :
  parseInspectQuery values = (q, []) ->
  (forall k, is_Some (values !! k) -> k ∈ knownQueryKeys) /\ (1 <= iq_Limit q <= 500)%Z /\
  (forall c, iq_Cursor q = Some c -> cur_ID c <> "" /\ in_i64 (cur_Timestamp c)).
Proof.
  unfold parseInspectQuery. destruct (unknown_keys values) eqn:Hu; [|done].
  destruct (optional _ defaultLimit _) as [limit e1] eqn:E1, (optional _ None parse_cursor) as [cur e2] eqn:E2,
    (optional _ None (parse_time "since")) as [since e3], (optional _ None (parse_time "until")) as [til e4],
    (optional _ _ parse_q) as [qq e5]. intros [= <- He]. cbn [iq_Limit iq_Cursor].
  apply app_eq_nil in He as [-> [-> _]%app_eq_nil]. split; [|split].
  - intros k. by apply unknown_keys_nil.
  - apply optional_ok in E1 as [->|E1]; [done|]. unfold parse_limit, maxLimit in E1.
    repeat case_step; simplify_eq. bool_hyps. rewrite Z.gtb_ltb in *. bool_hyps. lia.
  - intros c ->. apply optional_ok in E2 as [?|E2]; [done|]. unfold parse_cursor in E2.
    repeat case_step; simplify_eq. unfold DecodeCursor in *. repeat case_step; simplify_eq. bool_hyps.
    split; [done|]. by eapply Atoi_range.
Qed.

(** The gate of [GET /requests]: rows are only ever read for a request all
    of whose parameters are known, with a page size between 1 and 500, a
    well-formed cursor if any, and, for a leading-wildcard search, a time bound
    or an exact service term; every other request gets a 400 before a store is
    touched, and an admitted one gets what [gatherRoots] gives it. *)
Lemma requestsHandler_gate rs values :
  match requestsHandler rs values with
  | RespRoots rows next scan source => exists q,
      parseInspectQuery values = (q, []) /\
      (forall k, is_Some (values !! k) -> k ∈ knownQueryKeys) /\ (1 <= iq_Limit q <= 500)%Z /\
      (forall c, iq_Cursor q = Some c -> cur_ID c <> "" /\ in_i64 (cur_Timestamp c)) /\
      scan = IsUnindexedScan (iq_Query q) /\ (scan = true -> requiresNarrowing q = true) /\
      exists nc, gatherRoots q (rs_Memory rs) (rs_SQLite rs) = Ok (rows, nc, source) /\ next = Encode <$> nc
  | RespReadError => exists q e, parseInspectQuery values = (q, []) /\
      gatherRoots q (rs_Memory rs) (rs_SQLite rs) = Err e
  | RespFieldError e =>
      (exists q es, parseInspectQuery values = (q, e :: es)) \/
      (exists q, parseInspectQuery values = (q, []) /\ IsUnindexedScan (iq_Query q) = true /\
                 requiresNarrowing q = false /\ e = mkFieldError "q" FmNeedsNarrowing)
  | _ => False
  end.
Proof.
  unfold requestsHandler. destruct (parseInspectQuery values) as [q [|e es]] eqn:E; [|left; eauto].
  destruct (parseInspectQuery_ok _ _ E) as (Hk & Hl & Hc).
  destruct (IsUnindexedScan (iq_Query q)) eqn:Es, (requiresNarrowing q) eqn:En; cbn [andb negb];
    try (right; by eauto);
    destruct (gatherRoots q (rs_Memory rs) (rs_SQLite rs)) as [[[rows nc] source]|e] eqn:Eg; eauto;
    exists q; repeat (split; [by eauto|]); eauto.
Qed.

End Gate.

(** ** Examples *)

(** A store that serves a fixed ordered list. *)
Definition list_reader (rows : list RootRow) : Reader := {|
  rd_ReadRoots q limit cursor := Ok (page_of rows (Z.to_nat limit) cursor);
  rd_ReadDetail id := Err ErrNotFound;
  rd_AggregateRoots q n := Ok (mkAggregation (length rows) []);
  rd_ServicesSeen since := Ok [];
  rd_ServiceStats since := Ok []
|}.

Lemma list_reader_serves rows q : rows_ordered rows -> Serves (list_reader rows) q rows.
Proof. intros Ho. by split. Qed.

Definition sample_row (id : string) (ts : time) : RootRow :=
  mkRootRow id "request" ts "svc" "GET" "/" "c" "10.0.0.1" (Some 0) (Some false) None.

Definition stored_rows : list RootRow := [sample_row "b" 30; sample_row "a" 20; sample_row "z" 10]%Z.
Definition ring_rows : list RootRow := [sample_row "b" 30]%Z.
Definition limit_query (limit : Z) : InspectQuery := mkInspectQuery limit None None None (mkQuery []).

Lemma stored_ordered : rows_ordered stored_rows.
Proof. repeat constructor. Qed.
Lemma ring_ordered : rows_ordered ring_rows.
Proof. repeat constructor. Qed.

Lemma sample_coherent : coherent ring_rows stored_rows.
Proof.
  assert (Hm : forall m, m ∈ ring_rows -> m = sample_row "b" 30%Z) by (unfold ring_rows; set_solver).
  split; intros m x Hmm Hx; apply Hm in Hmm; subst m; unfold stored_rows in Hx;
    repeat (apply elem_of_cons in Hx as [->|Hx]); try (by apply elem_of_nil in Hx); try done.
Qed.

Lemma gatherRoots_page_witness :
  rows_ordered (dedup_rows ring_rows stored_rows) /\
  exists next source, gatherRoots (limit_query 2) (Some (list_reader ring_rows)) (Some (list_reader stored_rows))
    = Ok (take 2 (dedup_rows ring_rows stored_rows), next, source).
Proof.
  apply (gatherRoots_page (list_reader ring_rows) (list_reader stored_rows)
    ring_rows stored_rows (limit_query 2)).
  - apply list_reader_serves, ring_ordered.
  - apply list_reader_serves, stored_ordered.
  - apply sample_coherent.
  - reflexivity.
  - done.
  - simpl. lia.
Defined.

Lemma gatherRoots_drops_next_cursor_witness :
  exists rows source, gatherRoots (limit_query 2) (Some (list_reader ring_rows)) (Some (list_reader stored_rows))
    = Ok (rows, None, source) /\ exists x, x ∈ stored_rows /\ row_ID x ∉ row_ids rows.
Proof.
  apply (gatherRoots_drops_next_cursor (list_reader ring_rows) (list_reader stored_rows)
    ring_rows stored_rows (limit_query 2)).
  - apply list_reader_serves, ring_ordered.
  - apply list_reader_serves, stored_ordered.
  - apply sample_coherent.
  - reflexivity.
  - simpl. lia.
  - apply (bool_decide_unpack _). vm_compute. exact I.
  - apply (bool_decide_unpack _). vm_compute. exact I.
  - reflexivity.
  - simpl. lia.
  - intros m Hm. apply elem_of_row_ids. exists (sample_row "b" 30%Z). unfold ring_rows in Hm.
    apply list_elem_of_singleton in Hm as ->. split; [|reflexivity]. by left.
  - simpl. lia.
Defined.
