(* ===== verification/SqliteOpen.v ===== *)
(** * sinks/sqlite.go: opening the database

    [NewSQLiteSink] and [checkSQLiteDir] talk to the operating system and the
    driver. The model is the program as a function of an environment that
    answers each call, possibly depending on everything that happened before;
    its result is the value returned together with the calls made and their
    replies. *)
From S2P Require Import Prelude GoLib Sqlite.

Open Scope string_scope.

(** ** path/filepath, as on Unix *)

Fixpoint split_slash (s : string) (acc : string) : list string :=
  match s with
  | "" => [acc]
  | String c s' => if Ascii.eqb c "/" then acc :: split_slash s' "" else split_slash s' (acc +:+ String c "")
  end.

(** One element against the elements kept so far, last first. *)
Definition clean_step (rooted : bool) (kept : list string) (elem : string) : list string :=
  if (String.eqb elem "" || String.eqb elem ".")%bool then kept
  else if String.eqb elem ".." then
    match kept with
    | last :: rest => if String.eqb last ".." then ".." :: kept else rest
    | [] => if rooted then [] else [".."]
    end
  else elem :: kept.

Definition Clean (path : string) : string :=
  let rooted := HasPrefix path "/" in
  let body := Join (rev (fold_left (clean_step rooted) (split_slash path "") [])) "/" in
  if rooted then "/" +:+ body else if String.eqb body "" then "." else body.

Fixpoint up_to_last_slash (s : string) : string :=
  match s with
  | "" => ""
  | String c s' =>
      match up_to_last_slash s' with
      | "" => if Ascii.eqb c "/" then "/" else ""
      | p => String c p
      end
  end.

Definition Dir (path : string) : string := Clean (up_to_last_slash path).

(** ** Calls and replies *)

Inductive call :=
| CreateTemp (dir pattern : string)
| CloseProbe
| RemoveProbe
| Stat (path : string)
| WarnWorldWritable (path dir : string)
| Lstat (path : string)
| OpenFile (path : string) (noFollow : bool) (perm : Z)
| CloseFile
| OpenDB (dsn : string)
| SetMaxOpenConns (n : Z)
| Ping
| Exec (stmt : string)
| Chmod (path : string) (perm : Z)
| Prepare (stmt : string)
| CloseStmt (stmt : string)
| CloseDB.

Inductive reply :=
| Done
| Info (perm : Z) (symlink : bool)
| NotExist
| Failed (e : string).

#[export] Instance call_eq_dec : EqDecision call.
Proof. solve_decision. Defined.
#[export] Instance reply_eq_dec : EqDecision reply.
Proof. solve_decision. Defined.

Abbreviation trace := (list (call * reply)).
Definition Env : Type := trace -> call -> reply.

Inductive OpenError :=
| PathEmpty
| DirNotUsable (dir e : string)
| MustNotBeSymlink (path : string)
| StatFailed (path e : string)
| CreateFailed (path e : string)
| OpenFailed (path e : string)
| PingFailed (path e : string)
| PragmasFailed (path e : string)
| ChmodFailed (path suffix e : string)
| SchemaFailed (path e : string)
| PrepareRequestFailed (e : string)
| PrepareEventFailed (e : string).

(** ** The program *)

Definition prog (A : Type) : Type := Env -> trace -> trace * A.

Definition ask (c : call) : prog reply := fun env t => let r := env t c in ((t ++ [(c, r)])%list, r).
Definition ret {A} (a : A) : prog A := fun _ t => (t, a).
Definition and_then {A B} (m : prog A) (k : A -> prog B) : prog B :=
  fun env t => let '(t1, a) := m env t in k a env t1.

Declare Scope prog_scope.
Notation "'ask!' r <- c ; k" := (and_then (ask c) (fun r => k)) (at level 100, r name, right associativity) : prog_scope.
Notation "'run!' x <- m ; k" := (and_then m (fun x => k)) (at level 100, x name, right associativity) : prog_scope.
Open Scope prog_scope.

(** The error of a reply; an unexpected shape of reply is a success. *)
Definition err_of (r : reply) : option string :=
  match r with Failed e => Some e | NotExist => Some "file does not exist" | _ => None end.

(** nofollow_unix.go and nofollow_windows.go: the build tag picks the file. *)
Inductive target_os := Unix | Windows.
Class Target := target : target_os.

(** [O_NOFOLLOW], or no flag where the system has none. *)
Definition noFollowFlag `{Target} : bool := match target with Unix => true | Windows => false end.
Definition sqliteMaxOpenConns : Z := 1.
Definition mode600 : Z := 384.
Definition worldWritable : Z := 2.

Definition checkSQLiteDir (path : string) : prog (option OpenError) :=
  let dir := Dir path in
  ask! r <- CreateTemp dir ".httpcatch-write-check-*";
  match err_of r with
  | Some e => ret (Some (DirNotUsable dir e))
  | None => ask! _r <- CloseProbe; ask! _r' <- RemoveProbe; ret None
  end.

(** The warning about a world-writable parent directory. *)
Definition warn_parent (path : string) : prog unit :=
  ask! r <- Stat (Dir path);
  match r with
  | Info perm _ =>
      if negb (Z.eqb (Z.land perm worldWritable) 0) then ask! _r <- WarnWorldWritable path (Dir path); ret tt
      else ret tt
  | _ => ret tt
  end.

(** Reject a symlink, create a missing file with mode 0600. *)
Definition ensure_file `{Target} (path : string) : prog (option OpenError) :=
  ask! r <- Lstat path;
  match r with
  | Info _ true => ret (Some (MustNotBeSymlink path))
  | Failed e => ret (Some (StatFailed path e))
  | NotExist =>
      ask! o <- OpenFile path noFollowFlag mode600;
      match err_of o with
      | Some e => ret (Some (CreateFailed path e))
      | None => ask! _r <- CloseFile; ret None
      end
  | _ => ret None
  end.

(** A failing step after the handle is open closes it. *)
Definition close_with (e : OpenError) : prog (result OpenError unit) := ask! _r <- CloseDB; ret (Err e).

Fixpoint restrict_sidecars (path : string) (suffixes : list string) : prog (option OpenError) :=
  match suffixes with
  | [] => ret None
  | suffix :: rest =>
      ask! r <- Chmod (path +:+ suffix) mode600;
      match r with
      | Failed e => ret (Some (ChmodFailed path suffix e))
      | _ => restrict_sidecars path rest
      end
  end.

Definition prepare_statements : prog (result OpenError unit) :=
  ask! r <- Prepare sqliteInsertRequest;
  match err_of r with
  | Some e => close_with (PrepareRequestFailed e)
  | None =>
      ask! r <- Prepare sqliteInsertEvent;
      match err_of r with
      | Some e => ask! _r <- CloseStmt sqliteInsertRequest; close_with (PrepareEventFailed e)
      | None => ret (Ok tt)
      end
  end.

Definition open_database (path : string) : prog (result OpenError unit) :=
  ask! r <- OpenDB ("file:" +:+ path +:+ "?_pragma=case_sensitive_like(1)");
  match err_of r with
  | Some e => ret (Err (OpenFailed path e))
  | None =>
      ask! _r <- SetMaxOpenConns sqliteMaxOpenConns;
      ask! r <- Ping;
      match err_of r with
      | Some e => close_with (PingFailed path e)
      | None =>
          ask! r <- Exec sqlitePragmas;
          match err_of r with
          | Some e => close_with (PragmasFailed path e)
          | None =>
              run! failed <- restrict_sidecars path ["-wal"; "-shm"];
              match failed with
              | Some e => close_with e
              | None =>
                  ask! r <- Exec sqliteSchema;
                  match err_of r with
                  | Some e => close_with (SchemaFailed path e)
                  | None => prepare_statements
                  end
              end
          end
      end
  end.

Definition NewSQLiteSink `{Target} (path : string) : prog (result OpenError unit) :=
  if String.eqb path "" then ret (Err PathEmpty) else
  run! failed <- checkSQLiteDir path;
  match failed with
  | Some e => ret (Err e)
  | None =>
      run! _w <- warn_parent path;
      run! failed <- ensure_file path;
      match failed with
      | Some e => ret (Err e)
      | None => open_database path
      end
  end.

(** ** What is held *)

Inductive resource := ProbeHandle | FileHandle | DBHandle | StmtHandle (stmt : string).

#[export] Instance resource_eq_dec : EqDecision resource.
Proof. solve_decision. Defined.

Definition release (x : resource) (held : list resource) : list resource := filter (fun y => y <> x) held.

(** Handles after a call: a successful acquisition adds one, a close gives it
    up, even if it reports an error. *)
Definition track (held : list resource) (cr : call * reply) : list resource :=
  let got := match err_of cr.2 with None => true | Some _ => false end in
  match cr.1 with
  | CreateTemp _ _ => if got then ProbeHandle :: held else held
  | CloseProbe => release ProbeHandle held
  | OpenFile _ _ _ => if got then FileHandle :: held else held
  | CloseFile => release FileHandle held
  | OpenDB _ => if got then DBHandle :: held else held
  | CloseDB => release DBHandle held
  | Prepare s => if got then StmtHandle s :: held else held
  | CloseStmt s => release (StmtHandle s) held
  | _ => held
  end.

Definition held (t : trace) : list resource := fold_left track t [].

(** The probe file: made by a successful creation, gone after a successful
    removal; a removal that fails leaves it. *)
Definition track_probe (there : bool) (cr : call * reply) : bool :=
  let done := match err_of cr.2 with None => true | Some _ => false end in
  match cr.1 with
  | CreateTemp _ _ => there || done
  | RemoveProbe => there && negb done
  | _ => there
  end.

Definition probe_left (t : trace) : bool := fold_left track_probe t false.

Definition opens (c : call) : bool := match c with OpenDB _ => true | _ => false end.
Definition creates (c : call) : bool := match c with OpenFile _ _ _ => true | _ => false end.

(** The setup of an open database, in this order. *)
Definition setup (path : string) : list call :=
  [OpenDB ("file:" +:+ path +:+ "?_pragma=case_sensitive_like(1)"); SetMaxOpenConns 1; Ping; Exec sqlitePragmas;
   Chmod (path +:+ "-wal") mode600; Chmod (path +:+ "-shm") mode600; Exec sqliteSchema;
   Prepare sqliteInsertRequest; Prepare sqliteInsertEvent].

Lemma held_app t1 t2 : held (t1 ++ t2) = fold_left track t2 (held t1).
Proof. apply fold_left_app. Qed.

(** What a part of the program adds to the trace. *)
Definition adds {A} (m : prog A) (P : trace -> A -> Prop) : Prop :=
  forall env t, exists t1 a, m env t = ((t ++ t1)%list, a) /\ P t1 a.

Lemma adds_ret {A} (a : A) (P : trace -> A -> Prop) : P [] a -> adds (ret a) P.
Proof. intros HP env t. exists [], a. by rewrite app_nil_r. Qed.

Lemma adds_ask {A} c (k : reply -> prog A) (P : trace -> A -> Prop) :
  (forall r, adds (k r) (fun t a => P ((c, r) :: t) a)) -> adds (and_then (ask c) k) P.
Proof.
  intros Hk env t. unfold and_then, ask. destruct (Hk (env t c) env (t ++ [(c, env t c)])%list) as (t1 & a & Ha & HP).
  exists ((c, env t c) :: t1), a. rewrite Ha. split; [|done]. by rewrite <- app_assoc.
Qed.

Lemma adds_run {A B} (m : prog A) (k : A -> prog B) (Q : trace -> A -> Prop) (P : trace -> B -> Prop) :
  adds m Q -> (forall t a, Q t a -> adds (k a) (fun t' b => P (t ++ t')%list b)) -> adds (and_then m k) P.
Proof.
  intros Hm Hk env t. destruct (Hm env t) as (t1 & a & Ha & HQ). unfold and_then. rewrite Ha.
  destruct (Hk t1 a HQ env (t ++ t1)%list) as (t2 & b & Hb & HP). exists (t1 ++ t2)%list, b.
  rewrite Hb. by rewrite app_assoc.
Qed.

Lemma adds_impl {A} (m : prog A) (P Q : trace -> A -> Prop) : adds m P -> (forall t a, P t a -> Q t a) -> adds m Q.
Proof. intros Hm HPQ env t. destruct (Hm env t) as (t1 & a & Ha & HP). eauto. Qed.

(** Walk through a program, one case per outcome of a call. *)
Ltac walk_prog :=
  repeat first
    [ apply adds_ret
    | apply adds_ask; let r := fresh "r" in intros r; cbn beta iota
    | match goal with |- adds (match err_of ?r with _ => _ end) _ => destruct (err_of r) eqn:? end
    | match goal with |- adds (match ?r with _ => _ end) _ => destruct r eqn:? end ].

Ltac finish_trace := unfold held; cbn -[filter]; repeat match goal with H : err_of _ = _ |- _ => rewrite H; revert H end; intros; cbn.

Definition touches_file (c : call) : bool :=
  match c with OpenDB _ | OpenFile _ _ _ | Lstat _ => true | _ => false end.

Definition quiet (t : trace) : Prop := Forall (fun cr => touches_file cr.1 = false) t.

Lemma checkSQLiteDir_adds path : adds (checkSQLiteDir path) (fun t _ => held t = [] /\ quiet t).
Proof. unfold checkSQLiteDir. walk_prog; finish_trace; split; done || by repeat constructor. Qed.

Lemma warn_parent_adds path : adds (warn_parent path) (fun t _ => held t = [] /\ quiet t).
Proof. unfold warn_parent. walk_prog; finish_trace; split; done || by repeat constructor. Qed.

(** What lies at the path was reported not to be a symbolic link, which is all
    the code looks at, or was just created for the owner alone. *)
Definition not_a_link `{Target} (path : string) (t : trace) : Prop :=
  (exists r, t = [(Lstat path, r)] /\ err_of r = None /\ forall m, r <> Info m true) \/
  (exists r r', t = [(Lstat path, NotExist); (OpenFile path noFollowFlag mode600, r); (CloseFile, r')] /\ err_of r = None).

Lemma ensure_file_adds `{Target} path :
  adds (ensure_file path) (fun t res => held t = [] /\
    match res with
    | None => not_a_link path t
    | Some e => (exists m, t = [(Lstat path, Info m true)] /\ e = MustNotBeSymlink path) \/
                (exists r, t = [(Lstat path, r)] /\ forall m, r <> Info m true) \/
                (exists r, t = [(Lstat path, NotExist); (OpenFile path noFollowFlag mode600, r)])
    end).
Proof.
  unfold ensure_file. walk_prog; subst; finish_trace; (split; [done|]); unfold not_a_link.
  - left. by eexists.
  - left. by eexists.
  - left. by eexists.
  - right. right. by eexists.
  - right. by eexists _, _.
  - right. left. by eexists.
Qed.

(** The chmod of the sidecar files neither takes nor releases anything. *)
Lemma restrict_sidecars_adds path suffixes :
  adds (restrict_sidecars path suffixes) (fun t res =>
    Forall (fun cr => exists p, cr.1 = Chmod p mode600) t /\
    (res = None -> t.*1 = (fun s => Chmod (path +:+ s) mode600) <$> suffixes) /\
    (forall e, res = Some e -> exists s m, e = ChmodFailed path s m)).
Proof.
  induction suffixes as [|s suffixes IH]; cbn [restrict_sidecars]; [by apply adds_ret|].
  apply adds_ask; intros r.
  assert (Hgo : adds (restrict_sidecars path suffixes) (fun t res =>
    Forall (fun cr => exists p, cr.1 = Chmod p mode600) ((Chmod (path +:+ s) mode600, r) :: t) /\
    (res = None -> ((Chmod (path +:+ s) mode600, r) :: t).*1 = (fun s => Chmod (path +:+ s) mode600) <$> (s :: suffixes)) /\
    (forall e, res = Some e -> exists s m, e = ChmodFailed path s m))).
  { eapply adds_impl; [exact IH|]. intros t res (Hf & Hn & He). split_and!; [by constructor; eauto| |done].
    intros Hr. rewrite !fmap_cons. by rewrite Hn. }
  destruct r; try exact Hgo. apply adds_ret. split_and!; [by repeat constructor; eauto|done|]. intros ? [= <-]. eauto.
Qed.

Lemma chmods_track t h : Forall (fun cr => exists p, cr.1 = Chmod p mode600) t -> fold_left track t h = h.
Proof. revert h. induction t as [|[c r] t IH]; intros h Ht; [done|]. apply Forall_cons in Ht as [[p Hp] Ht]. cbn in Hp. subst c. by apply IH. Qed.

(** From the open handle to the prepared statements, or back to nothing. *)
Lemma prepare_statements_adds :
  adds prepare_statements (fun t res => quiet t /\
    match res with
    | Ok _ => fold_left track t [DBHandle] = [StmtHandle sqliteInsertEvent; StmtHandle sqliteInsertRequest; DBHandle] /\
              t.*1 = [Prepare sqliteInsertRequest; Prepare sqliteInsertEvent]
    | Err e => fold_left track t [DBHandle] = [] /\ forall p, e <> MustNotBeSymlink p
    end).
Proof.
  unfold prepare_statements, close_with. walk_prog; finish_trace; (split; [by repeat constructor|]); try by split.
Qed.

Lemma opened_held d n stmt r1 r2 r3 r4 ts t :
  err_of r1 = None -> Forall (fun cr => exists p, cr.1 = Chmod p mode600) ts ->
  held ((OpenDB d, r1) :: (SetMaxOpenConns n, r2) :: (Ping, r3) :: (Exec stmt, r4) :: ts ++ t) = fold_left track t [DBHandle].
Proof.
  intros E1 Hch. unfold held. cbn [fold_left]. rewrite fold_left_app, (chmods_track ts) by done.
  unfold track at 2 3 4 5. cbn [fst snd]. by rewrite E1.
Qed.

Lemma open_database_adds path :
  adds (open_database path) (fun t res =>
    Forall (fun cr => match cr.1 with OpenFile _ _ _ | Lstat _ => false | _ => true end = true) t /\
    match res with
    | Ok _ => held t = [StmtHandle sqliteInsertEvent; StmtHandle sqliteInsertRequest; DBHandle] /\ t.*1 = setup path
    | Err e => held t = [] /\ forall p, e <> MustNotBeSymlink p
    end).
Proof.
  assert (Hq : forall t, quiet t -> Forall (fun cr => match cr.1 with OpenFile _ _ _ | Lstat _ => false | _ => true end = true) t).
  { intros t Ht. eapply Forall_impl; [exact Ht|]. by intros [[] ?]. }
  unfold open_database, close_with.
  apply adds_ask; intros r1. destruct (err_of r1) eqn:E1; [by apply adds_ret; finish_trace; repeat constructor|].
  apply adds_ask; intros r2. apply adds_ask; intros r3.
  destruct (err_of r3) eqn:E3; [by walk_prog; finish_trace; repeat constructor|].
  apply adds_ask; intros r4. destruct (err_of r4) eqn:E4; [by walk_prog; finish_trace; repeat constructor|].
  eapply adds_run; [apply restrict_sidecars_adds|]. intros ts failed (Hch & Hn & He). cbn beta iota.
  assert (Hcq : quiet ts) by (eapply Forall_impl; [exact Hch|]; by intros [c ?] [p ->]).
  destruct failed as [e|].
  - destruct (He e eq_refl) as (s & m & ->). walk_prog. split.
    + repeat (apply Forall_cons_2; [done|]). apply Forall_app. split; [by apply Hq|by repeat constructor].
    + split; [|done]. by rewrite opened_held.
  - apply adds_ask; intros r5. destruct (err_of r5) eqn:E5.
    + walk_prog. split.
      * repeat (apply Forall_cons_2; [done|]). apply Forall_app. split; [by apply Hq|by repeat constructor].
      * split; [|done]. by rewrite opened_held.
    + eapply adds_impl; [apply prepare_statements_adds|]. intros t res [Hqt Hres]. split.
      * repeat (apply Forall_cons_2; [done|]). apply Forall_app. split; [by apply Hq|]. constructor; [done|]. by apply Hq.
      * rewrite opened_held by done. cbn [fold_left track fst]. destruct res as [[]|e]; [|done].
        destruct Hres as [-> Hr]. split; [done|]. by rewrite !fmap_cons, fmap_app, fmap_cons, Hr, (Hn eq_refl).
Qed.

(** The parts of a run: before the file is looked at, the file, the database. *)
Definition run_shape `{Target} (path : string) (t : trace) (res : result OpenError unit) : Prop :=
  exists pre file post, t = (pre ++ file ++ post)%list /\ quiet pre /\
    (not_a_link path file \/ post = [] /\ Forall (fun cr => opens cr.1 = false) file) /\
    match res with
    | Ok _ => not_a_link path file /\ post.*1 = setup path /\
        held t = [StmtHandle sqliteInsertEvent; StmtHandle sqliteInsertRequest; DBHandle]
    | Err e => held t = [] /\
        ((exists m, (Lstat path, Info m true) ∈ t) ->
           e = MustNotBeSymlink path /\ Forall (fun cr => opens cr.1 = false /\ creates cr.1 = false) t)
    end.

Lemma quiet_symlink path t m : quiet t -> (Lstat path, Info m true) ∉ t.
Proof. unfold quiet. intros Hq Hin. rewrite Forall_forall in Hq. by specialize (Hq _ Hin). Qed.

Lemma quiet_unopened t : quiet t -> Forall (fun cr => opens cr.1 = false /\ creates cr.1 = false) t.
Proof. intros Hq. eapply Forall_impl; [exact Hq|]. by intros [[] ?]. Qed.

Lemma not_a_link_info `{Target} path file m : not_a_link path file -> (Lstat path, Info m true) ∉ file.
Proof.
  intros [(r & -> & _ & Hr)|(r & r' & -> & _)] Hin.
  - apply list_elem_of_singleton in Hin. injection Hin as <-. by apply (Hr m).
  - by repeat (apply elem_of_cons in Hin as [Hin|Hin]; [done|]); apply elem_of_nil in Hin.
Qed.

Lemma held_nil_app t1 t2 : held t1 = [] -> held (t1 ++ t2) = held t2.
Proof. intros H1. rewrite held_app, H1. done. Qed.

Lemma not_elem_of_parts {A} (x : A) a b c : x ∉ a -> x ∉ b -> x ∉ c -> x ∉ (a ++ b ++ c)%list.
Proof. rewrite !elem_of_app. tauto. Qed.

(** The file step refused: nothing is opened, and a link is named as such. *)
Lemma refused_file `{Target} path pre file e :
  quiet pre -> held pre = [] -> held file = [] ->
  (exists m, file = [(Lstat path, Info m true)] /\ e = MustNotBeSymlink path) \/
  (exists r, file = [(Lstat path, r)] /\ forall m, r <> Info m true) \/
  (exists r, file = [(Lstat path, NotExist); (OpenFile path noFollowFlag mode600, r)]) ->
  run_shape path (pre ++ file) (Err e).
Proof.
  intros Hq Hp Hf Hcase. exists pre, file, []. rewrite app_nil_r, held_nil_app by done.
  split_and!; [done|done| |done|].
  - right. split; [done|]. destruct Hcase as [(m & -> & _)|[(r & -> & _)|(r & ->)]]; by repeat constructor.
  - intros [m Hin]. apply elem_of_app in Hin as [Hin|Hin]; [by apply quiet_symlink in Hin|].
    destruct Hcase as [(m' & -> & ->)|[(r & -> & Hr)|(r & ->)]].
    + split; [done|]. apply Forall_app. split; [by apply quiet_unopened|by repeat constructor].
    + apply list_elem_of_singleton in Hin. injection Hin as <-. by destruct (Hr m).
    + by repeat (apply elem_of_cons in Hin as [Hin|Hin]; [done|]); apply elem_of_nil in Hin.
Qed.

(** A run that ends before the file is looked at. *)
Lemma early_failure `{Target} path pre e : quiet pre -> held pre = [] -> run_shape path pre (Err e).
Proof.
  intros Hq Hp. exists pre, [], []. rewrite !app_nil_r. split_and!; [done|done|by right|done|].
  intros [m Hin]. by apply quiet_symlink in Hin.
Qed.

Lemma NewSQLiteSink_adds `{Target} path : adds (NewSQLiteSink path) (run_shape path).
Proof.
  unfold NewSQLiteSink. destruct (String.eqb path ""); [by apply adds_ret, early_failure; [constructor|]|].
  eapply adds_run; [apply checkSQLiteDir_adds|]. intros t0 failed [Hh0 Hq0].
  destruct failed as [e|]; [by apply adds_ret; rewrite app_nil_r; apply early_failure|].
  eapply adds_run; [apply warn_parent_adds|]. intros t1 [] [Hh1 Hq1].
  assert (Hq : quiet (t0 ++ t1)) by (by apply Forall_app).
  assert (Hh : held (t0 ++ t1) = []) by (by rewrite held_nil_app).
  eapply adds_run; [apply ensure_file_adds|]. intros t2 failed [Hh2 Hf].
  destruct failed as [e|].
  { apply adds_ret. rewrite app_nil_r, app_assoc. by apply refused_file. }
  eapply adds_impl; [apply open_database_adds|]. intros t3 res [Hq3 Hres]. exists (t0 ++ t1)%list, t2, t3.
  assert (Ht : held (t0 ++ t1 ++ t2 ++ t3) = held t3) by (by rewrite !held_nil_app).
  split_and!; [by rewrite app_assoc|done|by left|]. destruct res as [[]|e]; destruct Hres as [Hr1 Hr2].
  - split_and!; [done|done|]. by rewrite Ht.
  - rewrite Ht. split; [done|]. intros [m Hin]. exfalso. rewrite app_assoc in Hin. revert Hin. apply not_elem_of_parts.
    + by apply quiet_symlink.
    + by apply not_a_link_info.
    + intros Hin. rewrite Forall_forall in Hq3. by specialize (Hq3 _ Hin).
Qed.

(** Only the check of the directory has to do with the probe file. *)
Definition no_probe (t : trace) : Prop :=
  Forall (fun cr => match cr.1 with CreateTemp _ _ | RemoveProbe => false | _ => true end = true) t.

Lemma no_probe_left t there : no_probe t -> fold_left track_probe t there = there.
Proof.
  revert there. induction t as [|[c r] t IH]; intros there Ht; [done|]. apply Forall_cons in Ht as [Hc Ht].
  cbn [fold_left]. rewrite IH by done. by destruct c.
Qed.

(** The probe file is left exactly when it was made and its removal failed. *)
Definition probe_spec (t : trace) : Prop :=
  probe_left t = true <-> exists e, (RemoveProbe, e) ∈ t /\ err_of e <> None.

Lemma probe_spec_app t1 t2 : probe_spec t1 -> no_probe t2 -> probe_spec (t1 ++ t2).
Proof.
  unfold probe_spec, probe_left. intros H1 H2. rewrite fold_left_app, no_probe_left, H1 by done.
  setoid_rewrite elem_of_app. split; [naive_solver|]. intros (e & [?|Hin] & He); [by eauto|].
  unfold no_probe in H2. rewrite Forall_forall in H2. by specialize (H2 _ Hin).
Qed.

Lemma probe_spec_nil : probe_spec [].
Proof. split; [done|]. by intros (e & Hin%elem_of_nil & _). Qed.

Lemma checkSQLiteDir_probe path : adds (checkSQLiteDir path) (fun t _ => probe_spec t).
Proof.
  unfold checkSQLiteDir. walk_prog; unfold probe_spec, probe_left; cbn [fold_left track_probe fst snd];
    match goal with H : err_of _ = _ |- _ => rewrite H end; cbn [orb andb negb].
  - split; [done|]. intros (e & Hin%list_elem_of_singleton & _). done.
  - split.
    + intros He. eexists. split; [right; right; left|]. intros Hn. by rewrite Hn in He.
    + intros (e & Hin & He). repeat (apply elem_of_cons in Hin as [Hin|Hin]); simplify_eq; [by destruct (err_of r1)|].
      by apply elem_of_nil in Hin.
Qed.

Lemma warn_parent_no_probe path : adds (warn_parent path) (fun t _ => no_probe t).
Proof. unfold warn_parent, no_probe. walk_prog; by repeat constructor. Qed.

Lemma ensure_file_no_probe `{Target} path : adds (ensure_file path) (fun t _ => no_probe t).
Proof. unfold ensure_file, no_probe. walk_prog; by repeat constructor. Qed.

Lemma restrict_sidecars_no_probe path suffixes : adds (restrict_sidecars path suffixes) (fun t _ => no_probe t).
Proof.
  eapply adds_impl; [apply restrict_sidecars_adds|]. intros t res (Hc & _ & _). unfold no_probe.
  eapply Forall_impl; [exact Hc|]. by intros [c r] [p ->].
Qed.

Lemma no_probe_cons c r t : match c with CreateTemp _ _ | RemoveProbe => false | _ => true end = true ->
  no_probe t -> no_probe ((c, r) :: t).
Proof. by constructor. Qed.

Lemma open_database_no_probe path : adds (open_database path) (fun t _ => no_probe t).
Proof.
  unfold open_database, close_with. walk_prog; try (by repeat (apply no_probe_cons; [done|]); constructor).
  eapply adds_run; [apply restrict_sidecars_no_probe|]. intros ts failed Hts.
  destruct failed as [e|]; walk_prog; repeat (apply no_probe_cons; [done|]);
    (apply Forall_app; split; [done|by repeat (apply no_probe_cons; [done|]); constructor]).
Qed.

Lemma NewSQLiteSink_probe `{Target} path : adds (NewSQLiteSink path) (fun t _ => probe_spec t).
Proof.
  unfold NewSQLiteSink. destruct (String.eqb path ""); [by apply adds_ret, probe_spec_nil|].
  eapply adds_run; [apply checkSQLiteDir_probe|]. intros t0 failed H0.
  destruct failed as [e|]; [by apply adds_ret; rewrite app_nil_r|].
  eapply adds_run; [apply warn_parent_no_probe|]. intros t1 [] H1.
  eapply adds_run; [apply ensure_file_no_probe|]. intros t2 failed H2.
  destruct failed as [e|]; [apply adds_ret|eapply adds_impl; [apply open_database_no_probe|]; intros t3 res H3];
    (apply probe_spec_app; [done|]); repeat (apply Forall_app; split; [done|]); done || constructor.
Qed.

(** C16. Opening the store, in any environment and whatever fails: on success
    what lies at the path was reported not to be a symbolic link (nothing else
    is asked of it) or was created with mode 0600, without following links where
    the system can; the pragmas, sidecar modes, schema and prepared statements
    followed in that order, and exactly the handle and the two statements are
    held. After every failure no handle is held. A path that is a symbolic link
    is refused before the database file is created or opened; the probe file in
    its directory comes first, and stays behind exactly when its removal fails,
    an error the code ignores. *)
Theorem NewSQLiteSink_opens `{Target} env path :
  let '(t, res) := NewSQLiteSink path env [] in
  run_shape path t res /\ (probe_left t = true <-> exists e, (RemoveProbe, e) ∈ t /\ err_of e <> None).
Proof.
  destruct (NewSQLiteSink_adds path env []) as (t & res & E & Hs).
  destruct (NewSQLiteSink_probe path env []) as (t' & res' & E' & Hp).
  rewrite E in E' |- *. injection E' as <- <-. by split.
Qed.
