(* ===== verification/SqliteReader.v ===== *)
(** * sinks/sqlite_reader.go: the read side of the SQLite sink

    Statement text and arguments are built as the code builds them; the engine
    runs them; rows are scanned with database/sql's conversions. A [query_stmt]
    pairs a statement's text with the relational meaning the theorems assume of
    an engine that answers it. An error while iterating over rows is the same
    [Err] of the engine as an error of the query itself. *)
From S2P Require Import Prelude GoLib Record SearchQL SearchSQL SearchSQLFacts Json JsonFacts Sqlite SqlQuery.
From S2P Require Import MemorySink Inspect MemoryReader AdminInspect.

Open Scope string_scope.
Open Scope go_scope.

(** ** Statements and their meaning *)

Record query_stmt := mkQuery_stmt {
  qs_text : string;
  qs_sem : list sqlVal -> Database -> list (list sqlVal) -> Prop
}.

Definition answers (E : Engine) (st : query_stmt) : Prop :=
  forall args db rows, eng_query E (qs_text st) args db = Ok rows -> qs_sem st args db rows.

Definition project (cols : list string) (r : Row) : list sqlVal := cell r <$> cols.

Definition sql_true (b : option bool) : bool := bool_decide (b = Some true).

(** ** Scanning (database/sql convertAssign) *)

Definition scan_null_string (v : sqlVal) : option string :=
  match v with VNull => None | VText s | VBlob s => Some s | VInt z => Some (Itoa z) end.

Definition scan_string (v : sqlVal) : result string string :=
  match scan_null_string v with
  | Some s => Ok s
  | None => Err "converting NULL to string is unsupported"
  end.

Definition scan_null_int (v : sqlVal) : result string (option Z) :=
  match v with
  | VNull => Ok None
  | VInt z => Ok (Some z)
  | VText s | VBlob s => match Atoi s with Some z => Ok (Some z) | None => Err "invalid syntax" end
  end.

Definition scan_int (v : sqlVal) : result string Z :=
  match scan_null_int v with
  | Ok (Some z) => Ok z
  | Ok None => Err "converting NULL to int is unsupported"
  | Err e => Err e
  end.

(** A NULL scans into a nil slice. *)
Definition scan_bytes (v : sqlVal) : string := default "" (scan_null_string v).

Fixpoint scan_all {A} (scan : list sqlVal -> result string A) (rows : list (list sqlVal)) : result string (list A) :=
  match rows with
  | [] => Ok []
  | r :: rest => try a <- scan r; try l <- scan_all scan rest; Ok (a :: l)
  end.

(** ** buildRootsUnionSQL *)

Definition sqliteReadRootsBase : string :=
  "
SELECT
    cr.id,
    'request'                                AS kind,
    cr.timestamp,
    cr.service,
    cr.method,
    cr.path,
    cr.correlation_id,
    cr.source_ip,
    COUNT(e.id)                              AS event_count,
    CASE WHEN COUNT(e.id) > 0 THEN 1 ELSE 0 END AS has_events,
    MAX(CASE WHEN e.type = 'response' THEN e.status ELSE NULL END) AS status
FROM captured_requests cr
LEFT JOIN events e ON e.correlation_id = cr.correlation_id
".

Definition sqliteOrphansBase : string :=
  "
SELECT
    e.id,
    CASE e.type WHEN 'response' THEN 'orphan_response' ELSE 'orphan_outbound' END AS kind,
    e.timestamp,
    e.service,
    NULL AS method,
    NULL AS path,
    e.correlation_id,
    NULL AS source_ip,
    NULL AS event_count,
    NULL AS has_events,
    CASE e.type WHEN 'response' THEN e.status ELSE NULL END AS status
FROM events e
LEFT JOIN captured_requests cr ON cr.correlation_id = e.correlation_id
WHERE cr.id IS NULL
".

(** Line feed. *)
Definition nl : string := String "010" "".

(** The conditions of one arm: cursor, window, search terms. [a] is the alias
    of the arm's table, [compiled] what the arm's compiler returned. *)
Definition arm_where (a : string) (compiled : fragment) (q : InspectQuery) (cursor : option Cursor) : list fragment :=
  (match cursor with
   | Some c =>
       let nanos := UnixNano (cur_Timestamp c) in
       [("(" +:+ a +:+ ".timestamp < ? OR (" +:+ a +:+ ".timestamp = ? AND " +:+ a +:+ ".id < ?))",
         [ArgInt nanos; ArgInt nanos; ArgStr (cur_ID c)])]
   | None => []
   end ++
   match iq_Since q with Some t => [(a +:+ ".timestamp >= ?", [ArgInt (UnixNano t)])] | None => [] end ++
   match iq_Until q with Some t => [(a +:+ ".timestamp < ?", [ArgInt (UnixNano t)])] | None => [] end ++
   (if String.eqb compiled.1 "" then [] else [compiled]))%list.

Definition fragment_args (fs : list fragment) : list sqlArg := concat (map snd fs).

Section Build.
Context `{Unicode}.

Definition buildRootsUnionSQL (q : InspectQuery) (cursor : option Cursor) : fragment :=
  let reqWhere := arm_where "cr" (CompileSQL (iq_Query q)) q cursor in
  let '(havingSQL, havingArgs) := CompileSQLHaving (iq_Query q) in
  let reqQuery :=
    sqliteReadRootsBase +:+
    (match reqWhere with [] => "" | _ => nl +:+ "WHERE " +:+ Join (map fst reqWhere) (nl +:+ "  AND ") end) +:+
    nl +:+ "GROUP BY cr.id" +:+
    (if String.eqb havingSQL "" then "" else nl +:+ "HAVING " +:+ havingSQL) in
  let reqArgs := (fragment_args reqWhere ++ havingArgs)%list in
  if HasRequestOnlyFilter q then (reqQuery, reqArgs) else
  let orphanWhere := arm_where "e" (CompileSQLOrphans (iq_Query q)) q cursor in
  let orphanQuery :=
    sqliteOrphansBase +:+
    (match orphanWhere with [] => "" | _ => "  AND " +:+ Join (map fst orphanWhere) (nl +:+ "  AND ") end) in
  (reqQuery +:+ nl +:+ "UNION ALL" +:+ nl +:+ orphanQuery, (reqArgs ++ fragment_args orphanWhere)%list).

(** ** The same statement as syntax *)

Definition cursor_clause (a : string) : clause :=
  Plain (CParen (COr (CLt (a +:+ ".timestamp"))
    (CParen (CAnd (CEq (a +:+ ".timestamp")) (CLt (a +:+ ".id")))))).

(** Groups are joined with a line break, the clauses of a group without. *)
Definition arm_groups (a : string) (terms : list clause) (q : InspectQuery) (cursor : option Cursor) : list (list clause) :=
  (match cursor with Some _ => [[cursor_clause a]] | None => [] end ++
   match iq_Since q with Some _ => [[Plain (CGe (a +:+ ".timestamp"))]] | None => [] end ++
   match iq_Until q with Some _ => [[Plain (CLt (a +:+ ".timestamp"))]] | None => [] end ++
   match terms with [] => [] | _ => [terms] end)%list.

Record roots_stmt := mkRoots_stmt {
  rs_where : list (list clause);
  rs_having : list clause;
  rs_orphans : option (list (list clause))
}.

Definition roots_ast (q : InspectQuery) (cursor : option Cursor) : roots_stmt :=
  let ts := q_Terms (iq_Query q) in
  mkRoots_stmt (arm_groups "cr" (omap term_clause ts) q cursor) (omap having_clause ts)
    (if HasRequestOnlyFilter q then None else Some (arm_groups "e" (omap orphan_clause ts) q cursor)).

Definition group_text (g : list clause) : string := Join (map render_clause g) " AND ".
Definition groups_text (gs : list (list clause)) : string := Join (map group_text gs) (nl +:+ "  AND ").

Definition roots_text (st : roots_stmt) : string :=
  sqliteReadRootsBase +:+
  (match rs_where st with [] => "" | gs => nl +:+ "WHERE " +:+ groups_text gs end) +:+
  nl +:+ "GROUP BY cr.id" +:+
  (match rs_having st with [] => "" | g => nl +:+ "HAVING " +:+ group_text g end) +:+
  (match rs_orphans st with
   | None => ""
   | Some gs =>
       nl +:+ "UNION ALL" +:+ nl +:+ sqliteOrphansBase +:+
       (match gs with [] => "" | _ => "  AND " +:+ groups_text gs end)
   end).

Definition where_arity (st : roots_stmt) : nat := clauses_arity (concat (rs_where st)).
Definition having_arity (st : roots_stmt) : nat := clauses_arity (rs_having st).
Definition orphans_arity (st : roots_stmt) : nat := clauses_arity (concat (default [] (rs_orphans st))).
Definition roots_arity (st : roots_stmt) : nat := where_arity st + having_arity st + orphans_arity st.

End Build.

(** ** Its meaning *)

Section Meaning.
Context `{SqlText} `{SqlJson}.

(** LEFT JOIN events e ON e.correlation_id = cr.correlation_id *)
Definition correlated (db : Database) (r : Row) : list Row :=
  filter (fun e => sql_true (eq3 (cell e "correlation_id") (cell r "correlation_id")) = true) (db_events db).

Definition joined (db : Database) (r : Row) : list (option Row) :=
  match correlated db r with [] => [None] | es => Some <$> es end.

Definition null_event : Row := (fun c => (c, VNull)) <$> event_columns.

Definition joined_env (r : Row) (oe : option Row) : Row :=
  (alias "cr" r ++ alias "e" (default null_event oe))%list.

(** COUNT(e.id) *)
Definition count_ids (rows : list (option Row)) : Z :=
  Z.of_nat (length (filter (fun oe => cell (default null_event oe) "id" <> VNull) rows)).

(** MAX over a list ignores NULLs and is NULL when nothing is left. *)
Definition max_int (vs : list sqlVal) : sqlVal :=
  foldr (fun v acc => match v, acc with
                      | VInt a, VInt b => VInt (Z.max a b)
                      | VInt a, _ => VInt a
                      | _, _ => acc
                      end) VNull vs.

(** CASE WHEN e.type = 'response' THEN e.status ELSE NULL END *)
Definition case_status (e : Row) : sqlVal :=
  if sql_true (eq3 (cell e "type") (VText "response")) then cell e "status" else VNull.

Definition max_response_status (rows : list (option Row)) : sqlVal :=
  max_int ((fun oe => case_status (default null_event oe)) <$> rows).

Definition group_env (rows : list (option Row)) : Row :=
  [("COUNT(e.id)", VInt (count_ids rows)); (max_status, max_response_status rows)].

(** The output row of the group of one captured request: WHERE filters the
    joined rows, GROUP BY cr.id collects them (ids are unique), HAVING filters
    the group. *)
Definition request_arm (db : Database) (st : roots_stmt) (wargs hargs : list sqlVal) (r : Row) : option (list sqlVal) :=
  let kept := filter (fun oe => selected db (joined_env r oe) (concat (rs_where st)) wargs = true) (joined db r) in
  match kept with
  | [] => None
  | _ =>
      if selected db (group_env kept) (rs_having st) hargs then
        Some [cell r "id"; VText "request"; cell r "timestamp"; cell r "service"; cell r "method"; cell r "path";
              cell r "correlation_id"; cell r "source_ip"; VInt (count_ids kept);
              VInt (if (count_ids kept >? 0)%Z then 1 else 0); max_response_status kept]
      else None
  end.

(** LEFT JOIN captured_requests cr ... WHERE cr.id IS NULL *)
Definition orphaned (db : Database) (e : Row) : bool :=
  negb (existsb (fun r => sql_true (eq3 (cell r "correlation_id") (cell e "correlation_id"))) (db_requests db)).

Definition orphan_arm (db : Database) (cls : list clause) (args : list sqlVal) (e : Row) : option (list sqlVal) :=
  if (orphaned db e && selected db (alias "e" e) cls args)%bool then
    Some [cell e "id";
          VText (if sql_true (eq3 (cell e "type") (VText "response")) then "orphan_response" else "orphan_outbound");
          cell e "timestamp"; cell e "service"; VNull; VNull; cell e "correlation_id"; VNull; VNull; VNull;
          case_status e]
  else None.

(** The rows of the union, arguments split by placeholder. *)
Definition roots_rows (st : roots_stmt) (args : list sqlVal) (db : Database) : list (list sqlVal) :=
  let wargs := take (where_arity st) args in
  let hargs := take (having_arity st) (drop (where_arity st) args) in
  let oargs := drop (where_arity st + having_arity st) args in
  (omap (request_arm db st wargs hargs) (db_requests db) ++
   match rs_orphans st with
   | None => []
   | Some gs => omap (orphan_arm db (concat gs) oargs) (db_events db)
   end)%list.

Definition col_int (n : nat) (r : list sqlVal) : Z := match arg n r with VInt z => z | _ => 0%Z end.
Definition col_text (n : nat) (r : list sqlVal) : string := match arg n r with VText s => s | _ => "" end.

(** ORDER BY timestamp DESC, id DESC: [b] may follow [a]. *)
Definition desc_ok (a b : list sqlVal) : Prop :=
  (col_int 2 b < col_int 2 a)%Z \/ (col_int 2 b = col_int 2 a /\ str_ltb (col_text 0 a) (col_text 0 b) = false).

Definition limit_rows {A} (n : Z) (l : list A) : list A := if (n <? 0)%Z then l else take (Z.to_nat n) l.

Definition roots_page_query (st : roots_stmt) : query_stmt := {|
  qs_text := "SELECT * FROM (" +:+ nl +:+ roots_text st +:+ nl +:+ ")" +:+ nl +:+
             "ORDER BY timestamp DESC, id DESC" +:+ nl +:+ "LIMIT ?";
  qs_sem args db rows := exists sorted,
    sorted ≡ₚ roots_rows st (take (roots_arity st) args) db /\ StronglySorted desc_ok sorted /\
    rows = limit_rows (match arg (roots_arity st) args with VInt z => z | _ => 0%Z end) sorted
|}.

Definition roots_count_query (st : roots_stmt) : query_stmt := {|
  qs_text := "SELECT COUNT(*) FROM (" +:+ nl +:+ roots_text st +:+ nl +:+ ")";
  qs_sem args db rows := rows = [[VInt (Z.of_nat (length (roots_rows st args db)))]]
|}.

End Meaning.

(** ** ReadRoots *)

Definition scan_root (vals : list sqlVal) : result string RootRow :=
  match vals with
  | [id; kind; ts; svc; method; path; corr; ip; ec; he; status] =>
      try id <- scan_string id; try kind <- scan_string kind; try tsNanos <- scan_int ts;
      try service <- scan_string svc; try corrID <- scan_string corr;
      try eventCount <- scan_null_int ec; try hasEvents <- scan_null_int he; try statusVal <- scan_null_int status;
      Ok (mkRootRow id kind (Unix0 tsNanos) service (default "" (scan_null_string method))
            (default "" (scan_null_string path)) corrID (default "" (scan_null_string ip))
            (Z.to_nat <$> eventCount) ((fun v => negb (Z.eqb v 0)) <$> hasEvents) statusVal)
  | _ => Err "unexpected column count"
  end.

Section Reader.
Context `{Unicode} `{MapRange} (E : Engine).

Definition SQLite_ReadRoots (db : Database) (q : InspectQuery) (limit : Z) (cursor : option Cursor)
  : result ReadError (list RootRow * option Cursor) :=
  let fetch := wrap_i64 (limit + 1) in
  let '(innerSQL, innerArgs) := buildRootsUnionSQL q cursor in
  let fullQuery := "SELECT * FROM (" +:+ nl +:+ innerSQL +:+ nl +:+ ")" +:+ nl +:+
                   "ORDER BY timestamp DESC, id DESC" +:+ nl +:+ "LIMIT ?" in
  match eng_query E fullQuery (map bind_arg innerArgs ++ [VInt fetch])%list db with
  | Err e => Err (ErrBackend ("sqlite ReadRoots: " +:+ e))
  | Ok rows =>
      match scan_all scan_root rows with
      | Err e => Err (ErrBackend ("sqlite ReadRoots scan: " +:+ e))
      | Ok result =>
          if (Z.of_nat (length result) >? limit)%Z then
            if (limit <? 1)%Z then Err ReadPanic else
            match result !! Z.to_nat (limit - 1) with
            | Some last => Ok (take (Z.to_nat limit) result, Some (cursor_of last))
            | None => Err ReadPanic
            end
          else Ok (result, None)
      end
  end.

(** ** AggregateRoots *)

Definition aggregate_head : string :=
  "
SELECT
    CAST((timestamp - ?) / ? AS INTEGER) AS bucket,
    CASE
        WHEN status >= 200 AND status < 300 THEN 2
        WHEN status >= 300 AND status < 400 THEN 3
        WHEN status >= 400 AND status < 500 THEN 4
        WHEN status >= 500 AND status < 600 THEN 5
        ELSE 0
    END AS klass,
    COUNT(*) AS cnt
FROM (
".
Definition aggregate_tail : string :=
  "
)
GROUP BY bucket, klass".

Definition scan_group (vals : list sqlVal) : result string (Z * Z * Z) :=
  match vals with
  | [b; k; c] => try idx <- scan_int b; try klass <- scan_int k; try cnt <- scan_int c; Ok (idx, klass, cnt)
  | _ => Err "unexpected column count"
  end.

Definition bump_by (cls : Z) (n : nat) (b : HistogramBucket) : HistogramBucket :=
  let '(mkHistogramBucket st s2 s3 s4 s5 o) := b in
  match cls with
  | 2%Z => mkHistogramBucket st (s2 + n) s3 s4 s5 o
  | 3%Z => mkHistogramBucket st s2 (s3 + n) s4 s5 o
  | 4%Z => mkHistogramBucket st s2 s3 (s4 + n) s5 o
  | 5%Z => mkHistogramBucket st s2 s3 s4 (s5 + n) o
  | _ => mkHistogramBucket st s2 s3 s4 s5 (o + n)
  end.

Definition clamp_bucket (bucketCount idx : Z) : Z :=
  let idx := if (idx <? 0)%Z then 0%Z else idx in
  if (idx >=? bucketCount)%Z then (bucketCount - 1)%Z else idx.

(** The loop over the groups. *)
Definition add_group (bucketCount : Z) (st : nat * list HistogramBucket) (g : Z * Z * Z) : nat * list HistogramBucket :=
  let '(total, buckets) := st in
  let '(idx, klass, cnt) := g in
  (total + Z.to_nat cnt,
   alter (bump_by klass (Z.to_nat cnt)) (Z.to_nat (clamp_bucket bucketCount idx)) buckets).

(** The guard and the bucket width are those of the memory reader's
    [bucketing]: two different functions of the source with the same text. *)
Definition SQLite_AggregateRoots (db : Database) (q : InspectQuery) (bucketCount : Z) : result ReadError Aggregation :=
  let '(innerSQL, innerArgs) := buildRootsUnionSQL q None in
  match bucketing q bucketCount with
  | None =>
      match eng_query E ("SELECT COUNT(*) FROM (" +:+ nl +:+ innerSQL +:+ nl +:+ ")") (map bind_arg innerArgs) db with
      | Ok ([v] :: _) =>
          match scan_int v with
          | Ok total => Ok (mkAggregation (Z.to_nat total) [])
          | Err e => Err (ErrBackend ("sqlite AggregateRoots count: " +:+ e))
          end
      | Ok _ => Err (ErrBackend "sqlite AggregateRoots count: no rows")
      | Err e => Err (ErrBackend ("sqlite AggregateRoots count: " +:+ e))
      end
  | Some b =>
      match eng_query E (aggregate_head +:+ innerSQL +:+ aggregate_tail)
              (VInt (bk_since b) :: VInt (bk_width b) :: map bind_arg innerArgs) db with
      | Err e => Err (ErrBackend ("sqlite AggregateRoots: " +:+ e))
      | Ok rows =>
          match scan_all scan_group rows with
          | Err e => Err (ErrBackend ("sqlite AggregateRoots scan: " +:+ e))
          | Ok groups =>
              let '(total, buckets) := fold_left (add_group (bk_count b)) groups (0, empty_buckets b) in
              Ok (mkAggregation total buckets)
          end
      end
  end.

(** ** ReadDetail *)

Definition sqliteSelectRequest : string :=
  "
SELECT id, timestamp, service, service_source, host, correlation_id, correlation_source,
       method, path, source_ip, content_type, query, headers, cookies,
       body, body_truncated, body_original_size
FROM captured_requests WHERE id = ?".

Definition sqliteSelectEventByID : string :=
  "
SELECT id, timestamp, type, correlation_id, service, service_source,
       status, duration_ms,
       request_method, request_path, request_headers, request_body,
       request_body_truncated, request_body_original_size,
       response_status, response_headers, response_body,
       response_body_truncated, response_body_original_size
FROM events WHERE id = ?".

Definition sqliteSelectEventsByCorr : string :=
  "
SELECT id, timestamp, type, correlation_id, service, service_source,
       status, duration_ms,
       request_method, request_path, request_headers, request_body,
       request_body_truncated, request_body_original_size,
       response_status, response_headers, response_body,
       response_body_truncated, response_body_original_size
FROM events WHERE correlation_id = ? AND id != ?
ORDER BY timestamp ASC, id ASC".

Definition sqliteSelectRequestByCorr : string :=
  "
SELECT id, timestamp, service, service_source, host, correlation_id, correlation_source,
       method, path, source_ip, content_type, query, headers, cookies,
       body, body_truncated, body_original_size
FROM captured_requests WHERE correlation_id = ? AND id != ?
ORDER BY timestamp ASC, id ASC".

(** [None] is what Scan reports as sql.ErrNoRows. *)
Definition scanRequestRow (row : option (list sqlVal)) : result ReadError CapturedRequest :=
  match row with
  | None => Err ErrNotFound
  | Some [rid; ts; svc; svcSource; host; corr; corrSource; method; path; ip; ctype; queryJSON; headersJSON;
          cookiesJSON; body; truncated; size] =>
      let scanned {A} (r : result string A) : result ReadError A :=
        match r with Ok a => Ok a | Err e => Err (ErrBackend ("scan request row: " +:+ e)) end in
      try rid <- scanned (scan_string rid); try tsNanos <- scanned (scan_int ts);
      try service <- scanned (scan_string svc); try serviceSource <- scanned (scan_string svcSource);
      try host <- scanned (scan_string host); try corrID <- scanned (scan_string corr);
      try corrSource <- scanned (scan_string corrSource); try method <- scanned (scan_string method);
      try path <- scanned (scan_string path); try sourceIP <- scanned (scan_string ip);
      try contentType <- scanned (scan_string ctype);
      try bodyTruncatedInt <- scanned (scan_int truncated); try bodyOriginalSize <- scanned (scan_int size);
      match UnmarshalHeader (scan_bytes queryJSON) with
      | None => Err (ErrBackend "unmarshal query")
      | Some query =>
          match UnmarshalHeader (scan_bytes headersJSON) with
          | None => Err (ErrBackend "unmarshal headers")
          | Some headers =>
              match UnmarshalCookies (scan_bytes cookiesJSON) with
              | None => Err (ErrBackend "unmarshal cookies")
              | Some cookies =>
                  Ok (mkCapturedRequest rid (Unix0 tsNanos) method path query headers cookies (scan_bytes body)
                        (negb (Z.eqb bodyTruncatedInt 0)) bodyOriginalSize contentType sourceIP service
                        serviceSource corrID corrSource)
              end
          end
      end
  | Some _ => Err (ErrBackend "scan request row: unexpected column count")
  end.

(** A JSON column that is NULL or empty leaves the map nil. *)
Definition scan_headers (what : string) (v : sqlVal) : result ReadError (option header) :=
  let text := scan_bytes v in
  if String.eqb text "" then Ok None
  else match UnmarshalHeader text with Some h => Ok h | None => Err (ErrBackend ("unmarshal " +:+ what)) end.

Definition flag_of (v : option Z) : bool := match v with Some z => negb (Z.eqb z 0) | None => false end.

Definition scanEventRow (row : option (list sqlVal)) : result ReadError CRecord :=
  match row with
  | None => Err ErrNotFound
  | Some [id; ts; ty; corr; svc; svcSource; status; duration; reqMethod; reqPath; reqHeaders; reqBody; reqTrunc;
          reqSize; respStatus; respHeaders; respBody; respTrunc; respSize] =>
      let scanned {A} (r : result string A) : result ReadError A :=
        match r with Ok a => Ok a | Err e => Err (ErrBackend ("scan event row: " +:+ e)) end in
      try id <- scanned (scan_string id); try tsNanos <- scanned (scan_int ts);
      try evtType <- scanned (scan_string ty); try corrID <- scanned (scan_string corr);
      try service <- scanned (scan_string svc); try serviceSource <- scanned (scan_string svcSource);
      try statusVal <- scanned (scan_null_int status); try durationMS <- scanned (scan_int duration);
      try reqTruncInt <- scanned (scan_null_int reqTrunc); try reqOrigSize <- scanned (scan_null_int reqSize);
      try respStatus <- scanned (scan_null_int respStatus);
      try respTruncInt <- scanned (scan_null_int respTrunc); try respOrigSize <- scanned (scan_null_int respSize);
      let ts := Unix0 tsNanos in
      if String.eqb evtType "response" then
        try headers <- scan_headers "response event headers" respHeaders;
        Ok (RResponse (mkResponseEvent id ts corrID "" service serviceSource (default 0%Z statusVal) headers
              (scan_bytes respBody) (flag_of respTruncInt) (default 0%Z respOrigSize) "" durationMS))
      else if String.eqb evtType "outbound" then
        try rqHeaders <- scan_headers "outbound request headers" reqHeaders;
        try resp <-
          match respStatus with
          | None => Ok None
          | Some st =>
              try h <- scan_headers "outbound response headers" respHeaders;
              Ok (Some (mkOutboundResponseHalf st h (scan_bytes respBody) (flag_of respTruncInt)
                          (default 0%Z respOrigSize) ""))
          end;
        Ok (ROutbound (mkOutboundEvent id ts corrID "" service serviceSource durationMS
              (mkOutboundRequestHalf (default "" (scan_null_string reqMethod)) (default "" (scan_null_string reqPath))
                 rqHeaders (scan_bytes reqBody) (flag_of reqTruncInt) (default 0%Z reqOrigSize) "") resp))
      else Err (ErrBackend ("unknown event type " +:+ evtType +:+ " for id " +:+ id))
  | Some _ => Err (ErrBackend "scan event row: unexpected column count")
  end.

(** [QueryRowContext(...).Scan]: the first row, or no rows; a query error
    surfaces at Scan. *)
Definition query_row {A} (stmt : string) (args : list sqlVal) (db : Database) (wrap : string)
    (scan : option (list sqlVal) -> result ReadError A) : result ReadError A :=
  match eng_query E stmt args db with
  | Err e => Err (ErrBackend (wrap +:+ e))
  | Ok rows => scan (head rows)
  end.

Definition sqliteLoadRequest (db : Database) (id : string) : result ReadError CapturedRequest :=
  match query_row sqliteSelectRequest [VText id] db "scan request row: " scanRequestRow with
  | Ok cr => Ok cr
  | Err ErrNotFound => Err ErrNotFound
  | Err (ErrBackend e) => Err (ErrBackend ("sqlite load request " +:+ id +:+ ": " +:+ e))
  | Err ReadPanic => Err ReadPanic
  end.

Definition sqliteLoadEvent (db : Database) (id : string) : result ReadError CRecord :=
  query_row sqliteSelectEventByID [VText id] db "scan event row: " scanEventRow.

Definition sqliteFindRoot (db : Database) (id : string) : result ReadError (CRecord * string) :=
  match sqliteLoadRequest db id with
  | Ok cr => Ok (RRequest cr, cr_CorrelationID cr)
  | Err ErrNotFound => try ev <- sqliteLoadEvent db id; Ok (ev, RecordCorrelationID ev)
  | Err e => Err e
  end.

Fixpoint scan_siblings {A} (what : string) (scan : option (list sqlVal) -> result ReadError A)
    (rows : list (list sqlVal)) : result ReadError (list A) :=
  match rows with
  | [] => Ok []
  | r :: rest =>
      match scan (Some r) with
      | Ok a => try l <- scan_siblings what scan rest; Ok (a :: l)
      | Err (ErrBackend e) => Err (ErrBackend (what +:+ e))
      | Err e => Err e
      end
  end.

Definition sqliteFetchSiblings (db : Database) (rootID corrID : string) : result ReadError (list CRecord) :=
  match eng_query E sqliteSelectRequestByCorr [VText corrID; VText rootID] db with
  | Err e => Err (ErrBackend ("sqlite sibling requests: " +:+ e))
  | Ok reqRows =>
      try reqs <- scan_siblings "sqlite sibling request scan: " scanRequestRow reqRows;
      match eng_query E sqliteSelectEventsByCorr [VText corrID; VText rootID] db with
      | Err e => Err (ErrBackend ("sqlite sibling events: " +:+ e))
      | Ok evtRows =>
          try evts <- scan_siblings "sqlite sibling event scan: " scanEventRow evtRows;
          Ok (SliceStable record_less (map RRequest reqs ++ evts)%list)
      end
  end.

Definition SQLite_ReadDetail (db : Database) (id : string) : result ReadError DetailRecord :=
  try (root, corrID) <- sqliteFindRoot db id;
  try siblings <- sqliteFetchSiblings db id corrID;
  Ok (mkDetailRecord root siblings).

(** ** OrphanCounts, ServicesSeen, ServiceStats *)

Definition orphanCountsQuery : string :=
  "
SELECT
    SUM(CASE WHEN e.type = 'response' THEN 1 ELSE 0 END),
    SUM(CASE WHEN e.type = 'outbound' THEN 1 ELSE 0 END)
FROM events e
LEFT JOIN captured_requests cr ON cr.correlation_id = e.correlation_id
WHERE cr.id IS NULL".

Definition SQLite_OrphanCounts (db : Database) : result string (Z * Z) :=
  match eng_query E orphanCountsQuery [] db with
  | Ok ([r; o] :: _) =>
      match scan_null_int r, scan_null_int o with
      | Ok r, Ok o => Ok (default 0%Z r, default 0%Z o)
      | Err e, _ | _, Err e => Err ("sqlite OrphanCounts: " +:+ e)
      end
  | Ok _ => Err "sqlite OrphanCounts: no rows"
  | Err e => Err ("sqlite OrphanCounts: " +:+ e)
  end.

Definition servicesSeenAll : string := "SELECT DISTINCT service FROM captured_requests ORDER BY service ASC".
Definition servicesSeenSince : string :=
  "SELECT DISTINCT service FROM captured_requests WHERE timestamp >= ? ORDER BY service ASC".

Definition scan_service (vals : list sqlVal) : result string string :=
  match vals with [v] => scan_string v | _ => Err "unexpected column count" end.

Definition SQLite_ServicesSeen (db : Database) (since : time) : result ReadError (list string) :=
  let '(query, args) := if IsZero since then (servicesSeenAll, [])
                        else (servicesSeenSince, [VInt (UnixNano since)]) in
  match eng_query E query args db with
  | Err e => Err (ErrBackend ("sqlite ServicesSeen: " +:+ e))
  | Ok rows =>
      match scan_all scan_service rows with
      | Ok svcs => Ok svcs
      | Err e => Err (ErrBackend ("sqlite ServicesSeen scan: " +:+ e))
      end
  end.

Definition statsRequests : string := "SELECT service, COUNT(*), MAX(timestamp) FROM captured_requests".
Definition statsEvents : string :=
  "
SELECT service,
    SUM(CASE WHEN status >= 200 AND status < 300 THEN 1 ELSE 0 END),
    SUM(CASE WHEN status >= 300 AND status < 400 THEN 1 ELSE 0 END),
    SUM(CASE WHEN status >= 400 AND status < 500 THEN 1 ELSE 0 END),
    SUM(CASE WHEN status >= 500 AND status < 600 THEN 1 ELSE 0 END),
    SUM(CASE WHEN status IS NOT NULL AND (status < 200 OR status >= 600) THEN 1 ELSE 0 END),
    MAX(timestamp)
FROM events
WHERE type = 'response'".

Definition stats_text (base since_clause : string) (since : time) : string :=
  base +:+ (if IsZero since then "" else since_clause) +:+ " GROUP BY service".

Definition stats_args (since : time) : list sqlVal := if IsZero since then [] else [VInt (UnixNano since)].

Definition scan_req_stat (vals : list sqlVal) : result string (string * Z * Z) :=
  match vals with
  | [s; c; t] => try svc <- scan_string s; try count <- scan_int c; try lastTS <- scan_int t; Ok (svc, count, lastTS)
  | _ => Err "unexpected column count"
  end.

Definition scan_ev_stat (vals : list sqlVal) : result string (string * (Z * Z * Z * Z * Z) * Z) :=
  match vals with
  | [s; a; b; c; d; o; t] =>
      try svc <- scan_string s; try s2 <- scan_int a; try s3 <- scan_int b; try s4 <- scan_int c;
      try s5 <- scan_int d; try other <- scan_int o; try lastTS <- scan_int t;
      Ok (svc, (s2, s3, s4, s5, other), lastTS)
  | _ => Err "unexpected column count"
  end.

Definition later (t u : time) : time := if After t u then t else u.

Definition add_req_stat (stats : gmap string ServiceStat) (row : string * Z * Z) : gmap string ServiceStat :=
  let '(svc, count, lastTS) := row in
  let st := default (new_stat svc) (stats !! svc) in
  <[svc := mkServiceStat (ss_Name st) (Z.to_nat count) (later (Unix0 lastTS) (ss_LastSeen st)) (ss_S2xx st)
             (ss_S3xx st) (ss_S4xx st) (ss_S5xx st) (ss_Other st)]> stats.

Definition add_ev_stat (stats : gmap string ServiceStat) (row : string * (Z * Z * Z * Z * Z) * Z)
  : gmap string ServiceStat :=
  let '(svc, (s2, s3, s4, s5, other), lastTS) := row in
  let st := default (new_stat svc) (stats !! svc) in
  <[svc := mkServiceStat (ss_Name st) (ss_Requests st) (later (Unix0 lastTS) (ss_LastSeen st)) (Z.to_nat s2)
             (Z.to_nat s3) (Z.to_nat s4) (Z.to_nat s5) (Z.to_nat other)]> stats.

Definition SQLite_ServiceStats (db : Database) (since : time) : result ReadError (list ServiceStat) :=
  match eng_query E (stats_text statsRequests " WHERE timestamp >= ?" since) (stats_args since) db with
  | Err e => Err (ErrBackend ("sqlite ServiceStats requests: " +:+ e))
  | Ok reqRows =>
      match scan_all scan_req_stat reqRows with
      | Err e => Err (ErrBackend ("sqlite ServiceStats requests scan: " +:+ e))
      | Ok reqs =>
          match eng_query E (stats_text statsEvents " AND timestamp >= ?" since) (stats_args since) db with
          | Err e => Err (ErrBackend ("sqlite ServiceStats events: " +:+ e))
          | Ok evRows =>
              match scan_all scan_ev_stat evRows with
              | Err e => Err (ErrBackend ("sqlite ServiceStats events scan: " +:+ e))
              | Ok evs =>
                  let stats := fold_left add_ev_stat evs (fold_left add_req_stat reqs ∅) in
                  Ok (SliceStable (fun a b => str_ltb (ss_Name a) (ss_Name b)) (snd <$> go_range stats))
              end
          end
      end
  end.

End Reader.

(** The sink as a [Reader] of the inspect endpoints. *)
Definition sqlite_reader `{Unicode} `{MapRange} (E : Engine) (db : Database) : Reader :=
  mkReader (SQLite_ReadRoots E db) (SQLite_ReadDetail E db) (SQLite_AggregateRoots E db)
    (SQLite_ServicesSeen E db) (SQLite_ServiceStats E db).
