(* ===== verification/SqliteFacts.v ===== *)
(** * The SQLite sink stores every record, returns it, and sweeps whole *)
From S2P Require Import Prelude GoLib Record SearchQL SearchSQL SearchSQLFacts Json JsonFacts Sqlite SqlQuery.
From S2P Require Import MemorySink Inspect MemoryReader AdminInspect SqliteReader.

Open Scope string_scope.

(** ** The tables that hold a list of records *)

Definition is_request (r : CRecord) : bool := match r with RRequest _ => true | _ => false end.

Definition row_of (r : CRecord) : Row :=
  match r with
  | RRequest v => zip request_columns (request_values v)
  | RResponse v => zip event_columns (response_values v)
  | ROutbound v => zip event_columns (outbound_values v)
  end.

Definition columns_of (r : CRecord) : list string := if is_request r then request_columns else event_columns.

Definition requests_of (l : list CRecord) : list CRecord := filter (fun r => is_request r = true) l.
Definition events_of (l : list CRecord) : list CRecord := filter (fun r => is_request r = false) l.

Definition database_of (l : list CRecord) : Database :=
  mkDatabase (row_of <$> requests_of l) (row_of <$> events_of l).

(** Ids are keys. *)
Lemma same_record l e e' : NoDup (RecordID <$> l) -> e ∈ l -> e' ∈ l -> RecordID e = RecordID e' -> e = e'.
Proof.
  intros Hnd Hv Hw Hid. apply list_elem_of_lookup in Hv as [i Hi]. apply list_elem_of_lookup in Hw as [j Hj].
  assert (i = j) as ->; [|congruence].
  eapply NoDup_lookup; [exact Hnd|..]; rewrite list_lookup_fmap; [rewrite Hi|rewrite Hj]; cbn; by rewrite ?Hid.
Qed.

Lemma requests_of_app l k : requests_of (l ++ k) = (requests_of l ++ requests_of k)%list.
Proof. apply filter_app. Qed.
Lemma events_of_app l k : events_of (l ++ k) = (events_of l ++ events_of k)%list.
Proof. apply filter_app. Qed.

Lemma cell_row r : cell (row_of r) "id" = VText (RecordID r) /\
  cell (row_of r) "timestamp" = VInt (UnixNano (RecordTimestamp r)) /\
  cell (row_of r) "correlation_id" = VText (RecordCorrelationID r) /\
  cell (row_of r) "service" = VText (RecordService r).
Proof. by destruct r. Qed.

Lemma cell_id r : cell (row_of r) "id" = VText (RecordID r).
Proof. apply cell_row. Qed.
Lemma cell_ts r : cell (row_of r) "timestamp" = VInt (UnixNano (RecordTimestamp r)).
Proof. apply cell_row. Qed.
Lemma cell_corr r : cell (row_of r) "correlation_id" = VText (RecordCorrelationID r).
Proof. apply cell_row. Qed.
Lemma cell_service r : cell (row_of r) "service" = VText (RecordService r).
Proof. apply cell_row. Qed.

Lemma eq3_text a b : eq3 (VText a) (VText b) = Some (String.eqb a b).
Proof. simpl. f_equal. case_bool_decide; destruct (String.eqb_spec a b); congruence. Qed.

Definition schema_of (r : CRecord) : list (string * bool) := if is_request r then request_schema else event_schema.
Definition values_of (r : CRecord) : list sqlVal :=
  match r with RRequest v => request_values v | RResponse v => response_values v | ROutbound v => outbound_values v end.

Lemma insert_row_of r (table : list CRecord) t :
  insert_row (schema_of r) (values_of r) (row_of <$> table) = Some t ->
  t = row_of <$> (table ++ [r])%list /\ Forall (fun r' => RecordID r' <> RecordID r) table.
Proof.
  intros Hi. rewrite fmap_app.
  assert (existsb (fun r0 => bool_decide (cell r0 "id" = cell (row_of r) "id")) (row_of <$> table) = false /\
    t = ((row_of <$> table) ++ [row_of r])%list) as [Hne ->].
  { unfold insert_row in Hi. destruct (negb _); [done|]. destruct (existsb _ (zip _ _)); [done|].
    destruct (existsb _ (row_of <$> table)) eqn:Ee in Hi; [done|]. injection Hi as <-. by destruct r. }
  split; [done|]. apply Forall_forall. intros r' Hr' Heq. apply not_true_iff_false in Hne. destruct Hne.
  apply existsb_true_iff. exists (row_of r'). split; [by apply list_elem_of_fmap_2|].
  rewrite !cell_id, Heq. by apply bool_decide_eq_true.
Qed.

(** The record's columns fit the schema, so only a taken id is refused. *)
Lemma insert_row_fits r (table : list CRecord) :
  Forall (fun r' => RecordID r' <> RecordID r) table ->
  is_Some (insert_row (schema_of r) (values_of r) (row_of <$> table)).
Proof.
  intros Hf. unfold insert_row.
  assert (Hl : length (values_of r) = length (schema_of r)).
  { destruct r as [v|v|v]; [done|done|]. cbn. by destruct (oe_Response v). }
  rewrite Hl, Nat.eqb_refl. cbn [negb].
  assert (existsb (fun '(c, v) => (c.2 && bool_decide (v = VNull))%bool) (zip (schema_of r) (values_of r)) = false) as ->.
  { destruct r as [v|v|v]; cbn -[MarshalHeader MarshalCookies]; [| |destruct (oe_Response v); cbn -[MarshalHeader]];
      by repeat rewrite bool_decide_eq_false_2 by done. }
  assert (Hrow : cell (zip (schema_of r).*1 (values_of r)) "id" = VText (RecordID r)) by (by destruct r).
  rewrite Hrow.
  replace (existsb _ (row_of <$> table)) with false; [by eexists|].
  symmetry. apply not_true_iff_false. intros (? & (r' & -> & Hr')%list_elem_of_fmap & Hid)%existsb_true_iff.
  apply bool_decide_eq_true in Hid. rewrite cell_id in Hid. rewrite Forall_forall in Hf.
  apply (Hf r' Hr'). congruence.
Qed.

(** Records of the other table do not clash. *)
Definition fresh_id (r : CRecord) (l : list CRecord) : Prop :=
  Forall (fun r' => is_request r' = is_request r -> RecordID r' <> RecordID r) l.

Definition table_of (r : CRecord) (l : list CRecord) : list CRecord :=
  filter (fun r' => is_request r' = is_request r) l.

Lemma fresh_id_table r l : fresh_id r l <-> Forall (fun r' => RecordID r' <> RecordID r) (table_of r l).
Proof.
  unfold fresh_id, table_of. rewrite !Forall_forall. setoid_rewrite list_elem_of_filter. naive_solver.
Qed.

Definition insert_text (r : CRecord) : string := if is_request r then sqliteInsertRequest else sqliteInsertEvent.

(** All three writers are one insert of the record's values. *)
Lemma SQLite_Write_eq E db r : exists what,
  SQLite_Write E db r = exec_insert E what (RecordID r) (insert_text r) (values_of r) db.
Proof. destruct r; by eexists. Qed.

Lemma inserts_record E l r db' n :
  inserts E -> eng_exec E (insert_text r) (values_of r) (database_of l) = Ok (db', n) ->
  db' = database_of (l ++ [r]) /\ fresh_id r l.
Proof.
  intros [Hreq Hevt] Ee. rewrite fresh_id_table. unfold database_of. rewrite requests_of_app, events_of_app.
  destruct r as [v|v|v].
  - destruct (Hreq _ _ _ _ Ee) as (t & Hi & ->). apply (insert_row_of (RRequest v)) in Hi as [-> Hf].
    by rewrite app_nil_r.
  - destruct (Hevt _ _ _ _ Ee) as (t & Hi & ->). apply (insert_row_of (RResponse v)) in Hi as [-> Hf].
    by rewrite app_nil_r.
  - destruct (Hevt _ _ _ _ Ee) as (t & Hi & ->). apply (insert_row_of (ROutbound v)) in Hi as [-> Hf].
    by rewrite app_nil_r.
Qed.

Lemma insert_succeeds E l r :
  inserts_succeed E -> fresh_id r l -> is_ok (eng_exec E (insert_text r) (values_of r) (database_of l)) = true.
Proof.
  intros [Hreq Hevt] Hf%fresh_id_table%insert_row_fits. destruct r as [v|v|v]; [by apply Hreq|by apply Hevt..].
Qed.

(** Write stores the record or nothing: with an engine whose inserts obey
    the schema, writing to the tables that hold [l] either succeeds, the id is
    new to its table and the tables hold [l] and the record, or fails with an
    error that names the record and leaves the tables as they were; and a
    record with a new id is refused only by a fault of the engine. *)
Lemma SQLite_Write_stores (E : Engine) (l : list CRecord) (r : CRecord) :
  inserts E ->
  match SQLite_Write E (database_of l) r with
  | (db, Ok _) => db = database_of (l ++ [r]) /\ fresh_id r l
  | (db, Err e) => db = database_of l /\ Contains e (RecordID r) = true
  end /\
  (inserts_succeed E -> fresh_id r l -> (SQLite_Write E (database_of l) r).2 = Ok tt).
Proof.
  intros Hins. destruct (SQLite_Write_eq E (database_of l) r) as [what ->]. unfold exec_insert. split.
  - destruct (eng_exec _ _ _ _) as [[db' n]|e] eqn:Ee; [by eapply inserts_record|]. split; [done|].
    apply Contains_spec. exists ("insert " +:+ what +:+ " "), (": " +:+ e). by rewrite !str_app_assoc.
  - intros Hs Hf. pose proof (insert_succeeds E l r Hs Hf) as Hok.
    by destruct (eng_exec _ _ _ _) as [[db' n]|e].
Qed.

(** ** Sweeping *)

(** The records left when the rows selected by [p] and [e] are deleted from
    the two tables. *)
Definition kept_by (p e : Row -> bool) (l : list CRecord) : list CRecord :=
  filter (fun r => (if is_request r then p (row_of r) else e (row_of r)) = false) l.

Lemma filter_swap {A} (P Q R : A -> Prop) `{!forall x, Decision (P x), !forall x, Decision (Q x), !forall x, Decision (R x)} (l : list A) :
  (forall x, P x -> Q x <-> R x) -> filter Q (filter P l) = filter P (filter R l).
Proof.
  intros Hx. rewrite !list_filter_filter. apply filter_ext_elem. intros x _. specialize (Hx x). tauto.
Qed.

Lemma kept_by_tables p e l :
  database_of (kept_by p e l) =
  mkDatabase (filter (fun r => p r = false) (db_requests (database_of l)))
             (filter (fun r => e r = false) (db_events (database_of l))).
Proof.
  unfold database_of, requests_of, events_of, kept_by. cbn [db_requests db_events]. rewrite !filter_fmap.
  f_equal; f_equal; symmetry; apply filter_swap; intros [] Hr; done.
Qed.

Lemma length_tables l : length (db_requests (database_of l)) + length (db_events (database_of l)) = length l.
Proof.
  unfold database_of, requests_of, events_of. cbn [db_requests db_events]. rewrite !length_fmap.
  induction l as [|r l IH]; [done|]. rewrite !filter_cons. destruct r; cbn [is_request];
    rewrite ?(decide_True (P := true = true)), ?(decide_True (P := false = false)),
      ?(decide_False (P := true = false)), ?(decide_False (P := false = true)) by done; cbn [length]; lia.
Qed.

(** Keeping the rows whose id is among the newest [n] of a table. *)
Definition trimmed (n : Z) (table kept : list CRecord) : Prop :=
  length kept = (if (n <? 0)%Z then length table else Nat.min (Z.to_nat n) (length table)) /\
  forall a b, a ∈ kept -> b ∈ table -> b ∉ kept -> (UnixNano (RecordTimestamp b) <= UnixNano (RecordTimestamp a))%Z.

Lemma filter_ids_take (l : list CRecord) k :
  NoDup (RecordID <$> l) -> filter (fun r => RecordID r ∈ RecordID <$> take k l) l = take k l.
Proof.
  intros Hnd. transitivity (filter (fun r => RecordID r ∈ RecordID <$> take k l) (take k l ++ drop k l)%list);
    [by rewrite take_drop|]. rewrite filter_app, filter_id, filter_none; [by rewrite app_nil_r| |].
  - intros x Hx Hin. rewrite <- (take_drop k l), fmap_app in Hnd. apply NoDup_app in Hnd as (_ & Hd & _).
    apply (Hd _ Hin). by apply list_elem_of_fmap_2.
  - intros x Hx. by apply list_elem_of_fmap_2.
Qed.

Lemma sorted_take_drop {A} (R : A -> A -> Prop) k l a b :
  StronglySorted R l -> a ∈ take k l -> b ∈ drop k l -> R a b.
Proof.
  intros Hs. revert k. induction Hs as [|x l Hl IH Hx]; intros [|k] Ha Hb; try (by apply elem_of_nil in Ha).
  simpl in Ha, Hb. apply elem_of_cons in Ha as [->|Ha]; [|by eapply IH].
  rewrite Forall_forall in Hx. apply Hx. rewrite <- (take_drop k l). apply elem_of_app. by right.
Qed.

Lemma newest_ids_trim n (table : list CRecord) ids :
  NoDup (RecordID <$> table) -> newest_ids (row_of <$> table) n ids ->
  trimmed n table (filter (fun r => not_in ids (row_of r) = false) table).
Proof.
  intros Hnd (sorted & Hp & Hs & ->).
  assert (exists recs, sorted = row_of <$> recs /\ recs ≡ₚ table) as (recs & -> & Hr).
  { apply Permutation_map_inv in Hp as (recs & -> & Hr). by exists recs. }
  set (k := if (n <? 0)%Z then length table else Z.to_nat n).
  assert (Hk : (if (n <? 0)%Z then row_of <$> recs else take (Z.to_nat n) (row_of <$> recs)) = row_of <$> take k recs).
  { unfold k. destruct (n <? 0)%Z; rewrite ?fmap_take; [|done]. rewrite take_ge; [done|]. by rewrite length_fmap, Hr. }
  rewrite Hk. clear Hk.
  assert (Hkept : filter (fun r => not_in ((fun r => cell r "id") <$> (row_of <$> take k recs)) (row_of r) = false) table
    ≡ₚ take k recs).
  { assert (Hnd' : NoDup (RecordID <$> recs)) by (by rewrite Hr).
    rewrite <- Hr. apply Permutation_refl'. etrans; [|exact (filter_ids_take recs k Hnd')]. apply filter_ext_elem.
    intros r _. unfold not_in. rewrite negb_false_iff, bool_decide_eq_true, cell_id, !list_elem_of_fmap.
    split; [intros (x & Hx & (y & -> & Hy)%list_elem_of_fmap)|intros (y & Hx & Hy)].
    - rewrite cell_id in Hx. injection Hx as Hx. eauto.
    - exists (row_of y). rewrite cell_id, Hx. split; [done|by apply list_elem_of_fmap_2]. }
  split.
  - rewrite Hkept, length_take, Hr. unfold k. destruct (n <? 0)%Z; lia.
  - intros a b Ha Hb Hn. rewrite Hkept in Ha, Hn. rewrite <- Hr in Hb.
    rewrite <- (take_drop k recs) in Hb. apply elem_of_app in Hb as [Hb|Hb]; [done|].
    assert (timestamp_of (row_of b) <= timestamp_of (row_of a))%Z as Ht.
    { apply (sorted_take_drop _ k _ _ _ Hs); rewrite <- ?fmap_take, <- ?fmap_drop; by apply list_elem_of_fmap_2. }
    unfold timestamp_of in Ht. by rewrite !cell_ts in Ht.
Qed.

(** The age rule of a policy, then the count rule, as [Sweep] picks them. *)
Definition sweep_keeps (pol : SweeperPolicy) (now : time) (l kept : list CRecord) : Prop :=
  if ((sp_MaxAge pol =? 0) && (sp_MaxCount pol =? 0))%Z then kept = l
  else if (sp_MaxAge pol >? 0)%Z then
    kept = filter (fun r => wrap_i64 (UnixNano now - sp_MaxAge pol) <= UnixNano (RecordTimestamp r))%Z l
  else kept `sublist_of` l /\
    trimmed (sp_MaxCount pol) (requests_of l) (requests_of kept) /\
    trimmed (sp_MaxCount pol) (events_of l) (events_of kept).

Lemma kept_by_requests p e l : requests_of (kept_by p e l) = filter (fun r => p (row_of r) = false) (requests_of l).
Proof. symmetry. apply filter_swap. intros [] Hr; done. Qed.
Lemma kept_by_events p e l : events_of (kept_by p e l) = filter (fun r => e (row_of r) = false) (events_of l).
Proof. symmetry. apply filter_swap. intros [] Hr; done. Qed.

Lemma older_than_row c r : older_than c (row_of r) = (UnixNano (RecordTimestamp r) <? c)%Z.
Proof. unfold older_than, timestamp_of. by rewrite cell_ts. Qed.

Lemma kept_by_age c l :
  kept_by (older_than c) (older_than c) l = filter (fun r => c <= UnixNano (RecordTimestamp r))%Z l.
Proof.
  apply filter_ext_elem. intros r _. destruct (is_request r); rewrite older_than_row; apply Z.ltb_ge.
Qed.

Lemma length_kept p e l :
  (Z.of_nat (length (db_requests (database_of l))) - Z.of_nat (length (filter (fun r => p r = false) (db_requests (database_of l)))) +
   (Z.of_nat (length (db_events (database_of l))) - Z.of_nat (length (filter (fun r => e r = false) (db_events (database_of l)))))
   = Z.of_nat (length l) - Z.of_nat (length (kept_by p e l)))%Z.
Proof.
  pose proof (length_tables l). pose proof (length_tables (kept_by p e l)) as Hk.
  rewrite kept_by_tables in Hk. cbn [db_requests db_events] in Hk. lia.
Qed.

(** Two successful deletes on the tables of [l], as one filter of [l]. *)
Lemma tx_kept p e l db1 n1 db2 n2 :
  db_events db1 = db_events (database_of l) ->
  deletes_where p (db_requests (database_of l)) (db_requests db1) n1 ->
  db_requests db2 = db_requests db1 -> deletes_where e (db_events db1) (db_events db2) n2 ->
  db2 = database_of (kept_by p e l) /\ (n1 + n2)%Z = (Z.of_nat (length l) - Z.of_nat (length (kept_by p e l)))%Z.
Proof.
  intros He [Hr ->] Hr2 [He2 ->]. rewrite He in *. rewrite Hr in *.
  split; [|rewrite He2; apply length_kept]. rewrite kept_by_tables.
  destruct db2 as [r2 e2]. cbn in *. by rewrite Hr2, He2.
Qed.

(** What one delete statement of a table is known to do: it removes the rows
    of some selection [p] with [sel table p]. *)
Definition deleter (E : Engine) (stmt : string) (a : sqlVal) (here other : Database -> list Row)
    (sel : list Row -> (Row -> bool) -> Prop) : Prop :=
  forall db db' n, eng_exec E stmt [a] db = Ok (db', n) ->
    other db' = other db /\ exists p, sel (here db) p /\ deletes_where p (here db) (here db') n.

(** One transaction over the two tables. *)
Lemma run_tx_spec E reqStmt evtStmt a l selr sele :
  (Z.of_nat (length l) < two63)%Z ->
  deleter E reqStmt a db_requests db_events selr -> deleter E evtStmt a db_events db_requests sele ->
  match run_tx E reqStmt evtStmt a (database_of l) with
  | (db, Err _) => db = database_of l
  | (db, Ok n) => exists p e, selr (db_requests (database_of l)) p /\ sele (db_events (database_of l)) e /\
      db = database_of (kept_by p e l) /\ n = (Z.of_nat (length l) - Z.of_nat (length (kept_by p e l)))%Z
  end.
Proof.
  intros Hlen Hreq Hevt. unfold run_tx. destruct (eng_begin _ _); [done|].
  destruct (eng_exec _ _ _ _) as [[db1 n1]|] eqn:E1; [|done].
  destruct (eng_exec E evtStmt _ _) as [[db2 n2]|] eqn:E2; [|done].
  destruct (eng_commit _ _); [done|].
  destruct (Hreq _ _ _ E1) as (He & p & Hp & Hd1). destruct (Hevt _ _ _ E2) as (Hr & e & Hse & Hd2).
  destruct (tx_kept _ _ _ _ _ _ _ He Hd1 Hr Hd2) as [-> Hn]. rewrite He in Hse. exists p, e. split_and!; [done..|].
  pose proof (length_filter (fun r => p r = false) (db_requests (database_of l))).
  pose proof (length_tables l). destruct Hd1 as [-> Hn1].
  pose proof (length_filter (fun r => (if is_request r then p (row_of r) else e (row_of r)) = false) l).
  fold (kept_by p e l) in *. rewrite <- Hn. rewrite !wrap_i64_id; unfold in_i64, two63 in *; try lia.
  rewrite wrap_i64_id; unfold in_i64, two63; lia.
Qed.

Lemma sublist_ids (P : CRecord -> Prop) `{!forall x, Decision (P x)} l :
  NoDup (RecordID <$> l) -> NoDup (RecordID <$> filter P l).
Proof. intros Hnd. eapply sublist_NoDup; [exact Hnd|]. by apply fmap_sublist, sublist_filter. Qed.

(** C14. Sweep is one decision about whole records, or nothing: on the tables
    that hold [l], a sweep that fails at any statement leaves them unchanged;
    one that succeeds leaves exactly the records the policy keeps (all of
    them, those at or past the age cutoff, or the newest of each table) and
    returns how many went. *)
Theorem SQLite_Sweep_spec (E : Engine) pol now l :
  deletes E -> NoDup (RecordID <$> l) -> (Z.of_nat (length l) < two63)%Z ->
  match SQLite_Sweep E pol now (database_of l) with
  | (db, Err _) => db = database_of l
  | (db, Ok n) => exists kept, sweep_keeps pol now l kept /\ db = database_of kept /\
      n = (Z.of_nat (length l) - Z.of_nat (length kept))%Z
  end.
Proof.
  intros HE Hnd Hlen. unfold SQLite_Sweep, sweep_keeps.
  destruct ((sp_MaxAge pol =? 0) && (sp_MaxCount pol =? 0))%Z; [exists l; split_and!; [done..|lia]|].
  destruct (sp_MaxAge pol >? 0)%Z.
  - set (c := wrap_i64 _).
    pose proof (run_tx_spec E deleteOldRequests deleteOldEvents (VInt c) l
      (fun _ p => p = older_than c) (fun _ p => p = older_than c) Hlen) as Htx.
    destruct (run_tx _ _ _ _ _) as [db [n|e]]; [destruct Htx as (p & e & -> & -> & -> & ->)|apply Htx].
    1-2,4-5: intros d d' m Hd.
    1,3: destruct (del_old_requests E HE _ _ _ _ Hd); eauto.
    1,2: destruct (del_old_events E HE _ _ _ _ Hd); eauto.
    exists (kept_by (older_than c) (older_than c) l). split_and!; [apply kept_by_age|done..].
  - set (k := sp_MaxCount pol). set (sel t p := exists ids, newest_ids t k ids /\ p = not_in ids).
    pose proof (run_tx_spec E trimRequests trimEvents (VInt k) l sel sel Hlen) as Htx.
    destruct (run_tx _ _ _ _ _) as [db [n|e]];
      [destruct Htx as (p & e & (ids & Hids & ->) & (ids' & Hids' & ->) & -> & ->)|apply Htx].
    1-2,4-5: intros d d' m Hd.
    1,3: destruct (del_trim_requests E HE _ _ _ _ Hd) as (? & ids & ? & ?); unfold sel; eauto 10.
    1,2: destruct (del_trim_events E HE _ _ _ _ Hd) as (? & ids & ? & ?); unfold sel; eauto 10.
    exists (kept_by (not_in ids) (not_in ids') l). split_and!; [apply sublist_filter| | |done..].
    + rewrite kept_by_requests. apply newest_ids_trim; [by apply sublist_ids|done].
    + rewrite kept_by_events. apply newest_ids_trim; [by apply sublist_ids|done].
Qed.

(** ** An engine *)

Definition newest_first (a b : Row) : bool := (timestamp_of b <? timestamp_of a)%Z.

Definition newest_rows (table : list Row) (n : Z) : list Row :=
  let sorted := SliceStable newest_first table in if (n <? 0)%Z then sorted else take (Z.to_nat n) sorted.

Definition drop_rows (p : Row -> bool) (table : list Row) : list Row * Z :=
  let kept := filter (fun r => p r = false) table in
  (kept, Z.of_nat (length table) - Z.of_nat (length kept))%Z.

Definition on_requests (f : list Row -> list Row * Z) (db : Database) : Database * Z :=
  let '(t, n) := f (db_requests db) in (mkDatabase t (db_events db), n).
Definition on_events (f : list Row -> list Row * Z) (db : Database) : Database * Z :=
  let '(t, n) := f (db_events db) in (mkDatabase (db_requests db) t, n).

(** A fault-free engine over lists, for a given way to answer queries. *)
Definition run_exec (text : string) (vals : list sqlVal) (db : Database) : result string (Database * Z) :=
  let k := match vals with [VInt k] => k | _ => 0%Z end in
  if String.eqb text sqliteInsertRequest then
    match insert_row request_schema vals (db_requests db) with
    | Some t => Ok (mkDatabase t (db_events db), 1%Z) | None => Err "constraint failed" end
  else if String.eqb text sqliteInsertEvent then
    match insert_row event_schema vals (db_events db) with
    | Some t => Ok (mkDatabase (db_requests db) t, 1%Z) | None => Err "constraint failed" end
  else if String.eqb text deleteOldRequests then Ok (on_requests (drop_rows (older_than k)) db)
  else if String.eqb text deleteOldEvents then Ok (on_events (drop_rows (older_than k)) db)
  else if String.eqb text trimRequests then
    Ok (on_requests (fun t => drop_rows (not_in ((fun r => cell r "id") <$> newest_rows t k)) t) db)
  else if String.eqb text trimEvents then
    Ok (on_events (fun t => drop_rows (not_in ((fun r => cell r "id") <$> newest_rows t k)) t) db)
  else Err "no such statement".

Definition list_engine (query : string -> list sqlVal -> Database -> result string (list (list sqlVal))) : Engine :=
  mkEngine run_exec query (fun _ => None) (fun _ => None).

Lemma newest_rows_ids table n : newest_ids table n ((fun r => cell r "id") <$> newest_rows table n).
Proof.
  assert (StrictWeak newest_first) as Hsw.
  { split; unfold newest_first; intros; bool_hyps; try apply Z.ltb_ge; lia. }
  exists (SliceStable newest_first table). split_and!; [apply SliceStable_perm| |done].
  pose proof (SliceStable_sorted newest_first table) as Hs. unfold sorted_by in Hs.
  induction Hs as [|x l _ IH Hx]; constructor; [done|]. eapply Forall_impl; [exact Hx|].
  intros y Hy. unfold newest_first in Hy. simpl in Hy. apply Z.ltb_ge in Hy. lia.
Qed.

Lemma list_engine_inserts query : inserts (list_engine query) /\ inserts_succeed (list_engine query).
Proof.
  split; split; intros vals db; unfold list_engine; cbn [eng_exec]; unfold run_exec.
  1,3: rewrite String.eqb_refl. 3,4: replace (String.eqb sqliteInsertEvent sqliteInsertRequest) with false by reflexivity;
    rewrite String.eqb_refl.
  - intros db' n Hx. destruct (insert_row _ _ _) as [t|]; simplify_eq. eauto.
  - by intros [t ->].
  - intros db' n Hx. destruct (insert_row _ _ _) as [t|]; simplify_eq. eauto.
  - by intros [t ->].
Qed.

Lemma list_engine_deletes query : deletes (list_engine query).
Proof.
  split; intros k db db' n Hx; injection Hx as <- <-; cbn; (split; [done|]).
  - done.
  - done.
  - eexists. split; [apply newest_rows_ids|done].
  - eexists. split; [apply newest_rows_ids|done].
Qed.

(** ** Examples *)

Definition no_query : string -> list sqlVal -> Database -> result string (list (list sqlVal)) :=
  fun _ _ _ => Err "no such statement".

Definition req_at (id corr : string) (ts : time) : CRecord :=
  RRequest (mkCapturedRequest id ts "GET" "/a" None (Some {["Host" := ["h"]]}) [] "" false 0 "" "10.0.0.1" "svc"
    "header" corr "explicit").
Definition resp_at (id corr : string) (ts : time) (status : Z) : CRecord :=
  RResponse (mkResponseEvent id ts corr "explicit" "svc" "explicit" status None "ok" false 2 "text/plain" 7).
Definition out_at (id corr : string) (ts : time) : CRecord :=
  ROutbound (mkOutboundEvent id ts corr "explicit" "svc" "explicit" 3
    (mkOutboundRequestHalf "POST" "/b" (Some {["A" := ["1"; "2"]]}) "x" false 1 "") None).

Definition sample_records : list CRecord :=
  [req_at "r1" "c1" 10%Z; resp_at "e1" "c1" 20%Z 200; req_at "r2" "c2" 30%Z;
   out_at "e2" "c9" 40%Z].

Lemma SQLite_Write_stores_witness :
  SQLite_Write (list_engine no_query) (database_of sample_records) (resp_at "e3" "c2" 50%Z 500) =
    (database_of (sample_records ++ [resp_at "e3" "c2" 50%Z 500]), Ok tt).
Proof.
  destruct (SQLite_Write_stores (list_engine no_query) sample_records (resp_at "e3" "c2" 50%Z 500)
    (proj1 (list_engine_inserts no_query))) as [Hw Hs].
  assert (fresh_id (resp_at "e3" "c2" 50%Z 500) sample_records) as Hf by (repeat constructor; discriminate).
  specialize (Hs (proj2 (list_engine_inserts no_query)) Hf).
  destruct (SQLite_Write _ _ _) as [db res]. cbn [snd] in Hs. subst res. by destruct Hw as [-> _].
Defined.

Lemma SQLite_Sweep_spec_witness :
  (SQLite_Sweep (list_engine no_query) (mkSweeperPolicy 0%Z 1) 100%Z (database_of sample_records)).2 = Ok 2%Z /\
  (SQLite_Sweep (list_engine no_query) (mkSweeperPolicy 75%Z 0) 100%Z (database_of sample_records)).2 = Ok 2%Z /\
  match SQLite_Sweep (list_engine no_query) (mkSweeperPolicy 75%Z 0) 100%Z (database_of sample_records) with
  | (db, Err _) => db = database_of sample_records
  | (db, Ok n) => exists kept, sweep_keeps (mkSweeperPolicy 75%Z 0) 100%Z sample_records kept /\ db = database_of kept /\
      n = (Z.of_nat (length sample_records) - Z.of_nat (length kept))%Z
  end.
Proof.
  split; [vm_compute; reflexivity|]. split; [vm_compute; reflexivity|].
  apply (SQLite_Sweep_spec (list_engine no_query) (mkSweeperPolicy 75%Z 0) 100%Z sample_records).
  - apply list_engine_deletes.
  - apply (bool_decide_unpack _). vm_compute. exact I.
  - vm_compute. reflexivity.
Defined.
