(* ===== verification/SqliteDetailFacts.v ===== *)
(** * Reading single records back from SQLite *)
From S2P Require Import Prelude GoLib Record SearchQL SearchSQL SearchSQLFacts Json JsonFacts Sqlite SqlQuery.
From S2P Require Import MemorySink Inspect MemoryReader AdminInspect SqliteReader SqliteFacts MemoryReaderFacts.

Open Scope string_scope.

(** ** The statements of ReadDetail *)

Definition has_id (v : sqlVal) (r : Row) : bool := sql_true (eq3 (cell r "id") v).
Definition sibling_row (corr id : sqlVal) (r : Row) : bool :=
  (sql_true (eq3 (cell r "correlation_id") corr) && sql_true (not3 (eq3 (cell r "id") id)))%bool.

(** SELECT columns FROM table WHERE ...; the order of the siblings is
    irrelevant, they are sorted once more. *)
Definition select_rows (text : string) (cols : list string) (here : Database -> list Row)
    (keep : list sqlVal -> Row -> bool) : query_stmt := {|
  qs_text := text;
  qs_sem args db rows := rows ≡ₚ project cols <$> filter (fun r => keep args r = true) (here db)
|}.

Definition selectRequest : query_stmt :=
  select_rows sqliteSelectRequest request_columns db_requests (fun args => has_id (arg 0 args)).
Definition selectEvent : query_stmt :=
  select_rows sqliteSelectEventByID event_columns db_events (fun args => has_id (arg 0 args)).
Definition selectRequestsByCorr : query_stmt :=
  select_rows sqliteSelectRequestByCorr request_columns db_requests (fun args => sibling_row (arg 0 args) (arg 1 args)).
Definition selectEventsByCorr : query_stmt :=
  select_rows sqliteSelectEventsByCorr event_columns db_events (fun args => sibling_row (arg 0 args) (arg 1 args)).

Record answers_details (E : Engine) : Prop := {
  ad_request : answers E selectRequest;
  ad_event : answers E selectEvent;
  ad_requests : answers E selectRequestsByCorr;
  ad_events : answers E selectEventsByCorr
}.

(** ** What survives storage *)

(** Valid UTF-8 header text and a timestamp int64 nanoseconds can hold. *)
Definition storable (r : CRecord) : Prop :=
  in_i64 (RecordTimestamp r) /\
  match r with
  | RRequest v => valid_header (cr_Query v) /\ valid_header (cr_Headers v) /\ Forall valid_cookie (cr_Cookies v)
  | RResponse v => valid_header (re_Headers v)
  | ROutbound v => valid_header (oq_Headers (oe_Request v)) /\
      forall p, oe_Response v = Some p -> valid_header (os_Headers p)
  end.

(** Events have no column for where the correlation id came from nor for
    content types; both come back empty. *)
Definition stored (r : CRecord) : CRecord :=
  match r with
  | RRequest _ => r
  | RResponse v => RResponse (mkResponseEvent (re_ID v) (re_Timestamp v) (re_CorrelationID v) "" (re_Service v)
      (re_ServiceSource v) (re_Status v) (re_Headers v) (re_Body v) (re_BodyTruncated v) (re_BodyOriginalSize v) ""
      (re_DurationMS v))
  | ROutbound v =>
      let q := oe_Request v in
      ROutbound (mkOutboundEvent (oe_ID v) (oe_Timestamp v) (oe_CorrelationID v) "" (oe_Service v)
        (oe_ServiceSource v) (oe_DurationMS v)
        (mkOutboundRequestHalf (oq_Method q) (oq_Path q) (oq_Headers q) (oq_Body q) (oq_BodyTruncated q)
           (oq_BodyOriginalSize q) "")
        ((fun p => mkOutboundResponseHalf (os_Status p) (os_Headers p) (os_Body p) (os_BodyTruncated p)
                     (os_BodyOriginalSize p) "") <$> oe_Response v))
  end.

Lemma stored_keys r : RecordID (stored r) = RecordID r /\ RecordTimestamp (stored r) = RecordTimestamp r /\
  RecordCorrelationID (stored r) = RecordCorrelationID r /\ is_request (stored r) = is_request r.
Proof. by destruct r. Qed.

Lemma project_row r : project (columns_of r) (row_of r) = values_of r.
Proof. destruct r as [v|v|v]; [done|done|]. cbn. by destruct (oe_Response v). Qed.

Lemma bool_int_scan b : scan_int (bool_int b) = Ok (if b then 1 else 0)%Z.
Proof. done. Qed.

Lemma event_body_scan s : scan_bytes (bind_event_body s) = s.
Proof. unfold bind_event_body. by destruct (String.eqb_spec s "") as [->|]. Qed.

Lemma print_json_nonempty v : json_ok v = true -> print_json v <> "".
Proof. intros Hv. by destruct (print_head v (json_ok_ints v Hv)) as (c & t & -> & _). Qed.

Lemma scan_headers_back what h : valid_header h -> scan_headers what (VBlob (MarshalHeader h)) = Ok h.
Proof.
  intros Hv. unfold scan_headers. change (scan_bytes (VBlob (MarshalHeader h))) with (MarshalHeader h).
  cbv zeta.
  destruct (String.eqb_spec (MarshalHeader h) "") as [He|_].
  - by apply print_json_nonempty in He; [|apply json_header_ok].
  - by rewrite UnmarshalHeader_Marshal.
Qed.

Lemma if_flag (b : bool) : negb (Z.eqb (if b then 1 else 0) 0) = b.
Proof. by destruct b. Qed.

Lemma scan_request_back v :
  storable (RRequest v) -> scanRequestRow (Some (request_values v)) = Ok v.
Proof.
  intros (Ht & Hq & Hh & Hc). unfold scanRequestRow, request_values.
  rewrite bool_int_scan. cbn -[UnmarshalHeader MarshalHeader UnmarshalCookies MarshalCookies].
  rewrite !UnmarshalHeader_Marshal, UnmarshalCookies_Marshal, if_flag by done. unfold UnixNano, Unix0.
  rewrite wrap_i64_id by done. by destruct v.
Qed.

Lemma scan_event_back r :
  is_request r = false -> storable r -> scanEventRow (Some (values_of r)) = Ok (stored r).
Proof.
  destruct r as [v|v|v]; [done|intros _ (Ht & Hh)|intros _ (Ht & Hq & Hp)]; unfold scanEventRow, values_of.
  - unfold response_values. cbn -[scan_headers MarshalHeader bind_event_body scan_bytes].
    rewrite scan_headers_back by done. rewrite event_body_scan. unfold UnixNano, Unix0. cbn in Ht.
    rewrite wrap_i64_id by done. do 4 f_equal. by destruct (re_BodyTruncated v).
  - unfold outbound_values. destruct (oe_Response v) as [p|] eqn:Ep;
      cbn -[scan_headers MarshalHeader bind_event_body scan_bytes]; rewrite !scan_headers_back by auto;
      rewrite !event_body_scan, Ep; unfold UnixNano, Unix0; cbn in Ht; rewrite wrap_i64_id by done;
      cbn; unfold flag_of; by rewrite ?if_flag.
Qed.

(** ** ReadDetail *)

Lemma filter_fmap_rows (keep : Row -> bool) (P : CRecord -> bool) (l : list CRecord) :
  (forall r, keep (row_of r) = P r) ->
  filter (fun r => keep r = true) (row_of <$> l) = row_of <$> filter (fun r => P r = true) l.
Proof. intros HP. rewrite filter_fmap. f_equal. apply filter_ext_elem. intros r _. by rewrite HP. Qed.

Lemma has_id_row id r : has_id (VText id) (row_of r) = String.eqb (RecordID r) id.
Proof. unfold has_id. rewrite cell_id, eq3_text. unfold sql_true. by destruct (String.eqb _ _). Qed.

Definition sibling_of (corr id : string) (r : CRecord) : bool :=
  (String.eqb (RecordCorrelationID r) corr && negb (String.eqb (RecordID r) id))%bool.

Lemma sibling_row_of corr id r : sibling_row (VText corr) (VText id) (row_of r) = sibling_of corr id r.
Proof.
  unfold sibling_row, sibling_of. rewrite cell_id, cell_corr, !eq3_text. unfold sql_true, not3.
  by destruct (String.eqb _ corr), (String.eqb _ id).
Qed.

(** The rows a select on one table returns are the values of the records it
    selects, in some order. *)
Lemma select_records E text cols here keep (P : CRecord -> bool) (table : list CRecord) args l rows :
  answers E (select_rows text cols here keep) ->
  eng_query E text args (database_of l) = Ok rows ->
  here (database_of l) = row_of <$> table -> (forall r, r ∈ table -> columns_of r = cols) ->
  (forall r, keep args (row_of r) = P r) ->
  exists recs, rows = values_of <$> recs /\ recs ≡ₚ filter (fun r => P r = true) table.
Proof.
  intros Ha Hq Hhere Hcols HP. apply Ha in Hq. cbn in Hq. rewrite Hhere, (filter_fmap_rows _ P) in Hq by done.
  rewrite <- list_fmap_compose in Hq.
  assert (Hv : project cols ∘ row_of <$> filter (fun r => P r = true) table = values_of <$> filter (fun r => P r = true) table).
  { apply list_fmap_ext. intros i r Hr. cbn. rewrite <- project_row, (Hcols r); [done|].
    apply list_elem_of_lookup_2, list_elem_of_filter in Hr. by destruct Hr. }
  rewrite Hv in Hq. apply Permutation_map_inv in Hq as (recs & -> & Hp). by exists recs.
Qed.

Lemma requests_columns l r : r ∈ requests_of l -> columns_of r = request_columns.
Proof. intros [Hr _]%list_elem_of_filter. unfold columns_of. by rewrite Hr. Qed.
Lemma events_columns l r : r ∈ events_of l -> columns_of r = event_columns.
Proof. intros [Hr _]%list_elem_of_filter. unfold columns_of. by rewrite Hr. Qed.

Definition engine_failed (E : Engine) (db : Database) : Prop :=
  exists stmt args e, eng_query E stmt args db = Err e.

Section Detail.
Context (E : Engine) (HE : answers_details E) (l : list CRecord) (Hst : Forall storable l).

Lemma storable_in r : r ∈ l -> storable r.
Proof. rewrite Forall_forall in Hst. apply Hst. Qed.

Lemma sqliteLoadRequest_spec id :
  match sqliteLoadRequest E (database_of l) id with
  | Ok cr => RRequest cr ∈ l /\ cr_ID cr = id
  | Err ErrNotFound => forall r, r ∈ requests_of l -> RecordID r <> id
  | Err (ErrBackend _) => engine_failed E (database_of l)
  | Err ReadPanic => False
  end.
Proof.
  unfold sqliteLoadRequest, query_row. destruct (eng_query _ _ _ _) as [rows|e] eqn:Eq; [|by eexists _, _, _].
  eapply (select_records _ _ _ _ _ (fun r => String.eqb (RecordID r) id) (requests_of l)) in Eq
    as (recs & -> & Hp); [|apply (ad_request E HE)|done|apply requests_columns|apply has_id_row].
  destruct recs as [|r recs]; cbn [fmap list_fmap head].
  - intros r Hr Hid. apply Permutation_nil_l in Hp.
    assert (r ∈ @nil CRecord) as []%elem_of_nil. rewrite Hp. apply list_elem_of_filter. by rewrite Hid, String.eqb_refl.
  - assert (r ∈ r :: recs) as Hin by left. rewrite Hp in Hin.
    apply list_elem_of_filter in Hin as [Hid%String.eqb_eq [Hk Hr]%list_elem_of_filter].
    destruct r as [v|v|v]; [|done..]. cbn [values_of]. rewrite scan_request_back by (by apply storable_in). done.
Qed.

Lemma sqliteLoadEvent_spec id :
  match sqliteLoadEvent E (database_of l) id with
  | Ok ev => exists r, r ∈ events_of l /\ RecordID r = id /\ ev = stored r
  | Err ErrNotFound => forall r, r ∈ events_of l -> RecordID r <> id
  | Err (ErrBackend _) => engine_failed E (database_of l)
  | Err ReadPanic => False
  end.
Proof.
  unfold sqliteLoadEvent, query_row. destruct (eng_query _ _ _ _) as [rows|e] eqn:Eq; [|by eexists _, _, _].
  eapply (select_records _ _ _ _ _ (fun r => String.eqb (RecordID r) id) (events_of l)) in Eq
    as (recs & -> & Hp); [|apply (ad_event E HE)|done|apply events_columns|apply has_id_row].
  destruct recs as [|r recs]; cbn [fmap list_fmap head].
  - intros r Hr Hid. apply Permutation_nil_l in Hp.
    assert (r ∈ @nil CRecord) as []%elem_of_nil. rewrite Hp. apply list_elem_of_filter. by rewrite Hid, String.eqb_refl.
  - assert (r ∈ r :: recs) as Hin by left. rewrite Hp in Hin.
    apply list_elem_of_filter in Hin as [Hid%String.eqb_eq Hr]. pose proof Hr as [Hk Hl]%list_elem_of_filter.
    rewrite scan_event_back by (done || by apply storable_in). eauto.
Qed.

Lemma scan_siblings_back {A} what (scan : option (list sqlVal) -> result ReadError A) (f : A -> CRecord) recs :
  (forall r, r ∈ recs -> exists a, scan (Some (values_of r)) = Ok a /\ f a = stored r) ->
  exists as_, scan_siblings what scan (values_of <$> recs) = Ok as_ /\ f <$> as_ = stored <$> recs.
Proof.
  induction recs as [|r recs IH]; intros Hr; [by exists []|]. rewrite !fmap_cons. cbn [scan_siblings].
  destruct (Hr r) as (a & -> & Ha); [left|]. destruct IH as (as_ & Hs & Hf); [intros; apply Hr; by right|].
  rewrite Hs. exists (a :: as_). split; [done|]. by rewrite fmap_cons, Ha, Hf.
Qed.

(** What a detail holds next to its root: every other record of the
    correlation id, oldest first. *)
Definition siblings_in (l : list CRecord) (corr id : string) : list CRecord :=
  filter (fun r => sibling_of corr id r = true) l.

Lemma split_tables (P : CRecord -> bool) :
  (filter (fun r => P r = true) (requests_of l) ++ filter (fun r => P r = true) (events_of l))%list
    ≡ₚ filter (fun r => P r = true) l.
Proof.
  unfold requests_of, events_of.
  rewrite (filter_swap _ _ (fun r => P r = true)), (filter_swap (fun r => is_request r = false) _ (fun r => P r = true)) by done.
  set (k := filter (fun r => P r = true) l). rewrite <- (filter_app_complement (fun r => is_request r = true) k) at 3.
  apply Permutation_app_head, Permutation_refl', filter_ext_elem. intros r _. by destruct (is_request r).
Qed.

Lemma sqliteFetchSiblings_spec id corr :
  match sqliteFetchSiblings E (database_of l) id corr with
  | Ok sibs => sibs ≡ₚ stored <$> siblings_in l corr id /\ sorted_by record_less sibs
  | Err (ErrBackend _) => engine_failed E (database_of l)
  | Err _ => False
  end.
Proof.
  unfold sqliteFetchSiblings.
  destruct (eng_query E sqliteSelectRequestByCorr _ _) as [rrows|e] eqn:Er; [|by eexists _, _, _].
  eapply (select_records _ _ _ _ _ (sibling_of corr id) (requests_of l)) in Er as (rs & -> & Hrs);
    [|apply (ad_requests E HE)|done|apply requests_columns|apply sibling_row_of].
  destruct (scan_siblings_back "sqlite sibling request scan: " scanRequestRow RRequest rs) as (crs & -> & Hcrs).
  { intros r Hr. rewrite Hrs in Hr. apply list_elem_of_filter in Hr as [_ [Hk Hr]%list_elem_of_filter].
    destruct r as [v|v|v]; [|done..]. exists v. cbn. split; [|done]. apply scan_request_back. by apply storable_in. }
  destruct (eng_query E sqliteSelectEventsByCorr _ _) as [erows|e] eqn:Ee; [|by eexists _, _, _].
  eapply (select_records _ _ _ _ _ (sibling_of corr id) (events_of l)) in Ee as (es & -> & Hes);
    [|apply (ad_events E HE)|done|apply events_columns|apply sibling_row_of].
  destruct (scan_siblings_back "sqlite sibling event scan: " scanEventRow (fun r => r) es) as (evs & -> & Hevs).
  { intros r Hr. rewrite Hes in Hr. apply list_elem_of_filter in Hr as [_ [Hk Hr]%list_elem_of_filter].
    exists (stored r). split; [|done]. apply scan_event_back; [done|by apply storable_in]. }
  rewrite list_fmap_id in Hevs. subst evs. change (map RRequest crs) with (RRequest <$> crs). rewrite Hcrs, <- fmap_app. split.
  - rewrite SliceStable_perm. unfold siblings_in. rewrite <- split_tables. by rewrite Hrs, Hes.
  - apply SliceStable_sorted, record_less_strict_weak.
Qed.

Lemma ReadDetail_back id :
  match SQLite_ReadDetail E (database_of l) id with
  | Ok d => exists r, r ∈ l /\ RecordID r = id /\ dr_Root d = stored r /\
      dr_Events d ≡ₚ stored <$> siblings_in l (RecordCorrelationID r) id /\ sorted_by record_less (dr_Events d)
  | Err ErrNotFound => forall r, r ∈ l -> RecordID r <> id
  | Err (ErrBackend _) => engine_failed E (database_of l)
  | Err ReadPanic => False
  end.
Proof.
  unfold SQLite_ReadDetail.
  assert (Hroot : match sqliteFindRoot E (database_of l) id with
    | Ok (root, corr) => exists r, r ∈ l /\ RecordID r = id /\ root = stored r /\ corr = RecordCorrelationID r
    | Err ErrNotFound => forall r, r ∈ l -> RecordID r <> id
    | Err (ErrBackend _) => engine_failed E (database_of l)
    | Err ReadPanic => False
    end).
  { unfold sqliteFindRoot. pose proof (sqliteLoadRequest_spec id) as Hr.
    destruct (sqliteLoadRequest _ _ _) as [cr|[]]; [| |done..].
    - destruct Hr as [Hin Hid]. by exists (RRequest cr).
    - pose proof (sqliteLoadEvent_spec id) as He. destruct (sqliteLoadEvent _ _ _) as [ev|[]]; [|clear Hst|done..].
      + destruct He as (r & [_ Hin]%list_elem_of_filter & Hid & ->). exists r.
        by destruct (stored_keys r) as (_ & _ & -> & _).
      + intros r Hin. destruct (is_request r) eqn:Ek; [apply Hr|apply He]; by apply list_elem_of_filter. }
  destruct (sqliteFindRoot _ _ _) as [[root corr]|e]; [|by destruct e].
  destruct Hroot as (r & Hin & Hid & -> & ->).
  pose proof (sqliteFetchSiblings_spec id (RecordCorrelationID r)) as Hs.
  destruct (sqliteFetchSiblings _ _ _ _) as [sibs|[]]; [|done..]. destruct Hs as [Hp Hso]. by exists r.
Qed.

(** C13. Write then read back: from the tables that hold the records [l], with
    distinct ids, valid header text and representable timestamps, ReadDetail of
    an id returns the one record with that id and, oldest first, every other record
    of its correlation id, each exactly as written except for the columns
    events do not have; it reports not-found only for ids in neither table, and
    fails otherwise only when the engine does. *)
Theorem SQLite_ReadDetail_spec id :
  NoDup (RecordID <$> l) ->
  match SQLite_ReadDetail E (database_of l) id with
  | Ok d => exists r, r ∈ l /\ RecordID r = id /\ (forall r', r' ∈ l -> RecordID r' = id -> r' = r) /\
      dr_Root d = stored r /\
      dr_Events d ≡ₚ stored <$> siblings_in l (RecordCorrelationID r) id /\ sorted_by record_less (dr_Events d)
  | Err ErrNotFound => forall r, r ∈ l -> RecordID r <> id
  | Err (ErrBackend _) => engine_failed E (database_of l)
  | Err ReadPanic => False
  end.
Proof.
  intros Hnd. pose proof (ReadDetail_back id) as Hb. destruct (SQLite_ReadDetail _ _ _) as [d|[]]; [|done..].
  destruct Hb as (r & Hr & Hid & Hd). exists r. split; [done|]. split; [done|]. split; [|done].
  intros r' Hr' Hid'. eapply same_record; [done..|]. congruence.
Qed.
End Detail.

(** ** Example *)

Definition run_details (text : string) (args : list sqlVal) (db : Database) : result string (list (list sqlVal)) :=
  let go cols rows keep := Ok (project cols <$> filter (fun r => keep r = true) rows) in
  if String.eqb text sqliteSelectRequest then go request_columns (db_requests db) (has_id (arg 0 args))
  else if String.eqb text sqliteSelectEventByID then go event_columns (db_events db) (has_id (arg 0 args))
  else if String.eqb text sqliteSelectRequestByCorr
       then go request_columns (db_requests db) (sibling_row (arg 0 args) (arg 1 args))
  else if String.eqb text sqliteSelectEventsByCorr
       then go event_columns (db_events db) (sibling_row (arg 0 args) (arg 1 args))
  else Err "no such statement".

Lemma run_details_answers : answers_details (list_engine run_details).
Proof. split; intros args db rows Hq; injection Hq as <-; cbn; reflexivity. Qed.

Lemma sample_storable : Forall storable sample_records.
Proof.
  assert (valid_header None) by done.
  assert (Hh : valid_header (Some {["Host" := ["h"]]}) /\ valid_header (Some {["A" := ["1"; "2"]]})).
  { split; intros m [= <-]; apply map_Forall_singleton; by repeat constructor. }
  destruct Hh. unfold sample_records, storable, in_i64, two63.
  repeat (apply Forall_cons_2); [..|apply Forall_nil_2]; cbn; (split; [lia|]); split_and?; try done;
    try apply Forall_nil_2.
Qed.

Lemma SQLite_ReadDetail_spec_witness :
  match SQLite_ReadDetail (list_engine run_details) (database_of sample_records) "e1" with
  | Ok d => dr_Root d = stored (resp_at "e1" "c1" 20%Z 200) /\
      dr_Events d = [req_at "r1" "c1" 10%Z]
  | Err _ => False
  end /\
  exists r, r ∈ sample_records /\ RecordID r = "e1" /\
    match SQLite_ReadDetail (list_engine run_details) (database_of sample_records) "e1" with
    | Ok d => dr_Root d = stored r
    | Err _ => False
    end.
Proof.
  assert (Hc : match SQLite_ReadDetail (list_engine run_details) (database_of sample_records) "e1" with
    | Ok d => dr_Root d = stored (resp_at "e1" "c1" 20%Z 200) /\ dr_Events d = [req_at "r1" "c1" 10%Z]
    | Err _ => False end) by (vm_compute; split; reflexivity).
  split; [exact Hc|].
  assert (NoDup (RecordID <$> sample_records)) as Hnd by (apply (bool_decide_unpack _); vm_compute; exact I).
  pose proof (SQLite_ReadDetail_spec (list_engine run_details) run_details_answers sample_records sample_storable "e1" Hnd)
    as Hd.
  destruct (SQLite_ReadDetail _ _ _) as [d|]; [|done].
  destruct Hd as (r & Hr & Hid & _ & Hroot & _). by exists r.
Defined.
