(* ===== verification/SqliteRootsSpec.v ===== *)
(** * What the SQLite reader lists, said on records

    The statement text is the rendering of its syntax, its arguments match its
    placeholders, and each clause evaluates to a plain condition on the stored
    records. *)
From S2P Require Import Prelude GoLib Record SearchQL Predicate SearchSQL SearchSQLFacts Json JsonFacts Sqlite SqlQuery.
From S2P Require Import MemorySink Inspect MemoryReader AdminInspect SqliteReader SqliteFacts.

Open Scope string_scope.

(** ** Text and arguments of the compiled clauses *)

Definition term_args (compile : Term -> fragment) (ts : list Term) : list sqlArg :=
  concat (map (fun t => (compile t).2) ts).

Lemma Join_nonempty (l : list string) sep : Forall (fun s => s <> "") l -> l <> [] -> Join l sep <> "".
Proof.
  destruct l as [|s [|s' l]]; [done| |]; intros Hf _; apply Forall_cons in Hf as [Hs _]; [done|].
  destruct s; [done|]. done.
Qed.

Lemma renders_join compile ast ts :
  renders compile ast ->
  join_clauses (map compile ts) = (group_text (omap ast ts), term_args compile ts) /\
  (group_text (omap ast ts) = "" <-> omap ast ts = []) /\
  (omap ast ts = [] -> term_args compile ts = []) /\
  length (term_args compile ts) = clauses_arity (omap ast ts).
Proof.
  intros Hr. unfold join_clauses, group_text.
  assert (Hk : map fst (filter (fun f : fragment => f.1 <> "") (map compile ts)) = map render_clause (omap ast ts) /\
    concat (map snd (filter (fun f : fragment => f.1 <> "") (map compile ts))) = term_args compile ts /\
    Forall (fun s => s <> "") (map render_clause (omap ast ts)) /\
    length (term_args compile ts) = clauses_arity (omap ast ts)).
  { induction ts as [|t ts (IH1 & IH2 & IH3 & IH4)]; [done|]. specialize (Hr t). unfold term_args in *.
    cbn [map concat omap list_omap]. rewrite filter_cons. destruct (ast t) as [cl|].
    - destruct Hr as (Ht & Hne & Har & _).
      assert (Hf : (compile t).1 = render_clause cl) by (by rewrite Ht).
      rewrite decide_True by (by rewrite Hf). cbn [map concat clauses_arity]. rewrite Hf, length_app, Har. split_and!.
      + f_equal. exact IH1.
      + f_equal. exact IH2.
      + by constructor.
      + unfold clauses_arity in *. cbn. f_equal. exact IH4.
    - rewrite Hr. rewrite decide_False by (intros Hx; by apply Hx). done. }
  destruct Hk as (Hk1 & Hk2 & Hk3 & Hk4). split_and!.
  - destruct (filter _ _) as [|f fs]; [|by rewrite Hk1, Hk2].
    rewrite <- Hk2, <- Hk1. done.
  - split; [|by intros ->]. intros He. destruct (omap ast ts) as [|cl cls] eqn:Eo; [done|].
    by apply Join_nonempty in He.
  - intros He. apply length_zero_iff_nil. by rewrite Hk4, He.
  - done.
Qed.

(** ** Conjunctions *)

Section Conj.
Context `{SqlText} `{SqlJson} (db : Database).

Lemma and3_true a b : and3 a b = Some true <-> a = Some true /\ b = Some true.
Proof. destruct a as [[]|], b as [[]|]; naive_solver. Qed.

Lemma selected_nil env args : selected db env [] args = true.
Proof. done. Qed.

Lemma selected_cons env cl cls args :
  selected db env (cl :: cls) args =
  (sql_true (eval_clause db env cl (take (clause_arity cl) args)) &&
   selected db env cls (drop (clause_arity cl) args))%bool.
Proof.
  unfold selected, sql_true. cbn [eval_clauses]. apply eq_true_iff_eq.
  rewrite andb_true_iff, !bool_decide_eq_true. apply and3_true.
Qed.

Lemma selected_app env cls1 cls2 a1 a2 :
  length a1 = clauses_arity cls1 ->
  selected db env (cls1 ++ cls2) (a1 ++ a2) = (selected db env cls1 a1 && selected db env cls2 a2)%bool.
Proof.
  revert a1. induction cls1 as [|cl cls1 IH]; intros a1 Ha.
  - apply length_zero_iff_nil in Ha. by subst.
  - unfold clauses_arity in *. cbn in Ha. cbn [app]. rewrite !selected_cons.
    rewrite take_app_le, drop_app_le by lia. rewrite IH by (rewrite length_drop; lia). by rewrite andb_assoc.
Qed.

(** The clauses of a term list, one condition per term. *)
Lemma selected_terms env compile ast ts :
  renders compile ast ->
  selected db env (omap ast ts) (map bind_arg (term_args compile ts)) =
  forallb (fun t => match ast t with
                    | None => true
                    | Some cl => sql_true (eval_clause db env cl (map bind_arg (compile t).2))
                    end) ts.
Proof.
  intros Hr. induction ts as [|t ts IH]; [done|]. unfold term_args in *. cbn [map concat omap list_omap forallb].
  specialize (Hr t). destruct (ast t) as [cl|] eqn:Ea.
  - destruct Hr as (_ & _ & Har & _). rewrite map_app.
    change (cl :: omap ast ts) with ([cl] ++ omap ast ts)%list. rewrite selected_app.
    + rewrite IH, selected_cons. rewrite selected_nil, andb_true_r. by rewrite take_ge by (rewrite length_map, Har; done).
    + rewrite length_map, Har. unfold clauses_arity. cbn. lia.
  - rewrite Hr. exact IH.
Qed.
End Conj.

(** ** The arms *)

(** The cursor and window conditions on the nanosecond column. *)
Definition past_nanos (cursor : option Cursor) (ts : Z) (id : string) : bool :=
  match cursor with
  | None => true
  | Some c => (ts <? UnixNano (cur_Timestamp c))%Z ||
              ((ts =? UnixNano (cur_Timestamp c))%Z && str_ltb id (cur_ID c))
  end.

Definition window_nanos (q : InspectQuery) (ts : Z) : bool :=
  match iq_Since q with Some t => (UnixNano t <=? ts)%Z | None => true end &&
  match iq_Until q with Some t => (ts <? UnixNano t)%Z | None => true end.

Definition arm_alias (a : string) : Prop := a = "cr" \/ a = "e".

Section Arms.
Context `{SqlText} `{SqlJson} (db : Database).

Lemma eq3_int a b : eq3 (VInt a) (VInt b) = Some (Z.eqb a b).
Proof. simpl. f_equal. case_bool_decide; destruct (Z.eqb_spec a b); congruence. Qed.

Lemma sql_true_some b : sql_true (Some b) = b.
Proof. by destruct b. Qed.

Lemma clauses_arity_app c1 c2 : clauses_arity (c1 ++ c2) = clauses_arity c1 + clauses_arity c2.
Proof. unfold clauses_arity. induction c1 as [|c c1 IH]; [done|]. cbn in *. lia. Qed.

(** What an arm needs of its compiled terms. *)
Record compiled_as (compiled : fragment) (cls : list clause) : Prop := {
  ca_text : compiled.1 = group_text cls;
  ca_empty : group_text cls = "" <-> cls = [];
  ca_args : length compiled.2 = clauses_arity cls
}.

Lemma arm_where_text a compiled cls q cursor :
  arm_alias a -> compiled_as compiled cls ->
  map fst (arm_where a compiled q cursor) = map group_text (arm_groups a cls q cursor).
Proof.
  intros Ha [Ht He Hl]. unfold arm_where, arm_groups. rewrite !map_app. f_equal; [|f_equal; [|f_equal]].
  - destruct Ha as [-> | ->]; by destruct cursor.
  - destruct (iq_Since q); [|done]. destruct Ha as [-> | ->]; done.
  - destruct (iq_Until q); [|done]. destruct Ha as [-> | ->]; done.
  - rewrite Ht. destruct (String.eqb_spec (group_text cls) "") as [E|E].
    + by apply He in E as ->.
    + destruct cls; [by destruct E|]. cbn. by rewrite Ht.
Qed.

Lemma arm_where_arity a compiled cls q cursor :
  compiled_as compiled cls ->
  length (fragment_args (arm_where a compiled q cursor)) = clauses_arity (concat (arm_groups a cls q cursor)).
Proof.
  intros [Ht He Hl]. unfold fragment_args, arm_where, arm_groups.
  rewrite !map_app, !concat_app, !length_app, !clauses_arity_app. f_equal; [|f_equal; [|f_equal]].
  - by destruct cursor.
  - by destruct (iq_Since q).
  - by destruct (iq_Until q).
  - rewrite Ht. destruct (String.eqb_spec (group_text cls) "") as [E|E].
    + by apply He in E as ->.
    + destruct cls; [by destruct E|]. cbn [map concat]. by rewrite !app_nil_r.
Qed.

Lemma selected_one env cl args :
  length args = clause_arity cl -> selected db env [cl] args = sql_true (eval_clause db env cl args).
Proof. intros Ha. by rewrite selected_cons, selected_nil, andb_true_r, take_ge by lia. Qed.

(** The first three groups of an arm are the cursor and the window. *)
Lemma arm_selected env a ts id compiled cls q cursor :
  arm_alias a -> compiled_as compiled cls ->
  lookup_env env (a +:+ ".timestamp") = VInt ts -> lookup_env env (a +:+ ".id") = VText id ->
  selected db env (concat (arm_groups a cls q cursor)) (map bind_arg (fragment_args (arm_where a compiled q cursor))) =
  (past_nanos cursor ts id && window_nanos q ts && selected db env cls (map bind_arg compiled.2))%bool.
Proof.
  intros Ha [Ht He Hl] Hts Hid. unfold fragment_args, arm_where, arm_groups, past_nanos, window_nanos.
  rewrite !map_app, !concat_app, !map_app. rewrite !selected_app;
    [|by destruct (iq_Until q)|by destruct (iq_Since q)|by destruct cursor].
  rewrite <- !andb_assoc. f_equal; [|f_equal; [|f_equal]].
  - destruct cursor as [c|]; [|done]. cbn -[selected]. rewrite selected_one by done. unfold cursor_clause. cbn -[lookup_env].
    rewrite Hts, Hid, eq3_int. cbn. by destruct (ts <? _)%Z, (ts =? _)%Z, (str_ltb _ _).
  - destruct (iq_Since q) as [t|]; [|done]. cbn -[selected]. rewrite selected_one by done. cbn -[lookup_env].
    rewrite Hts. cbn. by rewrite sql_true_some, Z.leb_antisym.
  - destruct (iq_Until q) as [t|]; [|done]. cbn -[selected]. rewrite selected_one by done. cbn -[lookup_env].
    rewrite Hts. cbn. by rewrite sql_true_some.
  - rewrite Ht. destruct (String.eqb_spec (group_text cls) "") as [E|E].
    + apply He in E as ->. unfold clauses_arity in Hl. cbn in Hl. apply length_zero_iff_nil in Hl. by rewrite Hl.
    + destruct cls; [by destruct E|]. cbn [map concat]. by rewrite !app_nil_r.
Qed.
End Arms.

(** ** The whole statement *)

Section Build.
Context `{Unicode}.

Lemma compiled_join compile ast ts :
  renders compile ast -> compiled_as (join_clauses (map compile ts)) (omap ast ts).
Proof. intros Hr. destruct (renders_join compile ast ts Hr) as (-> & He & _ & Hl). by split. Qed.

Definition roots_vals (q : InspectQuery) (cursor : option Cursor) : list sqlVal :=
  map bind_arg (buildRootsUnionSQL q cursor).2.

Definition where_vals (q : InspectQuery) (cursor : option Cursor) : list sqlVal :=
  map bind_arg (fragment_args (arm_where "cr" (CompileSQL (iq_Query q)) q cursor)).
Definition having_vals (q : InspectQuery) : list sqlVal := map bind_arg (CompileSQLHaving (iq_Query q)).2.
Definition orphan_vals (q : InspectQuery) (cursor : option Cursor) : list sqlVal :=
  map bind_arg (fragment_args (arm_where "e" (CompileSQLOrphans (iq_Query q)) q cursor)).

Lemma where_vals_length q cursor : length (where_vals q cursor) = where_arity (roots_ast q cursor).
Proof.
  unfold where_vals. rewrite length_map. apply arm_where_arity, compiled_join, term_renders.
Qed.

Lemma having_vals_length q cursor : length (having_vals q) = having_arity (roots_ast q cursor).
Proof.
  unfold having_vals. rewrite length_map.
  apply (ca_args _ _ (compiled_join _ _ (q_Terms (iq_Query q)) having_renders)).
Qed.

Lemma build_eq q cursor :
  (buildRootsUnionSQL q cursor).1 = roots_text (roots_ast q cursor) /\
  roots_vals q cursor = (where_vals q cursor ++ having_vals q ++
    if HasRequestOnlyFilter q then [] else orphan_vals q cursor)%list.
Proof.
  pose proof (compiled_join _ _ (q_Terms (iq_Query q)) term_renders) as Hc.
  pose proof (compiled_join _ _ (q_Terms (iq_Query q)) having_renders) as Hh.
  pose proof (compiled_join _ _ (q_Terms (iq_Query q)) orphan_renders) as Ho.
  fold (CompileSQL (iq_Query q)) in Hc. fold (CompileSQLHaving (iq_Query q)) in Hh.
  fold (CompileSQLOrphans (iq_Query q)) in Ho.
  pose proof (arm_where_text "cr" _ _ q cursor (or_introl eq_refl) Hc) as Hwt.
  pose proof (arm_where_text "e" _ _ q cursor (or_intror eq_refl) Ho) as Hot.
  unfold roots_vals, where_vals, having_vals, orphan_vals, buildRootsUnionSQL.
  destruct Hh as [Hht Hhe _]. destruct (CompileSQLHaving (iq_Query q)) as [havingSQL havingArgs]. cbn [fst snd] in *.
  assert (Hwhere : (match arm_where "cr" (CompileSQL (iq_Query q)) q cursor with [] => ""
      | _ => nl +:+ "WHERE " +:+ Join (map fst (arm_where "cr" (CompileSQL (iq_Query q)) q cursor)) (nl +:+ "  AND ") end)
    = match rs_where (roots_ast q cursor) with [] => "" | gs => nl +:+ "WHERE " +:+ groups_text gs end).
  { rewrite Hwt. unfold groups_text. cbn [rs_where roots_ast].
    destruct (arm_where "cr" _ _ _), (arm_groups "cr" _ _ _); try done. }
  assert (Horph : (match arm_where "e" (CompileSQLOrphans (iq_Query q)) q cursor with [] => ""
      | _ => "  AND " +:+ Join (map fst (arm_where "e" (CompileSQLOrphans (iq_Query q)) q cursor)) (nl +:+ "  AND ") end)
    = match arm_groups "e" (omap orphan_clause (q_Terms (iq_Query q))) q cursor with [] => ""
      | gs => "  AND " +:+ groups_text gs end).
  { rewrite Hot. unfold groups_text. destruct (arm_where "e" _ _ _), (arm_groups "e" _ _ _); try done. }
  rewrite Hwhere, Horph.
  assert (Hhav : (if String.eqb havingSQL "" then "" else nl +:+ "HAVING " +:+ havingSQL) =
    match rs_having (roots_ast q cursor) with [] => "" | g => nl +:+ "HAVING " +:+ group_text g end).
  { cbn [rs_having roots_ast]. rewrite Hht. destruct (String.eqb_spec (group_text (omap having_clause (q_Terms (iq_Query q)))) "") as [E|E].
    - by apply Hhe in E as ->.
    - destruct (omap having_clause _); [by destruct E|done]. }
  rewrite Hhav. unfold roots_text. cbn [rs_orphans roots_ast].
  destruct (HasRequestOnlyFilter q); cbn [fst snd]; split.
  - by rewrite str_app_nil_r.
  - by rewrite map_app, app_nil_r.
  - rewrite !str_app_assoc. destruct (arm_groups "e" _ _ _); done.
  - by rewrite !map_app, app_assoc.
Qed.
End Build.
