(* ===== verification/SqliteTerms.v ===== *)
(** * Search terms against stored records

    What each search term means for the SQLite reader, as a condition on the
    records in the tables, and that the compiled clause evaluates to it. A
    captured request's columns are never NULL, so its conditions have two
    values; the maximum status of a request without a response, and the header
    columns an event lacks, are NULL, which no sign makes true. *)
From S2P Require Import Prelude GoLib Record SearchQL Predicate SearchSQL SearchSQLFacts Json JsonFacts Sqlite SqlQuery.
From S2P Require Import MemorySink Inspect MemoryReader AdminInspect SqliteReader SqliteFacts SqliteRootsSpec.

Open Scope string_scope.

(** Header text is valid UTF-8. *)
Definition storable_headers (r : CRecord) : Prop :=
  match r with
  | RRequest v => valid_header (cr_Headers v)
  | RResponse v => valid_header (re_Headers v)
  | ROutbound v => valid_header (oq_Headers (oe_Request v)) /\
      forall p, oe_Response v = Some p -> valid_header (os_Headers p)
  end.

(** ** Columns of events; [None] is NULL *)

Definition body_column (s : string) : option string := if String.eqb s "" then None else Some s.

Definition ev_request_path (e : CRecord) : option string :=
  match e with ROutbound v => Some (oq_Path (oe_Request v)) | _ => None end.
Definition ev_request_headers (e : CRecord) : option (option header) :=
  match e with ROutbound v => Some (oq_Headers (oe_Request v)) | _ => None end.
Definition ev_request_body (e : CRecord) : option string :=
  match e with ROutbound v => body_column (oq_Body (oe_Request v)) | _ => None end.
Definition ev_response_headers (e : CRecord) : option (option header) :=
  match e with
  | RResponse v => Some (re_Headers v)
  | ROutbound v => os_Headers <$> oe_Response v
  | RRequest _ => None
  end.
Definition ev_response_body (e : CRecord) : option string :=
  match e with
  | RResponse v => body_column (re_Body v)
  | ROutbound v => p ← oe_Response v; body_column (os_Body p)
  | RRequest _ => None
  end.
Definition event_status (e : CRecord) : option Z := match e with RResponse v => Some (re_Status v) | _ => None end.

Definition holds {A} (f : A -> bool) (o : option A) : bool := match o with Some a => f a | None => false end.

(** ** Meaning of a term *)

Section Meaning.
Context `{Unicode}.

(** The folded substring search: SQLite lowers ASCII letters only. *)
Definition scan_text (t : Term) (s : string) : bool := Contains (str_map lower_byte s) (ToLower (t_Value t)).

(** [headers:] scans the stored JSON text, names, values and punctuation alike. *)
Definition scan_header_text (t : Term) (h : option header) : bool := scan_text t (MarshalHeader h).

(** [header.Name:] looks at the values stored under exactly that name. *)
Definition scan_header_values (t : Term) (h : option header) : bool :=
  existsb (scan_text t) (default [] (headers_of h !! t_HeaderName t)).

Definition event_free (t : Term) (e : CRecord) : bool :=
  holds (fun s => matchString s t) (ev_request_path e) || holds (scan_text t) (ev_request_body e) ||
  holds (scan_header_text t) (ev_request_headers e) || holds (scan_text t) (ev_response_body e) ||
  holds (scan_header_text t) (ev_response_headers e).

Definition correlated_with (corr : string) (e : CRecord) : bool := String.eqb (RecordCorrelationID e) corr.

(** Some event of the request's correlation id satisfies [f]. *)
Definition some_event (l : list CRecord) (v : CapturedRequest) (f : CRecord -> bool) : bool :=
  existsb (fun e => correlated_with (cr_CorrelationID v) e && f e) (events_of l).

Definition request_holds (l : list CRecord) (t : Term) (v : CapturedRequest) : bool :=
  match t_Field t with
  | FieldFree =>
      matchString (hostOf v) t || matchString (cr_Path v) t || matchString (cr_Service v) t ||
      scan_text t (cr_Body v) || scan_header_text t (cr_Headers v) || some_event l v (event_free t)
  | FieldHost => matchString (hostOf v) t
  | FieldPath => matchString (cr_Path v) t
  | FieldService => matchString (cr_Service v) t
  | FieldBody => scan_text t (cr_Body v)
  | FieldHeaders =>
      scan_header_text t (cr_Headers v) ||
      some_event l v (fun e => holds (scan_header_text t) (ev_request_headers e) ||
                               holds (scan_header_text t) (ev_response_headers e))
  | FieldHeader =>
      scan_header_values t (cr_Headers v) ||
      some_event l v (fun e => holds (scan_header_values t) (ev_request_headers e) ||
                               holds (scan_header_values t) (ev_response_headers e))
  | FieldMethod => String.eqb (cr_Method v) (t_Value t)
  | FieldSourceIP => String.eqb (cr_SourceIP v) (t_Value t)
  | FieldCorrelationID => String.eqb (cr_CorrelationID v) (t_Value t)
  | FieldStatus | FieldHasEvents => true
  end.

(** A term with its sign; the two fields of the HAVING clause pass here. *)
Definition request_term (l : list CRecord) (t : Term) (v : CapturedRequest) : bool :=
  match t_Field t with
  | FieldStatus | FieldHasEvents => true
  | _ => xorb (t_Negated t) (request_holds l t v)
  end.

Definition status_test (sf : StatusFilter) (z : Z) : bool :=
  if Z.eqb (sf_Exact sf) 0 then let '(lo, hi) := ClassRange sf in (lo <=? z)%Z && (z <=? hi)%Z
  else Z.eqb z (sf_Exact sf).

(** The HAVING clause sees the number of correlated events and the highest
    response status; without a response the status is NULL and no status
    condition holds, negated or not. *)
Definition having_term (t : Term) (count : nat) (status : option Z) : bool :=
  match t_Field t, t_StatusFilter t, t_HasEvents t with
  | FieldStatus, Some sf, _ => holds (fun z => xorb (t_Negated t) (status_test sf z)) status
  | FieldHasEvents, _, Some b => xorb (t_Negated t) (Bool.eqb b (0 <? count)%nat)
  | _, _, _ => true
  end.

(** An event's term, three-valued. *)
Definition orphan_holds (t : Term) (e : CRecord) : option bool :=
  match t_Field t with
  | FieldService => Some (matchString (RecordService e) t)
  | FieldCorrelationID => Some (String.eqb (RecordCorrelationID e) (t_Value t))
  | FieldHeaders => or3 (scan_header_text t <$> ev_request_headers e) (scan_header_text t <$> ev_response_headers e)
  | FieldHeader => Some (holds (scan_header_values t) (ev_request_headers e) ||
                         holds (scan_header_values t) (ev_response_headers e))
  | FieldStatus =>
      match t_StatusFilter t with
      | None => Some true
      | Some sf => Some (holds (status_test sf) (event_status e))
      end
  | FieldFree =>
      Some (matchString (RecordService e) t || holds (fun s => matchString s t) (ev_request_path e) ||
            holds (scan_text t) (ev_request_body e) || holds (scan_header_text t) (ev_request_headers e) ||
            holds (scan_text t) (ev_response_body e) || holds (scan_header_text t) (ev_response_headers e))
  | _ => Some true
  end.

Definition orphan_term (t : Term) (e : CRecord) : bool :=
  match orphan_clause t with
  | None => true
  | Some _ => sql_true (if t_Negated t then not3 (orphan_holds t e) else orphan_holds t e)
  end.
End Meaning.

(** ** Evaluation *)

Section Eval.
Context `{SqlText} `{SqlJson} `{Unicode}.

Lemma scan_like t s : sql_like (likeNeedle t) (sql_lower s) = scan_text t s.
Proof. unfold likeNeedle. by rewrite like_substring, lower_ascii. Qed.

Definition col_val (o : option string) : sqlVal := match o with Some s => VText s | None => VNull end.

(** An indexed condition on a text column. *)
Lemma eval_indexed_text db env x t s :
  lookup_env env x = VText s ->
  eval db env (indexed_cond x t) [bind_arg (indexedPredicate x t).2] = Some (matchString s t).
Proof.
  intros Hx. unfold indexed_cond, indexedPredicate, matchString.
  destruct (t_Wildcard t); cbn [eval fst snd bind_arg]; rewrite Hx.
  - apply eq3_text.
  - unfold text_arg, arg. cbn -[sql_like escapeLike]. by rewrite like_prefix.
  - unfold text_arg, arg. cbn -[sql_like escapeLike]. by rewrite <- like_substring.
Qed.

Lemma eval_indexed_null db env x t :
  lookup_env env x = VNull -> eval db env (indexed_cond x t) [bind_arg (indexedPredicate x t).2] = None.
Proof.
  intros Hx. unfold indexed_cond, indexedPredicate.
  by destruct (t_Wildcard t); cbn [eval fst snd bind_arg]; rewrite Hx.
Qed.

Definition needle (t : Term) : sqlVal := VText (likeNeedle t).

Lemma eval_scan db env x t :
  eval db env (CScan x) [needle t] = scan_text t <$> as_text (lookup_env env x).
Proof.
  cbn [eval]. unfold text_arg, arg, needle. cbn [lookup list_lookup default from_option id].
  destruct (as_text (lookup_env env x)); [|done]. cbn [fmap option_fmap option_map]. by rewrite scan_like.
Qed.

Definition json_path (t : Term) : sqlVal := VText (jsonHeaderPath (t_HeaderName t)).

Lemma eval_json db env x t h :
  plain_name t -> t_Field t = FieldHeader -> valid_header h -> lookup_env env x = VBlob (MarshalHeader h) ->
  eval db env (CJson x) [json_path t; needle t] = Some (scan_header_values t h).
Proof.
  intros Hp Hf Hv Hx. cbn [eval]. rewrite Hx. unfold text_arg, arg, json_path, needle.
  cbn [lookup list_lookup default from_option id as_text]. rewrite json_each_header by auto. f_equal.
  unfold scan_header_values. induction (default [] (headers_of h !! t_HeaderName t)) as [|v vs IH]; [done|].
  cbn [existsb]. by rewrite scan_like, IH.
Qed.

Lemma eval_json_null db env x t :
  lookup_env env x = VNull -> eval db env (CJson x) [json_path t; needle t] = Some false.
Proof. intros Hx. cbn [eval]. by rewrite Hx. Qed.

(** ** Columns through an alias *)

Lemma eqb_app_l p a b : String.eqb (p +:+ a) (p +:+ b) = String.eqb a b.
Proof. induction p as [|c p IH]; [done|]. cbn. by rewrite Ascii.eqb_refl. Qed.

Lemma cell_alias a (r rest : Row) c :
  c ∈ r.*1 -> cell (alias a r ++ rest) (a +:+ "." +:+ c) = cell r c.
Proof.
  induction r as [|[k v] r IH]; intros Hc; [by apply elem_of_nil in Hc|].
  cbn [alias map app cell fst]. rewrite !eqb_app_l.
  change (String.eqb ("." +:+ k) ("." +:+ c)) with (String.eqb k c).
  destruct (String.eqb_spec k c) as [|Hne]; [done|]. apply IH.
  rewrite fmap_cons in Hc. apply elem_of_cons in Hc as [Hc|Hc]; [by destruct Hne|done].
Qed.

Lemma row_keys r : (row_of r).*1 = columns_of r.
Proof. destruct r as [v|v|v]; [done|done|]. cbn. by destruct (oe_Response v). Qed.

Definition hdr_val (o : option (option header)) : sqlVal :=
  match o with Some h => VBlob (MarshalHeader h) | None => VNull end.
Definition blob_val (o : option string) : sqlVal := match o with Some s => VBlob s | None => VNull end.
Definition int_val (o : option Z) : sqlVal := match o with Some z => VInt z | None => VNull end.

(** What the columns of an event hold, however they are addressed. *)
Record event_view (look : string -> sqlVal) (e : CRecord) : Prop := {
  ew_id : look "id" = VText (RecordID e);
  ew_ts : look "timestamp" = VInt (UnixNano (RecordTimestamp e));
  ew_corr : look "correlation_id" = VText (RecordCorrelationID e);
  ew_service : look "service" = VText (RecordService e);
  ew_type : look "type" = VText (match event_status e with Some _ => "response" | None => "outbound" end);
  ew_status : look "status" = int_val (event_status e);
  ew_path : look "request_path" = col_val (ev_request_path e);
  ew_rqh : look "request_headers" = hdr_val (ev_request_headers e);
  ew_rqb : look "request_body" = blob_val (ev_request_body e);
  ew_rsh : look "response_headers" = hdr_val (ev_response_headers e);
  ew_rsb : look "response_body" = blob_val (ev_response_body e)
}.

Lemma bind_body_val s : bind_event_body s = blob_val (body_column s).
Proof. unfold bind_event_body, body_column. by destruct (String.eqb s ""). Qed.

Lemma event_view_row e : is_request e = false -> event_view (cell (row_of e)) e.
Proof.
  destruct e as [v|v|v]; [done|intros _|intros _].
  - split; try reflexivity. cbn. apply bind_body_val.
  - destruct v as [? ? ? ? ? ? ? q [p|]]; split; try reflexivity; cbn; apply bind_body_val.
Qed.

Lemma event_view_alias a e rest :
  is_request e = false -> event_view (fun c => lookup_env (alias a (row_of e) ++ rest) (a +:+ "." +:+ c)) e.
Proof.
  intros He. destruct (event_view_row e He). unfold lookup_env.
  assert (Hk : (row_of e).*1 = event_columns) by (rewrite row_keys; unfold columns_of; by rewrite He).
  split; rewrite cell_alias; try done; rewrite Hk; apply (bool_decide_unpack _); vm_compute; exact I.
Qed.

Lemma as_text_hdr o : as_text (hdr_val o) = MarshalHeader <$> o.
Proof. by destruct o. Qed.
Lemma as_text_blob o : as_text (blob_val o) = o.
Proof. by destruct o. Qed.

Lemma sql_true_fmap {A} (f : A -> bool) o : sql_true (f <$> o) = holds f o.
Proof. destruct o as [a|]; [apply sql_true_some|done]. Qed.

Lemma sql_true_or3 a b : sql_true (or3 a b) = (sql_true a || sql_true b)%bool.
Proof. destruct a as [[]|], b as [[]|]; done. Qed.

Lemma sql_true_scan_hdr db env x t o :
  lookup_env env x = hdr_val o -> sql_true (eval db env (CScan x) [needle t]) = holds (scan_header_text t) o.
Proof. intros Hx. rewrite eval_scan, Hx, as_text_hdr, <- option_fmap_compose. apply sql_true_fmap. Qed.

Lemma sql_true_scan_blob db env x t o :
  lookup_env env x = blob_val o -> sql_true (eval db env (CScan x) [needle t]) = holds (scan_text t) o.
Proof. intros Hx. rewrite eval_scan, Hx, as_text_blob. apply sql_true_fmap. Qed.

Lemma sql_true_indexed db env x t o :
  lookup_env env x = col_val o ->
  sql_true (eval db env (indexed_cond x t) [bind_arg (indexedPredicate x t).2]) = holds (fun s => matchString s t) o.
Proof.
  intros Hx. destruct o as [s|].
  - rewrite (eval_indexed_text _ _ _ _ s) by done. apply sql_true_some.
  - by rewrite eval_indexed_null.
Qed.

Lemma sql_true_json db env x t o :
  plain_name t -> t_Field t = FieldHeader -> (forall h, o = Some h -> valid_header h) ->
  lookup_env env x = hdr_val o ->
  sql_true (eval db env (CJson x) [json_path t; needle t]) = holds (scan_header_values t) o.
Proof.
  intros Hp Hf Hv Hx. destruct o as [h|].
  - rewrite (eval_json _ _ _ _ h) by auto. apply sql_true_some.
  - by rewrite eval_json_null.
Qed.

Lemma json_value db env x t o :
  plain_name t -> t_Field t = FieldHeader -> (forall h, o = Some h -> valid_header h) ->
  lookup_env env x = hdr_val o -> eval db env (CJson x) [json_path t; needle t] = Some (holds (scan_header_values t) o).
Proof.
  intros Hp Hf Hv Hx. destruct o as [h|]; [by rewrite (eval_json _ _ _ _ h) by auto|by rewrite eval_json_null].
Qed.

Lemma scan_value db env x t o :
  lookup_env env x = hdr_val o -> eval db env (CScan x) [needle t] = scan_header_text t <$> o.
Proof. intros Hx. by rewrite eval_scan, Hx, as_text_hdr, <- option_fmap_compose. Qed.

Lemma arity_indexed x t : arity (indexed_cond x t) = 1.
Proof. unfold indexed_cond. by destruct (t_Wildcard t). Qed.

(** Placeholders are filled left to right. *)
Lemma sql_true_or db env a b args args1 args2 :
  args = (args1 ++ args2)%list -> length args1 = arity a ->
  sql_true (eval db env (COr a b) args) =
  (sql_true (eval db env a args1) || sql_true (eval db env b args2))%bool.
Proof. intros -> Ha. cbn [eval]. rewrite take_app_length', drop_app_length' by done. apply sql_true_or3. Qed.

End Eval.

(** ** A term's clause on a captured request *)

Section RequestTerms.
Context `{SqlText} `{SqlJson} `{Unicode} (l : list CRecord).
Hypothesis Hnd : NoDup (RecordID <$> l).
Hypothesis Hvalid : Forall storable_headers l.

Abbreviation db := (database_of l).

(** The environment of the request arm: the request's columns first. *)
Definition req_env (v : CapturedRequest) (rest : Row) : Row := (alias "cr" (row_of (RRequest v)) ++ rest)%list.

Lemma events_of_in e : e ∈ events_of l <-> is_request e = false /\ e ∈ l.
Proof. unfold events_of. by rewrite list_elem_of_filter. Qed.

Lemma same_request v w : RRequest v ∈ l -> RRequest w ∈ l -> cr_ID v = cr_ID w -> v = w.
Proof. intros Hv Hw Hid. assert (RRequest v = RRequest w) by (by eapply same_record). congruence. Qed.

Lemma existsb_fmap {A B} (g : A -> B) (f : B -> bool) (k : list A) : existsb f (g <$> k) = existsb (fun x => f (g x)) k.
Proof. induction k as [|x k IH]; [done|]. cbn. by rewrite <- IH. Qed.

Lemma existsb_ext_in {A} (f g : A -> bool) (k : list A) :
  (forall x, x ∈ k -> f x = g x) -> existsb f k = existsb g k.
Proof.
  induction k as [|x k IH]; intros Hfg; [done|]. cbn. rewrite (Hfg x), IH; [done|..]; intros; try apply Hfg; by (left || right).
Qed.

(** EXISTS over the events of the request's correlation id. *)
Lemma exists_clause v rest a args f :
  (forall e, is_request e = false -> e ∈ l ->
     sql_true (eval db (alias "e_h" (row_of e) ++ req_env v rest) a args) = f e) ->
  eval db (req_env v rest) (CExists a) args = Some (some_event l v f).
Proof.
  intros Hf. cbn [eval]. f_equal. unfold some_event. cbn [db_events database_of]. rewrite existsb_fmap.
  apply existsb_ext_in. intros e [He Hl]%events_of_in. rewrite <- (Hf e He Hl). f_equal.
  rewrite cell_corr. change (lookup_env (req_env v rest) "cr.correlation_id") with (VText (cr_CorrelationID v)).
  rewrite eq3_text. apply sql_true_some.
Qed.

(** An arm over captured_requests selects the request's own id exactly when
    the condition holds on its row. *)
Lemma request_arm_in v c args :
  RRequest v ∈ l ->
  bool_decide (VText (cr_ID v) ∈ arm_ids db FromRequests c args) = sql_true (eval db (row_of (RRequest v)) c args).
Proof.
  intros Hv. apply bool_decide_ext. unfold arm_ids, source_rows. cbn [db_requests database_of].
  rewrite list_elem_of_fmap. setoid_rewrite list_elem_of_filter. setoid_rewrite list_elem_of_fmap.
  setoid_rewrite list_elem_of_fmap. split.
  - intros ([row i] & Hi & Hev & (rw & Hrow & (r & -> & Hr))). simplify_eq. cbn [fst snd] in *.
    apply list_elem_of_filter in Hr as [Hk Hr]. destruct r as [w|w|w]; [|done..].
    rewrite cell_id in Hi. injection Hi as Hi. by rewrite (same_request v w).
  - intros Hev. exists (row_of (RRequest v), VText (cr_ID v)). split; [done|]. split; [done|].
    exists (row_of (RRequest v)). split; [by rewrite cell_id|]. exists (RRequest v). split; [done|].
    by apply list_elem_of_filter.
Qed.

Lemma correlated_arm_in v c args f :
  RRequest v ∈ l ->
  (forall e, is_request e = false -> e ∈ l ->
     sql_true (eval db (alias "e_ff" (row_of e) ++ alias "cr_ff" (row_of (RRequest v))) c args) = f e) ->
  bool_decide (VText (cr_ID v) ∈ arm_ids db FromCorrelated c args) = some_event l v f.
Proof.
  intros Hv Hf. apply eq_true_iff_eq. rewrite bool_decide_eq_true. unfold some_event.
  rewrite existsb_true_iff. unfold arm_ids, source_rows. cbn [db_requests db_events database_of].
  rewrite list_elem_of_fmap. setoid_rewrite list_elem_of_filter. split.
  - intros ([row i] & Hi & Hev & Hin). cbn [fst snd] in *. apply list_elem_of_bind in Hin as (rr & Hin & Hrr).
    apply list_elem_of_fmap in Hrr as (r & -> & Hr). apply list_elem_of_filter in Hr as [Hk Hr].
    destruct r as [w|w|w]; [|done..]. apply list_elem_of_fmap in Hin as (er & Hx & Her).
    assert (i = VText (cr_ID w) /\ row = (alias "e_ff" er ++ alias "cr_ff" (row_of (RRequest w)))%list) as [-> ->]
      by (by injection Hx).
    apply list_elem_of_filter in Her as [Hc Her]. apply list_elem_of_fmap in Her as (e & -> & He).
    injection Hi as Hi. assert (v = w) as -> by (by apply same_request).
    rewrite !cell_corr, eq3_text in Hc. injection Hc as Hc. exists e. split; [by apply events_of_in|].
    apply events_of_in in He as [Hk' Hl']. rewrite <- (Hf e Hk' Hl'). unfold correlated_with. rewrite Hc. cbn.
    by apply bool_decide_eq_true.
  - intros (e & [Hk Hl] & [Hc Hfe]%andb_true_iff). assert (He : e ∈ events_of l) by (by apply events_of_in).
    exists ((alias "e_ff" (row_of e) ++ alias "cr_ff" (row_of (RRequest v)))%list, VText (cr_ID v)).
    rewrite <- (Hf e Hk Hl) in Hfe. apply bool_decide_eq_true in Hfe. split; [done|]. split; [done|].
    apply list_elem_of_bind. exists (row_of (RRequest v)). split.
    + apply list_elem_of_fmap. exists (row_of e). split; [by rewrite cell_id|]. apply list_elem_of_filter.
      split; [|by apply list_elem_of_fmap_2]. rewrite !cell_corr, eq3_text. f_equal. exact Hc.
    + apply list_elem_of_fmap_2, list_elem_of_filter. done.
Qed.
(** ** The clauses *)

Definition indexed_arg (t : Term) : sqlVal := bind_arg (indexedPredicate "" t).2.

Lemma indexed_arg_eq x t : bind_arg (indexedPredicate x t).2 = indexed_arg t.
Proof. unfold indexed_arg, indexedPredicate. by destruct (t_Wildcard t). Qed.

Lemma term_vals t : map bind_arg (compileTermSQL t).2 =
  match t_Field t with
  | FieldFree => [indexed_arg t; indexed_arg t; indexed_arg t; needle t; needle t; indexed_arg t;
                  needle t; needle t; needle t; needle t]
  | FieldHost | FieldPath | FieldService => [indexed_arg t]
  | FieldBody => [needle t]
  | FieldHeaders => [needle t; needle t; needle t]
  | FieldHeader => [json_path t; needle t; json_path t; needle t; json_path t; needle t]
  | FieldMethod | FieldSourceIP | FieldCorrelationID => [VText (t_Value t)]
  | FieldStatus | FieldHasEvents => []
  end.
Proof.
  unfold compileTermSQL, freeformPredicate, indexedPredicate, indexed_arg, indexedPredicate.
  by destruct (t_Field t), (t_Wildcard t).
Qed.

Lemma sign_eval env t cl args b :
  eval_clause db env cl args = Some b -> sql_true (eval_clause db env (sign t cl) args) = xorb (t_Negated t) b.
Proof.
  intros Hb. unfold sign. destruct (t_Negated t); cbn [eval_clause]; rewrite Hb; by destruct b.
Qed.

Lemma headers_valid e : is_request e = false -> e ∈ l ->
  (forall h, ev_request_headers e = Some h -> valid_header h) /\
  (forall h, ev_response_headers e = Some h -> valid_header h).
Proof.
  intros He Hl. rewrite Forall_forall in Hvalid. specialize (Hvalid e Hl). destruct e as [v|v|v]; [done|..]; cbn in *.
  - split; [done|]. by intros h [= <-].
  - destruct Hvalid as [Hq Hp]. split; [by intros h [= <-]|]. intros h Hh.
    destruct (oe_Response v) as [p|]; [|done]. injection Hh as <-. auto.
Qed.

Lemma existsb_or_in (x : sqlVal) (a b : list sqlVal) :
  bool_decide (x ∈ (a ++ b)%list) = (bool_decide (x ∈ a) || bool_decide (x ∈ b))%bool.
Proof. apply eq_true_iff_eq. rewrite orb_true_iff, !bool_decide_eq_true. apply elem_of_app. Qed.

Lemma free_event_eval v e t :
  is_request e = false ->
  sql_true (eval db (alias "e_ff" (row_of e) ++ alias "cr_ff" (row_of (RRequest v)))
    (or_all (indexed_cond "e_ff.request_path" t)
       [CScan "e_ff.request_body"; CScan "e_ff.request_headers"; CScan "e_ff.response_body"; CScan "e_ff.response_headers"])
    [indexed_arg t; needle t; needle t; needle t; needle t]) = event_free t e.
Proof.
  intros He. destruct (event_view_alias "e_ff" e (alias "cr_ff" (row_of (RRequest v))) He). cbn [or_all foldl].
  pose proof (arity_indexed "e_ff.request_path" t) as Ha.
  rewrite (sql_true_or _ _ _ _ [indexed_arg t; needle t; needle t; needle t; needle t] [indexed_arg t; needle t; needle t; needle t] [needle t] eq_refl) by (cbn; by rewrite Ha).
  rewrite (sql_true_or _ _ _ _ [indexed_arg t; needle t; needle t; needle t] [indexed_arg t; needle t; needle t] [needle t] eq_refl) by (cbn; by rewrite Ha).
  rewrite (sql_true_or _ _ _ _ [indexed_arg t; needle t; needle t] [indexed_arg t; needle t] [needle t] eq_refl) by (cbn; by rewrite Ha).
  rewrite (sql_true_or _ _ _ _ [indexed_arg t; needle t] [indexed_arg t] [needle t] eq_refl) by (by rewrite Ha).
  rewrite <- (indexed_arg_eq "e_ff.request_path" t), (sql_true_indexed _ _ _ _ (ev_request_path e)) by done.
  by rewrite (sql_true_scan_blob _ _ _ _ (ev_request_body e)), (sql_true_scan_hdr _ _ _ _ (ev_request_headers e)),
    (sql_true_scan_blob _ _ _ _ (ev_response_body e)), (sql_true_scan_hdr _ _ _ _ (ev_response_headers e)) by done.
Qed.

(** The union of a free term's arms. *)
Lemma free_eval v rest t :
  RRequest v ∈ l ->
  t_Field t = FieldFree ->
  eval_clause db (req_env v rest) (InUnion "cr.id"
        [(FromRequests, indexed_cond "host" t); (FromRequests, indexed_cond "path" t);
         (FromRequests, indexed_cond "service" t); (FromRequests, CScan "body"); (FromRequests, CScan "headers");
         (FromCorrelated, or_all (indexed_cond "e_ff.request_path" t)
            [CScan "e_ff.request_body"; CScan "e_ff.request_headers";
             CScan "e_ff.response_body"; CScan "e_ff.response_headers"])])
    [indexed_arg t; indexed_arg t; indexed_arg t; needle t; needle t; indexed_arg t; needle t; needle t; needle t; needle t]
  = Some (request_holds l t v).
Proof.
  intros Hv Hf. cbn [eval_clause]. change (lookup_env (req_env v rest) "cr.id") with (VText (cr_ID v)). cbv iota. f_equal.
  unfold request_holds. rewrite Hf.
  cbn [arms_ids]. rewrite !arity_indexed. cbn [arity take drop or_all foldl]. rewrite !arity_indexed. cbn [Nat.add take drop].
  rewrite !existsb_or_in, !request_arm_in by done.
  rewrite (correlated_arm_in v _ _ (event_free t)) by (done || intros e He _; by apply free_event_eval).
  rewrite (bool_decide_eq_false_2 (_ ∈ [])) by (by intros ?%elem_of_nil). rewrite orb_false_r.
  rewrite <- (indexed_arg_eq "host" t) at 1. rewrite (sql_true_indexed _ _ "host" _ (Some (hostOf v))) by done.
  rewrite <- (indexed_arg_eq "path" t) at 1. rewrite (sql_true_indexed _ _ "path" _ (Some (cr_Path v))) by done.
  rewrite <- (indexed_arg_eq "service" t) at 1. rewrite (sql_true_indexed _ _ "service" _ (Some (cr_Service v))) by done.
  rewrite (sql_true_scan_blob _ _ "body" _ (Some (cr_Body v))) by done.
  rewrite (sql_true_scan_hdr _ _ "headers" _ (Some (cr_Headers v))) by done.
  cbn [holds]. by rewrite !orb_assoc.
Qed.
Lemma or_eval env a b args1 args2 x y :
  length args1 = arity a -> eval db env a args1 = Some x -> eval db env b args2 = Some y ->
  eval db env (COr a b) (args1 ++ args2) = Some (x || y)%bool.
Proof.
  intros Ha Hx Hy. cbn [eval]. rewrite take_app_length', drop_app_length', Hx, Hy by done. by destruct x, y.
Qed.

Lemma request_indexed v rest x t s :
  lookup_env (req_env v rest) x = VText s ->
  eval_clause db (req_env v rest) (Plain (indexed_cond x t)) [indexed_arg t] = Some (matchString s t).
Proof. intros Hx. rewrite <- (indexed_arg_eq x t). by apply eval_indexed_text. Qed.

(** On a captured request the positive clause has two values. *)
Lemma request_clause_value v rest t :
  RRequest v ∈ l -> plain_name t ->
  match term_clause t with
  | None => request_term l t v = true
  | Some cl => exists cl0, cl = sign t cl0 /\
      eval_clause db (req_env v rest) cl0 (map bind_arg (compileTermSQL t).2) = Some (request_holds l t v) /\
      request_term l t v = xorb (t_Negated t) (request_holds l t v)
  end.
Proof.
  intros Hv Hp. rewrite term_vals. unfold term_clause, request_term.
  destruct (t_Field t) eqn:Ef; cbn [fmap option_fmap option_map]; try done; (eexists; split; [reflexivity|]; split; [|done]).
  - by apply free_eval.
  - unfold request_holds. rewrite Ef. by apply request_indexed.
  - unfold request_holds. rewrite Ef. by apply request_indexed.
  - unfold request_holds. rewrite Ef. by apply request_indexed.
  - unfold request_holds. rewrite Ef. cbn [eval_clause]. by rewrite eval_scan.
  - unfold request_holds. rewrite Ef. apply (or_eval _ (CScan "cr.headers") _ [needle t] [needle t; needle t]); [done|by rewrite eval_scan|].
    apply exists_clause. intros e He Hl. destruct (event_view_alias "e_h" e (req_env v rest) He).
    rewrite (sql_true_or _ _ _ _ [needle t; needle t] [needle t] [needle t] eq_refl) by done.
    by rewrite (sql_true_scan_hdr _ _ _ _ (ev_request_headers e)), (sql_true_scan_hdr _ _ _ _ (ev_response_headers e)) by done.
  - unfold request_holds. rewrite Ef.
    apply (or_eval _ (CJson "cr.headers") _ [json_path t; needle t] [json_path t; needle t; json_path t; needle t]); [done| |].
    { apply eval_json; [done|done| |done]. rewrite Forall_forall in Hvalid. by apply (Hvalid (RRequest v)). }
    apply exists_clause. intros e He Hl. destruct (event_view_alias "e_h" e (req_env v rest) He).
    destruct (headers_valid e He Hl) as [Hq Hr].
    rewrite (sql_true_or _ _ _ _ [json_path t; needle t; json_path t; needle t] [json_path t; needle t] [json_path t; needle t] eq_refl) by done.
    by rewrite (sql_true_json _ _ _ _ (ev_request_headers e)), (sql_true_json _ _ _ _ (ev_response_headers e)) by done.
  - unfold request_holds. rewrite Ef. cbn [eval_clause eval]. apply eq3_text.
  - unfold request_holds. rewrite Ef. cbn [eval_clause eval]. apply eq3_text.
  - unfold request_holds. rewrite Ef. cbn [eval_clause eval]. apply eq3_text.
Qed.

Lemma request_terms_selected v rest q :
  RRequest v ∈ l -> plain_names q ->
  selected db (req_env v rest) (omap term_clause (q_Terms q)) (map bind_arg (CompileSQL q).2) =
  forallb (fun t => request_term l t v) (q_Terms q).
Proof.
  intros Hv Hp. unfold CompileSQL. destruct (renders_join _ _ (q_Terms q) term_renders) as (-> & _). cbn [snd].
  rewrite (selected_terms _ _ _ _ _ term_renders). unfold plain_names in Hp.
  induction Hp as [|t ts Ht _ IH]; [done|]. cbn [forallb]. rewrite IH. f_equal.
  pose proof (request_clause_value v rest t Hv Ht) as Hc. destruct (term_clause t) as [cl|]; [|done].
  destruct Hc as (cl0 & -> & Hev & ->). by apply sign_eval.
Qed.
End RequestTerms.

(** ** HAVING *)

Section HavingTerms.
Context `{SqlText} `{SqlJson} `{Unicode} (db : Database).

Lemma status_eval env x sf o (Hx : lookup_env env x = int_val o) :
  eval db env (if Z.eqb (sf_Exact sf) 0 then CBetween x else CEq x)
    (map bind_arg (if Z.eqb (sf_Exact sf) 0 then let '(lo, hi) := ClassRange sf in [ArgInt lo; ArgInt hi]
                   else [ArgInt (sf_Exact sf)])) = status_test sf <$> o.
Proof.
  unfold status_test. destruct (Z.eqb (sf_Exact sf) 0).
  - destruct (ClassRange sf) as [lo hi]. cbn -[lookup_env]. rewrite Hx. destruct o as [z|]; [|done]. cbn.
    rewrite !Z.ltb_antisym, !negb_involutive. by destruct (lo <=? z)%Z, (z <=? hi)%Z.
  - cbn [eval map bind_arg]. rewrite Hx. destruct o as [z|]; [|done]. apply eq3_int.
Qed.

Lemma having_vals_term t : map bind_arg (compileHavingTerm t).2 =
  match t_Field t, t_StatusFilter t with
  | FieldStatus, Some sf =>
      map bind_arg (if Z.eqb (sf_Exact sf) 0 then let '(lo, hi) := ClassRange sf in [ArgInt lo; ArgInt hi]
                    else [ArgInt (sf_Exact sf)])
  | _, _ => []
  end.
Proof.
  unfold compileHavingTerm. destruct (t_Field t), (t_StatusFilter t) as [sf|], (t_HasEvents t); try done;
    destruct (Z.eqb (sf_Exact sf) 0), (ClassRange sf); done.
Qed.

Lemma sign_holds env t cl args (o : option bool) :
  eval_clause db env cl args = o ->
  sql_true (eval_clause db env (sign t cl) args) = holds (xorb (t_Negated t)) o.
Proof.
  intros Ho. unfold sign. destruct (t_Negated t); cbn [eval_clause]; rewrite Ho; by destruct o as [[]|].
Qed.

Lemma having_terms_selected env q count status :
  lookup_env env "COUNT(e.id)" = VInt (Z.of_nat count) -> lookup_env env max_status = int_val status ->
  selected db env (omap having_clause (q_Terms q)) (map bind_arg (CompileSQLHaving q).2) =
  forallb (fun t => having_term t count status) (q_Terms q).
Proof.
  intros Hc Hs. unfold CompileSQLHaving. destruct (renders_join _ _ (q_Terms q) having_renders) as (-> & _). cbn [snd].
  rewrite (selected_terms _ _ _ _ _ having_renders). induction (q_Terms q) as [|t ts IH]; [done|].
  cbn [forallb]. rewrite IH. f_equal. rewrite having_vals_term. unfold having_clause, having_term.
  destruct (t_Field t); try (by destruct (t_StatusFilter t), (t_HasEvents t)).
  - destruct (t_StatusFilter t) as [sf|]; [|by destruct (t_HasEvents t)].
    rewrite (sign_holds _ _ _ _ (status_test sf <$> status)); [by destruct status|].
    cbn [eval_clause]. by apply status_eval.
  - destruct (t_HasEvents t) as [b|]; [|by destruct (t_StatusFilter t)].
    transitivity (holds (xorb (t_Negated t)) (Some (Bool.eqb b (0 <? count)%nat))); [|by destruct (t_StatusFilter t)].
    apply sign_holds. destruct b; cbn [eval_clause eval]; rewrite Hc; cbn [int3]; f_equal; destruct count; done.
Qed.
End HavingTerms.

(** ** A term's clause on an orphan event *)

Section OrphanTerms.
Context `{SqlText} `{SqlJson} `{Unicode} (l : list CRecord).
Hypothesis Hnd : NoDup (RecordID <$> l).
Hypothesis Hvalid : Forall storable_headers l.

Lemma orphan_vals_term t : map bind_arg (compileOrphanTerm t).2 =
  match t_Field t with
  | FieldService => [indexed_arg t]
  | FieldCorrelationID => [VText (t_Value t)]
  | FieldHeaders => [needle t; needle t]
  | FieldHeader => [json_path t; needle t; json_path t; needle t]
  | FieldStatus =>
      match t_StatusFilter t with
      | None => []
      | Some sf => map bind_arg (if Z.eqb (sf_Exact sf) 0 then let '(lo, hi) := ClassRange sf in [ArgInt lo; ArgInt hi]
                                 else [ArgInt (sf_Exact sf)])
      end
  | FieldFree => [indexed_arg t; indexed_arg t; needle t; needle t; needle t; needle t]
  | _ => []
  end.
Proof.
  unfold compileOrphanTerm, freeformOrphanPredicate, indexedPredicate, indexed_arg, indexedPredicate.
  destruct (t_Field t), (t_Wildcard t), (t_StatusFilter t) as [sf|]; try done;
    destruct (Z.eqb (sf_Exact sf) 0), (ClassRange sf); done.
Qed.

Lemma event_arm_in e c args :
  e ∈ l -> is_request e = false ->
  bool_decide (VText (RecordID e) ∈ arm_ids (database_of l) FromEvents c args) =
  sql_true (eval (database_of l) (row_of e) c args).
Proof.
  intros Hv Hk. apply bool_decide_ext. unfold arm_ids, source_rows. cbn [db_events database_of].
  rewrite list_elem_of_fmap. setoid_rewrite list_elem_of_filter. setoid_rewrite list_elem_of_fmap.
  setoid_rewrite list_elem_of_fmap. split.
  - intros ([row i] & Hi & Hev & (rw & Hrow & (r & -> & Hr))). simplify_eq. cbn [fst snd] in *.
    apply list_elem_of_filter in Hr as [Hk' Hr].
    rewrite cell_id in Hi. injection Hi as Hi. by rewrite (same_record l e r).
  - intros Hev. exists (row_of e, VText (RecordID e)). split; [done|]. split; [done|].
    exists (row_of e). split; [by rewrite cell_id|]. exists e. split; [done|].
    by apply list_elem_of_filter.
Qed.

Lemma event_arms e t :
  e ∈ l -> is_request e = false -> t_Field t = FieldFree ->
  eval_clause (database_of l) (alias "e" (row_of e) ++ []) (InUnion "e.id"
        [(FromEvents, indexed_cond "service" t); (FromEvents, indexed_cond "request_path" t);
         (FromEvents, CScan "request_body"); (FromEvents, CScan "request_headers");
         (FromEvents, CScan "response_body"); (FromEvents, CScan "response_headers")])
    [indexed_arg t; indexed_arg t; needle t; needle t; needle t; needle t] = orphan_holds t e.
Proof.
  intros He Hk Hf. cbn [eval_clause].
  change (lookup_env (alias "e" (row_of e) ++ []) "e.id") with
    (lookup_env (alias "e" (row_of e) ++ []) ("e" +:+ "." +:+ "id")).
  rewrite (ew_id _ _ (event_view_alias "e" e [] Hk)). unfold orphan_holds. rewrite Hf. f_equal.
  destruct (event_view_row e Hk). cbn [arms_ids]. rewrite !arity_indexed. cbn [arity take drop].
  rewrite !existsb_or_in, !event_arm_in by done.
  rewrite (bool_decide_eq_false_2 (_ ∈ [])) by (by intros ?%elem_of_nil). rewrite orb_false_r.
  rewrite <- (indexed_arg_eq "service" t) at 1. rewrite (sql_true_indexed _ _ "service" _ (Some (RecordService e))) by done.
  rewrite <- (indexed_arg_eq "request_path" t) at 1.
  rewrite (sql_true_indexed _ _ "request_path" _ (ev_request_path e)) by done.
  rewrite (sql_true_scan_blob _ _ "request_body" _ (ev_request_body e)),
    (sql_true_scan_hdr _ _ "request_headers" _ (ev_request_headers e)),
    (sql_true_scan_blob _ _ "response_body" _ (ev_response_body e)),
    (sql_true_scan_hdr _ _ "response_headers" _ (ev_response_headers e)) by done.
  cbn [holds]. by rewrite !orb_assoc.
Qed.

Lemma typed_eval env x lit b args :
  eval (database_of l) env (CAnd (CIsText x lit) b) args =
  and3 (eq3 (lookup_env env x) (VText lit)) (eval (database_of l) env b args).
Proof. done. Qed.

Lemma orphan_clause_value e t :
  e ∈ l -> is_request e = false -> plain_name t ->
  match orphan_clause t with
  | None => True
  | Some cl => exists cl0, cl = sign t cl0 /\
      eval_clause (database_of l) (alias "e" (row_of e)) cl0 (map bind_arg (compileOrphanTerm t).2) = orphan_holds t e
  end.
Proof.
  intros He Hk Hp. rewrite orphan_vals_term. unfold orphan_clause, orphan_holds.
  rewrite <- (app_nil_r (alias "e" (row_of e))). destruct (event_view_alias "e" e [] Hk).
  destruct (t_Field t) eqn:Ef; cbn [fmap option_fmap option_map]; try done.
  - eexists. split; [reflexivity|].
    etrans; [by apply event_arms|]. unfold orphan_holds. by rewrite Ef.
  - eexists. split; [reflexivity|]. cbn [eval_clause]. rewrite <- (indexed_arg_eq "e.service" t).
    by apply eval_indexed_text.
  - eexists. split; [reflexivity|]. unfold eval_clause.
    change (eval (database_of l) ?env (CParen (COr ?a ?b)) [?x; ?y]) with
      (or3 (eval (database_of l) env a [x]) (eval (database_of l) env b [y])).
    by rewrite (scan_value _ _ _ _ (ev_request_headers e)), (scan_value _ _ _ _ (ev_response_headers e)) by done.
  - eexists. split; [reflexivity|]. destruct (headers_valid l Hvalid e Hk He) as [Hq Hr].
    apply (or_eval l _ (CJson "e.request_headers") (CJson "e.response_headers") [json_path t; needle t] [json_path t; needle t]); [done|..].
    + by apply json_value.
    + by apply json_value.
  - destruct (t_StatusFilter t) as [sf|]; [|done]. eexists. split; [reflexivity|]. cbn [eval_clause]. rewrite typed_eval.
    rewrite (status_eval _ _ _ _ (event_status e)) by done.
    change (lookup_env (alias "e" (row_of e) ++ []) "e.type") with
      (lookup_env (alias "e" (row_of e) ++ []) ("e" +:+ "." +:+ "type")). rewrite ew_type0, eq3_text.
    by destruct (event_status e) as [z|]; cbn; [destruct (status_test sf z)|].
  - eexists. split; [reflexivity|]. cbn [eval_clause eval].
    change (lookup_env (alias "e" (row_of e) ++ []) "e.correlation_id") with
      (lookup_env (alias "e" (row_of e) ++ []) ("e" +:+ "." +:+ "correlation_id")). rewrite ew_corr0. apply eq3_text.
Qed.

Lemma orphan_terms_selected e q :
  e ∈ l -> is_request e = false -> plain_names q ->
  selected (database_of l) (alias "e" (row_of e)) (omap orphan_clause (q_Terms q)) (map bind_arg (CompileSQLOrphans q).2) =
  forallb (fun t => orphan_term t e) (q_Terms q).
Proof.
  intros He Hk Hp. unfold CompileSQLOrphans. destruct (renders_join _ _ (q_Terms q) orphan_renders) as (-> & _). cbn [snd].
  rewrite (selected_terms _ _ _ _ _ orphan_renders). unfold plain_names in Hp.
  induction Hp as [|t ts Ht _ IH]; [done|]. cbn [forallb]. rewrite IH. f_equal. unfold orphan_term.
  pose proof (orphan_clause_value e t He Hk Ht) as Hc. destruct (orphan_clause t) as [cl|]; [|done].
  destruct Hc as (cl0 & -> & Hev). unfold sign. destruct (t_Negated t); cbn [eval_clause]; by rewrite Hev.
Qed.
End OrphanTerms.
