(* ===== verification/SqliteRootsFacts.v ===== *)
(** * The SQLite reader serves pages of one ordered row list *)
From S2P Require Import Prelude GoLib Record SearchQL Predicate SearchSQL SearchSQLFacts Json JsonFacts Sqlite SqlQuery.
From S2P Require Import MemorySink Inspect MemoryReader MemoryReaderFacts AdminInspect AdminInspectFacts.
From S2P Require Import SqliteReader SqliteFacts SqliteDetailFacts SqliteRootsSpec SqliteTerms.

Open Scope string_scope.

(** ** The rows, said on records *)

Section Rows.
Context `{Unicode}.

Definition events_for (l : list CRecord) (v : CapturedRequest) : list CRecord :=
  filter (fun e => correlated_with (cr_CorrelationID v) e = true) (events_of l).

(** The highest status among response events. *)
Definition highest_status (es : list CRecord) : option Z :=
  foldr (fun e acc => match event_status e, acc with
                      | Some a, Some b => Some (Z.max a b)
                      | Some a, None => Some a
                      | None, _ => acc
                      end) None es.

Definition is_orphan (l : list CRecord) (e : CRecord) : bool :=
  negb (existsb (fun r => correlated_with (RecordCorrelationID e) r) (requests_of l)).

(** Whether a record is listed. *)
Definition listed (l : list CRecord) (q : InspectQuery) (r : CRecord) : bool :=
  window_nanos q (UnixNano (RecordTimestamp r)) &&
  match r with
  | RRequest v =>
      let es := events_for l v in
      forallb (fun t => request_term l t v) (q_Terms (iq_Query q)) &&
      forallb (fun t => having_term t (length es) (highest_status es)) (q_Terms (iq_Query q))
  | _ => negb (HasRequestOnlyFilter q) && is_orphan l r && forallb (fun t => orphan_term t r) (q_Terms (iq_Query q))
  end.

(** The row of a listed record. *)
Definition sqlite_row (l : list CRecord) (r : CRecord) : RootRow :=
  match r with
  | RRequest v =>
      let es := events_for l v in
      mkRootRow (cr_ID v) "request" (UnixNano (cr_Timestamp v)) (cr_Service v) (cr_Method v) (cr_Path v)
        (cr_CorrelationID v) (cr_SourceIP v) (Some (length es)) (Some (0 <? length es)%nat) (highest_status es)
  | _ =>
      mkRootRow (RecordID r) (match r with RResponse _ => "orphan_response" | _ => "orphan_outbound" end)
        (UnixNano (RecordTimestamp r)) (RecordService r) "" "" (RecordCorrelationID r) "" None None (event_status r)
  end.

Definition sqlite_rows (l : list CRecord) (q : InspectQuery) : list RootRow :=
  SliceStable row_less (sqlite_row l <$> filter (fun r => listed l q r = true) l).
End Rows.

(** ** The statement's rows *)

Section Statement.
Context `{SqlText} `{SqlJson} `{Unicode} (l : list CRecord).
Hypothesis Hnd : NoDup (RecordID <$> l).
Hypothesis Hvalid : Forall storable_headers l.

Lemma correlated_rows v : correlated (database_of l) (row_of (RRequest v)) = row_of <$> events_for l v.
Proof.
  unfold correlated, events_for. cbn [db_events database_of].
  induction (events_of l) as [|e es IH]; [done|]. rewrite fmap_cons, !filter_cons, IH.
  rewrite !cell_corr, eq3_text, sql_true_some. unfold correlated_with. cbn [RecordCorrelationID]. by case_decide.
Qed.

Definition joined_events (es : list CRecord) : list (option Row) :=
  match es with [] => [None] | _ => (Some ∘ row_of) <$> es end.

Lemma joined_rows v : joined (database_of l) (row_of (RRequest v)) = joined_events (events_for l v).
Proof.
  unfold joined, joined_events. rewrite correlated_rows. destruct (events_for l v) as [|e es]; [done|].
  rewrite list_fmap_compose. done.
Qed.

Lemma count_joined es : count_ids (joined_events es) = Z.of_nat (length es).
Proof.
  unfold count_ids, joined_events. destruct es as [|e es]; [done|]. f_equal.
  rewrite filter_id; [by rewrite length_fmap|]. intros x (r & -> & _)%list_elem_of_fmap. cbn. by rewrite cell_id.
Qed.

Lemma case_status_row e : is_request e = false -> case_status (row_of e) = int_val (event_status e).
Proof.
  intros He. destruct (event_view_row e He). unfold case_status. rewrite ew_type, ew_status, eq3_text, sql_true_some.
  by destruct (event_status e).
Qed.

Lemma events_for_kind v e : e ∈ events_for l v -> is_request e = false.
Proof. intros [_ [He _]%list_elem_of_filter]%list_elem_of_filter. done. Qed.

Lemma max_joined es :
  Forall (fun e => is_request e = false) es -> max_response_status (joined_events es) = int_val (highest_status es).
Proof.
  intros Hes. unfold max_response_status, joined_events.
  assert (Hmax : max_int ((fun e => case_status (row_of e)) <$> es) = int_val (highest_status es)).
  { induction Hes as [|e es He Hes IH]; [done|]. rewrite fmap_cons. cbn. unfold max_int in IH. rewrite IH.
    rewrite case_status_row by done. fold (highest_status es). by destruct (event_status e), (highest_status es). }
  destruct es as [|e es]; [done|]. rewrite <- Hmax. f_equal. rewrite <- list_fmap_compose. done.
Qed.

Lemma joined_nonempty es : joined_events es <> [].
Proof. by destruct es. Qed.

(** The values the statement returns for a record. *)
Definition root_vals (r : CRecord) : list sqlVal :=
  match r with
  | RRequest v =>
      let n := Z.of_nat (length (events_for l v)) in
      [VText (cr_ID v); VText "request"; VInt (UnixNano (cr_Timestamp v)); VText (cr_Service v); VText (cr_Method v);
       VText (cr_Path v); VText (cr_CorrelationID v); VText (cr_SourceIP v); VInt n;
       VInt (if (n >? 0)%Z then 1 else 0); int_val (highest_status (events_for l v))]
  | _ =>
      [VText (RecordID r); VText (match r with RResponse _ => "orphan_response" | _ => "orphan_outbound" end);
       VInt (UnixNano (RecordTimestamp r)); VText (RecordService r); VNull; VNull; VText (RecordCorrelationID r); VNull;
       VNull; VNull; int_val (event_status r)]
  end.

Lemma scan_root_vals r : scan_root (root_vals r) = Ok (sqlite_row l r).
Proof.
  destruct r as [v|v|v]; [|done..]. cbn -[highest_status events_for Z.of_nat].
  assert (scan_null_int (int_val (highest_status (events_for l v))) = Ok (highest_status (events_for l v))) as ->
    by (by destruct (highest_status _)).
  rewrite Nat2Z.id. do 3 f_equal. by destruct (length (events_for l v)).
Qed.

Lemma request_arm_value v q cursor :
  RRequest v ∈ l -> plain_names (iq_Query q) ->
  request_arm (database_of l) (roots_ast q cursor) (where_vals q cursor) (having_vals q) (row_of (RRequest v)) =
  if (past_nanos cursor (UnixNano (cr_Timestamp v)) (cr_ID v) && listed l q (RRequest v))%bool
  then Some (root_vals (RRequest v)) else None.
Proof.
  intros Hv Hp. unfold request_arm. rewrite joined_rows. cbn [rs_where roots_ast rs_having].
  set (es := events_for l v).
  assert (Hes : Forall (fun e => is_request e = false) es) by (apply Forall_forall; intros e; apply events_for_kind).
  set (ok := (past_nanos cursor (UnixNano (cr_Timestamp v)) (cr_ID v) && window_nanos q (UnixNano (cr_Timestamp v)) &&
    forallb (fun t => request_term l t v) (q_Terms (iq_Query q)))%bool).
  rewrite (filter_const ok).
  2:{ intros oe _. unfold joined_env.
      change (alias "cr" (row_of (RRequest v)) ++ alias "e" (default null_event oe))%list
        with (req_env v (alias "e" (default null_event oe))).
      unfold where_vals. rewrite (arm_selected _ _ "cr" (UnixNano (cr_Timestamp v)) (cr_ID v));
        [|by left|apply compiled_join, term_renders|done|done].
      by rewrite (request_terms_selected l Hnd Hvalid). }
  unfold listed. fold es. cbn [RecordTimestamp]. rewrite andb_assoc. 
  assert (Hb : forall a b c d : bool, (a && b && (c && d) = (a && b && c) && d)%bool) by (by intros [] [] [] []).
  rewrite Hb. fold ok. destruct ok; [|done]. cbn [andb].
  destruct (joined_events es) as [|x xs] eqn:Ej; [by apply joined_nonempty in Ej|]. rewrite <- Ej.
  unfold having_vals. rewrite (having_terms_selected _ (group_env (joined_events es)) _ (length es) (highest_status es)).
  - rewrite count_joined, max_joined by done. cbn -[selected highest_status events_for]. fold es. done.
  - cbn. by rewrite count_joined.
  - cbn -[highest_status]. by rewrite max_joined.
Qed.

Lemma orphaned_row e : orphaned (database_of l) (row_of e) = is_orphan l e.
Proof.
  unfold orphaned, is_orphan. cbn [db_requests database_of]. f_equal. rewrite existsb_fmap.
  apply existsb_ext_in. intros r _. by rewrite !cell_corr, eq3_text, sql_true_some.
Qed.

Lemma orphan_arm_value e q cursor :
  e ∈ l -> is_request e = false -> plain_names (iq_Query q) -> HasRequestOnlyFilter q = false ->
  orphan_arm (database_of l) (concat (arm_groups "e" (omap orphan_clause (q_Terms (iq_Query q))) q cursor))
    (orphan_vals q cursor) (row_of e) =
  if (past_nanos cursor (UnixNano (RecordTimestamp e)) (RecordID e) && listed l q e)%bool
  then Some (root_vals e) else None.
Proof.
  intros He Hk Hp Hro. unfold orphan_arm. rewrite orphaned_row. unfold orphan_vals.
  pose proof (event_view_alias "e" e [] Hk) as Hview. rewrite app_nil_r in Hview.
  rewrite (arm_selected _ _ "e" (UnixNano (RecordTimestamp e)) (RecordID e));
    [|by right|apply compiled_join, orphan_renders|apply (ew_ts _ _ Hview)|apply (ew_id _ _ Hview)].
  rewrite (orphan_terms_selected l Hnd Hvalid) by done.
  assert (Hl : listed l q e = (window_nanos q (UnixNano (RecordTimestamp e)) &&
    (is_orphan l e && forallb (fun t => orphan_term t e) (q_Terms (iq_Query q))))%bool).
  { unfold listed. rewrite Hro. by destruct e. }
  rewrite Hl.
  assert (Hb : forall a b c d : bool, (a && (b && c && d) = b && (c && (a && d)))%bool) by (by intros [] [] [] []).
  rewrite Hb. case_match; [|done]. f_equal. destruct (event_view_row e Hk).
  rewrite case_status_row, ew_id, ew_ts, ew_service, ew_corr, ew_type, eq3_text, sql_true_some by done.
  by destruct e.
Qed.

Lemma omap_fmap_rows {B} (f : Row -> option B) (k : list CRecord) : omap f (row_of <$> k) = omap (fun r => f (row_of r)) k.
Proof. induction k as [|r k IH]; [done|]. by rewrite fmap_cons, !omap_cons, IH. Qed.

(** Past the cursor and listed. *)
Definition on_page (cursor : option Cursor) (q : InspectQuery) (r : CRecord) : bool :=
  past_nanos cursor (UnixNano (RecordTimestamp r)) (RecordID r) && listed l q r.

Lemma roots_rows_value q cursor :
  plain_names (iq_Query q) ->
  roots_rows (roots_ast q cursor) (roots_vals q cursor) (database_of l) ≡ₚ
  root_vals <$> filter (fun r => on_page cursor q r = true) l.
Proof.
  intros Hp. unfold roots_rows. destruct (build_eq q cursor) as [_ ->].
  rewrite <- (where_vals_length q cursor), <- (having_vals_length q cursor).
  rewrite take_app_length, drop_app_length, take_app_length, app_assoc, drop_app_length' by (by rewrite length_app).
  cbn [db_requests db_events database_of]. rewrite omap_fmap_rows.
  rewrite (omap_filter _ root_vals (on_page cursor q)).
  2:{ intros r [Hk Hr]%list_elem_of_filter. destruct r as [v|v|v]; [|done..]. by apply request_arm_value. }
  assert (Horph : match rs_orphans (roots_ast q cursor) with None => []
    | Some gs => omap (orphan_arm (database_of l) (concat gs) (if HasRequestOnlyFilter q then [] else orphan_vals q cursor))
        (row_of <$> events_of l) end = root_vals <$> filter (fun r => on_page cursor q r = true) (events_of l)).
  { cbn [rs_orphans roots_ast]. destruct (HasRequestOnlyFilter q) eqn:Ero.
    - rewrite filter_none; [done|]. intros r [Hk Hr]%list_elem_of_filter. unfold on_page, listed.
      rewrite Ero. destruct r; [done|..]; by rewrite !andb_false_r.
    - rewrite omap_fmap_rows. apply omap_filter. intros r [Hk Hr]%list_elem_of_filter. by apply orphan_arm_value. }
  rewrite Horph, <- fmap_app. by rewrite split_tables.
Qed.
End Statement.

(** ** Pages *)

Lemma rows_ordered_unique l1 l2 : rows_ordered l1 -> rows_ordered l2 -> l1 ≡ₚ l2 -> l1 = l2.
Proof.
  assert (AntiSymm (=) (fun a b => row_less a b = true)).
  { intros x y Hxy Hyx. exfalso. pose proof (sw_asym _ _ Hxy). congruence. }
  intros H1 H2. by apply (StronglySorted_unique (fun a b => row_less a b = true)).
Qed.

Lemma scan_all_ok {A B} (scan : list sqlVal -> result string A) (vals : B -> list sqlVal) (f : B -> A) (k : list B) :
  (forall x, scan (vals x) = Ok (f x)) -> scan_all scan (vals <$> k) = Ok (f <$> k).
Proof. intros Hs. induction k as [|x k IH]; [done|]. rewrite fmap_cons. cbn [scan_all]. by rewrite Hs, IH. Qed.

Section Pages.
Context `{SqlText} `{SqlJson} `{Unicode} (E : Engine) (l : list CRecord).
Hypothesis Hnd : NoDup (RecordID <$> l).
Hypothesis Hvalid : Forall storable_headers l.

Lemma sqlite_row_key r : cursor_of (sqlite_row l r) = mkCursor (UnixNano (RecordTimestamp r)) (RecordID r).
Proof. by destruct r. Qed.

Lemma row_keys_distinct (P : CRecord -> Prop) `{!forall x, Decision (P x)} (k : list CRecord) :
  k ≡ₚ filter P l -> NoDup (cursor_of <$> (sqlite_row l <$> k)).
Proof.
  intros Hk. rewrite <- list_fmap_compose. apply (NoDup_fmap_1 cur_ID). rewrite <- list_fmap_compose.
  assert (((cur_ID ∘ (cursor_of ∘ sqlite_row l)) <$> k) = RecordID <$> k) as ->.
  { apply list_fmap_ext. intros i r _. cbn. by destruct r. }
  rewrite Hk. by apply sublist_ids.
Qed.

Lemma sqlite_rows_ordered q : rows_ordered (sqlite_rows l q).
Proof. apply SliceStable_rows_ordered. by apply (row_keys_distinct (fun r => listed l q r = true)). Qed.

Lemma past_nanos_cursor cursor r :
  cursor_in_range cursor ->
  past_nanos cursor (UnixNano (RecordTimestamp r)) (RecordID r) =
  match cursor with Some c => past_cursor c (sqlite_row l r) | None => true end.
Proof.
  intros Hc. destruct cursor as [c|]; [|done]. specialize (Hc c eq_refl).
  assert (Hk := sqlite_row_key r). unfold cursor_of in Hk. injection Hk as Ht Hid.
  assert (Hu : UnixNano (cur_Timestamp c) = cur_Timestamp c) by (by apply wrap_i64_id).
  unfold past_nanos, past_cursor, Before. by rewrite Ht, Hid, Hu.
Qed.

(** Listing past the cursor is listing, then skipping to the cursor. *)
Lemma page_rows_perm q cursor :
  cursor_in_range cursor ->
  sqlite_row l <$> filter (fun r => on_page l cursor q r = true) l ≡ₚ after_cursor cursor (sqlite_rows l q).
Proof.
  intros Hc. unfold on_page, sqlite_rows. destruct cursor as [c|]; cbn [after_cursor].
  - rewrite SliceStable_perm, filter_fmap. apply Permutation_refl'. f_equal.
    rewrite list_filter_filter. apply filter_ext_elem. intros r _.
    rewrite (past_nanos_cursor (Some c)) by done. cbn. rewrite andb_true_iff, Is_true_true. tauto.
  - rewrite SliceStable_perm. done.
Qed.

Lemma desc_ok_rows a b : desc_ok (root_vals l a) (root_vals l b) <-> row_less (sqlite_row l b) (sqlite_row l a) = false.
Proof.
  assert (Hv : forall r, col_int 2 (root_vals l r) = row_Timestamp (sqlite_row l r) /\
    col_text 0 (root_vals l r) = row_ID (sqlite_row l r)) by (by intros []).
  unfold desc_ok, row_less, After. destruct (Hv a) as [-> ->], (Hv b) as [-> ->].
  destruct (Z.eqb_spec (row_Timestamp (sqlite_row l b)) (row_Timestamp (sqlite_row l a))) as [Et|Et]; cbn [negb].
  - rewrite Et. split; [intros [?|[_ ?]]; [lia|done]|]. intros Hx. by right.
  - rewrite Z.ltb_ge. split; [intros [?|[? _]]; lia|]. intros Hx. left. lia.
Qed.

(** The scanned answer of the statement: the rows past the cursor, cut. *)
Lemma answered_rows q cursor fetch rows :
  answers E (roots_page_query (roots_ast q cursor)) -> plain_names (iq_Query q) -> cursor_in_range cursor ->
  eng_query E (qs_text (roots_page_query (roots_ast q cursor))) (roots_vals q cursor ++ [VInt fetch])%list (database_of l)
    = Ok rows ->
  scan_all scan_root rows = Ok (limit_rows fetch (after_cursor cursor (sqlite_rows l q))).
Proof.
  intros Ha Hp Hc Hq. apply Ha in Hq as (sorted & Hperm & Hs & ->).
  assert (Hlen : length (roots_vals q cursor) = roots_arity (roots_ast q cursor)).
  { destruct (build_eq q cursor) as [_ ->]. unfold roots_arity, orphans_arity. rewrite !length_app.
    rewrite where_vals_length, (having_vals_length q cursor). cbn [rs_orphans roots_ast].
    destruct (HasRequestOnlyFilter q); cbn [default from_option id].
    { change (clauses_arity (concat [])) with 0. cbn [length]. lia. }
    unfold orphan_vals. rewrite length_map.
    rewrite (arm_where_arity "e" _ (omap orphan_clause (q_Terms (iq_Query q)))); [lia|].
    apply compiled_join, orphan_renders. }
  rewrite <- Hlen, take_app_length in Hperm. rewrite <- Hlen. unfold arg. rewrite list_lookup_middle by done.
  cbn [default from_option id]. rewrite roots_rows_value in Hperm by done.
  apply Permutation_map_inv in Hperm as (recs & -> & Hrecs).
  assert (Heq : sqlite_row l <$> recs = after_cursor cursor (sqlite_rows l q)).
  { apply rows_ordered_unique.
    - apply sorted_rows_ordered; [by apply (row_keys_distinct (fun r => on_page l cursor q r = true))|].
      clear -Hs. unfold sorted_by. change (map (root_vals l) recs) with (root_vals l <$> recs) in Hs.
      induction recs as [|r recs IH]; [constructor|]. rewrite !fmap_cons in *.
      apply StronglySorted_inv in Hs as [Hs Hr]. constructor; [by apply IH|].
      apply Forall_fmap. rewrite Forall_fmap in Hr. eapply Forall_impl; [exact Hr|]. intros x. apply desc_ok_rows.
    - apply rows_ordered_after, sqlite_rows_ordered.
    - rewrite <- page_rows_perm by done. by rewrite Hrecs. }
  rewrite <- Heq. unfold limit_rows.
  destruct (fetch <? 0)%Z; [apply scan_all_ok, scan_root_vals|].
  change (map (root_vals l) recs) with (root_vals l <$> recs). rewrite <- !fmap_take. apply scan_all_ok, scan_root_vals.
Qed.

(** The engine fails the statement on these tables, for some arguments. *)
Definition stmt_failed (st : roots_stmt) : Prop :=
  exists args e, eng_query E (qs_text (roots_page_query st)) args (database_of l) = Err e.

(** One page, or a fault of the engine. *)
Lemma SQLite_ReadRoots_page q limit cursor :
  answers E (roots_page_query (roots_ast q cursor)) -> plain_names (iq_Query q) -> cursor_in_range cursor ->
  (1 <= limit <= 500)%Z ->
  rows_ordered (sqlite_rows l q) /\
  match SQLite_ReadRoots E (database_of l) q limit cursor with
  | Ok page => page = page_of (sqlite_rows l q) (Z.to_nat limit) cursor
  | Err (ErrBackend _) => stmt_failed (roots_ast q cursor)
  | Err _ => False
  end.
Proof.
  intros Ha Hp Hc Hl. split; [apply sqlite_rows_ordered|]. unfold SQLite_ReadRoots.
  destruct (build_eq q cursor) as [Ht _]. unfold roots_vals in *.
  pose proof (answered_rows q cursor (wrap_i64 (limit + 1))) as Hr. unfold roots_vals in Hr.
  destruct (buildRootsUnionSQL q cursor) as [innerSQL innerArgs]. cbn [fst snd] in *. subst innerSQL.
  cbn [qs_text roots_page_query] in Hr.
  destruct (eng_query _ _ _ _) as [rows|e] eqn:Eq; [|by eexists _, _].
  rewrite (Hr rows Ha Hp Hc eq_refl). clear Hr Eq. unfold limit_rows. rewrite wrap_i64_id by (unfold in_i64, two63; lia).
  destruct (Z.ltb_spec (limit + 1) 0); [lia|]. set (rest := after_cursor cursor (sqlite_rows l q)). unfold page_of.
  fold rest. rewrite length_take. replace (Z.to_nat (limit + 1)) with (S (Z.to_nat limit)) by lia.
  destruct (Z.gtb_spec (Z.of_nat (S (Z.to_nat limit) `min` length rest)) limit) as [Hgt|Hle].
  - destruct (Z.ltb_spec limit 1); [lia|]. replace (Z.to_nat (limit - 1)) with (Z.to_nat limit - 1) by lia.
    rewrite lookup_take_lt by lia. destruct (lookup_lt_is_Some_2 rest (Z.to_nat limit - 1)) as [x Hx]; [lia|].
    rewrite Hx, take_take. replace (Z.to_nat limit `min` S (Z.to_nat limit)) with (Z.to_nat limit) by lia.
    destruct (Nat.ltb_spec (Z.to_nat limit) (length rest)); [done|lia].
  - destruct (Nat.ltb_spec (Z.to_nat limit) (length rest)); [lia|]. by rewrite !take_ge by lia.
Qed.

(** The page a client sees; a failed read shows nothing. *)
Definition sqlite_serve (q : InspectQuery) (limit : Z) (cursor : option Cursor) : list RootRow * option Cursor :=
  match SQLite_ReadRoots E (database_of l) q limit cursor with Ok p => p | Err _ => ([], None) end.

Lemma elem_of_sqlite_rows q row :
  row ∈ sqlite_rows l q <-> exists r, r ∈ l /\ listed l q r = true /\ row = sqlite_row l r.
Proof.
  unfold sqlite_rows. rewrite SliceStable_perm, list_elem_of_fmap. setoid_rewrite list_elem_of_filter. naive_solver.
Qed.

Lemma page_cursor_in_range q limit cursor :
  Forall (fun r => in_i64 (UnixNano (RecordTimestamp r))) l ->
  cursor_in_range (page_of (sqlite_rows l q) limit cursor).2.
Proof.
  intros Hin c. unfold page_of. cbn [snd]. case_match; [|done]. intros Hc.
  destruct (after_cursor cursor (sqlite_rows l q) !! (limit - 1)) as [row|] eqn:Er; [|done]. injection Hc as <-.
  apply list_elem_of_lookup_2, elem_of_after_cursor in Er as [(r & Hr & _ & ->)%elem_of_sqlite_rows _].
  rewrite sqlite_row_key. rewrite Forall_forall in Hin. by apply Hin.
Qed.

Lemma walk_served q limit fuel cursor :
  (forall cursor, answers E (roots_page_query (roots_ast q cursor))) -> plain_names (iq_Query q) ->
  (forall cursor, ~ stmt_failed (roots_ast q cursor)) -> (1 <= limit <= 500)%Z -> cursor_in_range cursor ->
  walk (sqlite_serve q limit) fuel cursor = walk (page_of (sqlite_rows l q) (Z.to_nat limit)) fuel cursor.
Proof.
  intros Ha Hp Hok Hl. revert cursor. induction fuel as [|fuel IH]; intros cursor Hc; [done|]. cbn [walk].
  assert (Hs : sqlite_serve q limit cursor = page_of (sqlite_rows l q) (Z.to_nat limit) cursor).
  { unfold sqlite_serve. destruct (SQLite_ReadRoots_page q limit cursor (Ha cursor) Hp Hc Hl) as [_ Hpg].
    destruct (SQLite_ReadRoots _ _ _ _ _) as [p|[]]; try done. by destruct (Hok cursor). }
  rewrite Hs. destruct (page_of (sqlite_rows l q) (Z.to_nat limit) cursor) as [rows next] eqn:Epg.
  f_equal. destruct next as [c|]; [|done]. apply IH.
  pose proof (page_cursor_in_range q (Z.to_nat limit) cursor) as Hcr. rewrite Epg in Hcr. apply Hcr.
  apply Forall_forall. intros r _. apply wrap_i64_range.
Qed.

(** C9. Paging over SQLite: from the tables that hold the records [l], for any
    query, page size and cursor, ReadRoots returns exactly the page of one
    strictly ordered list or fails because the engine failed the statement;
    that list has one row for each record the query lists; and following the
    next cursors from the start, with an engine that does not fail, visits it
    whole, every row once and in order. *)
Theorem SQLite_walk_complete q limit fuel :
  (forall cursor, answers E (roots_page_query (roots_ast q cursor))) -> plain_names (iq_Query q) ->
  (1 <= limit <= 500)%Z -> length l < fuel ->
  rows_ordered (sqlite_rows l q) /\
  (forall row, row ∈ sqlite_rows l q <-> exists r, r ∈ l /\ listed l q r = true /\ row = sqlite_row l r) /\
  (forall cursor, cursor_in_range cursor ->
     match SQLite_ReadRoots E (database_of l) q limit cursor with
     | Ok page => page = page_of (sqlite_rows l q) (Z.to_nat limit) cursor
     | Err (ErrBackend _) => stmt_failed (roots_ast q cursor)
     | Err _ => False
     end) /\
  ((forall cursor, ~ stmt_failed (roots_ast q cursor)) -> walk (sqlite_serve q limit) fuel None = sqlite_rows l q).
Proof.
  intros Ha Hp Hl Hf. split_and!; [apply sqlite_rows_ordered|apply elem_of_sqlite_rows| |].
  - intros cursor Hc. by apply SQLite_ReadRoots_page.
  - intros Hok. rewrite walk_served by done. apply walk_all; [apply sqlite_rows_ordered|lia|].
    unfold sqlite_rows. rewrite SliceStable_length, length_fmap. eapply Nat.le_lt_trans; [apply length_filter|done].
Qed.

#[export] Instance sqlite_reader_serves `{MapRange} q :
  (forall cursor, answers E (roots_page_query (roots_ast q cursor))) -> plain_names (iq_Query q) ->
  (forall cursor, ~ stmt_failed (roots_ast q cursor)) -> Serves (sqlite_reader E (database_of l)) q (sqlite_rows l q).
Proof.
  intros Ha Hp Hok. split; [apply sqlite_rows_ordered|]. intros limit cursor Hc Hl. cbn.
  destruct (SQLite_ReadRoots_page q limit cursor (Ha cursor) Hp Hc Hl) as [_ Hpg].
  destruct (SQLite_ReadRoots _ _ _ _ _) as [p|[]]; [by rewrite Hpg|done|by destruct (Hok cursor)|done].
Qed.
End Pages.

(** ** Example *)

(** SQLite's JSON functions on header columns, executable. *)
Definition path_name (p : string) : string := str_take (String.length p - 4) (str_drop 3 p).

Definition header_values (s p : string) : list string :=
  match UnmarshalHeader s with Some h => default [] (headers_of h !! path_name p) | None => [] end.

Lemma ReplaceAll_absent s c new :
  str_forall (fun d => negb (Ascii.eqb d c)) s = true -> ReplaceAll s (String c "") new = s.
Proof.
  unfold ReplaceAll. induction s as [|d s IH]; [done|]. cbn. intros [Hd Hs]%andb_true_iff.
  destruct (Ascii.eqb_spec c d) as [->|_]; [by rewrite Ascii.eqb_refl in Hd|]. cbn. f_equal. by apply IH.
Qed.

Lemma path_name_plain name :
  str_forall (fun c => negb (Ascii.eqb c dquote || Ascii.eqb c backslash)) name = true ->
  path_name (jsonHeaderPath name) = name.
Proof.
  intros Hn. unfold jsonHeaderPath.
  assert (Hp : forall c, c = dquote \/ c = backslash -> str_forall (fun d => negb (Ascii.eqb d c)) name = true).
  { intros c Hc. clear -Hn Hc. induction name as [|d name IH]; [done|]. cbn in *.
    apply andb_true_iff in Hn as [Hd Hn]. rewrite IH by done. rewrite andb_true_r.
    apply negb_true_iff, orb_false_iff in Hd as [Hd1 Hd2]. by destruct Hc as [-> | ->]; rewrite ?Hd1, ?Hd2. }
  rewrite (ReplaceAll_absent name), ReplaceAll_absent by auto. unfold path_name. rewrite !str_length_app.
  change (str_drop 3 _) with (name +:+ String dquote ""). cbn -[str_take]. rewrite str_length_app. cbn -[str_take].
  rewrite Nat.add_sub. apply str_take_app.
Qed.

Lemma header_values_spec h name :
  valid_header h -> str_forall (fun c => negb (Ascii.eqb c dquote || Ascii.eqb c backslash)) name = true ->
  header_values (MarshalHeader h) (jsonHeaderPath name) = default [] (headers_of h !! name).
Proof. intros Hv Hn. unfold header_values. by rewrite UnmarshalHeader_Marshal, path_name_plain. Qed.

Definition sqlite_json : SqlJson := {| json_each_values := header_values; json_each_header := header_values_spec |}.

(** An engine that runs the page statements of one query. *)
Section RunRoots.
Context `{SqlText} `{SqlJson} `{Unicode} (q : InspectQuery).

Definition vals_key (v : list sqlVal) : RootRow :=
  mkRootRow (col_text 0 v) "" (col_int 2 v) "" "" "" "" "" None None None.

Definition page_rows (st : roots_stmt) (args : list sqlVal) (db : Database) : list (list sqlVal) :=
  limit_rows (match arg (roots_arity st) args with VInt z => z | _ => 0%Z end)
    (SliceStable (fun a b => row_less (vals_key a) (vals_key b)) (roots_rows st (take (roots_arity st) args) db)).

Definition first_stmt : roots_stmt := roots_ast q None.
Definition next_stmt : roots_stmt := roots_ast q (Some (mkCursor 0%Z "")).

Definition run_roots (text : string) (args : list sqlVal) (db : Database) : result string (list (list sqlVal)) :=
  if String.eqb text (qs_text (roots_page_query first_stmt)) then Ok (page_rows first_stmt args db)
  else if String.eqb text (qs_text (roots_page_query next_stmt)) then Ok (page_rows next_stmt args db)
  else Err "no such statement".

Lemma page_rows_sem st args db : qs_sem (roots_page_query st) args db (page_rows st args db).
Proof.
  unfold page_rows. set (less := fun a b => row_less (vals_key a) (vals_key b)).
  assert (StrictWeak less) by (apply (strict_weak_on vals_key), _).
  exists (SliceStable less (roots_rows st (take (roots_arity st) args) db)).
  split_and!; [apply SliceStable_perm| |done].
  pose proof (SliceStable_sorted less (roots_rows st (take (roots_arity st) args) db)) as Hs.
  unfold sorted_by in Hs. induction Hs as [|x k _ IH Hx]; constructor; [done|]. eapply Forall_impl; [exact Hx|].
  intros y. unfold less, row_less, desc_ok, After. cbn.
  destruct (Z.eqb_spec (col_int 2 y) (col_int 2 x)); [by right|]. cbn. intros ?%Z.ltb_ge. left. lia.
Qed.

Lemma run_roots_answers cursor :
  qs_text (roots_page_query next_stmt) <> qs_text (roots_page_query first_stmt) ->
  answers (list_engine run_roots) (roots_page_query (roots_ast q cursor)).
Proof.
  intros Ht%String.eqb_neq args db rows. cbn [eng_query list_engine]. unfold run_roots. destruct cursor as [c|].
  - change (roots_ast q (Some c)) with next_stmt. rewrite Ht, String.eqb_refl. intros [= <-]. apply page_rows_sem.
  - change (roots_ast q None) with first_stmt. rewrite String.eqb_refl. intros [= <-]. apply page_rows_sem.
Qed.

Lemma run_roots_runs l cursor : ~ stmt_failed (list_engine run_roots) l (roots_ast q cursor).
Proof.
  intros (args & e & Hq). cbn [eng_query list_engine] in Hq. unfold run_roots in Hq. destruct cursor as [c|].
  - change (roots_ast q (Some c)) with next_stmt in Hq. rewrite String.eqb_refl in Hq. by destruct (String.eqb _ _).
  - by rewrite String.eqb_refl in Hq.
Qed.
End RunRoots.

Definition get_query : InspectQuery :=
  mkInspectQuery 2 None (Some 10%Z) None
    (mkQuery [mkTerm FieldService "svc" WildcardNone false false "" None None]).

Lemma sample_storable_headers : Forall storable_headers sample_records.
Proof.
  eapply Forall_impl; [apply sample_storable|]. unfold storable, storable_headers. intros [v|v|v] [_ Hs]; [apply Hs|done..].
Qed.

#[local] Existing Instance sqlite_text.
#[local] Existing Instance sqlite_json.
#[local] Existing Instance ascii_unicode.

Definition get_engine : Engine := list_engine (run_roots get_query).

Lemma get_texts : qs_text (roots_page_query (next_stmt get_query)) <> qs_text (roots_page_query (first_stmt get_query)).
Proof. apply String.eqb_neq. vm_compute. reflexivity. Qed.

Lemma SQLite_walk_complete_witness :
  walk (sqlite_serve get_engine sample_records get_query 2) 9 None = sqlite_rows sample_records get_query /\
  row_ID <$> walk (sqlite_serve get_engine sample_records get_query 2) 9 None = ["e2"; "r2"; "r1"].
Proof.
  assert (NoDup (RecordID <$> sample_records)) as Hnd by (apply (bool_decide_unpack _); vm_compute; exact I).
  assert (Hw : walk (sqlite_serve get_engine sample_records get_query 2) 9 None = sqlite_rows sample_records get_query).
  { apply (SQLite_walk_complete get_engine sample_records Hnd sample_storable_headers get_query 2 9).
    - intros cursor. apply run_roots_answers, get_texts.
    - repeat constructor.
    - lia.
    - cbn. lia.
    - intros cursor. apply run_roots_runs. }
  split; [exact Hw|]. rewrite Hw. vm_compute. reflexivity.
Defined.
