(* ===== verification/SqliteStatsFacts.v ===== *)
(** * Histograms and service statistics over SQLite

    The grouped statements of the reader, their meaning, and that the loops over
    the groups compute what counting the stored records one by one would. *)
From S2P Require Import Prelude GoLib Record SearchQL Predicate SearchSQL SearchSQLFacts Json JsonFacts Sqlite SqlQuery.
From S2P Require Import MemorySink Inspect MemoryReader MemoryReaderFacts AdminInspect AdminInspectFacts.
From S2P Require Import SqliteReader SqliteFacts SqliteDetailFacts SqliteRootsSpec SqliteTerms SqliteRootsFacts.

Open Scope string_scope.

(** ** GROUP BY with COUNT *)

(** Every key once, with the number of times it occurs. *)
Definition grouped {K} (keys : list K) (groups : list (K * nat)) : Prop :=
  NoDup groups.*1 /\ Forall (fun g => 0 < g.2) groups /\ keys ≡ₚ g ← groups; replicate g.2 g.1.

Fixpoint group_add `{EqDecision K} (k : K) (groups : list (K * nat)) : list (K * nat) :=
  match groups with
  | [] => [(k, 1)]
  | (k', c) :: rest => if decide (k = k') then (k', S c) :: rest else (k', c) :: group_add k rest
  end.

Definition group_keys `{EqDecision K} (keys : list K) : list (K * nat) := foldr group_add [] keys.

Lemma group_add_keys `{EqDecision K} (k k' : K) groups : k' ∈ (group_add k groups).*1 <-> k' = k \/ k' ∈ groups.*1.
Proof.
  induction groups as [|[k1 c] groups IH]; cbn [group_add]; [set_solver|].
  case_decide; subst; rewrite !fmap_cons; set_solver.
Qed.

Lemma group_add_expand `{EqDecision K} (k : K) groups :
  (g ← group_add k groups; replicate g.2 g.1) ≡ₚ k :: (g ← groups; replicate g.2 g.1).
Proof.
  induction groups as [|[k1 c] groups IH]; cbn [group_add]; [done|]. case_decide as Hk; [by subst k1|].
  rewrite !bind_cons, IH. cbn [fst snd]. by rewrite Permutation_middle.
Qed.

Lemma group_add_grouped `{EqDecision K} (k : K) groups :
  NoDup groups.*1 -> Forall (fun g => 0 < g.2) groups ->
  NoDup (group_add k groups).*1 /\ Forall (fun g => 0 < g.2) (group_add k groups).
Proof.
  induction groups as [|[k1 c] groups IH]; intros Hn Hc; cbn [group_add].
  { split; [apply NoDup_singleton|repeat constructor]. }
  rewrite fmap_cons in Hn. apply NoDup_cons in Hn as [Hni Hn]. apply Forall_cons in Hc as [Hc1 Hc]. cbn in Hc1.
  destruct (IH Hn Hc) as [IHn IHc]. clear IH. case_decide as Hk; rewrite fmap_cons.
  - split; [by constructor|by constructor; [cbn; lia|]].
  - split; [|by constructor]. constructor; [|done]. rewrite group_add_keys. cbn. intros [|]; [by destruct Hk|done].
Qed.

(** Grouping by insertion is a grouping. *)
Lemma group_keys_grouped `{EqDecision K} (keys : list K) : grouped keys (group_keys keys).
Proof.
  induction keys as [|k keys (Hn & Hc & Hp)]; [by repeat constructor|].
  change (group_keys (k :: keys)) with (group_add k (group_keys keys)).
  destruct (group_add_grouped k _ Hn Hc). split_and!; [done..|]. by rewrite group_add_expand, <- Hp.
Qed.

(** ** The histogram statement *)

Section Aggregate.
Context `{SqlText} `{SqlJson} `{Unicode}.

(** The CASE over [status]; a NULL status satisfies no comparison. *)
Definition sql_klass (v : sqlVal) : Z :=
  match v with
  | VInt z =>
      if (200 <=? z) && (z <? 300) then 2
      else if (300 <=? z) && (z <? 400) then 3
      else if (400 <=? z) && (z <? 500) then 4
      else if (500 <=? z) && (z <? 600) then 5
      else 0
  | _ => 0
  end%Z.

Definition group_key (since w : Z) (r : list sqlVal) : Z * Z := (Z.quot (col_int 2 r - since) w, sql_klass (arg 10 r)).

(** SQLite's integer division truncates; outside 64 bits its subtraction is no
    longer an integer, and nothing is said. *)
Definition aggregate_query (st : roots_stmt) : query_stmt := {|
  qs_text := aggregate_head +:+ roots_text st +:+ aggregate_tail;
  qs_sem args db rows :=
    match args with
    | VInt since :: VInt w :: rest =>
        let rs := roots_rows st rest db in
        w <> 0%Z -> Forall (fun r => in_i64 (col_int 2 r - since)) rs ->
        exists groups, grouped (group_key since w <$> rs) groups /\
          rows = (fun g => [VInt g.1.1; VInt g.1.2; VInt (Z.of_nat g.2)]) <$> groups
    | _ => True
    end
|}.

(** ** One group at a time is one row at a time *)

Definition add_key (n : Z) (st : nat * list HistogramBucket) (k : Z * Z) : nat * list HistogramBucket :=
  (S st.1, alter (bump k.2) (Z.to_nat (clamp_bucket n k.1)) st.2).

Lemma bump_by_S k c b : bump_by k (S c) b = bump_by k c (bump k b).
Proof. destruct b. unfold bump_by, bump. repeat case_match; f_equal; lia. Qed.

Lemma bump_by_0 k b : bump_by k 0 b = b.
Proof. destruct b. unfold bump_by. repeat case_match; f_equal; lia. Qed.

Lemma alter_same {A} (f g h : A -> A) i (k : list A) :
  (forall x, f x = h (g x)) -> alter f i k = alter h i (alter g i k).
Proof. intros Hf. revert i. induction k as [|x k IH]; intros [|i]; cbn; f_equal; auto. Qed.

Lemma alter_id {A} (f : A -> A) i (k : list A) : (forall x, f x = x) -> alter f i k = k.
Proof. intros Hf. revert i. induction k as [|x k IH]; intros [|i]; cbn; f_equal; auto. Qed.

Lemma add_group_keys n st k c :
  add_group n st (k.1, k.2, Z.of_nat c) = fold_left (add_key n) (replicate c k) st.
Proof.
  unfold add_group. rewrite Nat2Z.id. revert st. induction c as [|c IH]; intros [tot bs]; cbn [replicate fold_left].
  - rewrite Nat.add_0_r. f_equal. apply alter_id, bump_by_0.
  - rewrite <- IH. unfold add_key. cbn [fst snd]. f_equal; [lia|]. apply alter_same, bump_by_S.
Qed.

Lemma add_groups_keys n groups st :
  fold_left (add_group n) ((fun g : Z * Z * nat => (g.1.1, g.1.2, Z.of_nat g.2)) <$> groups) st =
  fold_left (add_key n) (g ← groups; replicate g.2 g.1) st.
Proof.
  revert st. induction groups as [|[k c] groups IH]; intros st; [done|].
  cbn [fmap list_fmap fold_left fst snd]. rewrite IH, add_group_keys, bind_cons, fold_left_app. done.
Qed.

Lemma klass_status o : sql_klass (int_val o) = statusClass o.
Proof. by destruct o. Qed.

(** The key of a row in the window is the bucket the memory reader would tally. *)
Lemma add_key_row l since til n r st :
  good_window since til n -> (since <= UnixNano (RecordTimestamp r) < til)%Z ->
  add_key n st (group_key since (width since til n) (root_vals l r)) =
  tally_row (Some (mkBucketing since (width since til n) n)) st (sqlite_row l r).
Proof.
  intros (Hs & Hu & Hlt & Hspan & Hn & _) Ht. unfold add_key, tally_row, group_key, tally, bucket_index, clamp_bucket.
  assert (Hc : col_int 2 (root_vals l r) = row_Timestamp (sqlite_row l r) /\
    arg 10 (root_vals l r) = int_val (row_Status (sqlite_row l r)) /\
    row_Timestamp (sqlite_row l r) = UnixNano (RecordTimestamp r)) by (destruct r; split_and!; reflexivity).
  destruct Hc as (-> & -> & ->). cbn [fst snd bk_since bk_width bk_count]. rewrite klass_status.
  set (t := UnixNano (RecordTimestamp r)) in *.
  assert (UnixNano t = t) as -> by (apply wrap_i64_id; unfold in_i64, two63 in *; lia).
  by rewrite wrap_i64_id by (unfold in_i64, two63 in *; lia).
Qed.

(** The fold over the groups is the tally of some order of the rows. *)
Lemma groups_histogram l since til n recs groups :
  good_window since til n -> Forall (fun r => since <= UnixNano (RecordTimestamp r) < til)%Z recs ->
  grouped (group_key since (width since til n) <$> (root_vals l <$> recs)) groups ->
  let st := fold_left (add_group n) ((fun g : Z * Z * nat => (g.1.1, g.1.2, Z.of_nat g.2)) <$> groups)
              (0, empty_buckets (mkBucketing since (width since til n) n)) in
  histogram_of (sqlite_row l <$> recs) since til n (mkAggregation st.1 st.2).
Proof.
  intros Hg Hin (_ & _ & Hp). cbv zeta. rewrite add_groups_keys. rewrite <- list_fmap_compose in Hp.
  symmetry in Hp. apply Permutation_map_inv in Hp as (recs' & -> & Hp).
  assert (Hin' : Forall (fun r => since <= UnixNano (RecordTimestamp r) < til)%Z recs') by (by rewrite <- Hp).
  rewrite Hp. set (B := mkBucketing since (width since til n) n).
  assert (Hf : forall st, fold_left (add_key n)
      (map (group_key since (width since til n) ∘ root_vals l) recs') st =
    fold_left (tally_row (Some B)) (sqlite_row l <$> recs') st).
  { clear Hp Hin. induction Hin' as [|r recs' Hr _ IH]; intros st; [done|]. cbn [map fold_left fmap list_fmap].
    rewrite <- IH. f_equal. by apply add_key_row. }
  rewrite Hf. apply tally_histogram; [done|]. apply Forall_fmap. eapply Forall_impl; [exact Hin'|]. by intros [].
Qed.

Variables (E : Engine) (l : list CRecord).
Hypothesis Hnd : NoDup (RecordID <$> l).
Hypothesis Hvalid : Forall storable_headers l.

Lemma scan_groups (groups : list (Z * Z * nat)) :
  scan_all scan_group ((fun g => [VInt g.1.1; VInt g.1.2; VInt (Z.of_nat g.2)]) <$> groups) =
  Ok ((fun g => (g.1.1, g.1.2, Z.of_nat g.2)) <$> groups).
Proof. by apply scan_all_ok. Qed.

Lemma listed_recs q : plain_names (iq_Query q) -> exists recs,
  roots_rows (roots_ast q None) (roots_vals q None) (database_of l) ≡ₚ root_vals l <$> recs /\
  sqlite_rows l q ≡ₚ sqlite_row l <$> recs /\
  Forall (fun r => window_nanos q (UnixNano (RecordTimestamp r)) = true) recs.
Proof.
  intros Hp. exists (filter (fun r => listed l q r = true) l). split_and!.
  - rewrite (roots_rows_value l Hnd Hvalid) by done. done.
  - apply SliceStable_perm.
  - apply Forall_forall. intros r [Hl _]%list_elem_of_filter. by apply andb_true_iff in Hl as [? _].
Qed.

(** C15. Histograms of the SQLite store: for a window inside the [int64]
    nanosecond range AggregateRoots returns the partition of exactly the rows
    [SQLite_ReadRoots] lists into evenly spaced buckets and status classes, and
    without a usable window their number and no buckets; any other outcome is
    the engine failing the statement. *)
Theorem SQLite_AggregateRoots_spec q n :
  answers E (aggregate_query (roots_ast q None)) -> answers E (roots_count_query (roots_ast q None)) ->
  plain_names (iq_Query q) ->
  (forall since til, iq_Since q = Some since -> iq_Until q = Some til -> good_window since til n ->
     match SQLite_AggregateRoots E (database_of l) q n with
     | Ok a => histogram_of (sqlite_rows l q) since til n a
     | Err (ErrBackend _) => engine_failed E (database_of l)
     | Err _ => False
     end) /\
  (bucketing q n = None ->
     match SQLite_AggregateRoots E (database_of l) q n with
     | Ok a => a = mkAggregation (length (sqlite_rows l q)) []
     | Err (ErrBackend _) => engine_failed E (database_of l)
     | Err _ => False
     end).
Proof.
  intros Ha Hc Hp. unfold SQLite_AggregateRoots. destruct (build_eq q None) as [Ht _].
  destruct (listed_recs q Hp) as (recs & Hrows & Hrs & Hwin). unfold roots_vals in *.
  destruct (buildRootsUnionSQL q None) as [innerSQL innerArgs]. cbn [fst snd] in *. subst innerSQL. split.
  - intros since til Hs Hu Hg. rewrite (bucketing_good q since til n) by done. cbn [bk_since bk_width bk_count].
    destruct (eng_query _ _ _ _) as [rows|e] eqn:Eq; [|by eexists _, _, _].
    apply Ha in Eq. cbn [qs_sem aggregate_query] in Eq.
    assert (Hin : Forall (fun r => since <= UnixNano (RecordTimestamp r) < til)%Z recs).
    { eapply Forall_impl; [exact Hwin|]. intros r. unfold window_nanos. rewrite Hs, Hu.
      destruct Hg as (Hsi & Hui & _). change (UnixNano since) with (wrap_i64 since). change (UnixNano til) with (wrap_i64 til).
      rewrite (wrap_i64_id since), (wrap_i64_id til) by done.
      intros [?%Z.leb_le ?%Z.ltb_lt]%andb_true_iff. lia. }
    destruct Eq as (groups & Hgr & ->).
    + unfold width. lia.
    + rewrite Hrows. apply Forall_fmap. eapply Forall_impl; [exact Hin|]. intros r Hr.
      assert (col_int 2 (root_vals l r) = UnixNano (RecordTimestamp r)) as Hcol by (by destruct r).
      cbn. rewrite Hcol. destruct Hg as (Hsi & Hui & ? & ? & _). unfold in_i64, two63 in *. lia.
    + rewrite scan_groups. pose proof (groups_histogram l since til n recs groups Hg Hin) as Hh.
      cbv zeta in Hh. destruct (fold_left _ _ _) as [total buckets]. rewrite Hrs. apply Hh.
      destruct Hgr as (? & ? & Hk). split_and!; [done..|]. by rewrite <- Hrows.
  - intros ->. destruct (eng_query _ _ _ _) as [rows|e] eqn:Eq; [|by eexists _, _, _].
    apply Hc in Eq. cbn [qs_sem roots_count_query] in Eq. subst rows. cbn. rewrite Nat2Z.id. 
    by rewrite Hrows, Hrs, !length_fmap.
Qed.
End Aggregate.

(** ** Example *)

Section RunAggregate.
Context `{SqlText} `{SqlJson} `{Unicode} (q : InspectQuery).

Definition aggregate_rows (st : roots_stmt) (args : list sqlVal) (db : Database) : list (list sqlVal) :=
  match args with
  | VInt since :: VInt w :: rest =>
      (fun g => [VInt g.1.1; VInt g.1.2; VInt (Z.of_nat g.2)]) <$> group_keys (group_key since w <$> roots_rows st rest db)
  | _ => []
  end.

Definition run_aggregate (text : string) (args : list sqlVal) (db : Database) : result string (list (list sqlVal)) :=
  let st := roots_ast q None in
  if String.eqb text (qs_text (aggregate_query st)) then Ok (aggregate_rows st args db)
  else if String.eqb text (qs_text (roots_count_query st)) then Ok [[VInt (Z.of_nat (length (roots_rows st args db)))]]
  else Err "no such statement".

Lemma run_aggregate_answers :
  answers (list_engine run_aggregate) (aggregate_query (roots_ast q None)) /\
  answers (list_engine run_aggregate) (roots_count_query (roots_ast q None)).
Proof.
  split; intros args db rows; cbn [eng_query list_engine]; unfold run_aggregate.
  - rewrite String.eqb_refl. intros [= <-]. cbn [qs_sem aggregate_query].
    destruct args as [|[] [|[] rest]]; try done. intros _ _. eexists. split; [apply group_keys_grouped|done].
  - replace (String.eqb _ (qs_text (aggregate_query (roots_ast q None)))) with false by done.
    rewrite String.eqb_refl. by intros [= <-].
Qed.
End RunAggregate.

#[local] Existing Instance sqlite_text.
#[local] Existing Instance sqlite_json.
#[local] Existing Instance ascii_unicode.

Lemma SQLite_AggregateRoots_spec_witness :
  match SQLite_AggregateRoots (list_engine (run_aggregate (window 0 40))) (database_of sample_records) (window 0 40) 4 with
  | Ok a => ag_Total a = 2 /\ histogram_of (sqlite_rows sample_records (window 0 40)) 0 40 4 a
  | Err _ => False
  end.
Proof.
  assert (NoDup (RecordID <$> sample_records)) as Hnd by (apply (bool_decide_unpack _); vm_compute; exact I).
  destruct (run_aggregate_answers (window 0 40)) as [Ha Hc].
  destruct (SQLite_AggregateRoots_spec (list_engine (run_aggregate (window 0 40))) sample_records Hnd
    sample_storable_headers (window 0 40) 4 Ha Hc) as [Hg _]; [by constructor|].
  specialize (Hg 0%Z 40%Z eq_refl eq_refl ltac:(unfold good_window, in_i64, two63; lia)).
  assert (Hok : match SQLite_AggregateRoots (list_engine (run_aggregate (window 0 40))) (database_of sample_records)
    (window 0 40) 4 with Ok a => ag_Total a = 2 | Err _ => False end) by (vm_compute; reflexivity).
  destruct (SQLite_AggregateRoots _ _ _ _); [|done]. by split.
Defined.
