(* ===== verification/SqliteServicesFacts.v ===== *)
(** * Service statistics over SQLite *)
From S2P Require Import Prelude GoLib Record SearchQL Predicate SearchSQL SearchSQLFacts Json JsonFacts Sqlite SqlQuery.
From S2P Require Import MemorySink Inspect MemoryReader MemoryReaderFacts AdminInspect AdminInspectFacts.
From S2P Require Import SqliteReader SqliteFacts SqliteDetailFacts SqliteRootsSpec SqliteTerms SqliteRootsFacts.

Open Scope string_scope.

(** ** The statements *)

(** timestamp >= ?, absent without an argument *)
Definition since_holds (args : list sqlVal) (r : Row) : bool :=
  match args with [] => true | v :: _ => sql_true (not3 (lt3 (cell r "timestamp") v)) end.

(** GROUP BY service: every service of the selected rows once, with the
    columns of its rows. *)
Definition by_service (sel : list Row) (cols : list Row -> list sqlVal) (rows : list (list sqlVal)) : Prop :=
  exists svcs, NoDup svcs /\ (forall s, s ∈ svcs <-> s ∈ (fun r => cell r "service") <$> sel) /\
    rows = (fun s => s :: cols (filter (fun r => cell r "service" = s) sel)) <$> svcs.

Definition last_timestamp (rs : list Row) : sqlVal := max_int ((fun r => cell r "timestamp") <$> rs).

Definition request_stat_cols (rs : list Row) : list sqlVal := [VInt (Z.of_nat (length rs)); last_timestamp rs].

(** SUM(CASE WHEN cond THEN 1 ELSE 0 END) *)
Definition sum_case (cond : Z -> bool) (rs : list Row) : sqlVal :=
  VInt (Z.of_nat (length (filter (fun r => sql_true (int3 (cell r "status") cond) = true) rs))).

Definition event_stat_cols (rs : list Row) : list sqlVal :=
  [sum_case (fun z => (200 <=? z) && (z <? 300))%Z rs; sum_case (fun z => (300 <=? z) && (z <? 400))%Z rs;
   sum_case (fun z => (400 <=? z) && (z <? 500))%Z rs; sum_case (fun z => (500 <=? z) && (z <? 600))%Z rs;
   sum_case (fun z => (z <? 200) || (z >=? 600))%Z rs; last_timestamp rs].

Definition request_stats_query (since : time) : query_stmt := {|
  qs_text := stats_text statsRequests " WHERE timestamp >= ?" since;
  qs_sem args db rows :=
    by_service (filter (fun r => since_holds args r = true) (db_requests db)) request_stat_cols rows
|}.

Definition event_stats_query (since : time) : query_stmt := {|
  qs_text := stats_text statsEvents " AND timestamp >= ?" since;
  qs_sem args db rows :=
    by_service (filter (fun r => sql_true (eq3 (cell r "type") (VText "response")) && since_holds args r = true)
                  (db_events db)) event_stat_cols rows
|}.

(** ** On records *)

Definition stat_recent (since : time) (r : CRecord) : bool :=
  IsZero since || (UnixNano since <=? UnixNano (RecordTimestamp r))%Z.

Definition is_response (r : CRecord) : bool := match r with RResponse _ => true | _ => false end.

Definition recent_requests (since : time) (l : list CRecord) : list CRecord :=
  filter (fun r => is_request r && stat_recent since r = true) l.
Definition recent_responses (since : time) (l : list CRecord) : list CRecord :=
  filter (fun r => is_response r && stat_recent since r = true) l.

Definition with_service (svc : string) (l : list CRecord) : list CRecord := filter (fun r => RecordService r = svc) l.

Definition class_size (c : Z) (l : list CRecord) : nat := length (filter (fun r => response_class r = Some c) l).

Definition last_seen (l : list CRecord) : Z := foldr Z.max time_zero ((fun r => UnixNano (RecordTimestamp r)) <$> l).

Lemma cell_timestamp r : cell (row_of r) "timestamp" = VInt (UnixNano (RecordTimestamp r)).
Proof. by destruct r. Qed.

Lemma since_holds_row since r : since_holds (stats_args since) (row_of r) = stat_recent since r.
Proof.
  unfold since_holds, stats_args, stat_recent. destruct (IsZero since); [done|]. rewrite cell_timestamp. cbn.
  by rewrite sql_true_some, Z.leb_antisym.
Qed.

Lemma selected_requests since l :
  filter (fun r => since_holds (stats_args since) r = true) (db_requests (database_of l)) = row_of <$> recent_requests since l.
Proof.
  cbn [db_requests database_of]. unfold requests_of, recent_requests. rewrite filter_fmap, list_filter_filter. f_equal.
  apply filter_ext_elem. intros r _. rewrite since_holds_row, andb_true_iff. tauto.
Qed.

Lemma selected_responses since l :
  filter (fun r => sql_true (eq3 (cell r "type") (VText "response")) && since_holds (stats_args since) r = true)
    (db_events (database_of l)) = row_of <$> recent_responses since l.
Proof.
  cbn [db_events database_of]. unfold events_of, recent_responses. rewrite filter_fmap, list_filter_filter. f_equal.
  apply filter_ext_elem. intros r _. rewrite since_holds_row, !andb_true_iff.
  destruct r; cbn; naive_solver.
Qed.

(** The groups, named by string. *)
Lemma by_service_records recs cols rows :
  by_service (row_of <$> recs) cols rows ->
  exists names, NoDup names /\ (forall n, n ∈ names <-> n ∈ RecordService <$> recs) /\
    rows = (fun n => VText n :: cols (row_of <$> with_service n recs)) <$> names.
Proof.
  intros (svcs & Hnd & Hin & ->).
  assert (Hnames : exists names, svcs = VText <$> names).
  { assert (Hall : forall s, s ∈ svcs -> exists n, s = VText n).
    { intros s Hs. apply Hin in Hs as (r & -> & (x & -> & _)%list_elem_of_fmap)%list_elem_of_fmap.
      rewrite cell_service. eauto. }
    clear -Hall. induction svcs as [|s svcs IH]; [by exists []|]. destruct (Hall s) as [n ->]; [by left|].
    destruct IH as [names ->]; [intros; apply Hall; by right|]. by exists (n :: names). }
  destruct Hnames as [names ->]. exists names. apply NoDup_fmap_1 in Hnd as Hn. split_and!; [done| |].
  - intros n. specialize (Hin (VText n)). rewrite <- list_fmap_compose in Hin.
    rewrite !list_elem_of_fmap in *. split.
    + intros Hn'. destruct (proj1 Hin) as (r & Hr & Hr'); [by exists n|]. exists r. split; [|done].
      cbn in Hr. rewrite cell_service in Hr. by injection Hr.
    + intros (r & -> & Hr). destruct (proj2 Hin) as (n & Hn' & Hin'); [|by injection Hn' as ->].
      exists r. cbn. by rewrite cell_service.
  - rewrite <- list_fmap_compose. apply list_fmap_ext. intros i n _. cbn. do 2 f_equal. rewrite filter_fmap. f_equal.
    unfold with_service. apply filter_ext_elem. intros r _. rewrite cell_service. split; [by intros [=]|by intros ->].
Qed.

(** ** Columns on records *)

Lemma last_timestamp_records recs : recs <> [] -> last_timestamp (row_of <$> recs) = VInt (last_seen recs).
Proof.
  intros Hne. unfold last_timestamp, last_seen. rewrite <- list_fmap_compose.
  induction recs as [|r recs IH]; [done|]. clear Hne. rewrite !fmap_cons. cbn [foldr max_int compose].
  rewrite cell_timestamp. pose proof (wrap_i64_range (RecordTimestamp r)) as Hr. fold (UnixNano (RecordTimestamp r)) in Hr.
  destruct recs as [|r' recs].
  - cbn. f_equal. unfold in_i64, two63, time_zero in *. lia.
  - unfold max_int in IH. rewrite IH by done. done.
Qed.

Lemma sum_case_records cond c recs :
  (forall z, cond z = bool_decide (statusClass (Some z) = c)) -> Forall (fun r => is_response r = true) recs ->
  sum_case cond (row_of <$> recs) = VInt (Z.of_nat (class_size c recs)).
Proof.
  intros Hc Hr. unfold sum_case, class_size. do 2 f_equal. rewrite filter_fmap, length_fmap. f_equal.
  apply filter_ext_elem. intros r Hin. rewrite Forall_forall in Hr. specialize (Hr r Hin).
  destruct r as [v|v|v]; [done| |done]. cbn -[statusClass]. rewrite sql_true_some, Hc, bool_decide_eq_true. split; [by intros ->|by intros [=]].
Qed.

Ltac class_cases :=
  intros z; unfold statusClass;
  repeat match goal with
  | |- context [Z.leb ?a ?b] => destruct (Z.leb_spec a b)
  | |- context [Z.ltb ?a ?b] => destruct (Z.ltb_spec a b)
  | |- context [Z.geb ?a ?b] => destruct (Z.geb_spec a b)
  end; cbn [andb orb]; first [lia | by rewrite bool_decide_eq_true_2 | by rewrite bool_decide_eq_false_2].

Lemma event_cols_records recs :
  recs <> [] -> Forall (fun r => is_response r = true) recs ->
  event_stat_cols (row_of <$> recs) =
  (((fun c => VInt (Z.of_nat (class_size c recs))) <$> [2; 3; 4; 5; 0]%Z) ++ [VInt (last_seen recs)])%list.
Proof.
  intros Hne Hr. unfold event_stat_cols. rewrite last_timestamp_records by done.
  rewrite (sum_case_records _ 2), (sum_case_records _ 3), (sum_case_records _ 4), (sum_case_records _ 5),
    (sum_case_records _ 0); done || class_cases.
Qed.

(** ** The two loops *)

Section Fold.
Context {X V : Type} (key : X -> string) (upd : X -> option V -> V).

Definition upsert (m : gmap string V) (x : X) : gmap string V := <[key x := upd x (m !! key x)]> m.

Lemma upserts_other xs m k : k ∉ key <$> xs -> fold_left upsert xs m !! k = m !! k.
Proof.
  revert m. induction xs as [|x xs IH]; intros m Hk; [done|]. rewrite fmap_cons, not_elem_of_cons in Hk.
  cbn [fold_left]. rewrite IH by tauto. unfold upsert. by rewrite lookup_insert_ne by (intros <-; tauto).
Qed.

Lemma upserts_here xs m x : NoDup (key <$> xs) -> x ∈ xs -> fold_left upsert xs m !! key x = Some (upd x (m !! key x)).
Proof.
  revert m. induction xs as [|y xs IH]; intros m Hnd Hx; [by apply elem_of_nil in Hx|].
  rewrite fmap_cons, NoDup_cons in Hnd. destruct Hnd as [Hy Hnd]. cbn [fold_left].
  apply elem_of_cons in Hx as [->|Hx].
  - rewrite upserts_other by done. unfold upsert. by rewrite lookup_insert_eq.
  - rewrite IH by done. unfold upsert. rewrite lookup_insert_ne; [done|]. intros Heq. apply Hy. rewrite Heq.
    by apply list_elem_of_fmap_2.
Qed.
End Fold.

Definition req_stat (svc : string) (recs : list CRecord) : string * Z * Z :=
  (svc, Z.of_nat (length recs), last_seen recs).
Definition ev_stat (svc : string) (recs : list CRecord) : string * (Z * Z * Z * Z * Z) * Z :=
  (svc, (Z.of_nat (class_size 2 recs), Z.of_nat (class_size 3 recs), Z.of_nat (class_size 4 recs),
         Z.of_nat (class_size 5 recs), Z.of_nat (class_size 0 recs)), last_seen recs).

(** What the statistics of a service are. *)
Definition service_stat (since : time) (l : list CRecord) (svc : string) : ServiceStat :=
  let reqs := with_service svc (recent_requests since l) in
  let resps := with_service svc (recent_responses since l) in
  mkServiceStat svc (length reqs) (Z.max (last_seen reqs) (last_seen resps)) (class_size 2 resps) (class_size 3 resps)
    (class_size 4 resps) (class_size 5 resps) (class_size 0 resps).

Definition active_service (since : time) (l : list CRecord) (svc : string) : Prop :=
  with_service svc (recent_requests since l) <> [] \/ with_service svc (recent_responses since l) <> [].

Lemma with_service_nonempty svc recs : with_service svc recs <> [] <-> svc ∈ RecordService <$> recs.
Proof.
  unfold with_service. rewrite list_elem_of_fmap. split.
  - destruct (filter _ recs) as [|r rs] eqn:Ef; [done|]. intros _.
    assert (Hr : r ∈ filter (fun r => RecordService r = svc) recs) by (rewrite Ef; left).
    apply list_elem_of_filter in Hr as [Hs Hr]. by exists r.
  - intros (r & -> & Hr) Hn. assert (Hx : r ∈ filter (fun x => RecordService x = RecordService r) recs)
      by (by apply list_elem_of_filter). rewrite Hn in Hx. by apply elem_of_nil in Hx.
Qed.

Lemma last_seen_zero recs : (time_zero <= last_seen recs)%Z.
Proof. unfold last_seen. induction recs as [|r recs IH]; cbn in *; lia. Qed.

Lemma later_max t u : later t u = Z.max t u.
Proof. unfold later, After. destruct (Z.ltb_spec u t); lia. Qed.

Definition req_update (row : string * Z * Z) (o : option ServiceStat) : ServiceStat :=
  let st := default (new_stat row.1.1) o in
  mkServiceStat (ss_Name st) (Z.to_nat row.1.2) (later (Unix0 row.2) (ss_LastSeen st)) (ss_S2xx st) (ss_S3xx st)
    (ss_S4xx st) (ss_S5xx st) (ss_Other st).

Definition ev_update (row : string * (Z * Z * Z * Z * Z) * Z) (o : option ServiceStat) : ServiceStat :=
  let st := default (new_stat row.1.1) o in
  let '(s2, s3, s4, s5, other) := row.1.2 in
  mkServiceStat (ss_Name st) (ss_Requests st) (later (Unix0 row.2) (ss_LastSeen st)) (Z.to_nat s2) (Z.to_nat s3)
    (Z.to_nat s4) (Z.to_nat s5) (Z.to_nat other).

Lemma fold_left_ext {A B} (f g : A -> B -> A) l a : (forall a b, f a b = g a b) -> fold_left f l a = fold_left g l a.
Proof. intros Hfg. revert a. induction l as [|b l IH]; intros a; [done|]. cbn. by rewrite Hfg, IH. Qed.

Lemma req_loop rows m : fold_left add_req_stat rows m = fold_left (upsert (fun r => r.1.1) req_update) rows m.
Proof. apply fold_left_ext. by intros ? [[] ?]. Qed.

Lemma ev_loop rows m : fold_left add_ev_stat rows m = fold_left (upsert (fun r => r.1.1) ev_update) rows m.
Proof. apply fold_left_ext. by intros ? [[? [[[[] ?] ?] ?]] ?]. Qed.

(** A loop over one row per name is a lookup by name. *)
Lemma upserts_names {X V} (key : X -> string) (upd : X -> option V -> V) (f : string -> X) names m svc :
  (forall n, key (f n) = n) -> NoDup names ->
  fold_left (upsert key upd) (f <$> names) m !! svc =
  if decide (svc ∈ names) then Some (upd (f svc) (m !! svc)) else m !! svc.
Proof.
  intros Hk Hnd. assert (Hkeys : key <$> (f <$> names) = names).
  { rewrite <- list_fmap_compose. rewrite (list_fmap_ext _ id); [apply list_fmap_id|]. intros i n _. apply Hk. }
  case_decide as Hin.
  - rewrite <- (Hk svc) at 1. rewrite upserts_here; [by rewrite Hk|by rewrite Hkeys|by apply list_elem_of_fmap_2].
  - by rewrite upserts_other by (by rewrite Hkeys).
Qed.

Lemma stats_lookup_sqlite since l names1 names2 svc :
  NoDup names1 -> (forall n, n ∈ names1 <-> n ∈ RecordService <$> recent_requests since l) ->
  NoDup names2 -> (forall n, n ∈ names2 <-> n ∈ RecordService <$> recent_responses since l) ->
  let stats := fold_left add_ev_stat ((fun n => ev_stat n (with_service n (recent_responses since l))) <$> names2)
    (fold_left add_req_stat ((fun n => req_stat n (with_service n (recent_requests since l))) <$> names1) ∅) in
  (active_service since l svc -> stats !! svc = Some (service_stat since l svc)) /\
  (~ active_service since l svc -> stats !! svc = None).
Proof.
  intros Hn1 Hi1 Hn2 Hi2. cbv zeta. rewrite req_loop, ev_loop, !upserts_names by done. rewrite lookup_empty.
  unfold active_service. rewrite !with_service_nonempty, <- Hi1, <- Hi2.
  assert (He : forall (names : list string) recs, (forall n, n ∈ names <-> n ∈ RecordService <$> recs) -> svc ∉ names -> with_service svc recs = []).
  { intros names recs Hi Hn. rewrite Hi, <- with_service_nonempty in Hn. destruct (with_service svc recs); [done|]. by destruct Hn. }
  split.
  - intros Ha. unfold service_stat, ev_update, req_update, req_stat, ev_stat.
    pose proof (last_seen_zero (with_service svc (recent_requests since l))) as Hz1.
    pose proof (last_seen_zero (with_service svc (recent_responses since l))) as Hz2.
    case_decide as H2; case_decide as H1; [..|tauto]; cbn -[last_seen class_size time_zero];
      rewrite ?later_max, ?Nat2Z.id; unfold Unix0; f_equal; f_equal.
    + lia.
    + by rewrite (He _ _ Hi1 H1).
    + rewrite (He _ _ Hi1 H1) in *. change (last_seen []) with time_zero in *. lia.
    + rewrite (He _ _ Hi2 H2) in *. change (last_seen []) with time_zero in *. lia.
    + by rewrite (He _ _ Hi2 H2).
    + by rewrite (He _ _ Hi2 H2).
    + by rewrite (He _ _ Hi2 H2).
    + by rewrite (He _ _ Hi2 H2).
    + by rewrite (He _ _ Hi2 H2).
  - intros Ha. rewrite !decide_False by tauto. done.
Qed.

(** ** The listing *)

Section Listing.
Context `{MapRange}.

Definition by_name (a b : ServiceStat) : bool := str_ltb (ss_Name a) (ss_Name b).

Lemma stat_listing (m : gmap string ServiceStat) :
  (forall k st, m !! k = Some st -> ss_Name st = k) ->
  let out := SliceStable by_name (snd <$> go_range m) in
  StronglySorted (fun a b => str_ltb a b = true) (ss_Name <$> out) /\
  forall st, st ∈ out <-> m !! ss_Name st = Some st.
Proof.
  intros Hk out.
  assert (Hsw : StrictWeak by_name) by (apply (strict_weak_on ss_Name), _).
  assert (Hel : forall st, st ∈ out <-> m !! ss_Name st = Some st).
  { intros st. unfold out. rewrite (SliceStable_perm by_name), list_elem_of_fmap. split.
    - intros ([k st'] & -> & Hm%elem_of_go_range). cbn. by rewrite (Hk k st').
    - intros Hm. exists (ss_Name st, st). by rewrite elem_of_go_range. }
  split; [|done].
  assert (Hnd : NoDup (ss_Name <$> out)).
  { unfold out. rewrite (SliceStable_perm by_name), go_range_perm, <- list_fmap_compose.
    assert (Hfst : forall p, p ∈ map_to_list m -> (ss_Name ∘ snd) p = p.1).
    { intros [k st] Hp%elem_of_map_to_list. cbn. by apply Hk. }
    rewrite (list_fmap_ext (ss_Name ∘ snd) fst).
    - apply NoDup_fst_map_to_list.
    - intros i p Hp. by apply Hfst, (list_elem_of_lookup_2 _ i). }
  pose proof (SliceStable_sorted by_name (snd <$> go_range m)) as Hs. fold out in Hs. unfold sorted_by in Hs.
  clear Hel. induction Hs as [|x k _ IH Hx]; [constructor|]. rewrite fmap_cons in *. apply NoDup_cons in Hnd as [Hni Hnd].
  constructor; [by apply IH|]. apply Forall_fmap. rewrite Forall_forall in Hx |- *. intros y Hy. cbn.
  destruct (str_ltb (ss_Name x) (ss_Name y)) eqn:E; [done|].
  exfalso. apply Hni. rewrite (str_ltb_total _ _ E (Hx y Hy)). by apply list_elem_of_fmap_2.
Qed.
End Listing.

Section Stats.
Context `{MapRange} (E : Engine) (l : list CRecord).

Lemma scan_req_rows names recs :
  (forall n, n ∈ names -> n ∈ RecordService <$> recs) ->
  scan_all scan_req_stat ((fun n => VText n :: request_stat_cols (row_of <$> with_service n recs)) <$> names) =
  Ok ((fun n => req_stat n (with_service n recs)) <$> names).
Proof.
  intros Hn. induction names as [|n names IH]; [done|]. rewrite !fmap_cons. cbn [scan_all]. rewrite IH by (intros; apply Hn; by right).
  unfold request_stat_cols. rewrite last_timestamp_records, length_fmap by (apply with_service_nonempty, Hn; left). done.
Qed.

Lemma scan_ev_rows names recs :
  (forall n, n ∈ names -> n ∈ RecordService <$> recs) -> Forall (fun r => is_response r = true) recs ->
  scan_all scan_ev_stat ((fun n => VText n :: event_stat_cols (row_of <$> with_service n recs)) <$> names) =
  Ok ((fun n => ev_stat n (with_service n recs)) <$> names).
Proof.
  intros Hn Hr. induction names as [|n names IH]; [done|]. rewrite !fmap_cons. cbn [scan_all]. rewrite IH by (intros; apply Hn; by right).
  rewrite event_cols_records; [done|apply with_service_nonempty, Hn; left|].
  apply Forall_forall. intros r [_ Hin]%list_elem_of_filter. rewrite Forall_forall in Hr. by apply Hr.
Qed.

(** Service statistics over SQLite: exactly the services of the captured
    requests and response events in the window, in strictly ascending order,
    each with its number of requests, its responses per status class and the
    latest timestamp of either; the read fails only if the engine fails. *)
Lemma SQLite_ServiceStats_spec since :
  answers E (request_stats_query since) -> answers E (event_stats_query since) ->
  match SQLite_ServiceStats E (database_of l) since with
  | Ok stats =>
      StronglySorted (fun a b => str_ltb a b = true) (ss_Name <$> stats) /\
      forall st, st ∈ stats <-> active_service since l (ss_Name st) /\ st = service_stat since l (ss_Name st)
  | Err (ErrBackend _) => engine_failed E (database_of l)
  | Err _ => False
  end.
Proof.
  intros Hq He. unfold SQLite_ServiceStats.
  destruct (eng_query E (stats_text statsRequests _ since) _ _) as [reqRows|] eqn:Eq; [|by eexists _, _, _].
  apply Hq in Eq. cbn [qs_sem request_stats_query] in Eq. rewrite selected_requests in Eq.
  apply by_service_records in Eq as (names1 & Hn1 & Hi1 & ->). rewrite scan_req_rows by (intros n; apply Hi1).
  destruct (eng_query E (stats_text statsEvents _ since) _ _) as [evRows|] eqn:Ee; [|by eexists _, _, _].
  apply He in Ee. cbn [qs_sem event_stats_query] in Ee. rewrite selected_responses in Ee.
  apply by_service_records in Ee as (names2 & Hn2 & Hi2 & ->). rewrite scan_ev_rows.
  2:{ intros n. apply Hi2. }
  2:{ apply Forall_forall. intros r [Hr _]%list_elem_of_filter. by apply andb_true_iff in Hr as [? _]. }
  set (stats := fold_left add_ev_stat _ _).
  assert (Hlook : forall k st, stats !! k = Some st <-> active_service since l k /\ st = service_stat since l k).
  { intros k st. destruct (stats_lookup_sqlite since l names1 names2 k Hn1 Hi1 Hn2 Hi2) as [Ha Hna]. fold stats in Ha, Hna.
    assert (Hdec : active_service since l k \/ ~ active_service since l k).
    { unfold active_service. destruct (with_service k (recent_requests since l)); [|by left; left].
      destruct (with_service k (recent_responses since l)); [|by left; right]. right. intros []; done. }
    destruct Hdec as [Hact|Hact]; [rewrite (Ha Hact)|rewrite (Hna Hact)]; split; naive_solver. }
  destruct (stat_listing stats) as [Hs Hel].
  { intros k st [_ ->]%Hlook. done. }
  split; [exact Hs|]. intros st. rewrite Hel. apply Hlook.
Qed.
End Stats.

(** ** Example *)

Definition service_rows (sel : list Row) (cols : list Row -> list sqlVal) : list (list sqlVal) :=
  (fun s => s :: cols (filter (fun r => cell r "service" = s) sel)) <$> remove_dups ((fun r => cell r "service") <$> sel).

Lemma service_rows_grouped sel cols : by_service sel cols (service_rows sel cols).
Proof.
  exists (remove_dups ((fun r => cell r "service") <$> sel)).
  split_and!; [apply NoDup_remove_dups|intros s; apply elem_of_remove_dups|done].
Qed.

Definition run_stats (since : time) (text : string) (args : list sqlVal) (db : Database) : result string (list (list sqlVal)) :=
  if String.eqb text (qs_text (request_stats_query since)) then
    Ok (service_rows (filter (fun r => since_holds args r = true) (db_requests db)) request_stat_cols)
  else if String.eqb text (qs_text (event_stats_query since)) then
    Ok (service_rows (filter (fun r => sql_true (eq3 (cell r "type") (VText "response")) && since_holds args r = true)
          (db_events db)) event_stat_cols)
  else Err "no such statement".

Lemma SQLite_ServiceStats_spec_witness :
  match @SQLite_ServiceStats sorted_range (list_engine (run_stats 15%Z)) (database_of sample_records) 15%Z with
  | Ok stats => stats = [mkServiceStat "svc" 1 30%Z 1 0 0 0 0] /\
      forall st, st ∈ stats <-> active_service 15%Z sample_records (ss_Name st) /\
        st = service_stat 15%Z sample_records (ss_Name st)
  | Err _ => False
  end.
Proof.
  assert (Hc : @SQLite_ServiceStats sorted_range (list_engine (run_stats 15%Z)) (database_of sample_records) 15%Z =
    Ok [mkServiceStat "svc" 1 30%Z 1 0 0 0 0]) by (vm_compute; reflexivity).
  pose proof (SQLite_ServiceStats_spec (H := sorted_range) (list_engine (run_stats 15%Z)) sample_records 15%Z) as Hs.
  rewrite Hc in *. split; [reflexivity|]. apply Hs.
  - intros args db rows. cbn [eng_query list_engine]. unfold run_stats. rewrite String.eqb_refl. intros [= <-].
    apply service_rows_grouped.
  - intros args db rows. cbn [eng_query list_engine]. unfold run_stats.
    replace (String.eqb _ (qs_text (request_stats_query 15%Z))) with false by reflexivity.
    rewrite String.eqb_refl. intros [= <-]. apply service_rows_grouped.
Defined.
