(* ===== verification/StoresFacts.v ===== *)
(** * The two stores side by side

    The pipeline writes every record to the ring and to SQLite. Here the two
    readers, proved correct apart, are compared and combined: which searches
    mean the same to both, and what the merged list of the inspect endpoint
    shows when both hold the records of one history. *)
From S2P Require Import Prelude GoLib Record SearchQL Predicate SearchSQL SearchSQLFacts Json JsonFacts Sqlite SqlQuery.
From S2P Require Import MemorySink Inspect MemoryReader MemoryReaderFacts AdminInspect AdminInspectFacts.
From S2P Require Import SqliteReader SqliteFacts SqliteDetailFacts SqliteRootsSpec SqliteTerms SqliteRootsFacts.

Open Scope string_scope.

(** ** Searches that mean the same *)

(** The fields both stores compare in the same way: those with a column of
    their own, and bodies as far as ASCII goes. *)
Definition shared_term (r : CRecord) (t : Term) : Prop :=
  match t_Field t with
  | FieldHost | FieldPath | FieldService | FieldMethod | FieldSourceIP | FieldCorrelationID => True
  | FieldBody => match r with RRequest v => is_ascii (cr_Body v) = true | _ => True end
  | _ => False
  end.

Definition shared_terms (q : InspectQuery) (r : CRecord) : Prop := Forall (shared_term r) (q_Terms (iq_Query q)).

(** Times SQLite can hold: int64 nanoseconds. *)
Definition window_in_range (q : InspectQuery) : Prop :=
  (forall t, iq_Since q = Some t -> in_i64 t) /\ (forall t, iq_Until q = Some t -> in_i64 t).

Section Agreement.
Context `{SqlText} `{Unicode} `{MapRange}.

Lemma scan_text_ascii t s : is_ascii s = true -> scan_text t s = bodyContainsFold s (ToLower (t_Value t)).
Proof.
  intros Hs. unfold scan_text, bodyContainsFold. assert (str_map lower_byte s = ToLower s) as -> by (unfold ToLower; by rewrite Hs).
  destruct (String.eqb_spec (ToLower (t_Value t)) "") as [->|_]; [by destruct (ToLower s)|done].
Qed.

Lemma shared_request_term l t v :
  shared_term (RRequest v) t -> request_term l t v = matchTerm t (bodyNeedleOf t) v.
Proof.
  intros Ht. unfold shared_term, request_term, matchTerm, request_holds, evaluateTerm, bodyNeedleOf in *.
  destruct (t_Field t); try done; rewrite ?scan_text_ascii by done; by destruct (t_Negated t).
Qed.

Lemma shared_having r t n st : shared_term r t -> having_term t n st = true.
Proof. unfold shared_term, having_term. by destruct (t_Field t). Qed.

Lemma shared_requests l q v n st :
  shared_terms q (RRequest v) ->
  forallb (fun t => request_term l t v) (q_Terms (iq_Query q)) &&
  forallb (fun t => having_term t n st) (q_Terms (iq_Query q)) = CompilePredicate (iq_Query q) v.
Proof.
  unfold shared_terms. intros Ht. rewrite CompilePredicate_forallb. induction Ht as [|t ts Ht _ IH]; [done|]. cbn [forallb].
  rewrite shared_request_term, (shared_having (RRequest v)), <- IH by done. cbn [andb]. by rewrite andb_assoc.
Qed.

Lemma matchOrphanString_eq s t : matchOrphanString s t = matchString s t.
Proof. done. Qed.

Lemma sql_true_guard (b c : bool) : sql_true (Some b) && c = (if negb b then false else c).
Proof. by destruct b. Qed.

(** A shared term that is not request-only is one on service or correlation id. *)
Lemma shared_orphan_fields r ts :
  Forall (shared_term r) ts -> HasRequestOnlyTerm (mkQuery ts) = false ->
  Forall (fun t => t_Field t = FieldService \/ t_Field t = FieldCorrelationID) ts.
Proof.
  intros Ht. unfold HasRequestOnlyTerm. cbn [q_Terms]. induction Ht as [|t ts Ht _ IH]; [constructor|]. cbn [existsb].
  intros [Hx Hts]%orb_false_iff. constructor; [|by apply IH]. unfold shared_term in Ht. destruct (t_Field t); auto; done.
Qed.

Lemma shared_orphans q r :
  shared_terms q r -> HasRequestOnlyFilter q = false ->
  forallb (fun t => orphan_term t r) (q_Terms (iq_Query q)) =
  match r with
  | RRequest _ => forallb (fun t => orphan_term t r) (q_Terms (iq_Query q))
  | RResponse v => matchOrphanResponse (iq_Query q) v
  | ROutbound v => matchOrphanOutbound (iq_Query q) v
  end.
Proof.
  unfold shared_terms. intros Ht Hro. unfold HasRequestOnlyFilter in Hro. destruct (iq_Query q) as [ts]. cbn [q_Terms] in *.
  pose proof (shared_orphan_fields r ts Ht Hro) as Hf. unfold matchOrphanResponse, matchOrphanOutbound. cbn [q_Terms].
  destruct r as [v|v|v]; [done|..]; clear Ht Hro; induction Hf as [|t ts Hf _ IH]; try done; cbn [forallb].
  - rewrite IH. cbn [match_response_terms]. unfold orphan_term, orphan_holds, orphan_clause, evaluateOrphanResponseTerm,
      evaluateOrphanCommonTerm. destruct Hf as [-> | ->]; cbn -[matchString];
      destruct (t_Negated t); cbn -[matchString]; rewrite ?matchOrphanString_eq; apply sql_true_guard.
  - rewrite IH. cbn [match_outbound_terms]. unfold orphan_term, orphan_holds, orphan_clause, evaluateOutboundOrphanTerm,
      evaluateOrphanCommonTerm. destruct Hf as [Hf | Hf]; rewrite decide_False by congruence; rewrite Hf;
      cbn -[matchString]; destruct (t_Negated t); cbn -[matchString]; rewrite ?matchOrphanString_eq; apply sql_true_guard.
Qed.

Lemma window_agree q ts : window_in_range q -> in_i64 ts -> window_nanos q (UnixNano ts) = in_window q ts.
Proof.
  intros [Hs Hu] Ht. unfold window_nanos, in_window, Before, UnixNano. rewrite (wrap_i64_id ts) by done. f_equal.
  - destruct (iq_Since q) as [t|]; [|done]. rewrite wrap_i64_id by auto. by rewrite Z.leb_antisym.
  - destruct (iq_Until q) as [t|]; [|done]. by rewrite wrap_i64_id by auto.
Qed.

Lemma is_orphan_iff l r k : Kind r = k -> is_orphan l r = true <-> orphan k l r.
Proof.
  intros Hk. unfold is_orphan, orphan. rewrite negb_true_iff, <- not_true_iff_false, existsb_true_iff.
  unfold correlated_with. setoid_rewrite String.eqb_eq. split.
  - intros Hn. split; [done|]. intros q Hq Heq. apply Hn. exists (RRequest q). split; [|done].
    by apply list_elem_of_filter.
  - intros [_ Hn] (x & [Hx Hin]%list_elem_of_filter & Heq). destruct x as [v|v|v]; [|done..]. by apply (Hn v).
Qed.

(** The stores agree on which records a search of shared terms shows. *)
Lemma listed_iff_shown l q r :
  shared_terms q r -> window_in_range q -> in_i64 (RecordTimestamp r) ->
  listed l q r = true <-> shown l q r.
Proof.
  intros Hts Hw Ht. unfold listed, shown. rewrite andb_true_iff, window_agree, in_window_spec by done.
  destruct r as [v|v|v].
  - rewrite shared_requests by done. tauto.
  - destruct (HasRequestOnlyFilter q) eqn:Ero; cbn [negb andb].
    + split; [by intros [_ ?]|]. by intros (_ & _ & ? & _).
    + rewrite andb_true_iff, (is_orphan_iff _ _ KindResponseEvent), (shared_orphans q (RResponse v)) by done. tauto.
  - destruct (HasRequestOnlyFilter q) eqn:Ero; cbn [negb andb].
    + split; [by intros [_ ?]|]. by intros (_ & _ & ? & _).
    + rewrite andb_true_iff, (is_orphan_iff _ _ KindOutboundEvent), (shared_orphans q (ROutbound v)) by done. tauto.
Qed.

(** ** Rows *)

(** The memory reader reports no status for a request. *)
Definition memory_view (row : RootRow) : RootRow :=
  if String.eqb (row_Kind row) "request" then
    mkRootRow (row_ID row) (row_Kind row) (row_Timestamp row) (row_Service row) (row_Method row) (row_Path row)
      (row_CorrelationID row) (row_SourceIP row) (row_EventCount row) (row_HasEvents row) None
  else row.

Lemma events_for_length l v :
  length (events_for l v) =
  length (filter (fun e => Kind e <> KindRequest /\ RecordCorrelationID e = cr_CorrelationID v) l).
Proof.
  unfold events_for, events_of. rewrite list_filter_filter. f_equal. apply filter_ext_elem. intros e _.
  unfold correlated_with. rewrite String.eqb_eq. destruct e; cbn; naive_solver.
Qed.

Lemma sqlite_row_view l r : in_i64 (RecordTimestamp r) -> memory_view (sqlite_row l r) = row_for l r.
Proof.
  intros Ht. assert (Hu : UnixNano (RecordTimestamp r) = RecordTimestamp r) by (by apply wrap_i64_id).
  destruct r as [v|v|v]; cbn in Hu |- *; unfold memory_view; cbn; rewrite Hu; [|done..]. by rewrite events_for_length.
Qed.

Lemma row_for_perm l1 l2 r : l1 ≡ₚ l2 -> row_for l1 r = row_for l2 r.
Proof. intros Hp. destruct r; [|done..]. cbn. by rewrite Hp. Qed.

Lemma listed_perm l1 l2 q r :
  l1 ≡ₚ l2 -> shared_terms q r -> window_in_range q -> in_i64 (RecordTimestamp r) ->
  listed l1 q r = true <-> shown l2 q r.
Proof.
  intros Hp Hts Hw Ht. rewrite listed_iff_shown by done.
  assert (Ho : forall k, orphan k l1 r <-> orphan k l2 r).
  { intros k. unfold orphan. split; intros [Hk Hn]; (split; [done|]); intros x Hx; apply Hn; by rewrite Hp in *. }
  unfold shown. destruct r; by rewrite ?Ho.
Qed.

Lemma memory_view_less a b : row_less (memory_view a) (memory_view b) = row_less a b.
Proof. unfold memory_view. by destruct (String.eqb (row_Kind a) "request"), (String.eqb (row_Kind b) "request"). Qed.

Lemma memory_view_ordered rows : rows_ordered rows -> rows_ordered (memory_view <$> rows).
Proof.
  unfold rows_ordered. induction 1 as [|x rows _ IH Hx]; [constructor|]. rewrite fmap_cons. constructor; [done|].
  apply Forall_fmap. eapply Forall_impl; [exact Hx|]. intros y. cbn. by rewrite memory_view_less.
Qed.

Lemma candidates_listed l q :
  window_in_range q -> Forall (fun r => in_i64 (RecordTimestamp r) /\ shared_terms q r) l ->
  candidates l q = row_for l <$> filter (fun r => listed l q r = true) l.
Proof.
  intros Hw Hl. unfold candidates. apply omap_filter. intros r Hr. rewrite Forall_forall in Hl.
  destruct (Hl r Hr) as [Ht Hts]. pose proof (listed_iff_shown l q r Hts Hw Ht) as Hls.
  destruct (root_row _ _ _ _ _ r) as [row|] eqn:Er.
  - apply root_row_spec in Er as [Hs ->]. by rewrite (proj2 Hls Hs).
  - destruct (listed l q r); [|done]. exfalso.
    assert (Hs : root_row q (negb (HasRequestOnlyFilter q)) (CompilePredicate (iq_Query q)) (request_corrs l)
      (event_counts l) r = Some (row_for l r)) by (apply root_row_spec; split; [by apply Hls|done]).
    congruence.
Qed.

(** The rows of the two stores are the same rows. *)
Lemma rows_agree cap rs q :
  NoDup (RecordID <$> rs) -> (Z.of_nat (length rs) <= cap)%Z ->
  Forall (fun r => in_i64 (RecordTimestamp r) /\ shared_terms q r) rs -> window_in_range q ->
  roots (written cap rs) q = memory_view <$> sqlite_rows rs q.
Proof.
  intros Hnd Hcap Hrs Hw. apply rows_ordered_unique.
  - by apply roots_ordered, snapshot_ids.
  - by apply memory_view_ordered, sqlite_rows_ordered.
  - unfold roots. rewrite SliceStable_perm, snapshot_written, take_ge by (rewrite length_rev; lia).
    assert (Hp : rev rs ≡ₚ rs) by (by rewrite <- Permutation_rev).
    rewrite candidates_listed by (done || by rewrite Hp).
    unfold sqlite_rows. rewrite SliceStable_perm, <- list_fmap_compose.
    assert (Hf : filter (fun r => listed (rev rs) q r = true) (rev rs) ≡ₚ filter (fun r => listed rs q r = true) rs).
    { rewrite Forall_forall in Hrs. etrans; [apply Permutation_refl', (filter_ext_elem _ (fun r => listed rs q r = true))|by rewrite Hp].
      intros r Hr. rewrite Hp in Hr. destruct (Hrs r Hr). rewrite !(listed_perm _ rs) by done. done. }
    rewrite Hf. apply Permutation_refl'. apply list_fmap_ext. intros i r Hi. cbn.
    apply list_elem_of_lookup_2, list_elem_of_filter in Hi as [_ Hr]. rewrite Forall_forall in Hrs.
    rewrite (row_for_perm (rev rs) rs) by done. symmetry. by apply sqlite_row_view, Hrs.
Qed.

(** ** Pages *)

Lemma memory_view_cursor row : cursor_of (memory_view row) = cursor_of row.
Proof. unfold memory_view. by destruct (String.eqb (row_Kind row) "request"). Qed.

Lemma memory_view_past c row : past_cursor c (memory_view row) = past_cursor c row.
Proof. unfold memory_view. by destruct (String.eqb (row_Kind row) "request"). Qed.

Lemma memory_view_page rows limit cursor :
  page_of (memory_view <$> rows) limit cursor =
  (memory_view <$> (page_of rows limit cursor).1, (page_of rows limit cursor).2).
Proof.
  assert (Ha : after_cursor cursor (memory_view <$> rows) = memory_view <$> after_cursor cursor rows).
  { destruct cursor as [c|]; [|done]. cbn [after_cursor]. rewrite filter_fmap. f_equal. apply filter_ext_elem.
    intros row _. by rewrite memory_view_past. }
  unfold page_of. rewrite Ha, <- fmap_take, length_fmap. cbn [fst snd]. f_equal. case_match; [|done].
  rewrite list_lookup_fmap. destruct (_ !! _) as [row|]; [|done]. cbn. by rewrite memory_view_cursor.
Qed.

(** ** The merged list *)

(** Records arrive in the order of their timestamps. *)
Definition chronological (rs : list CRecord) : Prop :=
  StronglySorted (fun a b => RecordTimestamp a < RecordTimestamp b)%Z rs.

(** What the ring keeps, and what it has dropped. *)
Definition recent (cap : Z) (rs : list CRecord) : list CRecord := take (Z.to_nat (Z.max 1 cap)) (rev rs).

Lemma recent_split cap rs : exists old, rs = (old ++ rev (recent cap rs))%list.
Proof.
  exists (rev (drop (Z.to_nat (Z.max 1 cap)) (rev rs))). unfold recent.
  by rewrite <- rev_app_distr, take_drop, rev_involutive.
Qed.

Lemma elem_of_recent cap rs r : r ∈ recent cap rs -> r ∈ rs.
Proof.
  intros Hr. destruct (recent_split cap rs) as [old ->]. apply elem_of_app. right. by rewrite <- Permutation_rev.
Qed.

(** Every record the ring has dropped is older than all it keeps. *)
Definition newest_kept (cap : Z) (rs : list CRecord) : Prop :=
  forall r r', r ∈ recent cap rs -> r' ∈ rs -> r' ∉ recent cap rs -> (RecordTimestamp r' < RecordTimestamp r)%Z.

(** So it is when records arrive in timestamp order, and while it has dropped
    none. *)
Lemma chronological_newest_kept cap rs : chronological rs -> newest_kept cap rs.
Proof.
  intros Hs r r' Hr Hin Hout. destruct (recent_split cap rs) as [old Eq]. set (new := recent cap rs) in *. clearbody new.
  subst rs. apply elem_of_app in Hin as [Ho|Hn]; [|by rewrite <- Permutation_rev in Hn].
  apply StronglySorted_app in Hs as (Hlt & _). apply Hlt; [done|]. by rewrite <- Permutation_rev.
Qed.

Lemma unwrapped_newest_kept cap rs : (Z.of_nat (length rs) <= Z.max 1 cap)%Z -> newest_kept cap rs.
Proof.
  intros Hlen r r' _ Hin Hout. destruct Hout. unfold recent. rewrite take_ge by (rewrite length_rev; lia).
  by rewrite <- Permutation_rev.
Qed.

Lemma distinct_ids rs r r' : NoDup (RecordID <$> rs) -> r ∈ rs -> r' ∈ rs -> RecordID r = RecordID r' -> r = r'.
Proof.
  intros Hnd [i Hi]%list_elem_of_lookup [j Hj]%list_elem_of_lookup Hid.
  assert (i = j) as ->; [|congruence]. eapply NoDup_lookup; [exact Hnd|..]; rewrite list_lookup_fmap.
  - by rewrite Hi.
  - by rewrite Hj, Hid.
Qed.

Lemma no_terms_shared q r : hasNonTemporalFilter q = false -> shared_terms q r.
Proof.
  unfold hasNonTemporalFilter, HasNonTemporalTerm, shared_terms. destruct (q_Terms (iq_Query q)); [constructor|done].
Qed.

(** A listed record the ring still holds is one memory shows. *)
Lemma listed_recent cap rs q r :
  hasNonTemporalFilter q = false -> window_in_range q -> in_i64 (RecordTimestamp r) ->
  listed rs q r = true -> shown (recent cap rs) q r.
Proof.
  intros Hq Hw Ht Hl. apply listed_iff_shown in Hl; [|by apply no_terms_shared|done|done].
  assert (Ho : forall k, orphan k rs r -> orphan k (recent cap rs) r).
  { intros k [Hk Hn]. split; [done|]. intros x Hx. by apply Hn, (elem_of_recent cap). }
  unfold shown in *. destruct r; naive_solver.
Qed.

Lemma elem_of_roots cap rs q row :
  row ∈ roots (written cap rs) q <-> exists r, r ∈ recent cap rs /\ shown (recent cap rs) q r /\ row = row_for (recent cap rs) r.
Proof. unfold roots. by rewrite (SliceStable_perm row_less), elem_of_candidates, snapshot_written. Qed.

Lemma row_for_key l r : cursor_of (row_for l r) = mkCursor (RecordTimestamp r) (RecordID r).
Proof. by destruct r. Qed.

Lemma stores_coherent cap rs q :
  NoDup (RecordID <$> rs) -> newest_kept cap rs -> Forall (fun r => in_i64 (RecordTimestamp r)) rs ->
  hasNonTemporalFilter q = false -> window_in_range q ->
  coherent (roots (written cap rs) q) (sqlite_rows rs q).
Proof.
  intros Hnd Hc Ht Hq Hw. rewrite Forall_forall in Ht.
  assert (Hkey : forall r, r ∈ rs -> cursor_of (sqlite_row rs r) = mkCursor (RecordTimestamp r) (RecordID r)).
  { intros r Hr. rewrite sqlite_row_key. f_equal. by apply wrap_i64_id, Ht. }
  split; intros m x (r & Hr & Hs & ->)%elem_of_roots (r' & Hr' & Hl & ->)%elem_of_sqlite_rows.
  - rewrite row_for_key, Hkey by done. intros Hid.
    assert (RecordID r = RecordID r') as Hid' by (by destruct r, r').
    by rewrite (distinct_ids rs r r' Hnd (elem_of_recent _ _ _ Hr) Hr' Hid').
  - intros Hnot. assert (Hout : r' ∉ recent cap rs).
    { intros Hin. apply Hnot, elem_of_row_ids. exists (row_for (recent cap rs) r'). split; [|by destruct r'].
      apply elem_of_roots. exists r'. split_and!; [done| |done]. apply (listed_recent cap rs); auto. }
    pose proof (Hc r r' Hr Hr' Hout) as Hlt.
    assert (Hts : row_Timestamp (row_for (recent cap rs) r) = RecordTimestamp r /\
      row_Timestamp (sqlite_row rs r') = RecordTimestamp r').
    { split; [by destruct r|]. pose proof (Hkey r' Hr') as Hk. by injection Hk. }
    unfold row_less, After. destruct Hts as [-> ->].
    destruct (Z.eqb_spec (RecordTimestamp r) (RecordTimestamp r')); [lia|]. cbn. apply Z.ltb_lt. lia.
Qed.

(** The view both stores together have. *)
Definition merged_view (cap : Z) (rs : list CRecord) (q : InspectQuery) : list RootRow :=
  dedup_rows (roots (written cap rs) q) (sqlite_rows rs q).

Lemma merged_view_ids cap rs q i :
  i ∈ row_ID <$> merged_view cap rs q <->
  exists r, RecordID r = i /\ (r ∈ rs /\ listed rs q r = true \/ r ∈ recent cap rs /\ shown (recent cap rs) q r).
Proof.
  unfold merged_view. rewrite dedup_rows_eq, fmap_app, elem_of_app, !list_elem_of_fmap. split.
  - intros [(m & -> & (r & Hr & Hs & ->)%elem_of_roots)|(x & -> & [_ (r & Hr & Hl & ->)%elem_of_sqlite_rows]%list_elem_of_filter)].
    + exists r. split; [by destruct r|auto].
    + exists r. split; [by destruct r|auto].
  - intros (r & <- & Hr).
    destruct (decide (RecordID r ∈ row_ids (roots (written cap rs) q))) as [(m & Hm & Hid)%elem_of_row_ids|Hn].
    { left. by exists m. }
    destruct Hr as [[Hr Hl]|[Hr Hs]].
    + right. exists (sqlite_row rs r). split; [by destruct r|]. apply list_elem_of_filter.
      split; [by destruct r|]. apply elem_of_sqlite_rows. eauto.
    + left. exists (row_for (recent cap rs) r). split; [by destruct r|]. apply elem_of_roots. eauto.
Qed.
End Agreement.

Section Merged.
Context `{SqlText} `{SqlJson} `{Unicode} `{MapRange} (E : Engine).


(** What the endpoint lists: a search is answered by SQLite alone. *)
Definition endpoint_view (cap : Z) (rs : list CRecord) (q : InspectQuery) : list RootRow :=
  if hasNonTemporalFilter q then sqlite_rows rs q else merged_view cap rs q.

(** C11. The inspect list over the real stores, a history written to both the
    ring and the SQLite tables. Every page of [gatherRoots] is the page of one
    strictly ordered view, in which every record SQLite lists has exactly one
    row and, unless the query has search terms, so has every record memory shows;
    however much the ring has dropped, provided (without search terms) that all
    it dropped is older than all it kept. Events with timestamps of their own can
    break that. *)
Theorem gatherRoots_stores cap rs q :
  NoDup (RecordID <$> rs) -> (hasNonTemporalFilter q = false -> newest_kept cap rs) ->
  Forall (fun r => in_i64 (RecordTimestamp r)) rs ->
  Forall storable_headers rs -> plain_names (iq_Query q) -> window_in_range q ->
  cursor_in_range (iq_Cursor q) -> (1 <= iq_Limit q <= 500)%Z ->
  (forall cursor, answers E (roots_page_query (roots_ast q cursor)) /\ ~ stmt_failed E rs (roots_ast q cursor)) ->
  let view := endpoint_view cap rs q in
  rows_ordered view /\
  (forall i, i ∈ row_ID <$> view <-> exists r, RecordID r = i /\
     (r ∈ rs /\ listed rs q r = true \/
      hasNonTemporalFilter q = false /\ r ∈ recent cap rs /\ shown (recent cap rs) q r)) /\
  exists next source,
    gatherRoots q (Some (memory_reader (written cap rs))) (Some (sqlite_reader E (database_of rs))) =
      Ok (take (Z.to_nat (iq_Limit q)) (after_cursor (iq_Cursor q) view), next, source).
Proof.
  intros Hnd Hc Ht Hv Hp Hw Hcr Hl HE view.
  assert (Hsql : Serves (sqlite_reader E (database_of rs)) q (sqlite_rows rs q))
    by (apply sqlite_reader_serves; try done; intros cursor; apply HE).
  unfold view, endpoint_view. destruct (hasNonTemporalFilter q) eqn:Hq.
  - split; [by apply sqlite_rows_ordered|]. split.
    + intros i. rewrite list_elem_of_fmap. split.
      * intros (x & -> & (r & Hr & Hls & ->)%elem_of_sqlite_rows). exists r. split; [by destruct r|auto].
      * intros (r & <- & [[Hr Hls]|[? _]]); [|done]. exists (sqlite_row rs r). split; [by destruct r|].
        apply elem_of_sqlite_rows. eauto.
    + unfold gatherRoots. rewrite Hq, (sv_pages (Serves := Hsql) (iq_Limit q) (iq_Cursor q)) by done. by eexists _, _.
  - destruct (gatherRoots_page (memory_reader (written cap rs)) (sqlite_reader E (database_of rs))
      (roots (written cap rs) q) (sqlite_rows rs q) q) as [Ho Hg]; try done.
    + by apply memory_reader_serves, snapshot_ids.
    + by apply stores_coherent; [|apply Hc|..].
    + split; [exact Ho|]. split; [|exact Hg]. intros i. rewrite merged_view_ids. split; intros (r & ? & ?); exists r; tauto.
Qed.
End Merged.

(** ** Examples *)

#[local] Existing Instance sqlite_text.
#[local] Existing Instance sqlite_json.
#[local] Existing Instance ascii_unicode.
#[local] Existing Instance sorted_range.

Lemma sample_ids : NoDup (RecordID <$> sample_records).
Proof. apply (bool_decide_unpack _). vm_compute. exact I. Qed.

Lemma sample_chronological : chronological sample_records.
Proof. repeat constructor. Qed.

Lemma sample_times : Forall (fun r => in_i64 (RecordTimestamp r)) sample_records.
Proof. eapply Forall_impl; [apply sample_storable|]. by intros r [? _]. Qed.

Lemma page_texts : qs_text (roots_page_query (next_stmt (limit_query 2))) <>
  qs_text (roots_page_query (first_stmt (limit_query 2))).
Proof. apply String.eqb_neq. vm_compute. reflexivity. Qed.

Definition path_query : InspectQuery :=
  mkInspectQuery 50 None (Some 5%Z) None (mkQuery [mkTerm FieldService "sv" WildcardPrefix false false "" None None]).

Lemma path_texts : qs_text (roots_page_query (next_stmt path_query)) <> qs_text (roots_page_query (first_stmt path_query)).
Proof. apply String.eqb_neq. vm_compute. reflexivity. Qed.


Definition page_engine : Engine := list_engine (run_roots (limit_query 2)).

Lemma gatherRoots_stores_witness :
  match gatherRoots (limit_query 2) (Some (memory_reader (written 1 sample_records)))
          (Some (sqlite_reader page_engine (database_of sample_records))) with
  | Ok (rows, _, _) => row_ID <$> rows = ["e2"; "r2"] /\ rows = take 2 (merged_view 1 sample_records (limit_query 2))
  | Err _ => False
  end.
Proof.
  destruct (gatherRoots_stores page_engine 1 sample_records (limit_query 2) sample_ids
    (fun _ => chronological_newest_kept 1 sample_records sample_chronological) sample_times
    sample_storable_headers) as (_ & _ & next & source & Hg).
  - constructor.
  - done.
  - done.
  - cbn. lia.
  - intros cursor. split; [apply run_roots_answers, page_texts|apply run_roots_runs].
  - rewrite Hg. split; [vm_compute; reflexivity|done].
Defined.

(** A request the ring has dropped is still listed from SQLite, and its event,
    which memory alone takes for an orphan, is listed again beside it. *)
Example evicted_request_orphans_its_event :
  let rs := [req_at "r1" "c1" 10%Z; resp_at "e1" "c1" 20%Z 200] in
  match gatherRoots (limit_query 2) (Some (memory_reader (written 1 rs))) (Some (sqlite_reader page_engine (database_of rs))) with
  | Ok (rows, _, _) => (fun row => (row_ID row, row_Kind row)) <$> rows = [("e1", "orphan_response"); ("r1", "request")] /\
      listed rs (limit_query 2) (resp_at "e1" "c1" 20%Z 200) = false
  | Err _ => False
  end.
Proof. vm_compute. split; reflexivity. Qed.

(** An event that arrives with an older timestamp while the ring drops newer
    records: the page memory fills ends below the dropped request, which no page
    ever shows. *)
Example late_event_hides_request :
  let rs := [req_at "r1" "c1" 50%Z; resp_at "e1" "c2" 20%Z 200; resp_at "e2" "c3" 10%Z 200] in
  let q := limit_query 1 in
  let E := list_engine (run_roots q) in
  match gatherRoots q (Some (memory_reader (written 2 rs))) (Some (sqlite_reader E (database_of rs))) with
  | Ok (rows, Some next, source) => row_ID <$> rows = ["e1"] /\ cur_Timestamp next = 20%Z /\ source = readSourceMemory /\
      listed rs q (req_at "r1" "c1" 50%Z) = true
  | _ => False
  end.
Proof. vm_compute. split_and!; reflexivity. Qed.

(** Neither a status term nor its negation lists a request without a response. *)
Lemma status_term_needs_response l q v t sf :
  t ∈ q_Terms (iq_Query q) -> t_Field t = FieldStatus -> t_StatusFilter t = Some sf ->
  (forall e, e ∈ events_for l v -> event_status e = None) -> listed l q (RRequest v) = false.
Proof.
  intros Ht Hf Hsf He. unfold listed. assert (highest_status (events_for l v) = None) as ->.
  { clear -He. induction (events_for l v) as [|e es IH]; [done|]. cbn. rewrite (He e) by left.
    apply IH. intros x Hx. apply He. by right. }
  assert (forallb (fun t => having_term t (length (events_for l v)) None) (q_Terms (iq_Query q)) = false) as ->
    by (apply not_true_iff_false; rewrite forallb_true_iff; intros Hx; specialize (Hx t Ht); unfold having_term in Hx;
        by rewrite Hf, Hsf in Hx).
  by rewrite !andb_false_r.
Qed.
