(* ===== verification/Capture.v ===== *)
(** * capture: body cap, identification chains, queue, counters, the handler

    A request body is the bytes the connection delivers and whether reading
    then fails. The ids and the clock a handler draws are its arguments. *)
From S2P Require Import Prelude GoLib Record.

Open Scope string_scope.
Open Scope go_scope.

(** ** bodycap.go *)

Record Body := mkBody { bd_data : string; bd_fails : bool }.

(** [io.ReadAll]. *)
Definition ReadAll (r : Body) : result unit string :=
  if bd_fails r then Err tt else Ok (bd_data r).

(** [io.ReadAll(io.LimitReader(r, n))]: a reader that is cut never reaches the
    failure behind the cut. *)
Definition ReadAllLimited (r : Body) (n : Z) : result unit string :=
  if (n <=? Z.of_nat (String.length (bd_data r)))%Z then Ok (str_take (Z.to_nat n) (bd_data r))
  else ReadAll r.

Definition CapBody (r : Body) (capBytes : Z) : result unit (string * Z * bool) :=
  if (capBytes <=? 0)%Z then
    try body <- ReadAll r;
    Ok (body, Z.of_nat (String.length body), false)
  else
    try body <- ReadAllLimited r (wrap_i64 (capBytes + 1));
    if (Z.of_nat (String.length body) <=? capBytes)%Z
    then Ok (body, Z.of_nat (String.length body), false)
    else Ok (str_take (Z.to_nat capBytes) body, wrap_i64 (capBytes + 1), true).

(** ** correlation.go *)

Definition TraceparentHeader : string := "traceparent".
Definition RequestIDHeader : string := "X-Request-ID".
Definition allZeroTraceID : string := "00000000000000000000000000000000".
Definition CorrelationSourceTraceparent : string := "traceparent".
Definition CorrelationSourceRequestID : string := "request_id".
Definition CorrelationSourceSynthesized : string := "synthesized".
Definition CorrelationSourceExplicit : string := "explicit".

Definition is_hex (c : ascii) : bool := in_range 48 57 c || in_range 97 102 c.

Section Identify.
Context `{Unicode}.

(** The rune loop rejects every non-ASCII rune, so bytes suffice. *)
Definition parseTraceparent (s : string) : option string :=
  match Split s "-" with
  | version :: traceID :: _ :: _ :: _ =>
      if negb (String.eqb version "00") then None else
      let traceID := ToLower traceID in
      if negb (String.length traceID =? 32)%nat then None else
      if negb (str_forall is_hex traceID) then None else
      if String.eqb traceID allZeroTraceID then None else Some traceID
  | _ => None
  end.

(** [fresh] is what [uuid.NewString] would return. *)
Definition IdentifyCorrelation (headers : header) (fresh : string) : string * string :=
  let tp := TrimSpace (Header_Get headers TraceparentHeader) in
  let fallback :=
    let rid := TrimSpace (Header_Get headers RequestIDHeader) in
    if negb (String.eqb rid "") then (rid, CorrelationSourceRequestID)
    else (fresh, CorrelationSourceSynthesized) in
  if negb (String.eqb tp "") then
    match parseTraceparent tp with
    | Some traceID => (traceID, CorrelationSourceTraceparent)
    | None => fallback
    end
  else fallback.

(** ** service.go *)

Definition DefaultServiceHeader : string := "X-Httpcatch-Service".
Definition HostHeader : string := "Host".
Definition UnknownService : string := "unknown".
Definition ServiceSourceHeader : string := "header".
Definition ServiceSourceHost : string := "host".
Definition ServiceSourceUnknown : string := "unknown".
Definition maxServiceLabelBytes : nat := 256.

(** Control runes are single bytes below 128. *)
Definition is_control (c : ascii) : bool := (code c <? 32)%N || (code c =? 127)%N.

Definition SanitiseServiceLabel (s : string) : string :=
  let s := TrimSpace s in
  if (String.eqb s "" || (maxServiceLabelBytes <? String.length s)%nat)%bool then ""
  else if str_exists is_control s then ""
  else ToLower s.

Definition IdentifyService (headers : header) (configuredHeader : string) : string * string :=
  let name := if String.eqb configuredHeader "" then DefaultServiceHeader else configuredHeader in
  let raw := Header_Get headers name in
  let v := if String.eqb raw "" then "" else SanitiseServiceLabel raw in
  if negb (String.eqb v "") then (v, ServiceSourceHeader) else
  let host := Header_Get headers HostHeader in
  let host := match SplitHostPort host with Ok (h, _) => h | Err _ => host end in
  let v := SanitiseServiceLabel host in
  if negb (String.eqb v "") then (v, ServiceSourceHost)
  else (UnknownService, ServiceSourceUnknown).

End Identify.

(** ** queue.go *)

Record Queue := mkQueue { qu_buf : list CRecord; qu_cap : nat; qu_dropped : Z; qu_closed : bool }.

Definition NewQueue (capacity : Z) : Queue :=
  mkQueue [] (Z.to_nat (if (capacity <? 1)%Z then 1 else capacity)) 0 false.

(** [None] is the panic of a send on a closed channel. *)
Definition Enqueue (q : Queue) (r : CRecord) : option (Queue * bool) :=
  if qu_closed q then None
  else if (length (qu_buf q) <? qu_cap q)%nat
  then Some (mkQueue (qu_buf q ++ [r])%list (qu_cap q) (qu_dropped q) false, true)
  else Some (mkQueue (qu_buf q) (qu_cap q) (u64_incr (qu_dropped q)) false, false).

(** A receive takes the oldest record; on an empty open queue it blocks. *)
Definition Dequeue (q : Queue) : option (CRecord * Queue) :=
  match qu_buf q with
  | [] => None
  | r :: rest => Some (r, mkQueue rest (qu_cap q) (qu_dropped q) (qu_closed q))
  end.

Definition CloseQueue (q : Queue) : Queue := mkQueue (qu_buf q) (qu_cap q) (qu_dropped q) true.

(** ** counters.go *)

Record Counters := mkCounters {
  cn_captured : Z;
  cn_withoutService : Z;
  cn_withoutCorrelation : Z;
  cn_bodyReadErrors : Z
}.

Definition NewCounters : Counters := mkCounters 0 0 0 0.
Definition incCaptured (c : Counters) : Counters :=
  mkCounters (u64_incr (cn_captured c)) (cn_withoutService c) (cn_withoutCorrelation c) (cn_bodyReadErrors c).
Definition incWithoutService (c : Counters) : Counters :=
  mkCounters (cn_captured c) (u64_incr (cn_withoutService c)) (cn_withoutCorrelation c) (cn_bodyReadErrors c).
Definition incWithoutCorrelation (c : Counters) : Counters :=
  mkCounters (cn_captured c) (cn_withoutService c) (u64_incr (cn_withoutCorrelation c)) (cn_bodyReadErrors c).
Definition incBodyReadError (c : Counters) : Counters :=
  mkCounters (cn_captured c) (cn_withoutService c) (cn_withoutCorrelation c) (u64_incr (cn_bodyReadErrors c)).

(** ** server.go *)

(** The parts of [*http.Request] the handler reads; [rq_Query] and
    [rq_Cookies] are what [r.URL.Query()] and [r.Cookies()] return. *)
Record Request := mkRequest {
  rq_Method : string;
  rq_Path : string;
  rq_Query : header;
  rq_Header : header;
  rq_Host : string;
  rq_RemoteAddr : string;
  rq_Cookies : list Cookie;
  rq_Body : Body
}.

(** What the environment supplies to one run of the handler. *)
Record Draw := mkDraw { dw_now : time; dw_id : string; dw_corr : string }.

Section Handler.
Context `{Unicode}.

Definition buildRecord (d : Draw) (r : Request) (body : string) (originalSize : Z) (truncated : bool)
    (serviceHeader : string) : CapturedRequest :=
  let sourceIP := match SplitHostPort (rq_RemoteAddr r) with Ok (h, _) => h | Err _ => rq_RemoteAddr r end in
  let headers := if String.eqb (rq_Host r) "" then rq_Header r else Header_Set (rq_Header r) HostHeader (rq_Host r) in
  let '(service, serviceSource) := IdentifyService headers serviceHeader in
  let '(correlationID, correlationSource) := IdentifyCorrelation headers (dw_corr d) in
  {| cr_ID := dw_id d;
     cr_Timestamp := dw_now d;
     cr_Method := rq_Method r;
     cr_Path := rq_Path r;
     cr_Query := Some (rq_Query r);
     cr_Headers := Some headers;
     cr_Cookies := rq_Cookies r;
     cr_Body := body;
     cr_BodyTruncated := truncated;
     cr_BodyOriginalSize := originalSize;
     cr_ContentType := Header_Get (rq_Header r) "Content-Type";
     cr_SourceIP := sourceIP;
     cr_Service := service;
     cr_ServiceSource := serviceSource;
     cr_CorrelationID := correlationID;
     cr_CorrelationSource := correlationSource |}.

Record HandlerOptions := mkHandlerOptions { ho_ServiceHeader : string; ho_BodyCap : Z }.

Definition StatusAccepted : Z := 202.

(** The counters move only when the queue took the record. *)
Definition count_captured (c : Counters) (rec : CapturedRequest) : Counters :=
  let c := incCaptured c in
  let c := if String.eqb (cr_ServiceSource rec) ServiceSourceUnknown then incWithoutService c else c in
  if String.eqb (cr_CorrelationSource rec) CorrelationSourceSynthesized then incWithoutCorrelation c else c.

Definition captureHandler (opts : HandlerOptions) (d : Draw) (r : Request) (q : Queue) (c : Counters)
  : option (Z * Queue * Counters) :=
  match CapBody (rq_Body r) (ho_BodyCap opts) with
  | Err _ => Some (StatusAccepted, q, incBodyReadError c)
  | Ok (body, originalSize, truncated) =>
      let rec := buildRecord d r body originalSize truncated (ho_ServiceHeader opts) in
      match Enqueue q (RRequest rec) with
      | None => None
      | Some (q', true) => Some (StatusAccepted, q', count_captured c rec)
      | Some (q', false) => Some (StatusAccepted, q', c)
      end
  end.

End Handler.
