(* ===== verification/CaptureFacts.v ===== *)
(** * Correctness of the capture side: bounds, identification chains, accounting *)
From S2P Require Import Prelude GoLib Record Capture.

Open Scope string_scope.

Lemma str_take_length_le n s : String.length (str_take n s) <= n.
Proof. rewrite str_length_take. lia. Qed.

Lemma str_take_take n m s : str_take n (str_take m s) = str_take (Nat.min n m) s.
Proof.
  revert n m. induction s as [|c s IH]; intros [|n] [|m]; simpl; try done. by rewrite IH.
Qed.

Lemma str_take_ge n s : String.length s <= n -> str_take n s = s.
Proof. revert n. induction s as [|c s IH]; intros [|n]; simpl; intros; try done; [lia|]. rewrite IH; [done|lia]. Qed.

(** C17. The captured body is always a prefix of what was sent, never longer
    than a positive cap, and the flags tell the truth: [truncated] exactly when
    more than the cap was sent, with original size [cap + 1]; otherwise the
    body is complete and its size exact. An error is returned only when the
    connection failed before the cap was passed. *)
Theorem CapBody_spec (r : Body) (capBytes : Z) :
  (capBytes < two63 - 1)%Z ->
  let sent := Z.of_nat (String.length (bd_data r)) in
  match CapBody r capBytes with
  | Ok (body, size, truncated) =>
      (exists rest, bd_data r = body +:+ rest) /\
      ((0 < capBytes)%Z -> (Z.of_nat (String.length body) <= capBytes)%Z) /\
      (truncated = true <-> (0 < capBytes < sent)%Z) /\
      (if truncated then Z.of_nat (String.length body) = capBytes /\ size = (capBytes + 1)%Z
       else body = bd_data r /\ size = sent /\ bd_fails r = false)
  | Err _ => bd_fails r = true /\ ((0 < capBytes)%Z -> (sent <= capBytes)%Z)
  end.
Proof.
  intros Hc sent. unfold CapBody, ReadAllLimited, ReadAll.
  destruct (Z.leb_spec capBytes 0) as [H0|H0].
  - destruct (bd_fails r) eqn:Ef; [split; [done|lia]|].
    split_and!; [exists ""; by rewrite str_app_nil_r | lia | split; [done|lia] | done..].
  - rewrite wrap_i64_id by (unfold in_i64, two63 in *; lia).
    destruct (Z.leb_spec (capBytes + 1) (Z.of_nat (String.length (bd_data r)))) as [Hl|Hl].
    + rewrite str_length_take. destruct (Z.leb_spec (Z.of_nat (Z.to_nat (capBytes + 1) `min` String.length (bd_data r))) capBytes); [lia|].
      rewrite str_take_take, str_length_take. split_and!; try lia.
      exists (str_drop (Z.to_nat capBytes `min` Z.to_nat (capBytes + 1)) (bd_data r)). by rewrite str_take_drop.
    + destruct (bd_fails r) eqn:Ef; [split; [done|lia]|].
      destruct (Z.leb_spec (Z.of_nat (String.length (bd_data r))) capBytes); [|lia].
      split_and!; [exists ""; by rewrite str_app_nil_r | lia | split; [done|lia] | done..].
Qed.

Lemma CapBody_spec_witness :
  CapBody (mkBody "hello" true) 3 = Ok ("hel", 4%Z, true) /\ exists rest, "hello" = "hel" +:+ rest.
Proof.
  assert (E : CapBody (mkBody "hello" true) 3 = Ok ("hel", 4%Z, true)) by (vm_compute; reflexivity).
  split; [exact E|]. pose proof (CapBody_spec (mkBody "hello" true) 3 ltac:(unfold two63; lia)) as H.
  cbv zeta in H. rewrite E in H. destruct H as [H _]. exact H.
Defined.

(** ** Identification *)

Lemma Split_sep a b : ContainsByte a "-" = false -> Split (a +:+ "-" +:+ b) "-" = a :: Split b "-".
Proof. apply Split_cons. Qed.

Section Chains.
Context `{Unicode}.

(** A version-00 traceparent whose trace id, lower-cased, is [id]. *)
Definition traceparent_of (s id : string) : Prop :=
  exists t span rest, s = "00" +:+ "-" +:+ t +:+ "-" +:+ span +:+ "-" +:+ rest /\
    ContainsByte t "-" = false /\ ContainsByte span "-" = false /\
    id = ToLower t /\ String.length id = 32 /\ str_forall is_hex id = true /\ id <> allZeroTraceID.

Lemma parseTraceparent_spec s id : parseTraceparent s = Some id <-> traceparent_of s id.
Proof.
  unfold parseTraceparent, traceparent_of. split.
  - pose proof (Join_Split s "-") as Hj. pose proof (Split_no_sep s "-") as Hs.
    destruct (Split s "-") as [|v [|t [|sp [|f fs]]]] eqn:E; try done. repeat case_step; try done. intros [= <-].
    bool_hyps. subst v. exists t, sp, (Join (f :: fs) "-"). split_and!; try done.
    + apply Hs. right. left.
    + apply Hs. do 2 right. left.
    + by apply Nat.eqb_eq.
  - intros (t & sp & rest & -> & Ht & Hsp & -> & Hl & Hh & Hz).
    rewrite (Split_sep "00"), (Split_sep t), (Split_sep sp) by done.
    destruct (Split rest "-") as [|f fs] eqn:E; [by destruct (Split_nonempty rest "-")|].
    rewrite Hl, Hh. cbn. by destruct (String.eqb_spec (ToLower t) allZeroTraceID).
Qed.

(** The first usable source of the correlation chain: the trace id of a
    version-00 [traceparent] (32 lower-case hex digits, not all zero), else a
    non-blank [X-Request-ID], else the generated id; the label names the source
    and a later one is used only when the earlier ones are unusable. *)
Definition correlation_chosen (h : header) (fresh id source : string) : Prop :=
  let tp := TrimSpace (Header_Get h TraceparentHeader) in
  let rid := TrimSpace (Header_Get h RequestIDHeader) in
  (source = CorrelationSourceTraceparent /\ traceparent_of tp id) \/
  (source = CorrelationSourceRequestID /\ (forall t, ~ traceparent_of tp t) /\ rid <> "" /\ id = rid) \/
  (source = CorrelationSourceSynthesized /\ (forall t, ~ traceparent_of tp t) /\ rid = "" /\ id = fresh).

Lemma IdentifyCorrelation_chain (h : header) (fresh : string) :
  let '(id, source) := IdentifyCorrelation h fresh in correlation_chosen h fresh id source.
Proof.
  unfold correlation_chosen. cbv zeta. unfold IdentifyCorrelation. set (tp := TrimSpace (Header_Get h TraceparentHeader)).
  set (rid := TrimSpace (Header_Get h RequestIDHeader)).
  destruct (String.eqb_spec tp "") as [E|E]; cbn [negb].
  2: destruct (parseTraceparent tp) as [t|] eqn:Et; [left; by rewrite <- parseTraceparent_spec|].
  all: assert (forall t, ~ traceparent_of tp t) by (intros t; rewrite <- parseTraceparent_spec, ?E, ?Et; done).
  all: destruct (String.eqb_spec rid "") as [Er|Er]; cbn [negb]; auto 10.
Qed.

(** A label a service may carry: trimmed, printable, lower-cased. *)
Definition service_label (raw v : string) : Prop :=
  v <> "" /\ v = ToLower (TrimSpace raw) /\ String.length (TrimSpace raw) <= maxServiceLabelBytes /\
  str_exists is_control (TrimSpace raw) = false.

Lemma SanitiseServiceLabel_spec raw :
  SanitiseServiceLabel raw <> "" -> service_label raw (SanitiseServiceLabel raw).
Proof.
  unfold SanitiseServiceLabel, service_label. intros Hne.
  destruct (String.eqb_spec (TrimSpace raw) ""); [done|]. cbn [orb] in *.
  destruct (Nat.ltb_spec maxServiceLabelBytes (String.length (TrimSpace raw))); [done|].
  by destruct (str_exists is_control (TrimSpace raw)) eqn:E.
Qed.

Definition host_of_header (h : header) : string :=
  match SplitHostPort (Header_Get h HostHeader) with Ok (x, _) => x | Err _ => Header_Get h HostHeader end.

(** The service label is never empty and its source is truthful: the
    configured header's sanitised value if it has one (at most 256 bytes, no
    control characters, lower-cased), else the sanitised host without its
    port, else ["unknown"], each step reached only when the previous ones gave
    nothing. *)
Definition service_chosen (h : header) (configured v source : string) : Prop :=
  let name := if String.eqb configured "" then DefaultServiceHeader else configured in
  (source = ServiceSourceHeader /\ service_label (Header_Get h name) v) \/
  (source = ServiceSourceHost /\ SanitiseServiceLabel (Header_Get h name) = "" /\
     service_label (host_of_header h) v) \/
  (source = ServiceSourceUnknown /\ v = UnknownService /\ SanitiseServiceLabel (Header_Get h name) = "" /\
     SanitiseServiceLabel (host_of_header h) = "").

Lemma IdentifyService_chain (h : header) (configured : string) :
  let '(v, source) := IdentifyService h configured in service_chosen h configured v source.
Proof.
  unfold service_chosen. cbv zeta. unfold IdentifyService. set (name := if String.eqb configured "" then _ else _). fold (host_of_header h).
  assert (E : (if String.eqb (Header_Get h name) "" then "" else SanitiseServiceLabel (Header_Get h name))
    = SanitiseServiceLabel (Header_Get h name)).
  { destruct (String.eqb_spec (Header_Get h name) "") as [->|]; done. }
  rewrite E. destruct (String.eqb_spec (SanitiseServiceLabel (Header_Get h name)) "") as [E1|E1]; cbn [negb].
  2:{ left. split; [done|]. by apply SanitiseServiceLabel_spec. }
  destruct (String.eqb_spec (SanitiseServiceLabel (host_of_header h)) "") as [E2|E2]; cbn [negb]; right; [by right|].
  left. split_and!; [done..|]. by apply SanitiseServiceLabel_spec.
Qed.

(** ** The handler *)

Lemma Enqueue_open q r :
  qu_closed q = false ->
  Enqueue q r = if (length (qu_buf q) <? qu_cap q)%nat
    then Some (mkQueue (qu_buf q ++ [r])%list (qu_cap q) (qu_dropped q) false, true)
    else Some (mkQueue (qu_buf q) (qu_cap q) (u64_incr (qu_dropped q)) false, false).
Proof. unfold Enqueue. by intros ->. Qed.

(** What one captured request does to queue and counters. *)
Inductive capture_outcome (q q' : Queue) (c c' : Counters) : option CapturedRequest -> Prop :=
| capture_body_error : q' = q -> c' = incBodyReadError c -> capture_outcome q q' c c' None
| capture_taken rec :
    length (qu_buf q) < qu_cap q ->
    q' = mkQueue (qu_buf q ++ [RRequest rec])%list (qu_cap q) (qu_dropped q) false ->
    c' = count_captured c rec ->
    capture_outcome q q' c c' (Some rec)
| capture_dropped rec :
    qu_cap q <= length (qu_buf q) ->
    q' = mkQueue (qu_buf q) (qu_cap q) (u64_incr (qu_dropped q)) false -> c' = c ->
    capture_outcome q q' c c' (Some rec).

(** The host part of an address, the whole address where there is none. *)
Definition address_host (addr host : string) : Prop :=
  (exists port, SplitHostPort addr = Ok (host, port)) \/ ((exists e, SplitHostPort addr = Err e) /\ host = addr).

(** A record that says what the request said, field by field: [d] is the clock
    reading and the ids drawn for it, [body], [size] and [trunc] what was read. *)
Record faithful (opts : HandlerOptions) (d : Draw) (r : Request) (body : string) (size : Z) (trunc : bool)
    (v : CapturedRequest) : Prop := {
  fa_id : cr_ID v = dw_id d;
  fa_timestamp : cr_Timestamp v = dw_now d;
  fa_method : cr_Method v = rq_Method r;
  fa_path : cr_Path v = rq_Path r;
  fa_query : cr_Query v = Some (rq_Query r);
  fa_headers : forall k, k <> HostHeader -> headers_of (cr_Headers v) !! k = rq_Header r !! k;
  fa_host : headers_of (cr_Headers v) !! HostHeader =
    (if String.eqb (rq_Host r) "" then rq_Header r !! HostHeader else Some [rq_Host r]);
  fa_cookies : cr_Cookies v = rq_Cookies r;
  fa_body : cr_Body v = body;
  fa_truncated : cr_BodyTruncated v = trunc;
  fa_size : cr_BodyOriginalSize v = size;
  fa_content_type : cr_ContentType v = Header_Get (rq_Header r) "Content-Type";
  fa_source : address_host (rq_RemoteAddr r) (cr_SourceIP v);
  fa_service : service_chosen (headers_of (cr_Headers v)) (ho_ServiceHeader opts) (cr_Service v) (cr_ServiceSource v);
  fa_correlation : correlation_chosen (headers_of (cr_Headers v)) (dw_corr d) (cr_CorrelationID v) (cr_CorrelationSource v)
}.

Lemma buildRecord_faithful opts d r body size trunc :
  faithful opts d r body size trunc (buildRecord d r body size trunc (ho_ServiceHeader opts)).
Proof.
  unfold buildRecord. set (h := if String.eqb (rq_Host r) "" then _ else _).
  pose proof (IdentifyService_chain h (ho_ServiceHeader opts)) as Hs.
  pose proof (IdentifyCorrelation_chain h (dw_corr d)) as Hc.
  destruct (IdentifyService _ _) as [??], (IdentifyCorrelation _ _) as [??].
  split; try done; cbn [cr_Headers headers_of cr_SourceIP]; unfold h.
  - intros k Hk. destruct (String.eqb (rq_Host r) ""); [done|]. apply lookup_insert_ne. by intros <-.
  - destruct (String.eqb (rq_Host r) ""); [done|]. apply lookup_insert_eq.
  - unfold address_host. destruct (SplitHostPort _) as [[host port]|e]; [left|right]; eauto.
Qed.

(** C18. The capture endpoint always answers 202 while the queue is open, and
    does exactly one of three things: count a body-read error and touch nothing
    else; hand one record to the queue and count it (with its service and
    correlation classification); or count a drop of the full queue and leave the
    captured-family counters alone. The record is faithful in every field: id
    and time as drawn, method, path, query, headers and cookies as sent with the
    request's host as Host header, the body as read, content type, source
    address without port, and service and correlation id from the first usable
    source of their chains. *)
Theorem captureHandler_outcome opts d r q c :
  qu_closed q = false ->
  exists q' c' rec, captureHandler opts d r q c = Some (202%Z, q', c') /\ capture_outcome q q' c c' rec /\
    match rec with
    | None => exists e, CapBody (rq_Body r) (ho_BodyCap opts) = Err e
    | Some v => exists body size trunc, CapBody (rq_Body r) (ho_BodyCap opts) = Ok (body, size, trunc) /\
        faithful opts d r body size trunc v
    end.
Proof.
  intros Ho. unfold captureHandler.
  destruct (CapBody (rq_Body r) (ho_BodyCap opts)) as [[[body size] trunc]|e] eqn:E.
  2:{ exists q, (incBodyReadError c), None. split_and!; [done | by constructor | eauto]. }
  pose proof (buildRecord_faithful opts d r body size trunc) as Hv.
  set (v := buildRecord d r body size trunc (ho_ServiceHeader opts)) in *.
  rewrite (Enqueue_open q (RRequest v) Ho). destruct (Nat.ltb_spec (length (qu_buf q)) (qu_cap q)) as [Hl|Hl].
  - eexists _, _, (Some v). split; [done|]. split; [by apply capture_taken|]. eauto.
  - eexists _, _, (Some v). split; [done|]. split; [by apply capture_dropped|]. eauto.
Qed.

End Chains.

Definition sample_http : Request :=
  mkRequest "POST" "/hook" ∅ (<["Host" := ["shop:80"]]> ∅) "shop:80" "10.1.2.3:999" [] (mkBody "hi" false).

Lemma captureHandler_outcome_witness :
  exists q' c' rec,
    captureHandler (H := ascii_unicode) (mkHandlerOptions "" 10) (mkDraw 5%Z "id" "corr") sample_http (NewQueue 1) NewCounters
      = Some (202%Z, q', c') /\ capture_outcome (NewQueue 1) q' NewCounters c' rec.
Proof.
  destruct (captureHandler_outcome (H := ascii_unicode) (mkHandlerOptions "" 10) (mkDraw 5%Z "id" "corr")
    sample_http (NewQueue 1) NewCounters eq_refl) as (q' & c' & rec & H1 & H2 & _).
  exists q', c', rec. split; [exact H1|exact H2].
Defined.
