(* ===== verification/Pipeline.v ===== *)
(** * pipeline/worker.go and sink_error_counters.go: the worker pool

    A worker takes a record, redacts it, writes it to every sink in order and
    recovers from a panic by dropping the rest of that record's work. Workers
    interleave at every redaction and every sink write, which are atomic: the
    pool is a step relation. [pl_history] and [pl_finished] are history
    variables, read by no step. *)
From S2P Require Import Prelude GoLib Record Capture.

Open Scope string_scope.

(** ** sink_error_counters.go *)

Record SinkErrorCounters := mkSinkErrorCounters { se_memory : Z; se_sqlite : Z; se_stdout : Z }.

Definition NewSinkErrorCounters : SinkErrorCounters := mkSinkErrorCounters 0 0 0.

Definition IncBySinkName (c : SinkErrorCounters) (name : string) : SinkErrorCounters :=
  if String.eqb name "memory" then mkSinkErrorCounters (u64_incr (se_memory c)) (se_sqlite c) (se_stdout c)
  else if String.eqb name "sqlite" then mkSinkErrorCounters (se_memory c) (u64_incr (se_sqlite c)) (se_stdout c)
  else if String.eqb name "stdout" then mkSinkErrorCounters (se_memory c) (se_sqlite c) (u64_incr (se_stdout c))
  else c.

(** ** Sinks *)

Inductive WriteResult := WriteOk | WriteErr | WritePanic.

#[export] Instance WriteResult_eq_dec : EqDecision WriteResult.
Proof. solve_decision. Defined.

(** A sink is its name, what a write does given the writes before it, and the
    records it was handed so far, oldest first. *)
Record Sink := mkSink {
  sk_Name : string;
  sk_Write : list CRecord -> CRecord -> WriteResult;
  sk_log : list CRecord
}.

Definition sink_write (s : Sink) (r : CRecord) : Sink * WriteResult :=
  (mkSink (sk_Name s) (sk_Write s) (sk_log s ++ [r])%list, sk_Write s (sk_log s) r).

(** ** worker.go: one record through one worker, uninterrupted *)

Section Process.
(** The redactor; [None] is a panic inside it. *)
Variable redact : CRecord -> option CRecord.

(** The sink loop from sink [k] on; the flag says it panicked. *)
Fixpoint write_sinks (sinks : list Sink) (errs : SinkErrorCounters) (r : CRecord)
  : list Sink * SinkErrorCounters * bool :=
  match sinks with
  | [] => ([], errs, false)
  | s :: rest =>
      let '(s', res) := sink_write s r in
      match res with
      | WritePanic => (s' :: rest, errs, true)
      | _ =>
          let errs := match res with WriteErr => IncBySinkName errs (sk_Name s) | _ => errs end in
          let '(rest', errs', p) := write_sinks rest errs r in
          (s' :: rest', errs', p)
      end
  end.

(** [process]: the deferred recover counts a panic of redactor or sink. *)
Definition process (sinks : list Sink) (errs : SinkErrorCounters) (panics : Z) (rec : CRecord)
  : list Sink * SinkErrorCounters * Z :=
  match redact rec with
  | None => (sinks, errs, u64_incr panics)
  | Some redacted =>
      let '(sinks', errs', panicked) := write_sinks sinks errs redacted in
      (sinks', errs', if panicked : bool then u64_incr panics else panics)
  end.

(** ** The pool as a step relation *)

Inductive Worker :=
| Idle
| Redacting (r : CRecord)
| Writing (r r' : CRecord) (k : nat).

(** What happened to one offered record or request. *)
Inductive Offer :=
| OfferCaptured (rec : CapturedRequest)
| OfferEvent (r : CRecord)
| OfferDropped (r : CRecord)
| OfferBodyError.

(** A record a worker is done with: how many sinks it was handed to, and
    whether a panic cut it short. *)
Record Finished := mkFinished { fi_rec : CRecord; fi_sinks : nat; fi_panicked : bool }.

Record Pool := mkPool {
  pl_queue : Queue;
  pl_counters : Counters;
  pl_workers : list Worker;
  pl_sinks : list Sink;
  pl_errors : SinkErrorCounters;
  pl_panics : Z;
  pl_history : list Offer;
  pl_finished : list Finished
}.

Definition NewPool (size qcap : Z) (sinks : list Sink) : Pool :=
  mkPool (NewQueue qcap) NewCounters (replicate (Z.to_nat (if (size <? 1)%Z then 1 else size)) Idle)
    sinks NewSinkErrorCounters 0 [] [].

Context `{Unicode}.

(** The entry the history gets for one run of the capture handler. *)
Definition capture_offer (opts : HandlerOptions) (d : Draw) (req : Request) (q : Queue) : Offer :=
  match CapBody (rq_Body req) (ho_BodyCap opts) with
  | Err _ => OfferBodyError
  | Ok (body, size, truncated) =>
      let rec := buildRecord d req body size truncated (ho_ServiceHeader opts) in
      if (length (qu_buf q) <? qu_cap q)%nat then OfferCaptured rec else OfferDropped (RRequest rec)
  end.

Inductive step (opts : HandlerOptions) : Pool -> Pool -> Prop :=
| step_capture st d req status q' c' :
    captureHandler opts d req (pl_queue st) (pl_counters st) = Some (status, q', c') ->
    step opts st (mkPool q' c' (pl_workers st) (pl_sinks st) (pl_errors st) (pl_panics st)
      (capture_offer opts d req (pl_queue st) :: pl_history st) (pl_finished st))
| step_event st r q' taken :
    Enqueue (pl_queue st) r = Some (q', taken) ->
    step opts st (mkPool q' (pl_counters st) (pl_workers st) (pl_sinks st) (pl_errors st) (pl_panics st)
      ((if taken : bool then OfferEvent r else OfferDropped r) :: pl_history st) (pl_finished st))
| step_take st i r q' :
    pl_workers st !! i = Some Idle -> Dequeue (pl_queue st) = Some (r, q') ->
    step opts st (mkPool q' (pl_counters st) (<[i := Redacting r]> (pl_workers st)) (pl_sinks st)
      (pl_errors st) (pl_panics st) (pl_history st) (pl_finished st))
| step_redact st i r r' :
    pl_workers st !! i = Some (Redacting r) -> redact r = Some r' ->
    step opts st (mkPool (pl_queue st) (pl_counters st) (<[i := Writing r r' 0]> (pl_workers st)) (pl_sinks st)
      (pl_errors st) (pl_panics st) (pl_history st) (pl_finished st))
| step_redact_panic st i r :
    pl_workers st !! i = Some (Redacting r) -> redact r = None ->
    step opts st (mkPool (pl_queue st) (pl_counters st) (<[i := Idle]> (pl_workers st)) (pl_sinks st)
      (pl_errors st) (u64_incr (pl_panics st)) (pl_history st) (mkFinished r 0 true :: pl_finished st))
| step_write st i r r' k s s' res :
    pl_workers st !! i = Some (Writing r r' k) -> pl_sinks st !! k = Some s ->
    sink_write s r' = (s', res) -> res <> WritePanic ->
    step opts st (mkPool (pl_queue st) (pl_counters st) (<[i := Writing r r' (S k)]> (pl_workers st))
      (<[k := s']> (pl_sinks st))
      (match res with WriteErr => IncBySinkName (pl_errors st) (sk_Name s) | _ => pl_errors st end)
      (pl_panics st) (pl_history st) (pl_finished st))
| step_write_panic st i r r' k s s' :
    pl_workers st !! i = Some (Writing r r' k) -> pl_sinks st !! k = Some s ->
    sink_write s r' = (s', WritePanic) ->
    step opts st (mkPool (pl_queue st) (pl_counters st) (<[i := Idle]> (pl_workers st))
      (<[k := s']> (pl_sinks st)) (pl_errors st) (u64_incr (pl_panics st)) (pl_history st)
      (mkFinished r (S k) true :: pl_finished st))
| step_done st i r r' :
    pl_workers st !! i = Some (Writing r r' (length (pl_sinks st))) ->
    step opts st (mkPool (pl_queue st) (pl_counters st) (<[i := Idle]> (pl_workers st)) (pl_sinks st)
      (pl_errors st) (pl_panics st) (pl_history st) (mkFinished r (length (pl_sinks st)) false :: pl_finished st))
| step_close st :
    qu_closed (pl_queue st) = false ->  (* closing a closed channel panics *)
    step opts st (mkPool (CloseQueue (pl_queue st)) (pl_counters st) (pl_workers st) (pl_sinks st)
      (pl_errors st) (pl_panics st) (pl_history st) (pl_finished st)).

Definition reachable (opts : HandlerOptions) (st0 st : Pool) : Prop := rtc (step opts) st0 st.

(** ** Draining *)

(** A step of a worker: nothing is offered and, on a closed queue, nothing is
    closed. *)
Definition drain_step (opts : HandlerOptions) (st st' : Pool) : Prop :=
  step opts st st' /\ pl_history st' = pl_history st /\ qu_closed (pl_queue st) = true.

(** The worker steps still to come, counting every sink write: a queued record
    is taken, redacted, written to each sink and put away. *)
Definition worker_work (nsinks : nat) (w : Worker) : nat :=
  match w with
  | Idle => 0
  | Redacting _ => nsinks + 2
  | Writing _ _ k => nsinks - k + 1
  end.

Definition work (st : Pool) : nat :=
  length (qu_buf (pl_queue st)) * (length (pl_sinks st) + 3) +
  sum_list (worker_work (length (pl_sinks st)) <$> pl_workers st).

Definition drained (st : Pool) : Prop :=
  qu_buf (pl_queue st) = [] /\ forall w, w ∈ pl_workers st -> w = Idle.

(** ** Invariant *)

(** The records the queue took, newest first. *)
Definition accepted (h : list Offer) : list CRecord :=
  omap (fun o => match o with OfferCaptured v => Some (RRequest v) | OfferEvent r => Some r | _ => None end) h.

Definition in_flight (ws : list Worker) : list CRecord :=
  omap (fun w => match w with Idle => None | Redacting r | Writing r _ _ => Some r end) ws.

(** What the workers have handed to sink [k] and not finished yet. *)
Definition handed (k : nat) (ws : list Worker) : list CRecord :=
  omap (fun w => match w with Writing _ r' j => if decide (k < j) then Some r' else None | _ => None end) ws.

Definition delivered (k : nat) (fs : list Finished) : list CRecord :=
  omap (fun f => if decide (k < fi_sinks f) then redact (fi_rec f) else None) fs.

Definition count {A} (P : A -> bool) (l : list A) : Z := Z.of_nat (length (filter (fun x => P x = true) l)).

Definition is_captured (o : Offer) : bool := match o with OfferCaptured _ => true | _ => false end.
Definition is_dropped (o : Offer) : bool := match o with OfferDropped _ => true | _ => false end.
Definition is_body_error (o : Offer) : bool := match o with OfferBodyError => true | _ => false end.
Definition lacks_service (o : Offer) : bool :=
  match o with OfferCaptured v => String.eqb (cr_ServiceSource v) ServiceSourceUnknown | _ => false end.
Definition lacks_correlation (o : Offer) : bool :=
  match o with OfferCaptured v => String.eqb (cr_CorrelationSource v) CorrelationSourceSynthesized | _ => false end.

Record pool_inv (st : Pool) : Prop := {
  pi_conserve : accepted (pl_history st) ≡ₚ
    (qu_buf (pl_queue st) ++ in_flight (pl_workers st) ++ (fi_rec <$> pl_finished st))%list;
  pi_redacted : forall i r r' k, pl_workers st !! i = Some (Writing r r' k) -> redact r = Some r';
  pi_sinks : forall k s, pl_sinks st !! k = Some s ->
    sk_log s ≡ₚ (handed k (pl_workers st) ++ delivered k (pl_finished st))%list;
  pi_finished : forall f, f ∈ pl_finished st -> fi_panicked f = false ->
    fi_sinks f = length (pl_sinks st) /\ is_Some (redact (fi_rec f));
  pi_panics : pl_panics st = wrap_u64 (count fi_panicked (pl_finished st));
  pi_captured : cn_captured (pl_counters st) = wrap_u64 (count is_captured (pl_history st));
  pi_service : cn_withoutService (pl_counters st) = wrap_u64 (count lacks_service (pl_history st));
  pi_correlation : cn_withoutCorrelation (pl_counters st) = wrap_u64 (count lacks_correlation (pl_history st));
  pi_errors : cn_bodyReadErrors (pl_counters st) = wrap_u64 (count is_body_error (pl_history st));
  pi_dropped : qu_dropped (pl_queue st) = wrap_u64 (count is_dropped (pl_history st));
  pi_bound : length (qu_buf (pl_queue st)) <= qu_cap (pl_queue st)
}.
End Process.
