(* ===== verification/PipelineFacts.v ===== *)
(** * The worker pool loses, duplicates and leaks nothing *)
From S2P Require Import Prelude GoLib Record Capture CaptureFacts Pipeline.

Open Scope string_scope.

(** Replacing one list element, up to permutation. *)
Lemma replace_perm {A} (l : list A) i x :
  l !! i = Some x -> exists rest, l ≡ₚ x :: rest /\ forall y, <[i := y]> l ≡ₚ y :: rest.
Proof.
  intros Hl. exists (take i l ++ drop (S i) l)%list. split.
  - rewrite <- (take_drop_middle _ _ _ Hl) at 1. by rewrite Permutation_middle.
  - intros y. rewrite insert_take_drop by (by eapply lookup_lt_Some). by rewrite Permutation_middle.
Qed.

Lemma count_cons {A} (P : A -> bool) x l : count P (x :: l) = (count P l + if P x then 1 else 0)%Z.
Proof. unfold count. rewrite filter_cons. destruct (P x); simpl; lia. Qed.

Lemma wrap_u64_incr z : u64_incr (wrap_u64 z) = wrap_u64 (z + 1).
Proof. unfold u64_incr, wrap_u64, two64. by rewrite Zplus_mod_idemp_l. Qed.

Lemma wrap_count {A} (P : A -> bool) x l :
  wrap_u64 (count P (x :: l)) = if P x then u64_incr (wrap_u64 (count P l)) else wrap_u64 (count P l).
Proof. rewrite count_cons. destruct (P x); [by rewrite wrap_u64_incr | by rewrite Z.add_0_r]. Qed.

#[export] Instance omap_perm {A B} (f : A -> option B) : Proper ((≡ₚ) ==> (≡ₚ)) (omap f).
Proof. intros l1 l2 Hp. induction Hp; cbn; repeat case_match; eauto using Permutation. Qed.

Section Facts.
Context (redact : CRecord -> option CRecord) `{Unicode} (opts : HandlerOptions).

Lemma in_flight_perm ws i w :
  ws !! i = Some w -> exists rest, in_flight ws ≡ₚ (in_flight [w] ++ rest)%list /\
    (forall w', in_flight (<[i := w']> ws) ≡ₚ (in_flight [w'] ++ rest)%list).
Proof.
  intros (rest & H1 & H2)%replace_perm. exists (in_flight rest). unfold in_flight. split.
  - rewrite H1. cbn. by case_match.
  - intros w'. rewrite H2. cbn. by case_match.
Qed.

Lemma handed_perm k ws i w :
  ws !! i = Some w -> exists rest, handed k ws ≡ₚ (handed k [w] ++ rest)%list /\
    (forall w', handed k (<[i := w']> ws) ≡ₚ (handed k [w'] ++ rest)%list).
Proof.
  intros (rest & H1 & H2)%replace_perm. exists (handed k rest). unfold handed. split.
  - rewrite H1. cbn. by repeat case_match.
  - intros w'. rewrite H2. cbn. by repeat case_match.
Qed.

(** The sink part of the invariant, on its own. *)
Definition sinks_inv (ws : list Worker) (sinks : list Sink) (fs : list Finished) : Prop :=
  forall k s, sinks !! k = Some s -> sk_log s ≡ₚ (handed k ws ++ delivered redact k fs)%list.

Lemma sinks_inv_worker ws sinks fs i w w' fs' :
  sinks_inv ws sinks fs -> ws !! i = Some w ->
  (forall k, k < length sinks ->
    (handed k [w'] ++ delivered redact k fs' ≡ₚ handed k [w] ++ delivered redact k fs)%list) ->
  sinks_inv (<[i := w']> ws) sinks fs'.
Proof.
  intros Hinv Hw Hk k s Hs. destruct (handed_perm k ws i w Hw) as (rest & H1 & H2).
  rewrite (Hinv k s Hs), H1, (H2 w'). specialize (Hk k (lookup_lt_Some _ _ _ Hs)).
  rewrite <- !app_assoc, (Permutation_app_comm rest), !app_assoc, <- Hk.
  by rewrite <- !app_assoc, (Permutation_app_comm rest).
Qed.

(** A write: the written sink gains the record, the others keep their log. *)
Lemma sinks_inv_write ws sinks fs i w w' fs' j s s' r res :
  sinks_inv ws sinks fs -> ws !! i = Some w -> sinks !! j = Some s -> sink_write s r = (s', res) ->
  (forall k, k <> j -> (handed k [w'] ++ delivered redact k fs' ≡ₚ handed k [w] ++ delivered redact k fs)%list) ->
  (handed j [w'] ++ delivered redact j fs' ≡ₚ r :: handed j [w] ++ delivered redact j fs)%list ->
  sinks_inv (<[i := w']> ws) (<[j := s']> sinks) fs'.
Proof.
  intros Hinv Hw Hs [= <- _] Hne Heq k t Ht. destruct (handed_perm k ws i w Hw) as (rest & H1 & H2).
  assert (Hsplit : forall a b x : list CRecord, ((a ++ rest) ++ b ≡ₚ (a ++ b) ++ rest)%list).
  { intros a b _. rewrite <- !app_assoc. by rewrite (Permutation_app_comm rest). }
  rewrite (H2 w'), Hsplit by exact []. destruct (decide (k = j)) as [->|Hk].
  - rewrite list_lookup_insert_eq in Ht by (by eapply lookup_lt_Some). injection Ht as <-. cbn [sk_log].
    rewrite (Hinv j s Hs), H1, Heq, Hsplit by exact []. by rewrite Permutation_app_comm.
  - rewrite list_lookup_insert_ne in Ht by done. rewrite (Hinv k t Ht), H1, (Hne k Hk), Hsplit by exact []. done.
Qed.

(** What an offer does to queue and counters. *)
Definition offer_ok (q q' : Queue) (c c' : Counters) (o : Offer) : Prop :=
  qu_buf q' = (qu_buf q ++ accepted [o])%list /\ qu_cap q' = qu_cap q /\
  (length (qu_buf q) <= qu_cap q -> length (qu_buf q') <= qu_cap q') /\
  qu_dropped q' = (if is_dropped o then u64_incr (qu_dropped q) else qu_dropped q) /\
  cn_captured c' = (if is_captured o then u64_incr (cn_captured c) else cn_captured c) /\
  cn_withoutService c' = (if lacks_service o then u64_incr (cn_withoutService c) else cn_withoutService c) /\
  cn_withoutCorrelation c' =
    (if lacks_correlation o then u64_incr (cn_withoutCorrelation c) else cn_withoutCorrelation c) /\
  cn_bodyReadErrors c' = (if is_body_error o then u64_incr (cn_bodyReadErrors c) else cn_bodyReadErrors c).

Lemma event_offer_ok q c r q' taken :
  Enqueue q r = Some (q', taken) -> offer_ok q q' c c (if taken then OfferEvent r else OfferDropped r).
Proof.
  unfold Enqueue, offer_ok. intros E. destruct (qu_closed q); [done|].
  destruct (Nat.ltb_spec (length (qu_buf q)) (qu_cap q)); simplify_eq; cbn; split_and!; try done.
  - intros _. rewrite length_app. simpl. lia.
  - by rewrite app_nil_r.
Qed.

Lemma capture_offer_ok d req q c status q' c' :
  captureHandler opts d req q c = Some (status, q', c') ->
  offer_ok q q' c c' (capture_offer opts d req q).
Proof.
  unfold captureHandler, capture_offer, offer_ok.
  destruct (CapBody _ _) as [[[body size] trunc]|e]; [|intros; simplify_eq; cbn; by rewrite app_nil_r].
  set (rec := buildRecord _ _ _ _ _ _). unfold Enqueue. destruct (qu_closed q); [done|].
  destruct (Nat.ltb_spec (length (qu_buf q)) (qu_cap q)); intros; simplify_eq; cbn -[String.eqb].
  - unfold count_captured. destruct (String.eqb (cr_ServiceSource rec) _), (String.eqb (cr_CorrelationSource rec) _);
      split_and!; try done; intros _; rewrite length_app; simpl; lia.
  - by rewrite app_nil_r.
Qed.

Lemma accepted_cons o h : accepted (o :: h) = (accepted [o] ++ accepted h)%list.
Proof. unfold accepted. cbn. by case_match. Qed.

Lemma inv_offer st q' c' o :
  pool_inv redact st -> offer_ok (pl_queue st) q' (pl_counters st) c' o ->
  pool_inv redact (mkPool q' c' (pl_workers st) (pl_sinks st) (pl_errors st) (pl_panics st)
    (o :: pl_history st) (pl_finished st)).
Proof.
  intros [] (Hbuf & Hcap & Hfit & Hd & Hc & Hs & Hr & He).
  split; cbn [pl_queue pl_counters pl_workers pl_sinks pl_errors pl_panics pl_history pl_finished]; try done.
  - rewrite accepted_cons, pi_conserve, Hbuf, <- !app_assoc, (app_assoc _ (accepted [o])).
    rewrite (Permutation_app_comm (qu_buf _) (accepted [o])), <- app_assoc. done.
  - by rewrite wrap_count, Hc, pi_captured.
  - by rewrite wrap_count, Hs, pi_service.
  - by rewrite wrap_count, Hr, pi_correlation.
  - by rewrite wrap_count, He, pi_errors.
  - by rewrite wrap_count, Hd, pi_dropped.
  - auto.
Qed.

(** A worker moves on: the records in flight, the queue and the finished list
    together stay the same, and so does what each sink received. *)
Lemma inv_worker st q' i w w' sinks' errs' panics' fs' :
  pool_inv redact st -> pl_workers st !! i = Some w ->
  (qu_buf q' ++ in_flight [w'] ++ (fi_rec <$> fs')
     ≡ₚ qu_buf (pl_queue st) ++ in_flight [w] ++ (fi_rec <$> pl_finished st))%list ->
  qu_dropped q' = qu_dropped (pl_queue st) -> length (qu_buf q') <= qu_cap q' ->
  (forall r r' k, w' = Writing r r' k -> redact r = Some r') ->
  sinks_inv (<[i := w']> (pl_workers st)) sinks' fs' ->
  (forall f, f ∈ fs' -> fi_panicked f = false -> fi_sinks f = length sinks' /\ is_Some (redact (fi_rec f))) ->
  panics' = wrap_u64 (count fi_panicked fs') ->
  pool_inv redact (mkPool q' (pl_counters st) (<[i := w']> (pl_workers st)) sinks' errs' panics' (pl_history st) fs').
Proof.
  intros [] Hw Hcons Hd Hb Hred Hs Hf Hp.
  split; cbn [pl_queue pl_counters pl_workers pl_sinks pl_errors pl_panics pl_history pl_finished]; try done.
  - destruct (in_flight_perm _ _ _ Hw) as (rest & H1 & H2). rewrite pi_conserve, H1, (H2 w').
    assert (Hsh : forall a b c : list CRecord, (a ++ (b ++ rest) ++ c ≡ₚ (a ++ b ++ c) ++ rest)%list).
    { intros a b c. rewrite <- !app_assoc. do 2 f_equiv. apply Permutation_app_comm. }
    by rewrite !Hsh, Hcons.
  - intros j r r' k Hj. destruct (decide (j = i)) as [->|Hne].
    + rewrite list_lookup_insert_eq in Hj by (by eapply lookup_lt_Some). injection Hj as ->. by eapply Hred.
    + rewrite list_lookup_insert_ne in Hj by done. by eapply pi_redacted.
  - by rewrite Hd.
Qed.

Lemma handed_done k r r' n : k < n -> handed k [Writing r r' n] = [r'].
Proof. intros. unfold handed. cbn. by rewrite decide_True. Qed.
Lemma handed_not_yet k r r' n : n <= k -> handed k [Writing r r' n] = [].
Proof. intros. unfold handed. cbn. rewrite decide_False by lia. done. Qed.
Lemma delivered_cons k f fs : delivered redact k (f :: fs) = (delivered redact k [f] ++ delivered redact k fs)%list.
Proof. unfold delivered. cbn. by repeat case_match. Qed.
Lemma delivered_one k r n p r' : redact r = Some r' ->
  delivered redact k [mkFinished r n p] = if decide (k < n) then [r'] else [].
Proof. intros E. unfold delivered. cbn. case_decide; [by rewrite E|done]. Qed.

Lemma finished_cons f fs n :
  (forall g, g ∈ fs -> fi_panicked g = false -> fi_sinks g = n /\ is_Some (redact (fi_rec g))) ->
  (fi_panicked f = false -> fi_sinks f = n /\ is_Some (redact (fi_rec f))) ->
  forall g, g ∈ f :: fs -> fi_panicked g = false -> fi_sinks g = n /\ is_Some (redact (fi_rec g)).
Proof. intros Hfs Hf g [->|Hg]%elem_of_cons; auto. Qed.

Lemma step_preserves st st' : step redact opts st st' -> pool_inv redact st -> pool_inv redact st'.
Proof.
  intros Hstep Hinv. destruct Hstep.
  - eapply inv_offer; [done|]. by eapply capture_offer_ok.
  - eapply inv_offer; [done|]. by apply event_offer_ok.
  - (* take *) unfold Dequeue in *. destruct (qu_buf (pl_queue st)) as [|x rest] eqn:Eb; simplify_eq.
    pose proof (pi_bound _ _ Hinv) as Hb. rewrite Eb in Hb.
    eapply inv_worker; [done..| | | | |eapply (sinks_inv_worker _ _ _ _ Idle); [exact (pi_sinks _ _ Hinv)|done|done] |exact (pi_finished _ _ Hinv)|apply (pi_panics _ _ Hinv)]; cbn.
    + rewrite Eb. cbn. by rewrite Permutation_middle.
    + done.
    + simpl in Hb. lia.
    + done.
  - (* redact *) eapply inv_worker; [done..|apply (pi_bound _ _ Hinv)| |eapply sinks_inv_worker; [exact (pi_sinks _ _ Hinv)|done|]|exact (pi_finished _ _ Hinv)|apply (pi_panics _ _ Hinv)].
    + intros ??? [= <- <- <-]. done.
    + intros k _. by rewrite handed_not_yet by lia.
  - (* redact panics *) eapply inv_worker; [done| done | | done | apply (pi_bound _ _ Hinv) | done
      | eapply sinks_inv_worker; [exact (pi_sinks _ _ Hinv)|done|] | |].
    + done.
    + intros k _. rewrite delivered_cons. cbn. by rewrite decide_False by lia.
    + apply finished_cons; [exact (pi_finished _ _ Hinv)|done].
    + rewrite wrap_count. cbn. by rewrite (pi_panics _ _ Hinv).
  - (* write *) eapply inv_worker; [done..|apply (pi_bound _ _ Hinv)| |eapply sinks_inv_write; [exact (pi_sinks _ _ Hinv)|done..| |] | |apply (pi_panics _ _ Hinv)].
    + intros ??? [= <- <- <-]. by eapply pi_redacted.
    + intros j Hj. unfold handed. cbn. repeat case_decide; done || lia.
    + rewrite handed_done, handed_not_yet by lia. done.
    + rewrite length_insert. exact (pi_finished _ _ Hinv).
  - (* write panics *) assert (Hr : redact r = Some r') by (by eapply pi_redacted).
    eapply inv_worker; [done | done | | done | apply (pi_bound _ _ Hinv) | done | eapply sinks_inv_write; [exact (pi_sinks _ _ Hinv)|done..| |] | |].
    + done.
    + intros j Hj. rewrite delivered_cons, (delivered_one _ _ _ _ r') by done. unfold handed. cbn.
      repeat case_decide; done || lia.
    + rewrite delivered_cons, (delivered_one _ _ _ _ r'), decide_True, handed_not_yet by (done || lia). done.
    + rewrite length_insert. apply finished_cons; [exact (pi_finished _ _ Hinv)|done].
    + rewrite wrap_count. cbn. by rewrite (pi_panics _ _ Hinv).
  - (* done *) assert (Hr : redact r = Some r') by (by eapply pi_redacted).
    eapply inv_worker; [done | done | | done | apply (pi_bound _ _ Hinv) | done | eapply sinks_inv_worker; [exact (pi_sinks _ _ Hinv)|done|] | |].
    + done.
    + intros k Hk. rewrite delivered_cons, (delivered_one _ _ _ _ r'), decide_True, handed_done by done. done.
    + apply finished_cons; [exact (pi_finished _ _ Hinv)|]. intros _. cbn. rewrite Hr. eauto.
    + rewrite wrap_count. cbn. by rewrite (pi_panics _ _ Hinv).
  - (* close *) destruct Hinv. by split.
Qed.

Definition fresh_sinks (sinks : list Sink) : Prop := forall s, s ∈ sinks -> sk_log s = [].

Lemma idle_workers n : in_flight (replicate n Idle) = [] /\ forall k, handed k (replicate n Idle) = [].
Proof. split; [|intros k]; induction n; done. Qed.

Lemma NewPool_inv size qcap sinks : fresh_sinks sinks -> pool_inv redact (NewPool size qcap sinks).
Proof.
  intros Hf. destruct (idle_workers (Z.to_nat (if (size <? 1)%Z then 1 else size))) as [Hi Hh].
  split; cbn -[in_flight handed replicate]; try done; try (apply Nat.le_0_l).
  - by rewrite Hi.
  - intros i r r' k [? ?]%lookup_replicate. done.
  - intros k s Hs. rewrite Hh, (Hf s); [done|]. by apply list_elem_of_lookup_2 in Hs.
  - intros f Hin%elem_of_nil. done.
Qed.

Lemma reachable_inv size qcap sinks st :
  fresh_sinks sinks -> reachable redact opts (NewPool size qcap sinks) st -> pool_inv redact st.
Proof.
  intros Hf Hr. pose proof (NewPool_inv size qcap sinks Hf) as H0. revert H0.
  induction Hr as [|x y z Hxy _ IH]; eauto using step_preserves.
Qed.

Lemma handed_sub k ws :
  (forall i r r' n, ws !! i = Some (Writing r r' n) -> redact r = Some r') ->
  handed k ws ⊆+ omap redact (in_flight ws).
Proof.
  induction ws as [|w ws IH]; intros Hr; [done|].
  assert (Hws : handed k ws ⊆+ omap redact (in_flight ws)) by (apply IH; intros i; apply (Hr (S i))).
  destruct w as [|r|r r' n]; cbn; [done| |].
  - case_match; [by apply submseteq_cons|done].
  - rewrite (Hr 0 r r' n eq_refl). case_decide; [by apply submseteq_skip|by apply submseteq_cons].
Qed.

Lemma delivered_sub k fs : delivered redact k fs ⊆+ omap redact (fi_rec <$> fs).
Proof.
  induction fs as [|f fs IH]; [done|]. cbn. case_decide.
  - case_match; [by apply submseteq_skip|done].
  - case_match; [by apply submseteq_cons|done].
Qed.

Lemma inv_redactions st k s :
  pool_inv redact st -> pl_sinks st !! k = Some s -> sk_log s ⊆+ omap redact (accepted (pl_history st)).
Proof.
  intros [Hc Hred Hsi _ _ _ _ _ _ _ _] Hs. rewrite (Hsi k s Hs), Hc, !omap_app.
  apply submseteq_inserts_l, submseteq_app; [by apply handed_sub|apply delivered_sub].
Qed.

(** C19. Nothing unredacted and nothing twice: in every reachable state of the
    pool, whatever the interleaving of requests, events, workers and panics,
    the records a sink was handed form a sub-multiset of the redactions of the
    records the queue accepted. *)
Theorem sinks_receive_only_redactions size qcap sinks st k s :
  fresh_sinks sinks -> reachable redact opts (NewPool size qcap sinks) st -> pl_sinks st !! k = Some s ->
  sk_log s ⊆+ omap redact (accepted (pl_history st)).
Proof.
  intros Hf Hr. eapply inv_redactions, reachable_inv; done.
Qed.

(** Idle workers hold nothing. *)
Lemma handed_idle k ws : (forall w, w ∈ ws -> w = Idle) -> handed k ws = [].
Proof.
  intros Hidle. induction ws as [|w ws IH]; [done|]. pose proof (Hidle w ltac:(left)) as ->.
  apply IH. intros x Hx. apply Hidle. by right.
Qed.

(** A drained pool has handed a sink the redactions of the records that came as
    far as that sink. *)
Lemma inv_reached st : pool_inv redact st -> drained st ->
  forall k s, pl_sinks st !! k = Some s ->
    sk_log s ≡ₚ omap redact (fi_rec <$> filter (fun f => k < fi_sinks f) (pl_finished st)).
Proof.
  intros Hinv [_ Hidle] k s Hs. rewrite (pi_sinks _ _ Hinv k s Hs), handed_idle by done. cbn [app].
  apply Permutation_refl'. unfold delivered. clear. induction (pl_finished st) as [|f fs IH]; [done|].
  rewrite filter_cons. cbn [omap list_omap]. rewrite IH. by case_decide.
Qed.

(** A drained pool without panics has handed every accepted record to every sink. *)
Lemma inv_delivered st : pool_inv redact st -> drained st ->
  (forall f, f ∈ pl_finished st -> fi_panicked f = false) ->
  forall k s, pl_sinks st !! k = Some s -> Some <$> sk_log s ≡ₚ redact <$> accepted (pl_history st).
Proof.
  intros [Hc Hred Hsi Hfin _ _ _ _ _ _ _] [Hq Hidle] Hnp k s Hs.
  assert (Hfl : in_flight (pl_workers st) = [] /\ handed k (pl_workers st) = []).
  { clear -Hidle. induction (pl_workers st) as [|w ws IH]; [done|].
    destruct IH as [IH1 IH2]; [intros; apply Hidle; by right|].
    rewrite (Hidle w) by left. done. }
  destruct Hfl as [Hfl Hh]. rewrite Hc, Hq, Hfl, (Hsi k s Hs), Hh. cbn [app].
  apply lookup_lt_Some in Hs. clear -Hfin Hnp Hs.
  induction (pl_finished st) as [|f fs IH]; [done|]. rewrite delivered_cons.
  destruct (Hfin f) as [Hn [r' Hr']]; [left|apply Hnp; left|]. destruct f as [r n p]. cbn in Hn, Hr'.
  rewrite (delivered_one _ _ _ _ r'), decide_True by (done || lia). cbn. rewrite Hr'. constructor.
  apply IH; intros; [apply Hfin|apply Hnp]; by try right.
Qed.

(** Nothing lost: the accepted records are, up to order, those queued, in
    a worker's hands and finished; so once the pool has drained and no worker
    panicked, every sink was handed the redaction of every accepted record
    exactly once. *)
Lemma drained_pool_delivered_all size qcap sinks st :
  fresh_sinks sinks -> reachable redact opts (NewPool size qcap sinks) st ->
  accepted (pl_history st) ≡ₚ
    (qu_buf (pl_queue st) ++ in_flight (pl_workers st) ++ (fi_rec <$> pl_finished st))%list /\
  (qu_buf (pl_queue st) = [] -> (forall w, w ∈ pl_workers st -> w = Idle) ->
   (forall f, f ∈ pl_finished st -> fi_panicked f = false) ->
   forall k s, pl_sinks st !! k = Some s ->
     Some <$> sk_log s ≡ₚ redact <$> accepted (pl_history st)).
Proof.
  intros Hf Hr. pose proof (reachable_inv _ _ _ _ Hf Hr) as Hinv. split; [apply (pi_conserve _ _ Hinv)|].
  intros Hq Hidle Hnp. by apply inv_delivered.
Qed.

(** The counters describe one population: at every reachable state, modulo
    2^64, [captured_total] counts the requests the queue took,
    [captured_without_service] and [captured_without_correlation] those of them
    lacking the source, [dropped_total] what the full queue refused and
    [capture_errors_total] the failed bodies, [panics] the records a panic cut
    short; and the queue never exceeds its capacity. *)
Lemma counters_account size qcap sinks st :
  fresh_sinks sinks -> reachable redact opts (NewPool size qcap sinks) st ->
  cn_captured (pl_counters st) = wrap_u64 (count is_captured (pl_history st)) /\
  cn_withoutService (pl_counters st) = wrap_u64 (count lacks_service (pl_history st)) /\
  cn_withoutCorrelation (pl_counters st) = wrap_u64 (count lacks_correlation (pl_history st)) /\
  cn_bodyReadErrors (pl_counters st) = wrap_u64 (count is_body_error (pl_history st)) /\
  qu_dropped (pl_queue st) = wrap_u64 (count is_dropped (pl_history st)) /\
  pl_panics st = wrap_u64 (count fi_panicked (pl_finished st)) /\
  length (qu_buf (pl_queue st)) <= qu_cap (pl_queue st) /\
  (count lacks_service (pl_history st) <= count is_captured (pl_history st))%Z /\
  (count lacks_correlation (pl_history st) <= count is_captured (pl_history st))%Z.
Proof.
  intros Hf Hr. pose proof (reachable_inv _ _ _ _ Hf Hr) as []. split_and!; try done.
  all: clear; induction (pl_history st) as [|o h IH]; [done|]; rewrite !count_cons; destruct o; cbn; try lia.
  all: case_match; lia.
Qed.

(** ** Shutdown: a closed queue drains *)

(** Some worker exists, and none has written past the last sink. *)
Definition workers_ok (st : Pool) : Prop :=
  pl_workers st <> [] /\
  forall i r r' k, pl_workers st !! i = Some (Writing r r' k) -> k <= length (pl_sinks st).

Lemma workers_ok_insert st i w q c sinks e p h f :
  workers_ok st -> length sinks = length (pl_sinks st) ->
  (forall r r' k, w = Writing r r' k -> k <= length sinks) ->
  workers_ok (mkPool q c (<[i := w]> (pl_workers st)) sinks e p h f).
Proof.
  intros [Hne Hk] Hl Hw. split; cbn.
  - intros He. apply Hne, length_zero_iff_nil. by rewrite <- (length_insert _ i w), He.
  - intros j r r' k Hj. apply list_lookup_insert_Some in Hj as [(_ & Hj & _)|(_ & Hj)]; [by eapply Hw|].
    rewrite Hl. by eapply Hk.
Qed.

Lemma step_workers_ok st st' : step redact opts st st' -> workers_ok st -> workers_ok st'.
Proof.
  intros Hstep Hok. destruct Hstep; try (by destruct Hok); 
    (apply workers_ok_insert; [done|by rewrite ?length_insert|]; intros ? ? ? Hw; simplify_eq;
     rewrite ?length_insert); [lia|].
  by eapply lookup_lt_Some.
Qed.

Lemma NewPool_workers_ok size qcap sinks : workers_ok (NewPool size qcap sinks).
Proof.
  split; cbn -[replicate].
  - destruct (Z.to_nat _) eqn:E; [|done]. destruct (Z.ltb_spec size 1); lia.
  - intros i r r' k [? ?]%lookup_replicate. done.
Qed.

Lemma reachable_workers_ok size qcap sinks st :
  reachable redact opts (NewPool size qcap sinks) st -> workers_ok st.
Proof.
  intros Hr. pose proof (NewPool_workers_ok size qcap sinks) as H0. revert H0.
  induction Hr as [|x y z Hxy _ IH]; eauto using step_workers_ok.
Qed.

Lemma sum_list_insert (f : Worker -> nat) ws i w w' :
  ws !! i = Some w -> sum_list (f <$> <[i := w']> ws) + f w = sum_list (f <$> ws) + f w'.
Proof.
  revert i. induction ws as [|x ws IH]; intros [|i] Hi; simpl in Hi; simplify_eq; simpl; [lia|].
  specialize (IH i Hi). unfold fmap in *. lia.
Qed.

(** Every worker step uses up work. *)
Lemma drain_step_work st st' :
  workers_ok st -> drain_step redact opts st st' -> work st' < work st /\ workers_ok st' /\
    qu_closed (pl_queue st') = true.
Proof.
  intros Hok (Hstep & Hh & Hc). split; [|split; [by eapply step_workers_ok|]].
  2:{ destruct Hstep; cbn in *; try done.
      - apply (f_equal length) in Hh. simpl in Hh. lia.
      - apply (f_equal length) in Hh. simpl in Hh. lia.
      - unfold Dequeue in *. by destruct (qu_buf (pl_queue st)); simplify_eq. }
  assert (Hw : forall i w w', pl_workers st !! i = Some w ->
    sum_list (worker_work (length (pl_sinks st)) <$> <[i := w']> (pl_workers st)) +
      worker_work (length (pl_sinks st)) w =
    sum_list (worker_work (length (pl_sinks st)) <$> pl_workers st) + worker_work (length (pl_sinks st)) w')
    by (intros; by apply sum_list_insert).
  unfold work. destruct Hstep; cbn [pl_history] in Hh; try (apply (f_equal length) in Hh; simpl in Hh; lia);
    cbn [pl_queue pl_sinks pl_workers]; rewrite ?length_insert.
  - unfold Dequeue in *. destruct (qu_buf (pl_queue st)) as [|x rest] eqn:Eb; simplify_eq.
    specialize (Hw i Idle (Redacting r) ltac:(done)). simpl in *. lia.
  - specialize (Hw i _ (Writing r r' 0) ltac:(done)). simpl in *. lia.
  - specialize (Hw i _ Idle ltac:(done)). simpl in *. lia.
  - specialize (Hw i _ (Writing r r' (S k)) ltac:(done)).
    assert (k < length (pl_sinks st)) by (by eapply lookup_lt_Some). simpl in *. lia.
  - specialize (Hw i _ Idle ltac:(done)). simpl in *. lia.
  - specialize (Hw i _ Idle ltac:(done)). simpl in *. lia.
  - congruence.
Qed.

(** A busy worker can always move. *)
Lemma busy_moves st i w :
  workers_ok st -> qu_closed (pl_queue st) = true -> pl_workers st !! i = Some w -> w <> Idle ->
  exists st', drain_step redact opts st st'.
Proof.
  intros [_ Hk] Hc Hi Hne. destruct w as [|r|r r' k]; [done| |].
  - destruct (redact r) as [r'|] eqn:Er; eexists.
    + split; [by eapply step_redact|done].
    + split; [by eapply step_redact_panic|done].
  - destruct (decide (k = length (pl_sinks st))) as [->|Hkn].
    { eexists. split; [by eapply step_done|done]. }
    destruct (lookup_lt_is_Some_2 (pl_sinks st) k) as [s Hs]; [specialize (Hk _ _ _ _ Hi); lia|].
    destruct (sink_write s r') as [s' res] eqn:Ew. destruct (decide (res = WritePanic)) as [->|Hp].
    + eexists. split; [by eapply step_write_panic|done].
    + eexists. split; [by eapply step_write|done].
Qed.

Definition is_idle (w : Worker) : bool := match w with Idle => true | _ => false end.

Lemma drain_progress st :
  workers_ok st -> qu_closed (pl_queue st) = true -> drained st \/ exists st', drain_step redact opts st st'.
Proof.
  intros Hok Hc. destruct (decide (Exists (fun w => is_idle w = false) (pl_workers st))) as [Hb|Hb].
  { right. apply list.Exists_exists in Hb as (w & [i Hi]%list_elem_of_lookup & Hne).
    eapply busy_moves; [done..|]. by intros ->. }
  assert (Hidle : forall w, w ∈ pl_workers st -> w = Idle).
  { intros w Hw. destruct (is_idle w) eqn:Ei; [by destruct w|]. destruct Hb. apply list.Exists_exists. eauto. }
  destruct (qu_buf (pl_queue st)) as [|r rest] eqn:Eq; [by left|right].
  destruct (pl_workers st) as [|w ws] eqn:Ew; [by destruct Hok|].
  eexists. split; [apply (step_take _ _ _ 0 r)|done].
  - rewrite Ew, (Hidle w) by left. done.
  - unfold Dequeue. by rewrite Eq.
Qed.

Lemma drain_rtc st st' :
  workers_ok st -> qu_closed (pl_queue st) = true -> rtc (drain_step redact opts) st st' ->
  workers_ok st' /\ qu_closed (pl_queue st') = true /\ reachable redact opts st st' /\
  pl_history st' = pl_history st.
Proof.
  intros Hok Hc Hd. induction Hd as [x|x y z Hxy _ IH]; [by split_and!; try apply rtc_refl|].
  destruct (drain_step_work _ _ Hok Hxy) as (_ & Hok' & Hc'). destruct (IH Hok' Hc') as (? & ? & ? & Hh).
  destruct Hxy as (Hs & Hh' & _). split_and!; [done|done|by eapply rtc_l|by rewrite Hh].
Qed.

Lemma drain_bound n st st' :
  workers_ok st -> nsteps (drain_step redact opts) n st st' -> n <= work st.
Proof.
  intros Hok Hn. induction Hn as [|n x y z Hxy _ IH]; [lia|].
  destruct (drain_step_work _ _ Hok Hxy) as (Hlt & Hok' & _). specialize (IH Hok'). lia.
Qed.

Lemma drain_reaches st :
  workers_ok st -> qu_closed (pl_queue st) = true ->
  exists st', rtc (drain_step redact opts) st st' /\ drained st'.
Proof.
  remember (work st) as n eqn:En. revert st En.
  induction (lt_wf n) as [n _ IH]; intros st -> Hok Hc.
  destruct (drain_progress st Hok Hc) as [Hd|[y Hy]]; [by exists st; split; [apply rtc_refl|]|].
  destruct (drain_step_work _ _ Hok Hy) as (Hlt & Hok' & Hc').
  destruct (IH _ Hlt y eq_refl Hok' Hc') as (st' & Hs & Hd). exists st'. split; [by eapply rtc_l|done].
Qed.

Lemma in_flight_idle ws : (forall w, w ∈ ws -> w = Idle) -> in_flight ws = [].
Proof.
  induction ws as [|w ws IH]; intros Hi; [done|].
  rewrite (Hi w) by left. apply IH. intros. apply Hi. by right.
Qed.

(** C20. Shutdown terminates and delivers: once the queue of a reachable pool is
    closed, whatever order the workers are scheduled in and whatever redactor
    and sinks do, at most [work st] worker steps can happen; and a state in
    which no worker can step is drained, its records all finished, so with
    every worker scheduled in turn the pool reaches it. *)
Theorem pool_drains size qcap sinks st :
  fresh_sinks sinks -> reachable redact opts (NewPool size qcap sinks) st -> qu_closed (pl_queue st) = true ->
  (forall n st', nsteps (drain_step redact opts) n st st' -> n <= work st) /\
  (forall st', rtc (drain_step redact opts) st st' ->
     (forall st'', ~ drain_step redact opts st' st'') ->
     drained st' /\ accepted (pl_history st) ≡ₚ fi_rec <$> pl_finished st') /\
  (exists st', rtc (drain_step redact opts) st st' /\ drained st').
Proof.
  intros Hf Hr Hc. pose proof (reachable_workers_ok _ _ _ _ Hr) as Hok. split_and!.
  - intros n st'. by apply drain_bound.
  - intros st' Hd Hstuck.
    destruct (drain_rtc _ _ Hok Hc Hd) as (Hok' & Hc' & Hr' & Hh').
    destruct (drain_progress st' Hok' Hc') as [Hd'|[st'' Hs]]; [|by destruct (Hstuck st'')].
    split; [done|]. assert (Hinv : pool_inv redact st') by (eapply reachable_inv; [done|by unfold reachable in *; etrans]).
    destruct Hd' as [Hq Hidle]. rewrite <- Hh', (pi_conserve _ _ Hinv), Hq. cbn [app].
    by rewrite in_flight_idle.
  - by apply drain_reaches.
Qed.

(** ** The step relation contains the sequential [process] *)

Lemma write_steps st i r r' pre rest :
  pl_workers st !! i = Some (Writing r r' (length pre)) -> pl_sinks st = (pre ++ rest)%list ->
  exists st', rtc (step redact opts) st st' /\ pl_workers st' = <[i := Idle]> (pl_workers st) /\
    pl_queue st' = pl_queue st /\ pl_counters st' = pl_counters st /\ pl_history st' = pl_history st /\
    let '(rest', errs', panicked) := write_sinks rest (pl_errors st) r' in
    pl_sinks st' = (pre ++ rest')%list /\ pl_errors st' = errs' /\
    pl_panics st' = (if panicked : bool then u64_incr (pl_panics st) else pl_panics st).
Proof.
  revert st pre. induction rest as [|s rest IH]; intros st pre Hw Hs; cbn [write_sinks].
  - rewrite app_nil_r in Hs. eexists. split; [apply rtc_once, (step_done _ _ _ i r r'); by rewrite Hs|]. cbn.
    by rewrite app_nil_r.
  - assert (Hl : pl_sinks st !! length pre = Some s) by (rewrite Hs; by apply list_lookup_middle).
    destruct (sink_write s r') as [s' res] eqn:Ew.
    assert (Hins : <[length pre := s']> (pl_sinks st) = ((pre ++ [s']) ++ rest)%list).
    { rewrite Hs, insert_app_r_alt by lia. rewrite Nat.sub_diag, <- app_assoc. done. }
    destruct (decide (res = WritePanic)) as [->|Hnp].
    + eexists. split; [eapply rtc_once, step_write_panic; done|]. cbn. rewrite Hins, <- app_assoc. done.
    + pose proof (step_write redact opts st i r r' _ s s' res Hw Hl Ew Hnp) as Hstep.
      match type of Hstep with step _ _ _ ?y => set (st1 := y) in * end.
      destruct (IH st1 (pre ++ [s'])%list) as (st' & Hsteps & Hwk & Hq & Hc & Hh & Hrest).
      { cbn. rewrite length_app, list_lookup_insert_eq by (by eapply lookup_lt_Some). do 2 f_equal. simpl. lia. }
      { done. }
      exists st'. split; [by eapply rtc_l|]. rewrite Hwk, Hq, Hc, Hh. cbn. rewrite list_insert_insert_eq.
      do 4 (split; [done|]). destruct res; [| |done]; cbn in Hrest |- *;
        destruct (write_sinks rest _ r') as [[rest' errs'] p]; destruct Hrest as (-> & -> & ->);
        by rewrite <- app_assoc.
Qed.

(** A busy worker always finishes: from any state in which it holds a
    record, the pool can step, without any other worker moving, to a state
    where that worker is idle and sinks, error counters and panic count are
    exactly what the sequential [process] computes. *)
Lemma worker_runs_process st i r :
  pl_workers st !! i = Some (Redacting r) ->
  exists st', reachable redact opts st st' /\ pl_workers st' = <[i := Idle]> (pl_workers st) /\
    pl_queue st' = pl_queue st /\ pl_counters st' = pl_counters st /\ pl_history st' = pl_history st /\
    (pl_sinks st', pl_errors st', pl_panics st') =
      process redact (pl_sinks st) (pl_errors st) (pl_panics st) r.
Proof.
  intros Hw. unfold process. destruct (redact r) as [r'|] eqn:Er.
  2:{ eexists. split; [by eapply rtc_once, step_redact_panic|]. done. }
  pose proof (step_redact redact opts st i r r' Hw Er) as Hstep.
  match type of Hstep with step _ _ _ ?y => set (st1 := y) in * end.
  destruct (write_steps st1 i r r' [] (pl_sinks st)) as (st' & Hsteps & Hwk & Hq & Hc & Hh & Hrest); [|done|].
  { cbn. rewrite list_lookup_insert_eq by (by eapply lookup_lt_Some). done. }
  exists st'. split; [by eapply rtc_l|]. rewrite Hwk, Hq, Hc, Hh. cbn. rewrite list_insert_insert_eq.
  do 4 (split; [done|]). cbn in Hrest. destruct (write_sinks (pl_sinks st) _ r') as [[rest' errs'] p].
  destruct Hrest as (-> & -> & ->). done.
Qed.
End Facts.

(** ** Examples *)

Definition ping : CRecord := RResponse (mkResponseEvent "e1" 7%Z "c1" "explicit" "svc" "header" 200 None "" false 0 "" 3).
Definition demo_sinks : list Sink := [mkSink "memory" (fun _ _ => WriteOk) []].
Definition demo_opts : HandlerOptions := mkHandlerOptions "" 1024.
Definition demo_end : Pool :=
  mkPool (NewQueue 4) NewCounters [Idle] [mkSink "memory" (fun _ _ => WriteOk) [ping]] NewSinkErrorCounters 0
    [OfferEvent ping] [mkFinished ping 1 false].

Lemma demo_fresh : fresh_sinks demo_sinks.
Proof. intros s Hs%list_elem_of_singleton. by subst. Qed.

(** One event through one worker. *)
Lemma demo_run : reachable Some (H := ascii_unicode) demo_opts (NewPool 1 4 demo_sinks) demo_end.
Proof.
  eapply rtc_l; [apply (step_event Some demo_opts _ ping (mkQueue [ping] 4 0 false) true); reflexivity|].
  eapply rtc_l; [apply (step_take Some demo_opts _ 0 ping (NewQueue 4)); reflexivity|].
  eapply rtc_l; [apply (step_redact Some demo_opts _ 0 ping ping); reflexivity|].
  eapply rtc_l; [apply (step_write Some demo_opts _ 0 ping ping 0 (mkSink "memory" (fun _ _ => WriteOk) [])
    (mkSink "memory" (fun _ _ => WriteOk) [ping]) WriteOk); [reflexivity..|done]|].
  eapply rtc_l; [apply (step_done Some demo_opts _ 0 ping ping); reflexivity|]. apply rtc_refl.
Qed.

Lemma sinks_receive_only_redactions_witness : [ping] ⊆+ omap Some (accepted [OfferEvent ping]).
Proof.
  exact (sinks_receive_only_redactions Some (H := ascii_unicode) demo_opts 1 4 demo_sinks demo_end 0
    (mkSink "memory" (fun _ _ => WriteOk) [ping]) demo_fresh demo_run eq_refl).
Defined.

Lemma drained_pool_delivered_all_witness : Some <$> [ping] ≡ₚ Some <$> accepted [OfferEvent ping].
Proof.
  refine (proj2 (drained_pool_delivered_all Some (H := ascii_unicode) demo_opts 1 4 demo_sinks demo_end demo_fresh demo_run)
    eq_refl _ _ 0 (mkSink "memory" (fun _ _ => WriteOk) [ping]) eq_refl).
  - intros w Hw. apply list_elem_of_singleton in Hw. exact Hw.
  - intros f Hf. apply list_elem_of_singleton in Hf. rewrite Hf. reflexivity.
Defined.

Lemma counters_account_witness :
  cn_captured (pl_counters demo_end) = wrap_u64 (count is_captured (pl_history demo_end)) /\ pl_panics demo_end = 0%Z.
Proof.
  split; [|reflexivity].
  exact (proj1 (counters_account Some (H := ascii_unicode) demo_opts 1 4 demo_sinks demo_end demo_fresh demo_run)).
Defined.

Definition demo_busy : Pool :=
  mkPool (NewQueue 4) NewCounters [Redacting ping] demo_sinks NewSinkErrorCounters 0 [OfferEvent ping] [].

Lemma worker_runs_process_witness :
  exists st', reachable Some (H := ascii_unicode) demo_opts demo_busy st' /\
    (pl_sinks st', pl_errors st', pl_panics st') = process Some demo_sinks NewSinkErrorCounters 0 ping.
Proof.
  destruct (worker_runs_process Some (H := ascii_unicode) demo_opts demo_busy 0 ping eq_refl)
    as (st' & Hr & _ & _ & _ & _ & Hp).
  exists st'. split; [exact Hr|exact Hp].
Defined.

(** A pool whose queue was closed with one event still in it. *)
Definition demo_closing : Pool :=
  mkPool (mkQueue [ping] 4 0 true) NewCounters [Idle] demo_sinks NewSinkErrorCounters 0 [OfferEvent ping] [].

Lemma demo_close_run : reachable Some (H := ascii_unicode) demo_opts (NewPool 1 4 demo_sinks) demo_closing.
Proof.
  eapply rtc_l; [apply (step_event Some demo_opts _ ping (mkQueue [ping] 4 0 false) true); reflexivity|].
  eapply rtc_l; [apply (step_close Some demo_opts); reflexivity|]. apply rtc_refl.
Qed.

Lemma pool_drains_witness :
  work demo_closing = 4 /\
  exists st', rtc (drain_step Some (H := ascii_unicode) demo_opts) demo_closing st' /\ drained st'.
Proof.
  split; [reflexivity|].
  exact (proj2 (proj2 (pool_drains Some (H := ascii_unicode) demo_opts 1 4 demo_sinks demo_closing
    demo_fresh demo_close_run eq_refl))).
Defined.
