(* ===== verification/Redact.v ===== *)
(** * redact/ruleset.go: the redactor

    Regular expressions, the JSON path libraries (gjson, sjson) and MIME type
    parsing are the operations of class [RedactDeps]. Records are
    values here; [RedactHeap] has the copies and the loops that write in place,
    and shows that they compute the same. *)
From S2P Require Import Prelude GoLib Record.

Open Scope string_scope.
Open Scope go_scope.

Definition Redacted : string := "[REDACTED]".

(** ** Dependencies *)

Class RedactDeps := {
  regexp_t : Type;
  (** [regexp.Compile] *)
  regexp_Compile : string -> option regexp_t;
  (** [ReplaceAll] and [ReplaceAllLiteralString] with the marker, whose text has
      no [$]: every match replaced *)
  regexp_Replace : regexp_t -> string -> string -> string;
  (** [gjson.ValidBytes] *)
  gjson_Valid : string -> bool;
  (** [gjson.GetBytes(b, path).Exists()] *)
  gjson_Exists : string -> string -> bool;
  (** [sjson.SetBytes(b, path, value)] *)
  sjson_Set : string -> string -> string -> option string;
  (** [mime.ParseMediaType]: the media type *)
  mime_ParseMediaType : string -> option string
}.

(** ** Configuration (config.go) and the compiled rule set *)

Record RegexRuleConfig := mkRegexRuleConfig { rrc_Name : string; rrc_Pattern : string }.
Record CookieRuleConfig := mkCookieRuleConfig { crc_Names : list string; crc_Mode : string }.
Record RedactionConfig := mkRedactionConfig {
  rc_Headers : list string;
  rc_QueryParams : list string;
  rc_JSONPaths : list string;
  rc_Regex : list RegexRuleConfig;
  rc_Cookies : list CookieRuleConfig
}.

Inductive cookieMode := cookieModeRedact | cookieModeStrip | cookieModeAllowlist.

Record cookieRule := mkCookieRule { ckr_mode : cookieMode; ckr_names : list string }.

Inductive RulesetError :=
| ErrEmptyJSONPath
| ErrInvalidJSONPath (path : string)
| ErrCookieMode (mode : string)
| ErrRegexName
| ErrRegexEmpty (name : string)
| ErrRegexCompile (name : string).

Definition parseCookieMode (s : string) : result RulesetError cookieMode :=
  if (String.eqb s "" || String.eqb s "redact")%bool then Ok cookieModeRedact
  else if String.eqb s "strip" then Ok cookieModeStrip
  else if String.eqb s "allowlist" then Ok cookieModeAllowlist
  else Err (ErrCookieMode s).

(** A loop that appends the results and returns at the first error. *)
Fixpoint try_map {E A B} (f : A -> result E B) (l : list A) : result E (list B) :=
  match l with
  | [] => Ok []
  | x :: l' => try y <- f x; try ys <- try_map f l'; Ok (y :: ys)
  end.

(** A function applied to every value of every key. *)
Definition map_values (f : string -> string) (h : header) : header := map f <$> h.

Section Redactor.
Context `{Unicode} `{MapRange} `{RedactDeps}.

Record regexRule := mkRegexRule { rgr_name : string; rgr_pattern : regexp_t }.

Record Ruleset := mkRuleset {
  rs_headers : list string;
  rs_queryParams : list string;
  rs_jsonPaths : list string;
  rs_regex : list regexRule;
  rs_cookies : list cookieRule
}.

Definition validateJSONPath (path : string) : result RulesetError string :=
  if String.eqb path "" then Err ErrEmptyJSONPath
  else match sjson_Set "{}" path "_" with
       | None => Err (ErrInvalidJSONPath path)
       | Some _ => Ok path
       end.

Definition compile_cookie (c : CookieRuleConfig) : result RulesetError cookieRule :=
  try mode <- parseCookieMode (crc_Mode c); Ok (mkCookieRule mode (crc_Names c)).

Definition compile_regex (r : RegexRuleConfig) : result RulesetError regexRule :=
  if String.eqb (rrc_Name r) "" then Err ErrRegexName
  else if String.eqb (rrc_Pattern r) "" then Err (ErrRegexEmpty (rrc_Name r))
  else match regexp_Compile (rrc_Pattern r) with
       | None => Err (ErrRegexCompile (rrc_Name r))
       | Some re => Ok (mkRegexRule (rrc_Name r) re)
       end.

Definition NewRuleset (cfg : RedactionConfig) : result RulesetError Ruleset :=
  let headers := map ToLower (rc_Headers cfg) in
  let queryParams := map ToLower (rc_QueryParams cfg) in
  try jsonPaths <- try_map validateJSONPath (rc_JSONPaths cfg);
  try cookies <- try_map compile_cookie (rc_Cookies cfg);
  try regex <- try_map compile_regex (rc_Regex cfg);
  Ok (mkRuleset headers queryParams jsonPaths regex cookies).

Definition IsUnredacted (r : Ruleset) : bool :=
  match rs_headers r, rs_queryParams r, rs_jsonPaths r, rs_regex r, rs_cookies r with
  | [], [], [], [], [] => true
  | _, _, _, _, _ => false
  end.

(** ** Header and query rules *)

(** Both loops visit every key and overwrite the values of the listed ones. *)
Definition mask_values (rules : list string) (m : header) : header :=
  map_imap (fun key vals =>
    Some (if bool_decide (ToLower key ∈ rules) then map (fun _ => Redacted) vals else vals)) m.

Definition applyHeaderRulesMap (headers : option header) (rules : list string) : option header :=
  option_map (mask_values rules) headers.
Definition applyQueryRules (query : option header) (rules : list string) : option header :=
  option_map (mask_values rules) query.

(** ** Cookie rules *)

Definition is_blank (c : ascii) : bool := Ascii.eqb c " " || Ascii.eqb c "009".

(** The bytes before the first [c], or all of them. *)
Definition before_byte (s : string) (c : ascii) : string :=
  match IndexByte s c with Some i => str_take i s | None => s end.

Definition cookieName (token : string) : string :=
  let trimmed := before_byte (TrimLeft token is_blank) ";" in
  match IndexByte trimmed "=" with
  | None => TrimSpace trimmed
  | Some eq => TrimSpace (str_take eq trimmed)
  end.

Definition replaceCookieValue (token : string) : string :=
  let rest := TrimLeft token is_blank in
  let leadingEnd := String.length token - String.length rest in
  match IndexByte rest "=" with
  | None => token
  | Some eq =>
      let valueStart := leadingEnd + eq + 1 in
      match IndexByte (str_drop valueStart token) ";" with
      | None => str_take valueStart token +:+ Redacted
      | Some attrStart => str_take valueStart token +:+ Redacted +:+ str_drop (valueStart + attrStart) token
      end
  end.

Definition joinCookieParts (parts : list string) : string :=
  match parts with
  | [] => ""
  | p :: ps => Join (TrimLeft p is_blank :: ps) ";"
  end.

(** What the loop over the parts appends for one part. *)
Definition cookie_part (rule : cookieRule) (raw : string) : option string :=
  let name := cookieName raw in
  if String.eqb name "" then Some raw else
  let matched := bool_decide (name ∈ ckr_names rule) in
  match ckr_mode rule with
  | cookieModeRedact => Some (if matched then replaceCookieValue raw else raw)
  | cookieModeStrip => if matched then None else Some raw
  | cookieModeAllowlist => if matched then Some raw else None
  end.

Definition applyRuleToCookieHeader (value : string) (rule : cookieRule) : string :=
  if String.eqb value "" then value
  else joinCookieParts (omap (cookie_part rule) (Split value ";")).

(** The flag asks the caller to drop the entry. *)
Definition applyRuleToSetCookieHeader (value : string) (rule : cookieRule) : string * bool :=
  if String.eqb value "" then (value, false) else
  let name := cookieName value in
  if String.eqb name "" then (value, false) else
  let matched := bool_decide (name ∈ ckr_names rule) in
  match ckr_mode rule with
  | cookieModeRedact => (if matched then replaceCookieValue value else value, false)
  | cookieModeStrip => if matched then ("", true) else (value, false)
  | cookieModeAllowlist => if matched then (value, false) else ("", true)
  end.

Definition allEmpty (vals : list string) : bool := forallb (fun v => String.eqb v "") vals.

Definition cookieHeaderKey : string := CanonicalMIMEHeaderKey "cookie".
Definition setCookieHeaderKey : string := CanonicalMIMEHeaderKey "set-cookie".

Definition findHeaderKey (headers : header) (canonical : string) : string :=
  match headers !! canonical with
  | Some _ => canonical
  | None =>
      match List.find (fun '(k, _) => String.eqb (CanonicalMIMEHeaderKey k) canonical) (go_range headers) with
      | Some (k, _) => k
      | None => ""
      end
  end.

(** One rule on the Cookie entry, then on the Set-Cookie entry; a key set to
    the empty string stays ignored by the rules that follow. *)
Definition cookie_entry (rule : cookieRule) (st : header * string) : header * string :=
  let '(headers, cookieKey) := st in
  if String.eqb cookieKey "" then st else
  let vals := map (fun v => applyRuleToCookieHeader v rule) (default [] (headers !! cookieKey)) in
  if allEmpty vals then (delete cookieKey headers, "") else (<[cookieKey := vals]> headers, cookieKey).

Definition set_cookie_entry (rule : cookieRule) (st : header * string) : header * string :=
  let '(headers, setCookieKey) := st in
  if String.eqb setCookieKey "" then st else
  let kept := omap (fun v => let '(redacted, drop) := applyRuleToSetCookieHeader v rule in
                             if drop : bool then None else Some redacted)
                   (default [] (headers !! setCookieKey)) in
  match kept with
  | [] => (delete setCookieKey headers, "")
  | _ => (<[setCookieKey := kept]> headers, setCookieKey)
  end.

Definition cookie_rule_step (st : header * (string * string)) (rule : cookieRule) : header * (string * string) :=
  let '(h, (ck, sck)) := st in
  let '(h, ck) := cookie_entry rule (h, ck) in
  let '(h, sck) := set_cookie_entry rule (h, sck) in
  (h, (ck, sck)).

Definition cookie_rules_loop (rules : list cookieRule) (headers : header) (cookieKey setCookieKey : string) : header :=
  fst (fold_left cookie_rule_step rules (headers, (cookieKey, setCookieKey))).

Definition applyCookieRulesToHeaders (headers : option header) (rules : list cookieRule) : option header :=
  match rules, headers with
  | [], _ | _, None => headers
  | _, Some h =>
      Some (cookie_rules_loop rules h (findHeaderKey h cookieHeaderKey) (findHeaderKey h setCookieHeaderKey))
  end.

Definition cookie_slice_rule (rule : cookieRule) (cs : list Cookie) : list Cookie :=
  omap (fun c =>
    let matched := bool_decide (ck_Name c ∈ ckr_names rule) in
    match ckr_mode rule with
    | cookieModeRedact => Some (if matched then mkCookie (ck_Name c) Redacted else c)
    | cookieModeStrip => if matched then None else Some c
    | cookieModeAllowlist => if matched then Some c else None
    end) cs.

Definition redactCookieSlice (cs : list Cookie) (rules : list cookieRule) : list Cookie :=
  fold_left (fun cs rule => cookie_slice_rule rule cs) rules cs.

(** ** JSON path rules *)

Definition parseMediaType (ct : string) : string :=
  if String.eqb ct "" then "" else
  match mime_ParseMediaType ct with
  | Some media => media
  | None => ToLower (TrimSpace (before_byte ct ";"))
  end.

Definition isJSONContentType (ct : string) : bool :=
  let media := parseMediaType ct in
  if String.eqb media "" then false
  else if String.eqb media "application/json" then true
  else HasSuffix media "+json".

(** Declared text types; called by no other function of the package. *)
Definition isTextLikeContentType (ct : string) : bool :=
  let media := parseMediaType ct in
  if String.eqb media "" then false
  else if bool_decide (media ∈ ["application/json"; "application/xml"; "application/x-www-form-urlencoded"]) then true
  else if HasPrefix media "text/" then true
  else HasSuffix media "+json" || HasSuffix media "+xml".

Definition json_path_step (st : string * Z) (path : string) : string * Z :=
  let '(b, errs) := st in
  if negb (gjson_Exists b path) then st
  else match sjson_Set b path Redacted with
       | None => (b, u64_incr errs)
       | Some next => (next, errs)
       end.

Definition applyJSONPathRulesBody (body contentType : string) (rules : list string) (errs : Z) : string * Z :=
  if (match rules with [] => true | _ => false end || String.eqb body "")%bool then (body, errs)
  else if negb (gjson_Valid body) then (body, if isJSONContentType contentType then u64_incr errs else errs)
  else fold_left json_path_step rules (body, errs).

(** ** Regex rules *)

Definition regex_value (rules : list regexRule) (v : string) : string :=
  fold_left (fun v rule => regexp_Replace (rgr_pattern rule) v Redacted) rules v.

Definition applyRegexRulesBody (body : string) (rules : list regexRule) : string :=
  if (match rules with [] => true | _ => false end || String.eqb body "")%bool then body
  else regex_value rules body.

Definition applyRegexRulesHeaderMap (headers : option header) (rules : list regexRule) : option header :=
  match rules with
  | [] => headers
  | _ => option_map (map_values (regex_value rules)) headers
  end.

(** One rule at a time over body, headers and query values. *)
Definition applyRegexRulesCaptured (out : CapturedRequest) (rules : list regexRule) : string * option header * option header :=
  let bodyEligible := negb (String.eqb (cr_Body out) "") in
  fold_left (fun '(body, headers, query) rule =>
    let body := if bodyEligible then regexp_Replace (rgr_pattern rule) body Redacted else body in
    let headers := applyRegexRulesHeaderMap headers [rule] in
    let query := option_map (map_values (fun v => regexp_Replace (rgr_pattern rule) v Redacted)) query in
    (body, headers, query)) rules (cr_Body out, cr_Headers out, cr_Query out).

(** redactor.go *)
Definition NoOp_Redact (r : CRecord) : CRecord := r.

(** ** The three record variants *)

Definition redactCapturedRequest (r : Ruleset) (errs : Z) (rec : CapturedRequest) : CapturedRequest * Z :=
  (** applyCookieRules returns before the cookie slice when the headers are nil *)
  let headers := applyCookieRulesToHeaders (cr_Headers rec) (rs_cookies r) in
  let cookies := match rs_cookies r, cr_Headers rec with
                 | [], _ | _, None => cr_Cookies rec
                 | _, Some _ => redactCookieSlice (cr_Cookies rec) (rs_cookies r)
                 end in
  let headers := applyHeaderRulesMap headers (rs_headers r) in
  let query := applyQueryRules (cr_Query rec) (rs_queryParams r) in
  let '(body, errs) := applyJSONPathRulesBody (cr_Body rec) (cr_ContentType rec) (rs_jsonPaths r) errs in
  let out := mkCapturedRequest (cr_ID rec) (cr_Timestamp rec) (cr_Method rec) (cr_Path rec) query headers cookies
    body (cr_BodyTruncated rec) (cr_BodyOriginalSize rec) (cr_ContentType rec) (cr_SourceIP rec) (cr_Service rec)
    (cr_ServiceSource rec) (cr_CorrelationID rec) (cr_CorrelationSource rec) in
  let '(body, headers, query) := applyRegexRulesCaptured out (rs_regex r) in
  (mkCapturedRequest (cr_ID rec) (cr_Timestamp rec) (cr_Method rec) (cr_Path rec) query headers cookies
    body (cr_BodyTruncated rec) (cr_BodyOriginalSize rec) (cr_ContentType rec) (cr_SourceIP rec) (cr_Service rec)
    (cr_ServiceSource rec) (cr_CorrelationID rec) (cr_CorrelationSource rec), errs).

(** The five steps shared by a response event and both outbound halves. *)
Definition redact_half (r : Ruleset) (errs : Z) (headers : option header) (body contentType : string)
  : option header * string * Z :=
  let headers := applyCookieRulesToHeaders headers (rs_cookies r) in
  let headers := applyHeaderRulesMap headers (rs_headers r) in
  let '(body, errs) := applyJSONPathRulesBody body contentType (rs_jsonPaths r) errs in
  let body := applyRegexRulesBody body (rs_regex r) in
  let headers := applyRegexRulesHeaderMap headers (rs_regex r) in
  (headers, body, errs).

Definition redactResponseEvent (r : Ruleset) (errs : Z) (rec : ResponseEvent) : ResponseEvent * Z :=
  let '(headers, body, errs) := redact_half r errs (re_Headers rec) (re_Body rec) (re_ContentType rec) in
  (mkResponseEvent (re_ID rec) (re_Timestamp rec) (re_CorrelationID rec) (re_CorrelationSource rec) (re_Service rec)
    (re_ServiceSource rec) (re_Status rec) headers body (re_BodyTruncated rec) (re_BodyOriginalSize rec)
    (re_ContentType rec) (re_DurationMS rec), errs).

Definition redactOutboundEvent (r : Ruleset) (errs : Z) (rec : OutboundEvent) : OutboundEvent * Z :=
  let q := oe_Request rec in
  let '(headers, body, errs) := redact_half r errs (oq_Headers q) (oq_Body q) (oq_ContentType q) in
  let q' := mkOutboundRequestHalf (oq_Method q) (oq_Path q) headers body (oq_BodyTruncated q)
    (oq_BodyOriginalSize q) (oq_ContentType q) in
  let '(p', errs) :=
    match oe_Response rec with
    | None => (None, errs)
    | Some p =>
        let '(headers, body, errs) := redact_half r errs (os_Headers p) (os_Body p) (os_ContentType p) in
        (Some (mkOutboundResponseHalf (os_Status p) headers body (os_BodyTruncated p) (os_BodyOriginalSize p)
          (os_ContentType p)), errs)
    end in
  (mkOutboundEvent (oe_ID rec) (oe_Timestamp rec) (oe_CorrelationID rec) (oe_CorrelationSource rec) (oe_Service rec)
    (oe_ServiceSource rec) (oe_DurationMS rec) q' p', errs).

(** [redactionErrors] is threaded as [errs]. *)
Definition Redact (r : Ruleset) (errs : Z) (rec : CRecord) : CRecord * Z :=
  if IsUnredacted r then (rec, errs) else
  match rec with
  | RRequest v => let '(v, errs) := redactCapturedRequest r errs v in (RRequest v, errs)
  | RResponse v => let '(v, errs) := redactResponseEvent r errs v in (RResponse v, errs)
  | ROutbound v => let '(v, errs) := redactOutboundEvent r errs v in (ROutbound v, errs)
  end.

End Redactor.
