(* ===== verification/RedactFacts.v ===== *)
(** * What redaction guarantees *)
From S2P Require Import Prelude GoLib Record Redact.

Open Scope string_scope.

(** ** Cookie tokens *)

(** The value of a [name=value] token, up to its attributes. *)
Definition cookie_value (token : string) : option string :=
  let rest := TrimLeft token is_blank in
  eq ← IndexByte rest "="; Some (before_byte (str_drop (eq + 1) rest) ";").

Lemma before_byte_none s c : ContainsByte s c = false -> before_byte s c = s.
Proof. unfold before_byte. intros H%IndexByte_None. by rewrite H. Qed.

Lemma before_byte_app a c b : ContainsByte a c = false -> before_byte (a +:+ String c b) c = a.
Proof. intros H. unfold before_byte. by rewrite IndexByte_app, str_take_app. Qed.

Lemma before_byte_cases s c :
  ContainsByte (before_byte s c) c = false /\ (s = before_byte s c \/ exists t, s = before_byte s c +:+ String c t).
Proof.
  unfold before_byte. destruct (IndexByte s c) as [i|] eqn:E.
  - apply IndexByte_Some in E as [E1 E2]. eauto.
  - apply IndexByte_None in E. auto.
Qed.

(** A token is blanks, a name part, and possibly [=], a value, attributes. *)
Lemma token_shape token :
  exists lead n, str_forall is_blank lead = true /\ ContainsByte n "=" = false /\
    match n with "" => True | String c _ => is_blank c = false end /\
    ((token = lead +:+ n /\ cookie_value token = None) \/
     (exists v a, token = lead +:+ n +:+ String "=" (v +:+ a) /\ ContainsByte v ";" = false /\
        (a = "" \/ exists t, a = String ";" t) /\ cookie_value token = Some v)).
Proof.
  destruct (TrimLeft_spec token is_blank) as (lead & Ht & Hl & Hh).
  set (rest := TrimLeft token is_blank) in *. unfold cookie_value. fold rest.
  destruct (IndexByte rest "=") as [i|] eqn:Ei.
  - pose proof Ei as Ei'. apply IndexByte_Some in Ei as [E1 E2].
    exists lead, (str_take i rest). split_and!; [done..| |].
    { destruct (str_take i rest) as [|c n] eqn:En; [done|]. by rewrite E1 in Hh. }
    right. destruct (before_byte_cases (str_drop (i + 1) rest) ";") as [Hv Hc].
    set (v := before_byte (str_drop (i + 1) rest) ";") in *. destruct Hc as [Hc|[t Hc]].
    + exists v, "". rewrite str_app_nil_r. split_and!; [|done|by left|done].
      rewrite Ht, E1 at 1. by rewrite Hc.
    + exists v, (String ";" t). split_and!; [|done|by eauto|done]. rewrite Ht, E1 at 1. by rewrite <- Hc.
  - apply IndexByte_None in Ei. exists lead, rest. split_and!; [done..|]. left. done.
Qed.

Lemma head_blank_app n s :
  match n with "" => True | String c _ => is_blank c = false end ->
  match n +:+ String "=" s with "" => True | String c _ => is_blank c = false end.
Proof. destruct n; done. Qed.

Lemma TrimLeft_token lead n v :
  str_forall is_blank lead = true -> match n with "" => True | String c _ => is_blank c = false end ->
  TrimLeft (lead +:+ n +:+ String "=" v) is_blank = n +:+ String "=" v.
Proof. intros. apply TrimLeft_app; [done|]. by apply head_blank_app. Qed.

(** Only the value is replaced, and the result does not depend on it. *)
Lemma replaceCookieValue_token lead n v a :
  str_forall is_blank lead = true -> match n with "" => True | String c _ => is_blank c = false end ->
  ContainsByte n "=" = false -> ContainsByte v ";" = false -> a = "" \/ (exists t, a = String ";" t) ->
  replaceCookieValue (lead +:+ n +:+ String "=" (v +:+ a)) = lead +:+ n +:+ String "=" (Redacted +:+ a).
Proof.
  intros Hl Hh Hn Hv Ha. unfold replaceCookieValue. rewrite TrimLeft_token, IndexByte_app by done.
  set (s := lead +:+ n +:+ String "=" (v +:+ a)).
  assert (Hlen : String.length s - String.length (n +:+ String "=" (v +:+ a)) + String.length n + 1
    = String.length (lead +:+ n +:+ "=")).
  { unfold s. rewrite !str_length_app. simpl. rewrite !str_length_app. lia. }
  rewrite Hlen. assert (Hs : s = (lead +:+ n +:+ "=") +:+ (v +:+ a)).
  { unfold s. rewrite !str_app_assoc. done. }
  rewrite Hs, str_drop_app, str_take_app.
  destruct Ha as [->|[t ->]].
  - rewrite !str_app_nil_r. rewrite (proj2 (IndexByte_None v ";") Hv). by rewrite !str_app_assoc.
  - rewrite IndexByte_app by done.
    replace (str_drop _ _) with (String ";" t); [by rewrite !str_app_assoc|].
    rewrite <- str_length_app, <- (str_app_assoc _ v). by rewrite str_drop_app.
Qed.

Lemma replaceCookieValue_no_value token : cookie_value token = None -> replaceCookieValue token = token.
Proof.
  unfold cookie_value, replaceCookieValue. by destruct (IndexByte (TrimLeft token is_blank) "=").
Qed.

Lemma cookieName_token lead n v :
  str_forall is_blank lead = true -> match n with "" => True | String c _ => is_blank c = false end ->
  ContainsByte n "=" = false -> ContainsByte n ";" = false ->
  cookieName (lead +:+ n +:+ String "=" v) = TrimSpace n.
Proof.
  intros Hl Hh Hn Hs. unfold cookieName. rewrite TrimLeft_token by done.
  destruct (before_byte_cases (n +:+ String "=" v) ";") as [_ Hc].
  assert (exists w, before_byte (n +:+ String "=" v) ";" = n +:+ String "=" w) as [w ->].
  { unfold before_byte. destruct (IndexByte (n +:+ String "=" v) ";") as [i|] eqn:E; [|eauto].
    clear -E Hs. revert i E. induction n as [|c n IH]; intros i E.
    - cbn in E. destruct (IndexByte v ";") as [j|]; [|done]. injection E as <-. by exists (str_take j v).
    - rewrite ContainsByte_cons in Hs. apply orb_false_iff in Hs as [Hc Hs].
      change (String c n +:+ ?x) with (String c (n +:+ x)) in E. cbn [IndexByte] in E. rewrite Hc in E.
      destruct (IndexByte (n +:+ String "=" v) ";") as [j|]; [|done]. injection E as <-.
      destruct (IH Hs j eq_refl) as [w Hw]. exists w. cbn. by rewrite Hw. }
  by rewrite IndexByte_app, str_take_app.
Qed.

(** What a cookie rule promises of a token that survives it. *)
Definition token_ok (rule : cookieRule) (p : string) : Prop :=
  cookieName p = "" \/
  match ckr_mode rule with
  | cookieModeRedact => cookieName p ∈ ckr_names rule -> cookie_value p = None \/ cookie_value p = Some Redacted
  | cookieModeStrip => cookieName p ∉ ckr_names rule
  | cookieModeAllowlist => cookieName p ∈ ckr_names rule
  end.

(** Same name, and the value kept or masked. *)
Definition masks (p p' : string) : Prop :=
  cookieName p' = cookieName p /\ (cookie_value p' = cookie_value p \/ cookie_value p' = Some Redacted).

Lemma token_ok_masks rule p p' : masks p p' -> token_ok rule p -> token_ok rule p'.
Proof.
  intros [Hn Hv] Hok. unfold token_ok in *. rewrite Hn. destruct (ckr_mode rule); [|done..].
  destruct Hok as [|Hok]; [by left|]. right. intros Hin. destruct Hv as [->| ->]; auto.
Qed.

Lemma str_app_empty_r a b c : a +:+ b = c -> ContainsByte c ";" = false -> ContainsByte b ";" = false.
Proof. intros <-. rewrite ContainsByte_app. by intros [_ ?]%orb_false_iff. Qed.

Lemma cookie_value_token lead n v a :
  str_forall is_blank lead = true -> match n with "" => True | String c _ => is_blank c = false end ->
  ContainsByte n "=" = false -> ContainsByte v ";" = false -> a = "" \/ (exists t, a = String ";" t) ->
  cookie_value (lead +:+ n +:+ String "=" (v +:+ a)) = Some v.
Proof.
  intros Hl Hh Hn Hv Ha. unfold cookie_value. rewrite TrimLeft_token, IndexByte_app by done. cbn.
  replace (str_drop _ _) with (v +:+ a).
  - f_equal. destruct Ha as [->|[t ->]]; [rewrite str_app_nil_r; by apply before_byte_none|by apply before_byte_app].
  - rewrite (str_app_cons n). replace (String.length n + 1) with (String.length (n +:+ "=")).
    + by rewrite str_drop_app.
    + by rewrite str_length_app.
Qed.

(** Masking a token keeps its name; a value it has becomes the marker. *)
Lemma replaceCookieValue_masks p :
  cookieName p <> "" ->
  masks p (replaceCookieValue p) /\
  (cookie_value (replaceCookieValue p) = None \/ cookie_value (replaceCookieValue p) = Some Redacted) /\
  (ContainsByte p ";" = false -> ContainsByte (replaceCookieValue p) ";" = false).
Proof.
  intros Hne. destruct (token_shape p) as (lead & n & Hl & Hn & Hh & [[-> Hv]|(v & a & -> & Hvs & Ha & Hv)]).
  - rewrite replaceCookieValue_no_value by done. split_and!; [split; auto|by left|done].
  - rewrite (replaceCookieValue_token lead n v a) by done.
    assert (Hr : cookie_value (lead +:+ n +:+ String "=" (Redacted +:+ a)) = Some Redacted)
      by by apply cookie_value_token.
    split_and!; [split|by right|].
    + destruct (ContainsByte n ";") eqn:Hs; [|by rewrite !cookieName_token].
      unfold cookieName. rewrite !TrimLeft_token by done.
      assert (E : forall x, before_byte (n +:+ x) ";" = before_byte n ";").
      { intros x. unfold before_byte. destruct (IndexByte n ";") as [i|] eqn:Ei.
        - apply IndexByte_Some in Ei as [E1 E2]. rewrite E1 at 1. rewrite str_app_assoc.
          change (String ";" ?y +:+ x) with (String ";" (y +:+ x)). rewrite IndexByte_app by done.
          rewrite E1 at 2. rewrite str_app_assoc. by rewrite str_take_app.
        - apply IndexByte_None in Ei. congruence. }
      by rewrite !E.
    + by right.
    + rewrite !ContainsByte_app, !ContainsByte_cons, !ContainsByte_app. intros [H1 [H2 [H3 [H4 H5]%orb_false_iff]%orb_false_iff]%orb_false_iff]%orb_false_iff.
      by rewrite H1, H2, H3, H5.
Qed.

Lemma cookie_part_masks rule raw p : cookie_part rule raw = Some p -> masks raw p.
Proof.
  unfold cookie_part. destruct (String.eqb_spec (cookieName raw) "") as [|Hne]; [intros [= <-]; split; auto|].
  destruct (ckr_mode rule); case_bool_decide; intros; simplify_eq; try (split; by auto).
  by apply replaceCookieValue_masks.
Qed.

Lemma cookie_part_ok rule raw p : cookie_part rule raw = Some p -> token_ok rule p.
Proof.
  unfold cookie_part, token_ok. destruct (String.eqb_spec (cookieName raw) "") as [|Hne]; [intros [= <-]; by left|].
  destruct (ckr_mode rule); case_bool_decide; intros; simplify_eq; right; try done.
  intros _. by apply replaceCookieValue_masks.
Qed.

Lemma cookie_part_plain rule raw p :
  cookie_part rule raw = Some p -> ContainsByte raw ";" = false -> ContainsByte p ";" = false.
Proof.
  unfold cookie_part. destruct (String.eqb_spec (cookieName raw) "") as [|Hne]; [by intros [= <-]|].
  destruct (ckr_mode rule); case_bool_decide; intros; simplify_eq; try done.
  by apply replaceCookieValue_masks.
Qed.

Lemma TrimLeft_idem p : TrimLeft (TrimLeft p is_blank) is_blank = TrimLeft p is_blank.
Proof. destruct (TrimLeft_spec p is_blank) as (sp & _ & _ & Hh). by apply (TrimLeft_app ""). Qed.

Lemma TrimLeft_masks p : masks p (TrimLeft p is_blank).
Proof. unfold masks, cookieName, cookie_value. rewrite TrimLeft_idem. auto. Qed.

Lemma masks_trans p q r : masks p q -> masks q r -> masks p r.
Proof. intros [H1 H2] [H3 H4]. split; [congruence|]. destruct H4 as [H4|H4]; rewrite H4; auto. Qed.

(** Every token of a rewritten Cookie value comes from a token of the old one. *)
Lemma cookie_header_tokens rule v p :
  p ∈ Split (applyRuleToCookieHeader v rule) ";" ->
  cookieName p = "" \/ (token_ok rule p /\ exists raw, raw ∈ Split v ";" /\ masks raw p).
Proof.
  unfold applyRuleToCookieHeader. destruct (String.eqb_spec v "") as [->|Hv].
  { intros Hp%list_elem_of_singleton. subst p. by left. }
  set (parts := omap (cookie_part rule) (Split v ";")).
  assert (Hparts : forall q, q ∈ parts -> ContainsByte q ";" = false /\ token_ok rule q /\
    exists raw, raw ∈ Split v ";" /\ masks raw q).
  { intros q (raw & Hraw & Hq)%list_elem_of_omap.
    split_and!; [eapply cookie_part_plain; [done|by eapply Split_no_sep] | by eapply cookie_part_ok |].
    exists raw. eauto using cookie_part_masks. }
  unfold joinCookieParts. destruct parts as [|q qs].
  { intros Hp%list_elem_of_singleton. subst p. by left. }
  rewrite Split_Join; [|done|].
  - intros [->|Hp]%elem_of_cons; right.
    + destruct (Hparts q) as (_ & Hok & raw & Hraw & Hm); [left|].
      split; [by eapply token_ok_masks, Hok; apply TrimLeft_masks|].
      exists raw. eauto using masks_trans, TrimLeft_masks.
    + apply Hparts. by right.
  - intros r [->|Hr]%elem_of_cons.
    + destruct (Hparts q) as [Hq _]; [left|]. destruct (TrimLeft_spec q is_blank) as (sp & Hs & _).
      by eapply str_app_empty_r.
    + apply Hparts. by right.
Qed.

Lemma set_cookie_ok rule v w :
  applyRuleToSetCookieHeader v rule = (w, false) -> token_ok rule w /\ masks v w.
Proof.
  unfold applyRuleToSetCookieHeader.
  destruct (String.eqb_spec v "") as [->|]; [intros [= <-]; split; [by left|split; auto]|].
  pose proof (cookie_part_ok rule v w) as Hok. pose proof (cookie_part_masks rule v w) as Hm.
  unfold cookie_part in Hok, Hm.
  destruct (String.eqb_spec (cookieName v) "") as [He|Hne]; [intros [= <-]; auto|].
  destruct (ckr_mode rule); case_bool_decide; intros; simplify_eq; auto.
Qed.

(** The entry [K] of [h] obeys the rules: each token of each value. *)
Definition cookie_obeys (rules : list cookieRule) (K : string) (h : header) : Prop :=
  forall vs w p rule, h !! K = Some vs -> w ∈ vs -> p ∈ Split w ";" -> rule ∈ rules -> token_ok rule p.
Definition set_cookie_obeys (rules : list cookieRule) (K : string) (h : header) : Prop :=
  forall vs w rule, h !! K = Some vs -> w ∈ vs -> rule ∈ rules -> token_ok rule w.

(** A tracked key is live, or was deleted with its entry. *)
Definition tracked (K k : string) (h : header) : Prop := k = K \/ (k = "" /\ h !! K = None).

Lemma cookie_entry_step rule prev K k h h' k' :
  K <> "" -> tracked K k h -> cookie_obeys prev K h -> cookie_entry rule (h, k) = (h', k') ->
  tracked K k' h' /\ cookie_obeys (rule :: prev) K h' /\ forall j, j <> K -> h' !! j = h !! j.
Proof.
  intros HK Htr Hob. unfold cookie_entry. destruct Htr as [->|[-> Hn]].
  2:{ intros [= <- <-]. split_and!; [by right|intros vs w p r Hl; congruence|done]. }
  destruct (String.eqb_spec K ""); [done|]. set (vals := map _ _).
  destruct (allEmpty vals); intros [= <- <-].
  - split_and!; [right; split; [done|apply lookup_delete_eq] | |].
    + intros vs w p r Hl. by rewrite lookup_delete_eq in Hl.
    + intros j Hj. by apply lookup_delete_ne.
  - split_and!; [by left| |intros j Hj; by apply lookup_insert_ne].
    intros vs w p r Hl Hw Hp Hr. rewrite lookup_insert_eq in Hl. injection Hl as <-.
    apply list_elem_of_fmap in Hw as (v & -> & Hv).
    destruct (cookie_header_tokens _ _ _ Hp) as [Hname|[Hok (raw & Hraw & Hm)]]; [by left|].
    apply elem_of_cons in Hr as [->|Hr]; [done|].
    destruct (h !! K) as [vs|] eqn:El; [|by apply elem_of_nil in Hv].
    eapply token_ok_masks; [done|]. by eapply Hob.
Qed.

Lemma set_cookie_entry_step rule prev K k h h' k' :
  K <> "" -> tracked K k h -> set_cookie_obeys prev K h -> set_cookie_entry rule (h, k) = (h', k') ->
  tracked K k' h' /\ set_cookie_obeys (rule :: prev) K h' /\ forall j, j <> K -> h' !! j = h !! j.
Proof.
  intros HK Htr Hob. unfold set_cookie_entry. destruct Htr as [->|[-> Hn]].
  2:{ intros [= <- <-]. split_and!; [by right|intros vs w r Hl; congruence|done]. }
  destruct (String.eqb_spec K ""); [done|]. set (kept := omap _ _).
  assert (Hkept : forall w, w ∈ kept -> token_ok rule w /\ exists v, v ∈ default [] (h !! K) /\ masks v w).
  { intros w (v & Hv & Hw)%list_elem_of_omap.
    destruct (applyRuleToSetCookieHeader v rule) as [x []] eqn:E; simplify_eq.
    apply set_cookie_ok in E as [? ?]. eauto. }
  destruct kept as [|x xs] eqn:Ek; intros [= <- <-].
  - split_and!; [right; split; [done|apply lookup_delete_eq] | |].
    + intros vs w r Hl. by rewrite lookup_delete_eq in Hl.
    + intros j Hj. by apply lookup_delete_ne.
  - split_and!; [by left| |intros j Hj; by apply lookup_insert_ne].
    intros vs w r Hl Hw Hr. rewrite lookup_insert_eq in Hl. injection Hl as <-.
    destruct (Hkept w Hw) as [Hok (v & Hv & Hm)]. apply elem_of_cons in Hr as [->|Hr]; [done|].
    destruct (h !! K) as [vs|] eqn:El; [|by apply elem_of_nil in Hv].
    eapply token_ok_masks; [done|]. by eapply Hob.
Qed.

Lemma obeys_other rules K h h' : h' !! K = h !! K ->
  (cookie_obeys rules K h -> cookie_obeys rules K h') /\ (set_cookie_obeys rules K h -> set_cookie_obeys rules K h').
Proof. unfold cookie_obeys, set_cookie_obeys. intros ->. auto. Qed.

Lemma tracked_other K k h h' : h' !! K = h !! K -> tracked K k h -> tracked K k h'.
Proof. unfold tracked. by intros ->. Qed.

Lemma cookie_rules_loop_obeys rules h K SK :
  K <> "" -> SK <> "" -> K <> SK ->
  forall k sk, tracked K k h -> tracked SK sk h ->
  let h' := cookie_rules_loop rules h k sk in
  cookie_obeys rules K h' /\ set_cookie_obeys rules SK h' /\ forall j, j <> K -> j <> SK -> h' !! j = h !! j.
Proof.
  intros HK HSK Hne k sk Hk Hsk. unfold cookie_rules_loop.
  enough (G : forall prev h k sk, tracked K k h -> tracked SK sk h ->
    cookie_obeys prev K h -> set_cookie_obeys prev SK h ->
    let h' := fst (fold_left cookie_rule_step rules (h, (k, sk))) in
    cookie_obeys (rules ++ prev) K h' /\ set_cookie_obeys (rules ++ prev) SK h' /\
    forall j, j <> K -> j <> SK -> h' !! j = h !! j).
  { destruct (G [] h k sk Hk Hsk) as (G1 & G2 & G3); [intros ????? _ _ Hr; by apply elem_of_nil in Hr
      |intros ???? _ Hr; by apply elem_of_nil in Hr|]. rewrite app_nil_r in G1, G2. done. }
  clear h k sk Hk Hsk. induction rules as [|rule rules IH]; intros prev h k sk Hk Hsk H1 H2; [done|].
  destruct (cookie_entry rule (h, k)) as [h1 k1] eqn:E1, (set_cookie_entry rule (h1, sk)) as [h2 sk2] eqn:E2.
  cbv zeta. cbn [fold_left].
  replace (cookie_rule_step (h, (k, sk)) rule) with (h2, (k1, sk2)) by (unfold cookie_rule_step; by rewrite E1, E2).
  destruct (cookie_entry_step _ _ _ _ _ _ _ HK Hk H1 E1) as (T1 & O1 & F1).
  assert (HSK1 : h1 !! SK = h !! SK) by (by apply F1).
  destruct (set_cookie_entry_step rule prev SK sk h1 h2 sk2) as (T2 & O2 & F2); [done| | |done|].
  { by apply (tracked_other _ _ h). }
  { by apply (obeys_other _ _ h). }
  assert (HK2 : h2 !! K = h1 !! K) by (by apply F2).
  destruct (IH (rule :: prev) h2 k1 sk2) as (R1 & R2 & R3); [by apply (tracked_other _ _ h1)|done|by apply (obeys_other _ _ h1)|done|].
  assert (Hin : forall r, r ∈ ((rule :: rules) ++ prev)%list -> r ∈ (rules ++ rule :: prev)%list).
  { intros r. rewrite !elem_of_app, !elem_of_cons. tauto. }
  split_and!.
  - intros vs w p r Hl Hw Hp Hr. exact (R1 vs w p r Hl Hw Hp (Hin r Hr)).
  - intros vs w r Hl Hw Hr. exact (R2 vs w r Hl Hw (Hin r Hr)).
  - intros j Hj1 Hj2. by rewrite R3, F2, F1.
Qed.

Section Records.
Context `{Unicode} `{MapRange} `{RedactDeps}.

Lemma findHeaderKey_cases h canonical :
  CanonicalMIMEHeaderKey canonical = canonical ->
  (findHeaderKey h canonical = "" /\ h !! canonical = None) \/
  (is_Some (h !! findHeaderKey h canonical) /\ CanonicalMIMEHeaderKey (findHeaderKey h canonical) = canonical).
Proof.
  intros Hc. unfold findHeaderKey. destruct (h !! canonical) eqn:E; [right; by rewrite E|].
  destruct (List.find _ _) as [[k vs]|] eqn:Ef; [|by left]. right.
  apply find_some in Ef as [Hin Hk]. bool_hyps. rewrite <- list_elem_of_In, elem_of_go_range in Hin. split; [|done].
  by rewrite Hin.
Qed.

(** The key a rule tracks: the one found, or the absent canonical one. *)
Lemma findHeaderKey_tracked h canonical :
  canonical <> "" -> CanonicalMIMEHeaderKey canonical = canonical ->
  exists K, K <> "" /\ CanonicalMIMEHeaderKey K = canonical /\ tracked K (findHeaderKey h canonical) h /\
    (findHeaderKey h canonical <> "" -> K = findHeaderKey h canonical).
Proof.
  intros Hne Hc. destruct (findHeaderKey_cases h canonical Hc) as [[E1 E2]|[Hs Hk]].
  - exists canonical. rewrite E1. split_and!; try done. by right.
  - exists (findHeaderKey h canonical). split_and!; [|done|by left|done].
    intros E. rewrite E in Hk. by vm_compute in Hk.
Qed.

(** C23. Cookie rules are complete on the header they find: after all rules ran,
    every token of the Cookie entry and every Set-Cookie entry obeys every rule
    (a listed name's value is the marker or there is none, a stripped name is
    gone, an allow-list leaves only listed names), and headers other than these
    two are untouched. *)
Theorem cookie_rules_complete h rules h' :
  applyCookieRulesToHeaders (Some h) rules = Some h' ->
  let K := findHeaderKey h cookieHeaderKey in
  let SK := findHeaderKey h setCookieHeaderKey in
  (K <> "" -> cookie_obeys rules K h') /\
  (SK <> "" -> set_cookie_obeys rules SK h') /\
  (forall j, CanonicalMIMEHeaderKey j <> cookieHeaderKey -> CanonicalMIMEHeaderKey j <> setCookieHeaderKey ->
    h' !! j = h !! j).
Proof.
  intros Happ K SK.
  destruct (findHeaderKey_tracked h cookieHeaderKey) as (K1 & HK & CK & TK & EK); [done|reflexivity|].
  destruct (findHeaderKey_tracked h setCookieHeaderKey) as (S1 & HS & CS & TS & ES); [done|reflexivity|].
  assert (Hne : K1 <> S1) by (intros ->; rewrite CS in CK; by vm_compute in CK).
  destruct (cookie_rules_loop_obeys rules h K1 S1 HK HS Hne _ _ TK TS) as (O1 & O2 & O3).
  assert (Hl : h' = cookie_rules_loop rules h K SK) by (destruct rules; by injection Happ as <-).
  rewrite Hl. unfold K, SK in *. split_and!.
  - intros E. by rewrite (EK E) in O1.
  - intros E. by rewrite (ES E) in O2.
  - intros j Hj1 Hj2. apply O3; intros ->; congruence.
Qed.

(** What a cookie rule promises of a parsed cookie that survives it. *)
Definition slice_ok (rule : cookieRule) (c : Cookie) : Prop :=
  match ckr_mode rule with
  | cookieModeRedact => ck_Name c ∈ ckr_names rule -> ck_Value c = Redacted
  | cookieModeStrip => ck_Name c ∉ ckr_names rule
  | cookieModeAllowlist => ck_Name c ∈ ckr_names rule
  end.

Lemma slice_rule_elem rule cs c :
  c ∈ cookie_slice_rule rule cs ->
  slice_ok rule c /\ exists c0, c0 ∈ cs /\ ck_Name c = ck_Name c0 /\ (ck_Value c = ck_Value c0 \/ ck_Value c = Redacted).
Proof.
  unfold cookie_slice_rule, slice_ok. intros (c0 & Hc0 & E)%list_elem_of_omap.
  destruct (ckr_mode rule); case_bool_decide; simplify_eq; (split; [done || tauto | eexists; split; [exact Hc0|cbn; auto]]).
Qed.

(** The parsed cookies of a request obey every rule after redaction: listed
    values are the marker, stripped names are gone, an allow-list leaves only
    its names; and every surviving cookie was one of the request's. *)
Lemma redactCookieSlice_complete cs rules c rule :
  c ∈ redactCookieSlice cs rules -> rule ∈ rules ->
  slice_ok rule c /\ exists c0, c0 ∈ cs /\ ck_Name c = ck_Name c0.
Proof.
  unfold redactCookieSlice. revert cs. induction rules as [|r rules IH]; intros cs Hc Hr; [by apply elem_of_nil in Hr|].
  cbn [fold_left] in Hc. apply elem_of_cons in Hr as [->|Hr].
  - clear IH. enough (G : slice_ok r c /\ exists c0, c0 ∈ cookie_slice_rule r cs /\ ck_Name c = ck_Name c0).
    { destruct G as [G1 (c0 & Q1 & Q2)]. split; [done|].
      apply slice_rule_elem in Q1 as (_ & c1 & ? & ? & _). exists c1. split; [done|congruence]. }
    assert (Hall : forall x, x ∈ cookie_slice_rule r cs -> slice_ok r x) by (intros x Hx; apply slice_rule_elem in Hx; tauto).
    revert Hc Hall. generalize (cookie_slice_rule r cs) as l. induction rules as [|r' rules IH]; intros l Hc Hall; [eauto|].
    cbn [fold_left] in Hc. destruct (IH _ Hc) as [G1 (c0 & Q1 & Q2)].
    { intros x Hx. apply slice_rule_elem in Hx as (_ & x0 & Hx0 & Hn & Hv). specialize (Hall x0 Hx0).
      unfold slice_ok in *. rewrite Hn. destruct (ckr_mode r); [|done..]. intros Hin. destruct Hv as [->| ->]; auto. }
    split; [done|]. apply slice_rule_elem in Q1 as (_ & c1 & ? & ? & _). exists c1. split; [done|congruence].
  - destruct (IH _ Hc Hr) as [G1 (c0 & Q1 & Q2)]. split; [done|].
    apply slice_rule_elem in Q1 as (_ & c1 & ? & ? & _). exists c1. split; [done|congruence].
Qed.

(** ** Header and query rules *)

(** Every header map a record carries. *)
Definition header_maps (rec : CRecord) : list (option header) :=
  match rec with
  | RRequest v => [cr_Headers v]
  | RResponse v => [re_Headers v]
  | ROutbound v => oq_Headers (oe_Request v) :: match oe_Response v with Some p => [os_Headers p] | None => [] end
  end.

Lemma mask_values_lookup rules m k :
  mask_values rules m !! k =
  (fun vals => if bool_decide (ToLower k ∈ rules) then map (fun _ => Redacted) vals else vals) <$> m !! k.
Proof. unfold mask_values. rewrite map_lookup_imap. by destruct (m !! k). Qed.

Lemma map_values_lookup f h k : map_values f h !! k = map f <$> h !! k.
Proof. apply lookup_fmap. Qed.

(** The marker as the regex rules leave it. *)
Definition final_marker (r : Ruleset) : string := regex_value (rs_regex r) Redacted.

Definition masked (r : Ruleset) (rules : list string) (m : option header) : Prop :=
  forall h k vs v, m = Some h -> h !! k = Some vs -> ToLower k ∈ rules -> v ∈ vs -> v = final_marker r.

Lemma masked_regex r rules m :
  masked r rules (applyRegexRulesHeaderMap (option_map (mask_values rules) m) (rs_regex r)).
Proof.
  intros h k vs v Hm Hl Hk Hv. destruct m as [m|]; [|by destruct (rs_regex r)].
  assert (Hh : h = map_values (regex_value (rs_regex r)) (mask_values rules m)).
  { unfold applyRegexRulesHeaderMap in Hm. destruct (rs_regex r) eqn:E; cbn in Hm; injection Hm as <-; [|done].
    apply map_eq. intros i. rewrite map_values_lookup. destruct (mask_values rules m !! i) as [l|]; [|done]. cbn.
    f_equal. symmetry. apply map_id. }
  subst h. rewrite map_values_lookup, mask_values_lookup in Hl. destruct (m !! k) as [l|]; [|done].
  cbn in Hl. rewrite bool_decide_eq_true_2, map_map in Hl by done. injection Hl as <-.
  apply list_elem_of_In, in_map_iff in Hv as (x & <- & _). done.
Qed.

(** Rule by rule over body, headers and query is value by value over all rules. *)
Lemma applyRegexRulesCaptured_eq out rules :
  applyRegexRulesCaptured out rules =
  (applyRegexRulesBody (cr_Body out) rules, applyRegexRulesHeaderMap (cr_Headers out) rules,
   applyRegexRulesHeaderMap (cr_Query out) rules).
Proof.
  unfold applyRegexRulesCaptured, applyRegexRulesBody, applyRegexRulesHeaderMap.
  set (eligible := negb (String.eqb (cr_Body out) "")).
  assert (E : (match rules with [] => true | _ => false end || String.eqb (cr_Body out) "")%bool
    = match rules with [] => true | _ => negb eligible end).
  { unfold eligible. rewrite negb_involutive. by destruct rules. }
  rewrite E. clear E. generalize eligible as el. intros el.
  generalize (cr_Body out) as b, (cr_Headers out) as hs, (cr_Query out) as qs. clear.
  assert (Hcons : forall rl rules (m : option header),
    option_map (map_values (regex_value (rl :: rules))) m =
    match rules with
    | [] => option_map (map_values (fun v => regexp_Replace (rgr_pattern rl) v Redacted)) m
    | _ => option_map (map_values (regex_value rules))
             (option_map (map_values (fun v => regexp_Replace (rgr_pattern rl) v Redacted)) m)
    end).
  { intros rl rs [m|]; [|by destruct rs]. destruct rs as [|r2 rs]; [done|]. cbn [option_map]. f_equal.
    apply map_eq. intros i. rewrite !map_values_lookup. destruct (m !! i); [|done]. cbn. f_equal. by rewrite map_map. }
  induction rules as [|rl rules IH]; intros b hs qs; [done|]. cbn [fold_left]. rewrite IH, !Hcons.
  cbn. destruct rules, el; done.
Qed.

Lemma Redact_masks_headers r errs rec m :
  IsUnredacted r = false -> m ∈ header_maps (Redact r errs rec).1 -> masked r (rs_headers r) m.
Proof.
  intros Hu. unfold Redact. rewrite Hu. destruct rec as [v|v|v].
  - unfold redactCapturedRequest. destruct (applyJSONPathRulesBody _ _ _ _) as [body errs'].
    rewrite applyRegexRulesCaptured_eq. cbn -[masked]. intros Hm%list_elem_of_singleton. subst m. apply masked_regex.
  - unfold redactResponseEvent, redact_half. destruct (applyJSONPathRulesBody _ _ _ _) as [body errs'].
    cbn -[masked]. intros Hm%list_elem_of_singleton. subst m. apply masked_regex.
  - unfold redactOutboundEvent, redact_half. destruct (applyJSONPathRulesBody _ _ _ _) as [body errs'].
    destruct (oe_Response v) as [p|]; [destruct (applyJSONPathRulesBody _ _ _ errs') as [body2 errs2]|];
      cbn -[masked]; intros Hm; repeat (apply elem_of_cons in Hm as [->|Hm]);
      try (by apply elem_of_nil in Hm); apply masked_regex.
Qed.

Lemma Redact_masks_query r errs rec v :
  IsUnredacted r = false -> (Redact r errs rec).1 = RRequest v -> masked r (rs_queryParams r) (cr_Query v).
Proof.
  intros Hu. unfold Redact. rewrite Hu. destruct rec as [w|w|w].
  - unfold redactCapturedRequest. destruct (applyJSONPathRulesBody _ _ _ _) as [body errs'].
    rewrite applyRegexRulesCaptured_eq. cbn -[masked]. intros [= <-]. apply masked_regex.
  - by destruct (redactResponseEvent _ _ _).
  - by destruct (redactOutboundEvent _ _ _).
Qed.

(** C24. Header and query rules reach every value: in every header map of a
    redacted record, and in the query of a redacted request, each value under a
    listed key (in any letter case) is the marker, as the regex rules rewrite
    it; no byte of the original value is left. *)
Theorem Redact_masks_listed_keys r errs rec :
  IsUnredacted r = false ->
  let rec' := (Redact r errs rec).1 in
  (forall m, m ∈ header_maps rec' -> masked r (rs_headers r) m) /\
  (forall v, rec' = RRequest v -> masked r (rs_queryParams r) (cr_Query v)).
Proof. intros Hu. split; intros x; [by apply Redact_masks_headers|by apply Redact_masks_query]. Qed.

(** ** What redaction leaves alone *)

(** The record with the redactable fields blanked. *)
Definition metadata (rec : CRecord) : CRecord :=
  match rec with
  | RRequest v =>
      RRequest (mkCapturedRequest (cr_ID v) (cr_Timestamp v) (cr_Method v) (cr_Path v) None None [] ""
        (cr_BodyTruncated v) (cr_BodyOriginalSize v) (cr_ContentType v) (cr_SourceIP v) (cr_Service v)
        (cr_ServiceSource v) (cr_CorrelationID v) (cr_CorrelationSource v))
  | RResponse v =>
      RResponse (mkResponseEvent (re_ID v) (re_Timestamp v) (re_CorrelationID v) (re_CorrelationSource v)
        (re_Service v) (re_ServiceSource v) (re_Status v) None "" (re_BodyTruncated v) (re_BodyOriginalSize v)
        (re_ContentType v) (re_DurationMS v))
  | ROutbound v =>
      let q := oe_Request v in
      ROutbound (mkOutboundEvent (oe_ID v) (oe_Timestamp v) (oe_CorrelationID v) (oe_CorrelationSource v)
        (oe_Service v) (oe_ServiceSource v) (oe_DurationMS v)
        (mkOutboundRequestHalf (oq_Method q) (oq_Path q) None "" (oq_BodyTruncated q) (oq_BodyOriginalSize q) (oq_ContentType q))
        ((fun p => mkOutboundResponseHalf (os_Status p) None "" (os_BodyTruncated p) (os_BodyOriginalSize p) (os_ContentType p))
           <$> oe_Response v))
  end.

(** Redaction touches only headers, query, cookies and bodies: identity,
    timestamps, service, correlation, status, sizes and every other field of
    the record survive, and without rules the record is returned as it came. *)
Lemma Redact_keeps_metadata r errs rec :
  metadata (Redact r errs rec).1 = metadata rec /\
  RecordID (Redact r errs rec).1 = RecordID rec /\
  RecordCorrelationID (Redact r errs rec).1 = RecordCorrelationID rec /\
  (IsUnredacted r = true -> Redact r errs rec = (NoOp_Redact rec, errs)).
Proof.
  unfold Redact. destruct (IsUnredacted r); [done|].
  destruct rec as [v|v|v]; cbn -[redactCapturedRequest redactResponseEvent redactOutboundEvent].
  - unfold redactCapturedRequest. destruct (applyJSONPathRulesBody _ _ _ _) as [body errs'].
    by rewrite applyRegexRulesCaptured_eq.
  - unfold redactResponseEvent, redact_half. by destruct (applyJSONPathRulesBody _ _ _ _) as [body errs'].
  - unfold redactOutboundEvent, redact_half. destruct (applyJSONPathRulesBody _ _ _ _) as [body errs'].
    destruct (oe_Response v) as [p|]; [|done]. by destruct (applyJSONPathRulesBody _ _ _ errs') as [body2 errs2].
Qed.

(** Declared JSON is declared text. *)
Lemma json_is_text_like ct : isJSONContentType ct = true -> isTextLikeContentType ct = true.
Proof.
  unfold isJSONContentType, isTextLikeContentType. destruct (String.eqb _ ""); [done|].
  destruct (String.eqb_spec (parseMediaType ct) "application/json") as [->|_]; [done|]. intros ->.
  by case_bool_decide; [|destruct (HasPrefix _ _)].
Qed.

(** Only one spelling of the Cookie header is treated: when a header map
    holds the canonical [Cookie] key, the values under any other spelling of it
    (an event's headers keep the caller's case) pass all cookie rules
    unchanged. *)
Lemma cookie_rules_skip_other_spellings h rules h' k :
  is_Some (h !! cookieHeaderKey) -> CanonicalMIMEHeaderKey k = cookieHeaderKey -> k <> cookieHeaderKey ->
  applyCookieRulesToHeaders (Some h) rules = Some h' -> h' !! k = h !! k.
Proof.
  intros [vs Hvs] Hc Hne Happ.
  assert (HK : findHeaderKey h cookieHeaderKey = cookieHeaderKey) by (unfold findHeaderKey; by rewrite Hvs).
  destruct (findHeaderKey_tracked h setCookieHeaderKey) as (S1 & HS & CS & TS & _); [done|reflexivity|].
  assert (Hd : forall x, CanonicalMIMEHeaderKey x = cookieHeaderKey -> x <> S1)
    by (intros x Hx ->; rewrite CS in Hx; by vm_compute in Hx).
  assert (Hl : h' = cookie_rules_loop rules h cookieHeaderKey (findHeaderKey h setCookieHeaderKey)).
  { rewrite <- HK at 1. destruct rules; by injection Happ as <-. }
  rewrite Hl. apply (cookie_rules_loop_obeys rules h cookieHeaderKey S1); [done | done | by apply Hd | by left | done | done | by apply Hd].
Qed.
End Records.

(** ** Examples *)

(** Literal patterns in place of regular expressions, no JSON. *)
Definition literal_deps : RedactDeps := {|
  regexp_t := string;
  regexp_Compile := Some;
  regexp_Replace := fun p v m => ReplaceAll v p m;
  gjson_Valid := fun _ => false;
  gjson_Exists := fun _ _ => false;
  sjson_Set := fun b _ _ => Some b;
  mime_ParseMediaType := fun _ => None
|}.

Definition event_headers : header :=
  <["Cookie" := ["a=1; sid=x; b=2"]]> (<["cookie" := ["sid=secret"]]> (<["Authorization" := ["Bearer t"]]> ∅)).
Definition hide_sid : list cookieRule := [mkCookieRule cookieModeRedact ["sid"]; mkCookieRule cookieModeStrip ["b"]].

Lemma cookie_rules_complete_witness :
  exists h', applyCookieRulesToHeaders (H0 := sorted_range) (Some event_headers) hide_sid = Some h' /\
    h' !! "Cookie" = Some ["a=1; sid=[REDACTED]"] /\ cookie_obeys hide_sid "Cookie" h'.
Proof.
  eexists. split; [reflexivity|]. split; [vm_compute; reflexivity|].
  refine (proj1 (cookie_rules_complete (H0 := sorted_range) event_headers hide_sid _ eq_refl) _). done.
Defined.

Lemma redactCookieSlice_complete_witness :
  slice_ok (mkCookieRule cookieModeRedact ["sid"]) (mkCookie "sid" Redacted).
Proof.
  refine (proj1 (redactCookieSlice_complete [mkCookie "sid" "secret"; mkCookie "b" "2"] hide_sid
    (mkCookie "sid" Redacted) (mkCookieRule cookieModeRedact ["sid"]) _ _)); left.
Defined.

Lemma cookie_rules_skip_other_spellings_witness :
  exists h', applyCookieRulesToHeaders (H0 := sorted_range) (Some event_headers) hide_sid = Some h' /\
    h' !! "cookie" = Some ["sid=secret"].
Proof.
  eexists. split; [reflexivity|].
  rewrite (cookie_rules_skip_other_spellings (H0 := sorted_range) event_headers hide_sid _ "cookie"
    ltac:(by eexists) eq_refl ltac:(done) eq_refl). reflexivity.
Defined.

Definition hide_auth : Ruleset (H1 := literal_deps) := mkRuleset (H1 := literal_deps) ["authorization"] [] [] [] [].
Definition event_with_headers : CRecord :=
  RResponse (mkResponseEvent "e1" 7%Z "c1" "explicit" "svc" "header" 200 (Some event_headers) "" false 0 "" 3).

Lemma Redact_masks_listed_keys_witness :
  let rec' := (Redact (H := ascii_unicode) (H0 := sorted_range) (H1 := literal_deps) hide_auth 0 event_with_headers).1 in
  (forall m, m ∈ header_maps rec' -> masked (H := ascii_unicode) (H1 := literal_deps) hide_auth ["authorization"] m) /\
  (match rec' with RResponse v => headers_of (re_Headers v) !! "Authorization" | _ => None end) = Some [Redacted].
Proof.
  split; [|vm_compute; reflexivity].
  exact (proj1 (Redact_masks_listed_keys (H := ascii_unicode) (H0 := sorted_range) (H1 := literal_deps)
    hide_auth 0 event_with_headers eq_refl)).
Defined.
