(* ===== verification/RedactHeap.v ===== *)
(** * redact/ruleset.go and redactcmd.go on shared memory

    [Redact] models the redactor on values. The code shares maps, slices and a
    pointer between records and writes through them: here the same functions
    run on a heap of cells, with Go's slices (array, offset, length, capacity),
    so that copying and aliasing are part of the model. [None] is a dangling
    reference or an index out of range. *)
From S2P Require Import Prelude GoLib Record Redact.

Open Scope string_scope.
Open Scope nat_scope.

(** ** Memory *)

Record slice := mkSlice { sl_ptr : nat; sl_off : nat; sl_len : nat; sl_cap : nat }.

Definition nil_slice : slice := mkSlice 0 0 0 0.

(** The two fields of an event or of an outbound half that are references. *)
Record part := mkPart { pt_Headers : option nat; pt_Body : option slice }.

Inductive cell :=
| CStrings (l : list string)
| CCookies (l : list Cookie)
| CBytes (l : list ascii)
| CMap (m : gmap string slice)
| CHalf (fields : OutboundResponseHalf) (p : part).

(** An address is an index; allocation appends. *)
Abbreviation heap := (list cell).

(** The element types of arrays. *)
Class Elem (A : Type) := {
  wrap : list A -> cell;
  unwrap : cell -> option (list A);
  unwrap_wrap l : unwrap (wrap l) = Some l;
  wrap_unwrap c l : unwrap c = Some l -> c = wrap l
}.

#[export, refine] Instance Elem_string : Elem string :=
  {| wrap := CStrings; unwrap c := match c with CStrings l => Some l | _ => None end |}.
Proof. all: [> done | by intros [] ? [= ->]]. Defined.
#[export, refine] Instance Elem_Cookie : Elem Cookie :=
  {| wrap := CCookies; unwrap c := match c with CCookies l => Some l | _ => None end |}.
Proof. all: [> done | by intros [] ? [= ->]]. Defined.
#[export, refine] Instance Elem_byte : Elem ascii :=
  {| wrap := CBytes; unwrap c := match c with CBytes l => Some l | _ => None end |}.
Proof. all: [> done | by intros [] ? [= ->]]. Defined.

Section Arrays.
Context {A : Type} `{Elem A}.

Definition array_at (h : heap) (p : nat) : option (list A) := c ← h !! p; unwrap c.

(** All elements of a slice, as [copy] reads them. *)
Definition load (h : heap) (s : slice) : option (list A) :=
  if sl_len s =? 0 then Some [] else
  l ← array_at h (sl_ptr s);
  if sl_off s + sl_len s <=? length l then Some (take (sl_len s) (drop (sl_off s) l)) else None.

Definition get (h : heap) (s : slice) (i : nat) : option A :=
  if i <? sl_len s then l ← array_at h (sl_ptr s); l !! (sl_off s + i) else None.

Definition store (h : heap) (s : slice) (i : nat) (v : A) : option heap :=
  l ← array_at h (sl_ptr s);
  if sl_off s + i <? length l then Some (<[sl_ptr s := wrap (<[sl_off s + i := v]> l)]> h) else None.

(** [s[i] = v]. *)
Definition put (h : heap) (s : slice) (i : nat) (v : A) : option heap :=
  if i <? sl_len s then store h s i v else None.

(** [make] of the length of [l], then [copy]. *)
Definition make_copy (h : heap) (l : list A) : slice * heap :=
  (mkSlice (length h) 0 (length l) (length l), (h ++ [wrap l])%list).

(** [append(s, v)]: in place while the capacity lasts. *)
Definition append (h : heap) (s : slice) (v : A) : option (slice * heap) :=
  if sl_len s <? sl_cap s then
    h' ← store h s (sl_len s) v; Some (mkSlice (sl_ptr s) (sl_off s) (S (sl_len s)) (sl_cap s), h')
  else old ← load h s; Some (make_copy h (old ++ [v])%list).

(** [for i, v := range s]: the element is read when its turn comes. *)
Fixpoint range_loop (body : nat -> A -> heap -> option heap) (s : slice) (i n : nat) (h : heap) : option heap :=
  match n with
  | 0 => Some h
  | S n' => v ← get h s i; h' ← body i v h; range_loop body s (S i) n' h'
  end.

(** [kept := s[:0]] and the loop that appends what [f] keeps. *)
Fixpoint filter_loop (f : A -> option A) (s : slice) (i n : nat) (kept : slice) (h : heap) : option (slice * heap) :=
  match n with
  | 0 => Some (kept, h)
  | S n' =>
      v ← get h s i;
      match f v with
      | None => filter_loop f s (S i) n' kept h
      | Some x => '(kept', h') ← append h kept x; filter_loop f s (S i) n' kept' h'
      end
  end.

Definition truncate (s : slice) : slice := mkSlice (sl_ptr s) (sl_off s) 0 (sl_cap s).

Definition filter_in_place (f : A -> option A) (s : slice) (h : heap) : option (slice * heap) :=
  filter_loop f s 0 (sl_len s) (truncate s) h.

Definition set_each (f : A -> A) (s : slice) (h : heap) : option heap :=
  range_loop (fun i v h => put h s i (f v)) s 0 (sl_len s) h.
End Arrays.

Definition map_of (h : heap) (a : nat) : option (gmap string slice) :=
  c ← h !! a; match c with CMap m => Some m | _ => None end.

Definition set_map (h : heap) (a : nat) (m : gmap string slice) : heap := <[a := CMap m]> h.

(** A range loop over the entries of a map. *)
Fixpoint each {X} (body : X -> heap -> option heap) (l : list X) (h : heap) : option heap :=
  match l with
  | [] => Some h
  | x :: l' => h' ← body x h; each body l' h'
  end.

(** ** What a record says *)

Definition read_slice {A} `{Elem A} (h : heap) (s : option slice) : list A :=
  match s with Some s => default [] (load h s) | None => [] end.
Definition read_body (h : heap) (b : option slice) : string := String.string_of_list_ascii (read_slice h b).
Definition read_map (h : heap) (a : option nat) : option header :=
  match a with
  | None => None
  | Some a => (fun m : gmap string slice => (fun s => default [] (load (A := string) h s)) <$> m) <$> map_of h a
  end.

(** In these records the fields held by value are those of the first component;
    its maps, cookies and bodies are not looked at. *)
Record HRequest := mkHRequest {
  hq_fields : CapturedRequest;
  hq_Query : option nat;
  hq_Headers : option nat;
  hq_Cookies : option slice;
  hq_Body : option slice
}.
Record HResponse := mkHResponse { hs_fields : ResponseEvent; hs_part : part }.
Record HOutbound := mkHOutbound { ho_fields : OutboundEvent; ho_Request : part; ho_Response : option nat }.

Inductive HRecord := HRRequest (r : HRequest) | HRResponse (r : HResponse) | HROutbound (r : HOutbound).

Definition with_request (v : CapturedRequest) (query headers : option header) (cookies : list Cookie) (body : string)
  : CapturedRequest :=
  mkCapturedRequest (cr_ID v) (cr_Timestamp v) (cr_Method v) (cr_Path v) query headers cookies body
    (cr_BodyTruncated v) (cr_BodyOriginalSize v) (cr_ContentType v) (cr_SourceIP v) (cr_Service v)
    (cr_ServiceSource v) (cr_CorrelationID v) (cr_CorrelationSource v).
Definition with_response (v : ResponseEvent) (headers : option header) (body : string) : ResponseEvent :=
  mkResponseEvent (re_ID v) (re_Timestamp v) (re_CorrelationID v) (re_CorrelationSource v) (re_Service v)
    (re_ServiceSource v) (re_Status v) headers body (re_BodyTruncated v) (re_BodyOriginalSize v)
    (re_ContentType v) (re_DurationMS v).
Definition with_request_half (v : OutboundRequestHalf) (headers : option header) (body : string) : OutboundRequestHalf :=
  mkOutboundRequestHalf (oq_Method v) (oq_Path v) headers body (oq_BodyTruncated v) (oq_BodyOriginalSize v)
    (oq_ContentType v).
Definition with_response_half (v : OutboundResponseHalf) (headers : option header) (body : string) : OutboundResponseHalf :=
  mkOutboundResponseHalf (os_Status v) headers body (os_BodyTruncated v) (os_BodyOriginalSize v) (os_ContentType v).
Definition with_halves (v : OutboundEvent) (q : OutboundRequestHalf) (p : option OutboundResponseHalf) : OutboundEvent :=
  mkOutboundEvent (oe_ID v) (oe_Timestamp v) (oe_CorrelationID v) (oe_CorrelationSource v) (oe_Service v)
    (oe_ServiceSource v) (oe_DurationMS v) q p.

Definition half_of (h : heap) (a : nat) : option (OutboundResponseHalf * part) :=
  c ← h !! a; match c with CHalf v p => Some (v, p) | _ => None end.

Definition read_request (h : heap) (r : HRequest) : CapturedRequest :=
  with_request (hq_fields r) (read_map h (hq_Query r)) (read_map h (hq_Headers r)) (read_slice h (hq_Cookies r))
    (read_body h (hq_Body r)).
Definition read_response (h : heap) (r : HResponse) : ResponseEvent :=
  with_response (hs_fields r) (read_map h (pt_Headers (hs_part r))) (read_body h (pt_Body (hs_part r))).
Definition read_outbound (h : heap) (r : HOutbound) : OutboundEvent :=
  with_halves (ho_fields r)
    (with_request_half (oe_Request (ho_fields r)) (read_map h (pt_Headers (ho_Request r))) (read_body h (pt_Body (ho_Request r))))
    (a ← ho_Response r; '(v, p) ← half_of h a;
     Some (with_response_half v (read_map h (pt_Headers p)) (read_body h (pt_Body p)))).

Definition read_record (h : heap) (r : HRecord) : CRecord :=
  match r with
  | HRRequest r => RRequest (read_request h r)
  | HRResponse r => RResponse (read_response h r)
  | HROutbound r => ROutbound (read_outbound h r)
  end.

Section HeapRedactor.
Context `{Unicode} `{MapRange} `{RedactDeps}.

(** ** Copies *)

Definition copy_entry (out : nat) (entry : string * slice) (h : heap) : option heap :=
  let '(k, vs) := entry in
  vals ← load (A := string) h vs;
  let '(vsCopy, h) := make_copy h vals in
  m ← map_of h out; Some (set_map h out (<[k := vsCopy]> m)).

Definition copyStringSliceMap (m : option nat) (h : heap) : option (option nat * heap) :=
  match m with
  | None => Some (None, h)
  | Some a =>
      src ← map_of h a;
      let out := length h in
      h' ← each (copy_entry out) (go_range src) (h ++ [CMap ∅])%list;
      Some (Some out, h')
  end.

Definition copy_slice {A} `{Elem A} (s : option slice) (h : heap) : option (option slice * heap) :=
  match s with
  | None => Some (None, h)
  | Some s => l ← load (A := A) h s; let '(s', h') := make_copy h l in Some (Some s', h')
  end.

Definition shallowCopyCapturedRequest (rec : HRequest) (h : heap) : option (HRequest * heap) :=
  '(headers, h) ← copyStringSliceMap (hq_Headers rec) h;
  '(query, h) ← copyStringSliceMap (hq_Query rec) h;
  '(cookies, h) ← copy_slice (A := Cookie) (hq_Cookies rec) h;
  Some (mkHRequest (hq_fields rec) query headers cookies (hq_Body rec), h).

(** Headers and body of an event or half. *)
Definition copy_part (p : part) (h : heap) : option (part * heap) :=
  '(headers, h) ← copyStringSliceMap (pt_Headers p) h;
  '(body, h) ← copy_slice (A := ascii) (pt_Body p) h;
  Some (mkPart headers body, h).

Definition shallowCopyResponseEvent (rec : HResponse) (h : heap) : option (HResponse * heap) :=
  '(p, h) ← copy_part (hs_part rec) h; Some (mkHResponse (hs_fields rec) p, h).

Definition shallowCopyOutboundEvent (rec : HOutbound) (h : heap) : option (HOutbound * heap) :=
  '(q, h) ← copy_part (ho_Request rec) h;
  match ho_Response rec with
  | None => Some (mkHOutbound (ho_fields rec) q None, h)
  | Some a =>
      '(v, p) ← half_of h a;
      '(p, h) ← copy_part p h;
      Some (mkHOutbound (ho_fields rec) q (Some (length h)), h ++ [CHalf v p])%list
  end.

(** redactcmd.go: a copy that shares nothing. *)
Definition cloneRecord (rec : HRequest) (h : heap) : option (HRequest * heap) :=
  '(out, h) ← shallowCopyCapturedRequest rec h;
  '(body, h) ← copy_slice (A := ascii) (hq_Body rec) h;
  Some (mkHRequest (hq_fields out) (hq_Query out) (hq_Headers out) (hq_Cookies out) body, h).

(** ** Rules, in place *)

Definition hp_mask (rules : list string) (a : option nat) (h : heap) : option heap :=
  match a with
  | None => Some h
  | Some a =>
      m ← map_of h a;
      each (fun '(key, vals) h =>
              if bool_decide (ToLower key ∈ rules) then set_each (fun _ : string => Redacted) vals h else Some h)
        (go_range m) h
  end.

(** The rules on one element: write, read back, next rule. *)
Fixpoint hp_regex_cell (rules : list regexRule) (s : slice) (i : nat) (v : string) (h : heap) : option heap :=
  match rules with
  | [] => Some h
  | rule :: rest =>
      h ← put h s i (regexp_Replace (rgr_pattern rule) v Redacted);
      v ← get h s i;
      hp_regex_cell rest s i v h
  end.

Definition hp_regex_map (rules : list regexRule) (a : option nat) (h : heap) : option heap :=
  match rules, a with
  | [], _ | _, None => Some h
  | _, Some a =>
      m ← map_of h a;
      each (fun '(_, vals) h => range_loop (hp_regex_cell rules vals) vals 0 (sl_len vals) h) (go_range m) h
  end.

Definition hp_regex_query (rule : regexRule) (a : option nat) (h : heap) : option heap :=
  match a with
  | None => Some h
  | Some a =>
      m ← map_of h a;
      each (fun '(_, vals) h => set_each (fun v => regexp_Replace (rgr_pattern rule) v Redacted) vals h) (go_range m) h
  end.

Definition hp_cookie_entry (rule : cookieRule) (a : nat) (key : string) (h : heap) : option (string * heap) :=
  if String.eqb key "" then Some (key, h) else
  m ← map_of h a;
  let vals := default nil_slice (m !! key) in
  h ← set_each (fun v => applyRuleToCookieHeader v rule) vals h;
  after ← load h vals;
  if allEmpty after then Some ("", set_map h a (delete key m)) else Some (key, h).

Definition keep_set_cookie (rule : cookieRule) (v : string) : option string :=
  let '(redacted, drop) := applyRuleToSetCookieHeader v rule in if drop : bool then None else Some redacted.

Definition hp_set_cookie_entry (rule : cookieRule) (a : nat) (key : string) (h : heap) : option (string * heap) :=
  if String.eqb key "" then Some (key, h) else
  m ← map_of h a;
  '(kept, h) ← filter_in_place (keep_set_cookie rule) (default nil_slice (m !! key)) h;
  if sl_len kept =? 0 then Some ("", set_map h a (delete key m))
  else Some (key, set_map h a (<[key := kept]> m)).

Fixpoint hp_cookie_rules (rules : list cookieRule) (a : nat) (ck sck : string) (h : heap) : option heap :=
  match rules with
  | [] => Some h
  | rule :: rest =>
      '(ck, h) ← hp_cookie_entry rule a ck h;
      '(sck, h) ← hp_set_cookie_entry rule a sck h;
      hp_cookie_rules rest a ck sck h
  end.

(** The search for the two keys only reads. *)
Definition hp_cookie_headers (rules : list cookieRule) (a : option nat) (h : heap) : option heap :=
  match rules, a with
  | [], _ | _, None => Some h
  | _, Some a =>
      hd ← read_map h (Some a);
      hp_cookie_rules rules a (findHeaderKey hd cookieHeaderKey) (findHeaderKey hd setCookieHeaderKey) h
  end.

Definition keep_cookie (rule : cookieRule) (c : Cookie) : option Cookie :=
  let matched := bool_decide (ck_Name c ∈ ckr_names rule) in
  match ckr_mode rule with
  | cookieModeRedact => Some (if matched then mkCookie (ck_Name c) Redacted else c)
  | cookieModeStrip => if matched then None else Some c
  | cookieModeAllowlist => if matched then Some c else None
  end.

Fixpoint hp_cookie_filters (rules : list cookieRule) (out : slice) (h : heap) : option (slice * heap) :=
  match rules with
  | [] => Some (out, h)
  | rule :: rest => '(filtered, h) ← filter_in_place (keep_cookie rule) out h; hp_cookie_filters rest filtered h
  end.

Definition hp_redactCookieSlice (s : slice) (rules : list cookieRule) (h : heap) : option (slice * heap) :=
  l ← load (A := Cookie) h s;
  let '(out, h) := make_copy h l in hp_cookie_filters rules out h.

Definition hp_applyCookieRules (out : HRequest) (rules : list cookieRule) (h : heap) : option (option slice * heap) :=
  match rules, hq_Headers out with
  | [], _ | _, None => Some (hq_Cookies out, h)
  | _, Some _ =>
      h ← hp_cookie_headers rules (hq_Headers out) h;
      match hq_Cookies out with
      | Some s =>
          if 0 <? sl_len s then '(s, h) ← hp_redactCookieSlice s rules h; Some (Some s, h)
          else Some (Some s, h)
      | None => Some (None, h)
      end
  end.

(** *** Bodies: the libraries return new slices *)

Definition new_body (v : string) (h : heap) : option slice * heap :=
  let '(s, h) := make_copy h (String.list_ascii_of_string v) in (Some s, h).

Fixpoint hp_json_paths (rules : list string) (b : option slice) (errs : Z) (h : heap) : option slice * Z * heap :=
  match rules with
  | [] => (b, errs, h)
  | path :: rest =>
      if negb (gjson_Exists (read_body h b) path) then hp_json_paths rest b errs h
      else match sjson_Set (read_body h b) path Redacted with
           | None => hp_json_paths rest b (u64_incr errs) h
           | Some next => let '(b, h) := new_body next h in hp_json_paths rest b errs h
           end
  end.

Definition hp_json_body (rules : list string) (contentType : string) (b : option slice) (errs : Z) (h : heap)
  : option slice * Z * heap :=
  if (match rules with [] => true | _ => false end || String.eqb (read_body h b) "")%bool then (b, errs, h)
  else if negb (gjson_Valid (read_body h b)) then (b, if isJSONContentType contentType then u64_incr errs else errs, h)
  else hp_json_paths rules b errs h.

Definition hp_replace_body (rule : regexRule) (b : option slice) (h : heap) : option slice * heap :=
  new_body (regexp_Replace (rgr_pattern rule) (read_body h b) Redacted) h.

Definition hp_regex_body (rules : list regexRule) (b : option slice) (h : heap) : option slice * heap :=
  if (match rules with [] => true | _ => false end || String.eqb (read_body h b) "")%bool then (b, h)
  else fold_left (fun '(b, h) rule => hp_replace_body rule b h) rules (b, h).

Fixpoint hp_regex_captured (rules : list regexRule) (eligible : bool) (out : HRequest) (b : option slice) (h : heap)
  : option (option slice * heap) :=
  match rules with
  | [] => Some (b, h)
  | rule :: rest =>
      let '(b, h) := if eligible then hp_replace_body rule b h else (b, h) in
      h ← hp_regex_map [rule] (hq_Headers out) h;
      h ← hp_regex_query rule (hq_Query out) h;
      hp_regex_captured rest eligible out b h
  end.

(** ** The redactor *)

Definition hp_redactCapturedRequest (r : Ruleset) (errs : Z) (rec : HRequest) (h : heap) : option (HRequest * Z * heap) :=
  '(out, h) ← shallowCopyCapturedRequest rec h;
  '(cookies, h) ← hp_applyCookieRules out (rs_cookies r) h;
  h ← hp_mask (rs_headers r) (hq_Headers out) h;
  h ← hp_mask (rs_queryParams r) (hq_Query out) h;
  let '(body, errs, h) := hp_json_body (rs_jsonPaths r) (cr_ContentType (hq_fields out)) (hq_Body out) errs h in
  '(body, h) ← hp_regex_captured (rs_regex r) (negb (String.eqb (read_body h body) "")) out body h;
  Some (mkHRequest (hq_fields out) (hq_Query out) (hq_Headers out) cookies body, errs, h).

(** The steps on headers and body that events and halves share. *)
Definition hp_redact_part (r : Ruleset) (errs : Z) (contentType : string) (p : part) (h : heap) : option (part * Z * heap) :=
  h ← hp_cookie_headers (rs_cookies r) (pt_Headers p) h;
  h ← hp_mask (rs_headers r) (pt_Headers p) h;
  let '(body, errs, h) := hp_json_body (rs_jsonPaths r) contentType (pt_Body p) errs h in
  let '(body, h) := hp_regex_body (rs_regex r) body h in
  h ← hp_regex_map (rs_regex r) (pt_Headers p) h;
  Some (mkPart (pt_Headers p) body, errs, h).

Definition hp_redactResponseEvent (r : Ruleset) (errs : Z) (rec : HResponse) (h : heap) : option (HResponse * Z * heap) :=
  '(out, h) ← shallowCopyResponseEvent rec h;
  '(p, errs, h) ← hp_redact_part r errs (re_ContentType (hs_fields out)) (hs_part out) h;
  Some (mkHResponse (hs_fields out) p, errs, h).

Definition hp_redactOutboundEvent (r : Ruleset) (errs : Z) (rec : HOutbound) (h : heap) : option (HOutbound * Z * heap) :=
  '(out, h) ← shallowCopyOutboundEvent rec h;
  '(q, errs, h) ← hp_redact_part r errs (oq_ContentType (oe_Request (ho_fields out))) (ho_Request out) h;
  match ho_Response out with
  | None => Some (mkHOutbound (ho_fields out) q None, errs, h)
  | Some a =>
      '(v, p) ← half_of h a;
      '(p, errs, h) ← hp_redact_part r errs (os_ContentType v) p h;
      Some (mkHOutbound (ho_fields out) q (Some a), errs, <[a := CHalf v p]> h)
  end.

Definition hp_Redact (r : Ruleset) (errs : Z) (rec : HRecord) (h : heap) : option (HRecord * Z * heap) :=
  if IsUnredacted r then Some (rec, errs, h) else
  match rec with
  | HRRequest v => '(v, errs, h) ← hp_redactCapturedRequest r errs v h; Some (HRRequest v, errs, h)
  | HRResponse v => '(v, errs, h) ← hp_redactResponseEvent r errs v h; Some (HRResponse v, errs, h)
  | HROutbound v => '(v, errs, h) ← hp_redactOutboundEvent r errs v h; Some (HROutbound v, errs, h)
  end.

(** redactcmd.go: the two sides of the diff. *)
Definition hp_sides (r : Ruleset) (rec : HRequest) (h : heap) : option (HRequest * HRecord * heap) :=
  '(before, h) ← cloneRecord rec h;
  '(after, _, h) ← hp_Redact r 0 (HRRequest rec) h;
  Some (before, after, h).
End HeapRedactor.
