(* ===== verification/RedactHeapFacts.v ===== *)
(** * The redactor on shared memory refines the redactor on values

    Ownership is by regions: the copies a redaction makes are allocated next to
    each other, in [lo .. hi), and its loops write only there. *)
From S2P Require Import Prelude GoLib Record Redact RedactFacts RedactHeap.

Open Scope string_scope.
Open Scope nat_scope.

(** Comparisons that hold by arithmetic on lengths. *)
Ltac nat_true :=
  repeat match goal with
  | |- context [?a <? ?b] => rewrite (proj2 (Nat.ltb_lt a b)) by (rewrite ?length_app; cbn; lia)
  | |- context [?a <=? ?b] => rewrite (proj2 (Nat.leb_le a b)) by (rewrite ?length_app; cbn; lia)
  end.

(** ** Arrays *)

Section Arrays.
Context {A : Type} `{Elem A}.
Implicit Types (h : heap) (s : slice) (l tail : list A).

(** [s] is the first elements [l] of an array of its own. *)
Definition arr (h : heap) (s : slice) (l tail : list A) : Prop :=
  h !! sl_ptr s = Some (wrap (l ++ tail)%list) /\ sl_off s = 0 /\ sl_len s = length l /\
  sl_cap s = length (l ++ tail)%list.

Lemma array_at_wrap h p l : h !! p = Some (wrap l) -> array_at h p = Some l.
Proof. unfold array_at. intros ->. cbn. apply unwrap_wrap. Qed.

Lemma arr_array h s l tail : arr h s l tail -> array_at h (sl_ptr s) = Some (l ++ tail)%list.
Proof. intros (Hp & _). by apply array_at_wrap. Qed.

Lemma arr_load h s l tail : arr h s l tail -> load h s = Some l.
Proof.
  intros Ha. unfold load. rewrite (arr_array _ _ _ _ Ha). destruct Ha as (_ & Ho & Hl & _). rewrite Ho, Hl.
  destruct (Nat.eqb_spec (length l) 0) as [Hz|_]; [by apply nil_length_inv in Hz as ->|].
  cbn [mbind option_bind]. nat_true. by rewrite drop_0, take_app_length.
Qed.

Lemma arr_get h s l tail i v : arr h s l tail -> l !! i = Some v -> get h s i = Some v.
Proof.
  intros Ha Hi. unfold get. rewrite (arr_array _ _ _ _ Ha). destruct Ha as (_ & Ho & Hl & _). rewrite Ho, Hl.
  pose proof (lookup_lt_Some _ _ _ Hi). nat_true. by apply lookup_app_l_Some.
Qed.

(** The same slice over new contents. *)
Lemma arr_insert h s l tail l' tail' : arr h s l tail -> length l' = length l -> length tail' = length tail ->
  arr (<[sl_ptr s := wrap (l' ++ tail')%list]> h) s l' tail'.
Proof.
  intros (Hp & Ho & Hl & Hc) Hl' Ht'. repeat split; [|done|congruence|rewrite Hc, !length_app; congruence].
  apply list_lookup_insert_eq. by eapply lookup_lt_Some.
Qed.

Lemma arr_put h s l tail i v : arr h s l tail -> i < length l ->
  put h s i v = Some (<[sl_ptr s := wrap (<[i := v]> l ++ tail)%list]> h).
Proof.
  intros Ha Hi. unfold put, store. rewrite (arr_array _ _ _ _ Ha). destruct Ha as (_ & Ho & Hl & _). rewrite Ho, Hl.
  nat_true. cbn [mbind option_bind]. nat_true. by rewrite insert_app_l.
Qed.

(** A loop whose body writes [f v] over [v] maps [f] over the slice. *)
Lemma range_loop_map (f : A -> A) body s h l tail : arr h s l tail ->
  (forall i v h l, arr h s l tail -> l !! i = Some v -> body i v h = put h s i (f v)) ->
  range_loop body s 0 (length l) h = Some (<[sl_ptr s := wrap (map f l ++ tail)%list]> h).
Proof.
  intros Ha Hb.
  enough (Hgen : forall post pre h, arr h s (pre ++ post) tail ->
    range_loop body s (length pre) (length post) h = Some (<[sl_ptr s := wrap (pre ++ map f post ++ tail)%list]> h))
    by apply (Hgen l [] h Ha).
  clear l h Ha. intros post. induction post as [|v post IH]; intros pre h Ha; cbn.
  - f_equal. symmetry. apply list_insert_id. destruct Ha as [Hp _]. by rewrite app_nil_r in Hp.
  - assert (Hv : (pre ++ v :: post)%list !! length pre = Some v) by (by rewrite list_lookup_middle).
    rewrite (arr_get _ _ _ _ _ _ Ha Hv). cbn. rewrite (Hb _ _ _ _ Ha Hv).
    rewrite (arr_put _ _ _ _ _ _ Ha) by (rewrite length_app; cbn; lia). cbn [mbind option_bind].
    replace (<[length pre := f v]> (pre ++ v :: post))%list with ((pre ++ [f v]) ++ post)%list
      by (rewrite <- (Nat.add_0_r (length pre)) at 1; rewrite insert_app_r, <- app_assoc; done).
    replace (S (length pre)) with (length (pre ++ [f v])%list) by (rewrite length_app; cbn; lia).
    rewrite IH.
    + by rewrite list_insert_insert_eq, <- app_assoc.
    + apply (arr_insert _ _ _ _ _ _ Ha); [rewrite !length_app; cbn; lia|done].
Qed.

Lemma set_each_map (f : A -> A) s h l tail : arr h s l tail ->
  set_each f s h = Some (<[sl_ptr s := wrap (map f l ++ tail)%list]> h).
Proof. intros Ha. unfold set_each. destruct (Ha) as (_ & _ & -> & _). by apply range_loop_map. Qed.

Lemma cell_get h s l i v : h !! sl_ptr s = Some (wrap l) -> sl_off s = 0 -> i < sl_len s -> l !! i = Some v ->
  get h s i = Some v.
Proof. intros Hp Ho Hi Hv. unfold get. nat_true. rewrite (array_at_wrap _ _ _ Hp), Ho. done. Qed.

Lemma cell_append h p n cap l v : h !! p = Some (wrap l) -> n < cap -> cap = length l ->
  append h (mkSlice p 0 n cap) v = Some (mkSlice p 0 (S n) cap, <[p := wrap (<[n := v]> l)]> h).
Proof.
  intros Hp Hn Hc. unfold append, store. cbn [sl_len sl_cap sl_ptr sl_off]. nat_true.
  rewrite (array_at_wrap _ _ _ Hp). cbn [mbind option_bind plus]. by nat_true.
Qed.

(** Compaction in place: the write index never passes the read index. *)
Lemma filter_loop_omap (f : A -> option A) s tail cap : sl_off s = 0 -> forall post kept mid h,
  h !! sl_ptr s = Some (wrap (kept ++ mid ++ post ++ tail)%list) ->
  sl_len s = length kept + length mid + length post -> cap = length (kept ++ mid ++ post ++ tail)%list ->
  exists tail', length (omap f post ++ tail')%list = length (mid ++ post ++ tail)%list /\
    filter_loop f s (length kept + length mid) (length post) (mkSlice (sl_ptr s) 0 (length kept) cap) h =
    Some (mkSlice (sl_ptr s) 0 (length (kept ++ omap f post)%list) cap,
          <[sl_ptr s := wrap (kept ++ omap f post ++ tail')%list]> h).
Proof.
  intros Ho post. induction post as [|v post IH]; intros kept mid h Hp Hl Hc; cbn [length filter_loop omap list_omap].
  - exists (mid ++ tail)%list. split; [done|]. rewrite app_nil_r. do 2 f_equal. symmetry. by apply list_insert_id.
  - assert (Hg : get h s (length kept + length mid) = Some v).
    { eapply cell_get; [done|done|rewrite Hl; cbn; lia|]. rewrite app_assoc.
      replace (length kept + length mid) with (length (kept ++ mid)%list) by (by rewrite length_app).
      by apply list_lookup_middle. }
    rewrite Hg. cbn [mbind option_bind]. destruct (f v) as [x|] eqn:Hx.
    + destruct (mid ++ [v])%list as [|m0 mid'] eqn:Hmid; [by destruct mid|].
      assert (Hlen : length mid = length mid') by (apply (f_equal length) in Hmid; rewrite length_app in Hmid; cbn in *; lia).
      assert (Happ : (kept ++ mid ++ v :: post ++ tail = kept ++ m0 :: mid' ++ post ++ tail)%list).
      { f_equal. change (v :: post ++ tail)%list with ([v] ++ post ++ tail)%list. by rewrite app_assoc, Hmid. }
      rewrite (cell_append _ _ _ _ _ _ Hp); [|rewrite Hc, !length_app; cbn; lia|done]. cbn [mbind option_bind].
      assert (Hins : (<[length kept := x]> (kept ++ mid ++ v :: post ++ tail) = (kept ++ [x]) ++ mid' ++ post ++ tail)%list).
      { rewrite Happ, <- (Nat.add_0_r (length kept)). rewrite insert_app_r, <- app_assoc. done. }
      cbn [app] in *. rewrite Hins.
      destruct (IH (kept ++ [x])%list mid' (<[sl_ptr s := wrap ((kept ++ [x]) ++ mid' ++ post ++ tail)%list]> h))
        as (tail' & Ht & Hf).
      * apply list_lookup_insert_eq. by eapply lookup_lt_Some.
      * rewrite Hl, length_app. cbn. lia.
      * rewrite Hc, Happ, !length_app. cbn. rewrite !length_app. lia.
      * exists tail'. split.
        -- cbn. rewrite Ht, !length_app. cbn. rewrite !length_app. lia.
        -- rewrite !length_app in Hf. cbn in Hf. rewrite Nat.add_1_r in Hf.
           replace (S (length kept + length mid)) with (S (length kept) + length mid') by lia. rewrite Hf.
           rewrite list_insert_insert_eq, !length_app. cbn. rewrite <- !app_assoc. cbn. do 3 f_equal. lia.
    + destruct (IH kept (mid ++ [v])%list h) as (tail' & Ht & Hf).
      * by rewrite <- !app_assoc.
      * rewrite Hl, length_app. cbn. lia.
      * by rewrite Hc, <- !app_assoc.
      * exists tail'. split; [by rewrite Ht, <- !app_assoc|]. rewrite length_app in Hf. cbn in Hf.
        by rewrite Nat.add_1_r, <- plus_n_Sm in Hf.
Qed.

Lemma filter_in_place_omap (f : A -> option A) s h l tail : arr h s l tail ->
  exists s' tail', filter_in_place f s h = Some (s', <[sl_ptr s := wrap (omap f l ++ tail')%list]> h) /\
    sl_ptr s' = sl_ptr s /\ arr (<[sl_ptr s := wrap (omap f l ++ tail')%list]> h) s' (omap f l) tail'.
Proof.
  intros (Hp & Ho & Hl & Hc). unfold filter_in_place, truncate. rewrite Ho, Hl.
  destruct (filter_loop_omap f s tail (sl_cap s) Ho l [] [] h Hp Hl Hc) as (tail' & Ht & Hf). cbn in Ht, Hf.
  eexists _, tail'. split; [exact Hf|]. split; [done|]. repeat split; cbn; [|congruence].
  apply list_lookup_insert_eq. by eapply lookup_lt_Some.
Qed.

(** ** Reading slices in a heap that grew *)

Definition valid_slice (h : heap) (s : option slice) : Prop :=
  match s with Some s => is_Some (load (A := A) h s) | None => True end.

(** Where [load] looks. *)
Lemma load_same h h' s : (sl_len s = 0 \/ h' !! sl_ptr s = h !! sl_ptr s) -> load (A := A) h' s = load h s.
Proof. unfold load, array_at. intros [->| ->]; done. Qed.

Lemma make_copy_arr h l : arr (make_copy h l).2 (make_copy h l).1 l [].
Proof.
  unfold make_copy, arr. cbn. rewrite app_nil_r. repeat split. by apply list_lookup_middle.
Qed.
End Arrays.

(** ** Regions *)

(** Nothing but the cells in [lo .. hi) changed, and cells were added. *)
Definition frame (lo hi : nat) (h h' : heap) : Prop :=
  length h <= length h' /\ forall i, i < length h -> i < lo \/ hi <= i -> h' !! i = h !! i.

Abbreviation grows := (frame 0 0).

Lemma frame_refl lo hi h : frame lo hi h h.
Proof. done. Qed.

Lemma frame_trans lo hi h1 h2 h3 : frame lo hi h1 h2 -> frame lo hi h2 h3 -> frame lo hi h1 h3.
Proof. intros [Hl1 H1] [Hl2 H2]. split; [lia|]. intros i Hi Ho. rewrite H2 by lia. by apply H1. Qed.

Lemma frame_weaken lo hi lo' hi' h h' : frame lo hi h h' -> lo = hi \/ lo' <= lo /\ hi <= hi' -> frame lo' hi' h h'.
Proof. intros [Hl H1] Hr. split; [done|]. intros i Hi Ho. apply H1; [done|lia]. Qed.

Lemma grows_app h l : grows h (h ++ l)%list.
Proof. split; [rewrite length_app; lia|]. intros i Hi _. by apply lookup_app_l. Qed.

Lemma frame_write lo hi h i c : lo <= i < hi -> frame lo hi h (<[i := c]> h).
Proof.
  intros Hi. split; [by rewrite length_insert|]. intros j _ Hj. apply list_lookup_insert_ne. lia.
Qed.

#[export] Hint Resolve frame_refl grows_app frame_write : go.

(** A map and its arrays, all in a region, no array shared. *)
Definition owns (lo hi : nat) (h : heap) (a : nat) (hd : header) : Prop :=
  lo <= a < hi /\ hi <= length h /\ exists m, h !! a = Some (CMap m) /\
  (forall k, option_Forall2 (fun s vs => lo <= sl_ptr s < hi /\ exists tail, arr h s vs tail) (m !! k) (hd !! k)) /\
  (forall k1 k2 s1 s2, m !! k1 = Some s1 -> m !! k2 = Some s2 -> sl_ptr s1 = sl_ptr s2 -> k1 = k2).

Definition owns_opt (lo hi : nat) (h : heap) (a : option nat) (hd : option header) : Prop :=
  option_Forall2 (owns lo hi h) a hd.

Lemma arr_same {A} `{Elem A} h h' s (l tail : list A) : arr h s l tail -> h' !! sl_ptr s = h !! sl_ptr s -> arr h' s l tail.
Proof. intros (Hp & Hr) Hs. split; [by rewrite Hs|done]. Qed.

Lemma owns_frame lo hi lo' hi' h h' a hd : owns lo hi h a hd -> frame lo' hi' h h' ->
  lo' = hi' \/ hi <= lo' \/ hi' <= lo -> owns lo hi h' a hd.
Proof.
  intros (Ha & Hhi & m & Hm & Hk & Hinj) [Hl Hf] Hd. split; [done|]. split; [lia|]. exists m.
  split; [rewrite Hf; [done|lia|lia]|]. split; [|done]. intros k. specialize (Hk k).
  inversion Hk as [s vs [Hp [tail Ht]]|]; constructor. split; [done|]. exists tail. apply (arr_same _ _ _ _ _ Ht), Hf; lia.
Qed.

Lemma owns_opt_frame lo hi lo' hi' h h' a hd : owns_opt lo hi h a hd -> frame lo' hi' h h' ->
  lo' = hi' \/ hi <= lo' \/ hi' <= lo -> owns_opt lo hi h' a hd.
Proof. intros Ho Hf Hd. destruct Ho as [a hd Ho|]; constructor. by eapply owns_frame. Qed.

Lemma map_of_cell h a m : h !! a = Some (CMap m) -> map_of h a = Some m.
Proof. unfold map_of. by intros ->. Qed.

Lemma owns_opt_read lo hi h a hd : owns_opt lo hi h a hd -> read_map h a = hd.
Proof.
  intros Ho. destruct Ho as [a hd (_ & _ & m & Hm & Hk & _)|]; [|done]. unfold read_map.
  rewrite (map_of_cell _ _ _ Hm). cbn. f_equal. apply map_eq. intros k. rewrite lookup_fmap.
  specialize (Hk k). inversion Hk as [s vs [_ [tail Ht]] Hms Hhs|]; [|done]. cbn. f_equal.
  by rewrite (arr_load _ _ _ _ Ht).
Qed.

(** A write to one array. *)
Definition touches (p : nat) (h h' : heap) : Prop := length h' = length h /\ forall i, i <> p -> h' !! i = h !! i.

Lemma touches_insert p c h : touches p h (<[p := c]> h).
Proof. split; [by rewrite length_insert|]. intros i Hi. by apply list_lookup_insert_ne. Qed.

Abbreviation ptrs l := (sl_ptr ∘ snd <$> l).

(** A loop over entries with arrays of their own, each body working on its own. *)
Lemma each_disjoint (body : string * slice -> heap -> option heap) (g : string -> list string -> list string)
    (vals : string -> list string) (l : list (string * slice)) :
  (forall k s vs tail h, arr h s vs tail ->
    exists h' tail', body (k, s) h = Some h' /\ arr h' s (g k vs) tail' /\ touches (sl_ptr s) h h') ->
  NoDup (ptrs l) -> forall h, (forall k s, (k, s) ∈ l -> exists tail, arr h s (vals k) tail) ->
  exists h', each body l h = Some h' /\ length h' = length h /\
    (forall k s, (k, s) ∈ l -> exists tail, arr h' s (g k (vals k)) tail) /\
    (forall i, i ∉ ptrs l -> h' !! i = h !! i).
Proof.
  intros Hbody. induction l as [|[k s] l IH]; intros Hnd h Hv.
  { exists h. cbn. split; [done|]. split; [done|]. split; [|done]. intros ?? []%not_elem_of_nil. }
  cbn in Hnd. apply NoDup_cons in Hnd as [Hs Hnd].
  destruct (Hv k s) as [tail Ht]; [apply list_elem_of_here|].
  destruct (Hbody k s _ _ _ Ht) as (h1 & tail1 & Hb & Ht1 & Hl1 & Ho1).
  assert (Hne : forall k' s', (k', s') ∈ l -> sl_ptr s' <> sl_ptr s).
  { intros k' s' Hin Heq. apply Hs. cbn. rewrite <- Heq. apply list_elem_of_fmap. by exists (k', s'). }
  destruct (IH Hnd h1) as (h2 & He & Hl2 & Hv2 & Ho2).
  { intros k' s' Hin. destruct (Hv k' s') as [tail' Ht']; [by apply list_elem_of_further|].
    exists tail'. apply (arr_same _ _ _ _ _ Ht'), Ho1. by eapply Hne. }
  exists h2. cbn. rewrite Hb. cbn. split; [done|]. split; [congruence|]. split.
  - intros k' s' Hin. apply elem_of_cons in Hin as [[= -> ->]|Hin]; [|by apply Hv2]. exists tail1.
    apply (arr_same _ _ _ _ _ Ht1), Ho2, Hs.
  - intros i Hi. apply not_elem_of_cons in Hi as [Hi1 Hi2]. rewrite Ho2 by done. by apply Ho1.
Qed.

Lemma NoDup_ptrs `{MapRange} (m : gmap string slice) :
  (forall k1 k2 s1 s2, m !! k1 = Some s1 -> m !! k2 = Some s2 -> sl_ptr s1 = sl_ptr s2 -> k1 = k2) -> NoDup (ptrs (go_range m)).
Proof.
  intros Hinj. rewrite go_range_perm. apply NoDup_fmap_2_strong; [|apply NoDup_map_to_list].
  intros [k1 s1] [k2 s2] H1%elem_of_map_to_list H2%elem_of_map_to_list Heq. cbn in Heq.
  pose proof (Hinj _ _ _ _ H1 H2 Heq) as ->. congruence.
Qed.

(** A loop over an owned map that rewrites each entry. *)
Lemma owns_each `{MapRange} (body : string * slice -> heap -> option heap) (g : string -> list string -> list string)
    lo hi h a hd :
  (forall k s vs tail h, arr h s vs tail ->
    exists h' tail', body (k, s) h = Some h' /\ arr h' s (g k vs) tail' /\ touches (sl_ptr s) h h') ->
  owns lo hi h a hd -> exists m h', map_of h a = Some m /\ each body (go_range m) h = Some h' /\
    owns lo hi h' a (map_imap (fun k vs => Some (g k vs)) hd) /\ frame lo hi h h' /\ length h' = length h.
Proof.
  intros Hbody (Ha & Hhi & m & Hm & Hk & Hinj).
  assert (Hall : forall k s, m !! k = Some s -> lo <= sl_ptr s < hi /\ exists tail, arr h s (default [] (hd !! k)) tail).
  { intros k s Hs. specialize (Hk k). rewrite Hs in Hk. inversion Hk as [s' vs Hr Hms Hh|]. done. }
  destruct (each_disjoint body g (fun k => default [] (hd !! k)) (go_range m) Hbody (NoDup_ptrs m Hinj) h)
    as (h' & He & Hl & Hv & Ho).
  { intros k s Hin%elem_of_go_range. by apply Hall. }
  assert (Hout : forall i, i < lo \/ hi <= i \/ i = a -> h' !! i = h !! i).
  { intros i Hi. apply Ho. intros ([k s] & -> & Hin)%list_elem_of_fmap. apply elem_of_go_range in Hin.
    destruct (Hall _ _ Hin) as [Hp [tail Ht]]. destruct Hi as [?|[?|Hi]]; cbn in *; [lia|lia|].
    destruct Ht as [Hc _]. rewrite Hi in Hc. cbn in Hc. congruence. }
  exists m, h'. split; [by apply map_of_cell|]. split; [done|]. split; [|split; [|done]].
  - split; [done|]. split; [lia|]. exists m. split; [rewrite Hout by auto; done|]. split; [|done].
    intros k. rewrite map_lookup_imap. specialize (Hk k). destruct (m !! k) as [s|] eqn:Hs; inversion Hk as [s' vs [Hp Hr] Hms Hh|]; cbn; constructor.
    split; [done|]. destruct (Hv k s) as [tail Ht]; [by apply elem_of_go_range|]. exists tail.
    rewrite <- Hh in Ht. exact Ht.
  - split; [lia|]. intros i _ Hi. apply Hout. lia.
Qed.

Lemma owns_delete lo hi h a hd m key : owns lo hi h a hd -> h !! a = Some (CMap m) ->
  owns lo hi (set_map h a (delete key m)) a (delete key hd).
Proof.
  intros (Ha & Hhi & m' & Hm' & Hk & Hinj) Hm. assert (m' = m) as -> by congruence. unfold set_map.
  split; [done|]. split; [by rewrite length_insert|]. exists (delete key m).
  split; [apply list_lookup_insert_eq; lia|]. split.
  - intros k. destruct (decide (k = key)) as [->|Hne]; [rewrite !lookup_delete_eq; constructor|].
    rewrite !lookup_delete_ne by done. specialize (Hk k). inversion Hk as [s vs [Hp [tail Ht]]|]; constructor.
    split; [done|]. exists tail. apply (arr_same _ _ _ _ _ Ht), list_lookup_insert_ne.
    intros Heq. destruct Ht as [Hc _]. rewrite <- Heq in Hc. cbn in Hc. congruence.
  - intros k1 k2 s1 s2 H1 H2. apply lookup_delete_Some in H1 as [_ H1], H2 as [_ H2]. by eapply Hinj.
Qed.

(** An array of the map rewritten, and the entry set to a slice of it. *)
Lemma owns_update lo hi h a hd m key s s' (vs tail vs' tail' : list string) : owns lo hi h a hd -> h !! a = Some (CMap m) ->
  m !! key = Some s -> arr h s vs tail -> sl_ptr s' = sl_ptr s ->
  arr (<[sl_ptr s := CStrings (vs' ++ tail')%list]> h) s' vs' tail' ->
  owns lo hi (set_map (<[sl_ptr s := CStrings (vs' ++ tail')%list]> h) a (<[key := s']> m)) a (<[key := vs']> hd) /\
  frame lo hi h (set_map (<[sl_ptr s := CStrings (vs' ++ tail')%list]> h) a (<[key := s']> m)).
Proof.
  intros (Ha & Hhi & m' & Hm' & Hk & Hinj) Hm Hs Hvs Hp Hn. assert (m' = m) as -> by congruence. unfold set_map.
  assert (Hne : a <> sl_ptr s) by (intros Heq; destruct Hvs as [Hc _]; rewrite <- Heq in Hc; cbn in Hc; congruence).
  assert (Hsp : lo <= sl_ptr s < hi) by (specialize (Hk key); rewrite Hs in Hk; inversion Hk as [s1 v1 [Hr _]|]; done).
  split.
  - split; [done|]. split; [by rewrite !length_insert|]. exists (<[key := s']> m).
    split; [apply list_lookup_insert_eq; rewrite length_insert; lia|]. split.
    + intros k. destruct (decide (k = key)) as [->|Hkk].
      * rewrite !lookup_insert_eq. constructor. rewrite Hp. split; [done|]. exists tail'.
        apply (arr_same _ _ _ _ _ Hn), list_lookup_insert_ne. by rewrite Hp.
      * rewrite !lookup_insert_ne by done. pose proof (Hk k) as Hkk'.
        inversion Hkk' as [s1 v1 [Hr [t1 Ht1]] Hm1 Hh1|]; constructor. split; [done|]. exists t1.
        apply (arr_same _ _ _ _ _ Ht1). rewrite !list_lookup_insert_ne; [done| |].
        -- intros Heq. apply Hkk. by eapply Hinj.
        -- intros Heq. destruct Ht1 as [Hc _]. rewrite <- Heq in Hc. cbn in Hc. congruence.
    + intros k1 k2 s1 s2 H1 H2 Heq. apply lookup_insert_Some in H1 as [[<- <-]|[Hn1 H1]], H2 as [[<- <-]|[Hn2 H2]]; try done.
      * destruct Hn2. apply (Hinj _ _ _ _ Hs H2). congruence.
      * destruct Hn1. symmetry. apply (Hinj _ _ _ _ H1 Hs). congruence.
      * by eapply Hinj.
  - eapply frame_trans; apply frame_write; lia.
Qed.

Lemma owns_entry lo hi h a hd m key : owns lo hi h a hd -> h !! a = Some (CMap m) ->
  (exists s vs tail, m !! key = Some s /\ hd !! key = Some vs /\ arr h s vs tail) \/ (m !! key = None /\ hd !! key = None).
Proof.
  intros (_ & _ & m' & Hm' & Hk & _) Hm. assert (m' = m) as -> by congruence. specialize (Hk key).
  inversion Hk as [s vs [_ [tail Ht]] Hms Hh|]; [left|by right]. by exists s, vs, tail.
Qed.

Section HeapRedactor.
Context `{Unicode} `{MapRange} `{RedactDeps}.
Implicit Types (h : heap) (lo hi : nat).

(** ** Loops over a map refine the maps of the value model *)

Lemma set_each_body (f : string -> string) s vs tail h : arr h s vs tail ->
  exists h' tail', set_each f s h = Some h' /\ arr h' s (map f vs) tail' /\ touches (sl_ptr s) h h'.
Proof.
  intros Ha. eexists _, tail. split; [by apply set_each_map|]. split; [|apply touches_insert].
  by apply (arr_insert _ _ _ _ _ _ Ha); [apply length_map|].
Qed.

Lemma hp_regex_cell_put rules s i v h l tail : arr h s l tail -> l !! i = Some v ->
  hp_regex_cell rules s i v h = put h s i (regex_value rules v).
Proof.
  revert v h l. induction rules as [|rule rest IH]; intros v h l Ha Hi; pose proof (lookup_lt_Some _ _ _ Hi) as Hlt.
  - cbn. rewrite (arr_put _ _ _ _ _ _ Ha Hlt). f_equal. rewrite (list_insert_id l) by done. symmetry.
    apply list_insert_id. by destruct Ha.
  - cbn. rewrite (arr_put _ _ _ _ _ _ Ha Hlt). cbn [mbind option_bind].
    set (w := regexp_Replace (rgr_pattern rule) v Redacted).
    assert (Ha' : arr (<[sl_ptr s := wrap (<[i := w]> l ++ tail)%list]> h) s (<[i := w]> l) tail)
      by (apply (arr_insert _ _ _ _ _ _ Ha); [by rewrite length_insert|done]).
    assert (Hi' : <[i := w]> l !! i = Some w) by (by apply list_lookup_insert_eq).
    rewrite (arr_get _ _ _ _ _ _ Ha' Hi'). cbn [mbind option_bind]. rewrite (IH _ _ _ Ha' Hi').
    rewrite (arr_put _ _ _ _ _ _ Ha'), (arr_put _ _ _ _ _ _ Ha Hlt) by (by rewrite length_insert).
    by rewrite !list_insert_insert_eq.
Qed.

Lemma hp_regex_body_spec rules s vs tail h : arr h s vs tail ->
  exists h' tail', range_loop (hp_regex_cell rules s) s 0 (sl_len s) h = Some h' /\
    arr h' s (map (regex_value rules) vs) tail' /\ touches (sl_ptr s) h h'.
Proof.
  intros Ha. destruct (Ha) as (_ & _ & -> & _). eexists _, tail. split; [|split; [|apply touches_insert]].
  - apply range_loop_map; [done|]. intros i v h1 l Ha1 Hi. by eapply hp_regex_cell_put.
  - by apply (arr_insert _ _ _ _ _ _ Ha); [apply length_map|].
Qed.

Lemma map_values_imap f (hd : header) : map_imap (fun _ vs => Some (map f vs)) hd = map_values f hd.
Proof. apply map_eq. intros k. unfold map_values. rewrite map_lookup_imap, lookup_fmap. by destruct (hd !! k). Qed.

Lemma hp_mask_spec rules lo hi h a hd : owns_opt lo hi h a hd ->
  exists h', hp_mask rules a h = Some h' /\ owns_opt lo hi h' a (option_map (mask_values rules) hd) /\ frame lo hi h h'.
Proof.
  intros [a' hd' Ho|]; [|by exists h; split; [|split; [constructor|]]].
  apply (owns_each (fun '(key, vals) h =>
    if bool_decide (ToLower key ∈ rules) then set_each (fun _ : string => Redacted) vals h else Some h)
    (fun key vals => if bool_decide (ToLower key ∈ rules) then map (fun _ => Redacted) vals else vals))
    in Ho as (m & h' & Hm & He & Ho & Hf & _).
  - exists h'. cbn. rewrite Hm. split; [done|]. split; [by constructor|done].
  - intros k s vs tail h1 Ha. case_bool_decide; [by eapply set_each_body|]. by exists h1, tail.
Qed.

Lemma hp_regex_map_spec rules lo hi h a hd : owns_opt lo hi h a hd ->
  exists h', hp_regex_map rules a h = Some h' /\ owns_opt lo hi h' a (applyRegexRulesHeaderMap hd rules) /\ frame lo hi h h'.
Proof.
  intros Ho. destruct rules as [|rule rest]; [by exists h|].
  destruct Ho as [a' hd' Ho|]; [|by exists h; split; [|split; [constructor|]]].
  apply (owns_each (fun '(_, vals) h => range_loop (hp_regex_cell (rule :: rest) vals) vals 0 (sl_len vals) h)
    (fun _ vals => map (regex_value (rule :: rest)) vals)) in Ho as (m & h' & Hm & He & Ho & Hf & _).
  - rewrite map_values_imap in Ho. exists h'. cbn [hp_regex_map]. rewrite Hm. split; [done|]. split; [by constructor|done].
  - intros k s vs tail h1 Ha. by eapply hp_regex_body_spec.
Qed.

Lemma hp_regex_query_spec rule lo hi h a hd : owns_opt lo hi h a hd ->
  exists h', hp_regex_query rule a h = Some h' /\
    owns_opt lo hi h' a (option_map (map_values (fun v => regexp_Replace (rgr_pattern rule) v Redacted)) hd) /\ frame lo hi h h'.
Proof.
  intros [a' hd' Ho|]; [|by exists h; split; [|split; [constructor|]]].
  apply (owns_each (fun '(_, vals) h => set_each (fun v => regexp_Replace (rgr_pattern rule) v Redacted) vals h)
    (fun _ vals => map (fun v => regexp_Replace (rgr_pattern rule) v Redacted) vals)) in Ho as (m & h' & Hm & He & Ho & Hf & _).
  - rewrite map_values_imap in Ho. exists h'. cbn. rewrite Hm. split; [done|]. split; [by constructor|done].
  - intros k s vs tail h1 Ha. by eapply set_each_body.
Qed.

(** ** Cookie rules *)

Lemma hp_cookie_entry_spec rule key lo hi h a hd : owns lo hi h a hd ->
  exists h', hp_cookie_entry rule a key h = Some ((cookie_entry rule (hd, key)).2, h') /\
    owns lo hi h' a (cookie_entry rule (hd, key)).1 /\ frame lo hi h h'.
Proof.
  intros Ho. unfold hp_cookie_entry, cookie_entry. destruct (String.eqb key ""); [by exists h|].
  destruct (Ho) as (Ha & _ & m & Hm & _). rewrite (map_of_cell _ _ _ Hm). cbn [mbind option_bind].
  destruct (owns_entry _ _ _ _ _ _ key Ho Hm) as [(s & vs & tail & Hs & Hvs & Har)|[Hs Hvs]]; rewrite Hs, Hvs; cbn [from_option id].
  - set (f := fun v => applyRuleToCookieHeader v rule). rewrite (set_each_map f _ _ _ _ Har). cbn [mbind option_bind].
    set (h1 := <[_ := _]> h).
    assert (Har1 : arr h1 s (map f vs) tail) by (by apply (arr_insert _ _ _ _ _ _ Har); [apply length_map|]).
    destruct (owns_update _ _ _ _ _ _ _ _ _ _ _ _ _ Ho Hm Hs Har eq_refl Har1) as [Ho1 Hf1]. cbn in Ho1, Hf1. fold h1 in Ho1, Hf1.
    assert (Hm1 : h1 !! a = Some (CMap m)).
    { subst h1. rewrite list_lookup_insert_ne; [done|]. intros Heq. destruct Har as [Hc _]. rewrite Heq in Hc. cbn in Hc. congruence. }
    unfold set_map in Ho1, Hf1. rewrite (insert_id m) in Ho1, Hf1 by done. rewrite (list_insert_id h1) in Ho1, Hf1 by done.
    rewrite (arr_load _ _ _ _ Har1). cbn [mbind option_bind]. destruct (allEmpty (map f vs)); eexists; (split; [done|]); [|done].
    split.
    + pose proof (owns_delete _ _ _ _ _ _ key Ho1 Hm1) as Hd. by rewrite delete_insert_eq in Hd.
    + eapply frame_trans; [exact Hf1|]. by apply frame_write.
  - cbn. eexists. split; [done|]. split; [by apply owns_delete|by apply frame_write].
Qed.

Lemma hp_set_cookie_entry_spec rule key lo hi h a hd : owns lo hi h a hd ->
  exists h', hp_set_cookie_entry rule a key h = Some ((set_cookie_entry rule (hd, key)).2, h') /\
    owns lo hi h' a (set_cookie_entry rule (hd, key)).1 /\ frame lo hi h h'.
Proof.
  intros Ho. unfold hp_set_cookie_entry, set_cookie_entry. destruct (String.eqb key ""); [by exists h|].
  destruct (Ho) as (Ha & _ & m & Hm & _). rewrite (map_of_cell _ _ _ Hm). cbn [mbind option_bind].
  change (fun v : string => let '(redacted, drop) := applyRuleToSetCookieHeader v rule in if drop then None else Some redacted)
    with (keep_set_cookie rule).
  destruct (owns_entry _ _ _ _ _ _ key Ho Hm) as [(s & vs & tail & Hs & Hvs & Har)|[Hs Hvs]]; rewrite Hs, Hvs; cbn [from_option id].
  - destruct (filter_in_place_omap (keep_set_cookie rule) _ _ _ _ Har) as (s' & tail' & Hfi & Hp & Har1).
    rewrite Hfi. cbn [mbind option_bind].
    destruct (owns_update _ _ _ _ _ _ _ _ _ _ _ _ _ Ho Hm Hs Har Hp Har1) as [Ho1 Hf1].
    destruct (Har1) as (_ & _ & -> & _). destruct (omap (keep_set_cookie rule) vs) as [|x kept] eqn:Hk; cbn [length Nat.eqb];
      eexists; (split; [done|]); [|by split].
    set (h1 := <[_ := _]> h) in *. split.
    + assert (Hm1 : set_map h1 a (<[key := s']> m) !! a = Some (CMap (<[key := s']> m))).
      { apply list_lookup_insert_eq. destruct Ho as (? & ? & _). subst h1. rewrite length_insert. lia. }
      pose proof (owns_delete _ _ _ _ _ _ key Ho1 Hm1) as Hd. unfold set_map in Hd.
      by rewrite list_insert_insert_eq, !delete_insert_eq in Hd.
    + eapply frame_trans; [|by apply frame_write]. apply frame_write.
      destruct Ho as (_ & _ & m' & Hm' & Hkk & _). assert (m' = m) as -> by congruence. specialize (Hkk key). rewrite Hs in Hkk.
      by inversion Hkk as [s1 v1 [Hr _]|].
  - cbn. eexists. split; [done|]. split; [by apply owns_delete|by apply frame_write].
Qed.

Lemma hp_cookie_rules_spec rules lo hi a : forall ck sck h hd, owns lo hi h a hd ->
  exists h', hp_cookie_rules rules a ck sck h = Some h' /\ owns lo hi h' a (cookie_rules_loop rules hd ck sck) /\ frame lo hi h h'.
Proof.
  induction rules as [|rule rest IH]; intros ck sck h hd Ho; [by exists h|]. cbn [hp_cookie_rules].
  destruct (hp_cookie_entry_spec rule ck _ _ _ _ _ Ho) as (h1 & -> & Ho1 & Hf1). cbn [mbind option_bind].
  destruct (cookie_entry rule (hd, ck)) as [hd1 ck1] eqn:He1. cbn [fst snd] in *.
  destruct (hp_set_cookie_entry_spec rule sck _ _ _ _ _ Ho1) as (h2 & -> & Ho2 & Hf2). cbn [mbind option_bind].
  destruct (set_cookie_entry rule (hd1, sck)) as [hd2 sck2] eqn:He2. cbn [fst snd] in *.
  destruct (IH ck1 sck2 h2 hd2 Ho2) as (h3 & -> & Ho3 & Hf3). exists h3. split; [done|].
  split; [|by repeat (eapply frame_trans; [eassumption|])].
  unfold cookie_rules_loop in *. cbn [fold_left].
  assert (cookie_rule_step (hd, (ck, sck)) rule = (hd2, (ck1, sck2))) as -> by (unfold cookie_rule_step; by rewrite He1, He2).
  done.
Qed.

Lemma hp_cookie_headers_spec rules lo hi h a hd : owns_opt lo hi h a hd ->
  exists h', hp_cookie_headers rules a h = Some h' /\ owns_opt lo hi h' a (applyCookieRulesToHeaders hd rules) /\ frame lo hi h h'.
Proof.
  intros Ho. destruct rules as [|rule rest]; [by exists h|]. pose proof (owns_opt_read _ _ _ _ _ Ho) as Hr.
  destruct Ho as [a' hd' Ho|]; [|by exists h; split; [|split; [constructor|]]].
  unfold hp_cookie_headers. rewrite Hr. cbn [mbind option_bind].
  destruct (hp_cookie_rules_spec (rule :: rest) lo hi a' (findHeaderKey hd' cookieHeaderKey) (findHeaderKey hd' setCookieHeaderKey)
    h hd' Ho) as (h' & -> & Ho' & Hf). exists h'. split; [done|]. split; [by constructor|done].
Qed.

(** ** Slices read at places a predicate allows *)

Definition reads_at {A} `{Elem A} (Q : nat -> Prop) (h : heap) (b : option slice) (l : list A) : Prop :=
  match b with
  | None => l = []
  | Some s => load h s = Some l /\ (sl_len s = 0 \/ Q (sl_ptr s))
  end.

Lemma load_bound {A} `{Elem A} h s (l : list A) : load h s = Some l -> sl_len s = 0 \/ sl_ptr s < length h.
Proof.
  unfold load, array_at. destruct (Nat.eqb_spec (sl_len s) 0); [by left|]. destruct (h !! sl_ptr s) eqn:Hp; [|done].
  intros _. right. by eapply lookup_lt_Some.
Qed.

Lemma load_frame {A} `{Elem A} lo hi h h' s (l : list A) : load h s = Some l -> frame lo hi h h' ->
  sl_len s = 0 \/ sl_ptr s < lo \/ hi <= sl_ptr s -> load h' s = Some l.
Proof.
  intros Hl [_ Hf] Hs. rewrite <- Hl. apply load_same. destruct (load_bound _ _ _ Hl) as [?|Hb]; [by left|].
  destruct Hs as [?|Hs]; [by left|]. right. by apply Hf.
Qed.

Lemma reads_at_frame {A} `{Elem A} (Q : nat -> Prop) lo hi h h' b (l : list A) : reads_at Q h b l -> frame lo hi h h' ->
  (forall i, Q i -> i < lo \/ hi <= i) -> reads_at Q h' b l.
Proof.
  destruct b as [s|]; [|done]. intros [Hl Hs] Hf HQ. split; [|done]. eapply load_frame; [done|done|]. naive_solver.
Qed.

Lemma reads_at_grows {A} `{Elem A} (Q : nat -> Prop) h h' b (l : list A) : reads_at Q h b l -> grows h h' -> reads_at Q h' b l.
Proof. intros Hb Hf. eapply reads_at_frame; [done|done|]. lia. Qed.

Lemma reads_at_bound {A} `{Elem A} (P Q : nat -> Prop) h b (l : list A) : reads_at P h b l ->
  (forall i, P i -> i < length h -> Q i) -> reads_at Q h b l.
Proof.
  destruct b as [s|]; [|done]. intros [Hl Hs] HQ. split; [done|]. destruct (load_bound _ _ _ Hl); [by left|]. naive_solver.
Qed.

Lemma reads_at_read {A} `{Elem A} (Q : nat -> Prop) h b (l : list A) : reads_at Q h b l -> read_slice h b = l.
Proof. destruct b as [s|]; [|done]. by intros [Hl _]; cbn; rewrite Hl. Qed.

Lemma make_copy_reads {A} `{Elem A} (Q : nat -> Prop) h (l : list A) : Q (length h) ->
  reads_at Q (make_copy h l).2 (Some (make_copy h l).1) l /\ grows h (make_copy h l).2.
Proof.
  intros HQ. split; [|apply grows_app]. split; [exact (arr_load _ _ _ _ (make_copy_arr h l))|by right].
Qed.

(** *** The cookie slice *)

Lemma hp_cookie_filters_spec rules : forall s h l tail, arr h s l tail ->
  exists s' h' tail', hp_cookie_filters rules s h = Some (s', h') /\ sl_ptr s' = sl_ptr s /\
    arr h' s' (redactCookieSlice l rules) tail' /\ touches (sl_ptr s) h h'.
Proof.
  induction rules as [|rule rest IH]; intros s h l tail Ha; [by exists s, h, tail|]. cbn [hp_cookie_filters].
  destruct (filter_in_place_omap (keep_cookie rule) _ _ _ _ Ha) as (s1 & tail1 & -> & Hp1 & Ha1). cbn [mbind option_bind].
  destruct (IH _ _ _ _ Ha1) as (s2 & h2 & tail2 & -> & Hp2 & Ha2 & Hl2 & Ht2). exists s2, h2, tail2.
  rewrite length_insert in Hl2. split; [done|]. split; [congruence|]. split; [exact Ha2|]. split; [done|]. intros i Hi. rewrite Ht2 by congruence.
  by apply list_lookup_insert_ne.
Qed.

Lemma hp_redactCookieSlice_spec (Q : nat -> Prop) rules s h l : load h s = Some l -> Q (length h) ->
  exists s' h', hp_redactCookieSlice s rules h = Some (s', h') /\ reads_at Q h' (Some s') (redactCookieSlice l rules) /\ grows h h'.
Proof.
  intros Hl HQ. unfold hp_redactCookieSlice. rewrite Hl. cbn [mbind option_bind]. pose proof (make_copy_arr h l) as Ha.
  destruct (hp_cookie_filters_spec rules _ _ _ _ Ha) as (s' & h' & tail' & Hf & Hp & Ha' & Hlen & Ht). exists s', h'.
  split; [exact Hf|]. cbn in Hp, Hlen, Ht. rewrite length_app in Hlen. cbn in Hlen. split; [split|].
  - by apply (arr_load _ _ _ _ Ha').
  - right. by rewrite Hp.
  - split; [lia|]. intros i Hi _. rewrite Ht by lia. by apply lookup_app_l.
Qed.

(** *** Bodies *)

Definition body_is (Q : nat -> Prop) (h : heap) (b : option slice) (v : string) : Prop :=
  reads_at Q h b (String.list_ascii_of_string v).

(** [Q] allows everything not yet allocated. *)
Definition upward (Q : nat -> Prop) (h : heap) : Prop := forall i, length h <= i -> Q i.

Lemma upward_grows Q lo hi h h' : upward Q h -> frame lo hi h h' -> upward Q h'.
Proof. intros HQ [Hl _] i Hi. apply HQ. lia. Qed.

Lemma body_is_read Q h b v : body_is Q h b v -> read_body h b = v.
Proof. intros Hb. unfold read_body. rewrite (reads_at_read _ _ _ _ Hb). apply String.string_of_list_ascii_of_string. Qed.

Lemma new_body_spec Q h v : upward Q h -> exists b h', new_body v h = (b, h') /\ body_is Q h' b v /\ grows h h'.
Proof.
  intros HQ. destruct (make_copy_reads Q h (String.list_ascii_of_string v) (HQ _ (le_n _))) as [Hr Hg].
  by eexists _, _.
Qed.

Lemma hp_json_paths_spec Q rules : forall b v errs h, upward Q h -> body_is Q h b v ->
  exists b' v' errs' h', hp_json_paths rules b errs h = (b', errs', h') /\
    fold_left json_path_step rules (v, errs) = (v', errs') /\ body_is Q h' b' v' /\ grows h h'.
Proof.
  induction rules as [|path rest IH]; intros b v errs h HQ Hb; [by exists b, v, errs, h|].
  cbn [hp_json_paths fold_left json_path_step]. rewrite (body_is_read _ _ _ _ Hb).
  destruct (gjson_Exists v path); cbn [negb]; [|by apply IH].
  destruct (sjson_Set v path Redacted) as [next|]; [|by apply IH].
  destruct (new_body_spec Q h next HQ) as (b1 & h1 & -> & Hb1 & Hg1).
  destruct (IH b1 next errs h1 (upward_grows _ _ _ _ _ HQ Hg1) Hb1) as (b2 & v2 & errs2 & h2 & -> & -> & Hb2 & Hg2).
  exists b2, v2, errs2, h2. do 3 (split; [done|]). by eapply frame_trans.
Qed.

Lemma hp_json_body_spec Q rules ct b v errs h : upward Q h -> body_is Q h b v ->
  exists b' v' errs' h', hp_json_body rules ct b errs h = (b', errs', h') /\
    applyJSONPathRulesBody v ct rules errs = (v', errs') /\ body_is Q h' b' v' /\ grows h h'.
Proof.
  intros HQ Hb. unfold hp_json_body, applyJSONPathRulesBody. rewrite (body_is_read _ _ _ _ Hb).
  destruct (_ || _)%bool; [by eexists _, _, _, _|]. destruct (gjson_Valid v); cbn [negb]; [by apply hp_json_paths_spec|].
  by eexists _, _, _, _.
Qed.

Lemma hp_replace_body_spec Q rule b v h : upward Q h -> body_is Q h b v ->
  exists b' h', hp_replace_body rule b h = (b', h') /\ body_is Q h' b' (regexp_Replace (rgr_pattern rule) v Redacted) /\ grows h h'.
Proof. intros HQ Hb. unfold hp_replace_body. rewrite (body_is_read _ _ _ _ Hb). by apply new_body_spec. Qed.

Lemma hp_regex_body_val Q rules b v h : upward Q h -> body_is Q h b v ->
  exists b' h', hp_regex_body rules b h = (b', h') /\ body_is Q h' b' (applyRegexRulesBody v rules) /\ grows h h'.
Proof.
  intros HQ Hb. unfold hp_regex_body, applyRegexRulesBody. rewrite (body_is_read _ _ _ _ Hb).
  destruct (_ || _)%bool; [by exists b, h|]. unfold regex_value. revert b v h HQ Hb.
  induction rules as [|rule rest IH]; intros b v h HQ Hb; [by exists b, h|]. cbn [fold_left].
  destruct (hp_replace_body_spec Q rule b v h HQ Hb) as (b1 & h1 & -> & Hb1 & Hg1).
  destruct (IH b1 _ h1 (upward_grows _ _ _ _ _ HQ Hg1) Hb1) as (b2 & h2 & -> & Hb2 & Hg2).
  exists b2, h2. split; [done|]. split; [done|]. by eapply frame_trans.
Qed.

(** ** Copies *)

Definition valid_map (h : heap) (a : option nat) : Prop :=
  match a with
  | None => True
  | Some a => exists m, h !! a = Some (CMap m) /\ forall k s, m !! k = Some s -> is_Some (load (A := string) h s)
  end.

Lemma owns_alloc lo h a hd m k vals : owns lo (length h) h a hd -> h !! a = Some (CMap m) ->
  owns lo (S (length h)) (set_map (make_copy h vals).2 a (<[k := (make_copy h vals).1]> m)) a (<[k := vals]> hd).
Proof.
  intros (Ha & Hhi & m' & Hm' & Hk & Hinj) Hm. assert (m' = m) as -> by congruence. unfold make_copy, set_map. cbn [fst snd].
  assert (Hlt : a < length h) by (by eapply lookup_lt_Some).
  split; [lia|]. split; [rewrite length_insert, length_app; cbn; lia|]. eexists.
  split; [apply list_lookup_insert_eq; rewrite length_app; cbn; lia|]. split.
  - intros k'. destruct (decide (k' = k)) as [->|Hne].
    + rewrite !lookup_insert_eq. constructor. cbn [sl_ptr]. split; [lia|]. exists [].
      apply (arr_same (h ++ [wrap vals])%list); [apply (make_copy_arr h vals)|apply list_lookup_insert_ne; cbn; lia].
    + rewrite !lookup_insert_ne by done. specialize (Hk k'). inversion Hk as [s vs [Hp [tail Ht]]|]; constructor.
      split; [lia|]. exists tail. apply (arr_same _ _ _ _ _ Ht).
      assert (sl_ptr s <> a) by (intros Heq; destruct Ht as [Hc _]; rewrite Heq in Hc; cbn in Hc; congruence).
      rewrite list_lookup_insert_ne by done. apply lookup_app_l. lia.
  - intros k1 k2 s1 s2 H1' H2' Heq. assert (Hb : forall k' s', m !! k' = Some s' -> sl_ptr s' < length h).
    { intros k' s' Hs. specialize (Hk k'). rewrite Hs in Hk. inversion Hk as [s0 v0 [Hr _]|]. lia. }
    apply lookup_insert_Some in H1' as [[<- <-]|[Hn1 H1']], H2' as [[<- <-]|[Hn2 H2']]; try done; cbn in Heq.
    + apply Hb in H2'. lia.
    + apply Hb in H1'. lia.
    + by eapply Hinj.
Qed.

Lemma load_grows {A} `{Elem A} h h' s : is_Some (load (A := A) h s) -> grows h h' -> load (A := A) h' s = load h s.
Proof. intros [l Hl] Hg. rewrite Hl. eapply load_frame; [done|done|]. lia. Qed.

Abbreviation insert_read h := (fun hd '(k, s) => <[k := default [] (load (A := string) h s)]> hd).

Lemma copy_entry_spec h hc hd k s vals : load h s = Some vals -> grows h hc ->
  owns (length h) (length hc) hc (length h) hd ->
  exists h', copy_entry (length h) (k, s) hc = Some h' /\ grows h h' /\ owns (length h) (length h') h' (length h) (<[k := vals]> hd).
Proof.
  intros Hv Hg Ho. destruct (Ho) as (Ha & _ & m & Hm & _). eexists. split; [|split].
  - cbn [copy_entry]. rewrite (load_grows h hc s) by (done || by exists vals). rewrite Hv.
    cbn [mbind option_bind]. rewrite (surjective_pairing (make_copy hc vals)).
    rewrite (map_of_cell _ _ m); [done|]. cbn. by apply lookup_app_l_Some.
  - destruct Hg as [Hle Hg]. split; [unfold set_map; cbn; rewrite length_insert, length_app; lia|].
    intros i Hi Hr. unfold set_map. rewrite list_lookup_insert_ne by lia. cbn. rewrite lookup_app_l by lia. by apply Hg.
  - pose proof (owns_alloc _ _ _ _ _ k vals Ho Hm) as Ho'. unfold set_map in *. cbn in *. rewrite length_insert, length_app. cbn.
    by rewrite Nat.add_1_r.
Qed.

Lemma copy_entries h l : (forall k s, (k, s) ∈ l -> is_Some (load (A := string) h s)) -> forall hc hd,
  grows h hc -> owns (length h) (length hc) hc (length h) hd ->
  exists h', each (copy_entry (length h)) l hc = Some h' /\ grows h h' /\
    owns (length h) (length h') h' (length h) (foldl (insert_read h) hd l).
Proof.
  induction l as [|[k s] l IH]; intros Hl hc hd Hg Ho; [by exists hc|]. cbn [each foldl].
  destruct (Hl k s (list_elem_of_here _ _)) as [vals Hv]. rewrite Hv. cbn [from_option id].
  destruct (copy_entry_spec h hc hd k s vals Hv Hg Ho) as (h1 & -> & Hg1 & Ho1).
  apply (IH (fun k' s' Hin => Hl k' s' (list_elem_of_further _ _ _ Hin)) _ _ Hg1 Ho1).
Qed.

Lemma foldl_insert_range {V W} (f : V -> W) (m : gmap string V) :
  foldl (fun acc '(k, v) => <[k := f v]> acc) ∅ (go_range m) = f <$> m.
Proof.
  enough (Hgen : forall (l : list (string * V)) (acc : gmap string W) k, NoDup l.*1 ->
    foldl (fun acc '(k, v) => <[k := f v]> acc) acc l !! k =
    match (list_to_map l : gmap string V) !! k with Some v => Some (f v) | None => acc !! k end).
  { apply map_eq. intros k. rewrite Hgen, lookup_fmap, lookup_empty.
    - rewrite (list_to_map_proper (go_range m) (map_to_list m)), list_to_map_to_list.
      + by destruct (m !! k).
      + rewrite go_range_perm. apply NoDup_fst_map_to_list.
      + apply go_range_perm.
    - rewrite go_range_perm. apply NoDup_fst_map_to_list. }
  induction l as [|[k0 v0] l IH]; intros acc k Hnd; [done|]. cbn in Hnd. apply NoDup_cons in Hnd as [Hk0 Hnd].
  cbn [foldl list_to_map]. cbn. rewrite IH by done. destruct (decide (k = k0)) as [->|Hne].
  - rewrite not_elem_of_list_to_map_1 by done. by rewrite !lookup_insert_eq.
  - by rewrite !lookup_insert_ne by done.
Qed.

Lemma copyStringSliceMap_spec h a : valid_map h a ->
  exists a' h', copyStringSliceMap a h = Some (a', h') /\ grows h h' /\ owns_opt (length h) (length h') h' a' (read_map h a).
Proof.
  destruct a as [a|]; [|by exists None, h; split; [|split; [|constructor]]]. intros (m & Hm & Hv).
  destruct (copy_entries h (go_range m)) with (hc := (h ++ [CMap ∅])%list) (hd := (∅ : header)) as (h' & He & Hg & Ho).
  - intros k s Hin%elem_of_go_range. by eapply Hv.
  - apply grows_app.
  - rewrite length_app. cbn. split; [lia|]. split; [rewrite length_app; cbn; lia|]. exists ∅.
    split; [by apply list_lookup_middle|]. split; [|done]. intros k. rewrite !lookup_empty. constructor.
  - exists (Some (length h)), h'. unfold copyStringSliceMap. rewrite (map_of_cell _ _ _ Hm). cbn [mbind option_bind].
    rewrite He. split; [done|]. split; [done|]. cbn [read_map]. rewrite (map_of_cell _ _ _ Hm). cbn [fmap option_fmap option_map].
    constructor. rewrite <- (foldl_insert_range (fun s => default [] (load h s)) m). exact Ho.
Qed.

Lemma copy_slice_spec {A} `{Elem A} (Q : nat -> Prop) h s : valid_slice (A := A) h s -> upward Q h ->
  exists s' h', copy_slice (A := A) s h = Some (s', h') /\ grows h h' /\ reads_at Q h' s' (read_slice (A := A) h s).
Proof.
  destruct s as [s|]; [|by exists None, h]. intros [l Hl] HQ. destruct (make_copy_reads Q h l (HQ _ (le_n _))) as [Hr Hg].
  eexists _, _. cbn. rewrite Hl. cbn. done.
Qed.

Lemma frame_grows lo hi h1 h2 : grows h1 h2 -> frame lo hi h1 h2.
Proof. intros Hg. by apply (frame_weaken 0 0); [|left]. Qed.

Lemma grows_frame lo hi h h1 h2 : grows h h1 -> frame lo hi h1 h2 -> length h <= lo -> grows h h2.
Proof.
  intros [Hl1 H1'] [Hl2 H2'] Hlo. split; [lia|]. intros i Hi Hr. rewrite H2' by lia. by apply H1'.
Qed.

Lemma read_slice_grows {A} `{Elem A} h h' s : valid_slice (A := A) h s -> grows h h' ->
  read_slice (A := A) h' s = read_slice h s /\ valid_slice (A := A) h' s.
Proof. destruct s as [s|]; [|done]. intros Hv Hg. cbn in *. by rewrite (load_grows _ _ _ Hv Hg). Qed.

Lemma read_map_grows h h' a : valid_map h a -> grows h h' -> read_map h' a = read_map h a /\ valid_map h' a.
Proof.
  destruct a as [a|]; [|done]. intros (m & Hm & Hv) Hg.
  assert (Hm' : h' !! a = Some (CMap m)).
  { destruct Hg as [_ Hg]. rewrite Hg; [done| |lia]. by eapply lookup_lt_Some. }
  cbn. rewrite (map_of_cell _ _ _ Hm), (map_of_cell _ _ _ Hm'). cbn. split.
  - f_equal. apply map_eq. intros k. rewrite !lookup_fmap. destruct (m !! k) as [s|] eqn:Hs; [|done]. cbn.
    by rewrite (load_grows _ _ _ (Hv _ _ Hs) Hg).
  - exists m. split; [done|]. intros k s Hs. rewrite (load_grows _ _ _ (Hv _ _ Hs) Hg). by eapply Hv.
Qed.

Definition valid_part (h : heap) (p : part) : Prop := valid_map h (pt_Headers p) /\ valid_slice (A := ascii) h (pt_Body p).

Lemma valid_part_grows h h' p : valid_part h p -> grows h h' ->
  read_map h' (pt_Headers p) = read_map h (pt_Headers p) /\ read_body h' (pt_Body p) = read_body h (pt_Body p) /\ valid_part h' p.
Proof.
  intros [Hm Hb] Hg. destruct (read_map_grows _ _ _ Hm Hg) as [H1' H2'], (read_slice_grows _ _ _ Hb Hg) as [H3 H4].
  unfold read_body. by rewrite H3.
Qed.

Lemma copy_part_spec h p : valid_part h p ->
  exists p' h' hi, copy_part p h = Some (p', h') /\ grows h h' /\ length h <= hi <= length h' /\
    owns_opt (length h) hi h' (pt_Headers p') (read_map h (pt_Headers p)) /\
    (forall Q : nat -> Prop, (forall i, hi <= i -> Q i) -> body_is Q h' (pt_Body p') (read_body h (pt_Body p))).
Proof.
  intros [Hm Hb]. unfold copy_part. destruct (copyStringSliceMap_spec _ _ Hm) as (a & h1 & -> & Hg1 & Ho). cbn [mbind option_bind].
  destruct (read_slice_grows _ _ _ Hb Hg1) as [Hr1 Hb1].
  destruct (copy_slice_spec (A := ascii) (fun i => length h1 <= i) h1 (pt_Body p) Hb1) as (b & h2 & -> & Hg2 & Hr2); [by intros i|].
  cbn [mbind option_bind]. exists (mkPart a b), h2, (length h1).
  split; [done|]. split; [by eapply frame_trans|]. destruct (Hg1) as [? _], (Hg2) as [? _]. split; [done|]. split.
  - eapply owns_opt_frame; [exact Ho|exact Hg2|by left].
  - intros Q HQ. unfold body_is, read_body. rewrite String.list_ascii_of_string_of_list_ascii, <- Hr1.
    destruct b as [s|]; [|done]. destruct Hr2 as [? [?|?]]; split; auto.
Qed.

(** ** The steps of a record *)

Lemma hp_redact_part_spec r errs ct Q lo hi h a hd b v : owns_opt lo hi h a hd -> upward Q h ->
  (forall i, Q i -> i < lo \/ hi <= i) -> body_is Q h b v ->
  exists hd' v' errs' b' h', redact_half r errs hd v ct = (hd', v', errs') /\
    hp_redact_part r errs ct (mkPart a b) h = Some (mkPart a b', errs', h') /\
    owns_opt lo hi h' a hd' /\ body_is Q h' b' v' /\ frame lo hi h h'.
Proof.
  intros Ho HQ Hout Hb. unfold hp_redact_part, redact_half. cbn [pt_Headers pt_Body].
  destruct (hp_cookie_headers_spec (rs_cookies r) _ _ _ _ _ Ho) as (h1 & -> & Ho1 & Hf1). cbn [mbind option_bind].
  destruct (hp_mask_spec (rs_headers r) _ _ _ _ _ Ho1) as (h2 & -> & Ho2 & Hf2). cbn [mbind option_bind].
  assert (Hf12 : frame lo hi h h2) by (by eapply frame_trans).
  pose proof (reads_at_frame _ _ _ _ _ _ _ Hb Hf12 Hout) as Hb2. pose proof (upward_grows _ _ _ _ _ HQ Hf12) as HQ2.
  destruct (hp_json_body_spec Q (rs_jsonPaths r) ct b v errs h2 HQ2 Hb2) as (b3 & v3 & errs3 & h3 & -> & -> & Hb3 & Hg3).
  destruct (hp_regex_body_val Q (rs_regex r) b3 v3 h3 (upward_grows _ _ _ _ _ HQ2 Hg3) Hb3) as (b4 & h4 & -> & Hb4 & Hg4).
  assert (Hg24 : grows h2 h4) by (by eapply frame_trans).
  assert (Ho4 : owns_opt lo hi h4 a (option_map (mask_values (rs_headers r)) (applyCookieRulesToHeaders hd (rs_cookies r))))
    by (eapply owns_opt_frame; [exact Ho2|exact Hg24|by left]).
  destruct (hp_regex_map_spec (rs_regex r) _ _ _ _ _ Ho4) as (h5 & -> & Ho5 & Hf5). cbn [mbind option_bind].
  eexists _, _, _, b4, h5. split; [done|]. split; [done|]. split; [exact Ho5|]. split.
  - by eapply reads_at_frame.
  - eapply frame_trans; [exact Hf12|]. eapply frame_trans; [by apply frame_grows|done].
Qed.

Lemma redactCookieSlice_nil rules : redactCookieSlice [] rules = [].
Proof. unfold redactCookieSlice. by induction rules. Qed.

Lemma hp_applyCookieRules_spec Q lo hi h out rules hd cs : owns_opt lo hi h (hq_Headers out) hd -> upward Q h ->
  (forall i, Q i -> i < lo \/ hi <= i) -> reads_at Q h (hq_Cookies out) cs ->
  exists cookies' h', hp_applyCookieRules out rules h = Some (cookies', h') /\
    owns_opt lo hi h' (hq_Headers out) (applyCookieRulesToHeaders hd rules) /\
    reads_at Q h' cookies' (match rules, hd with [], _ | _, None => cs | _, Some _ => redactCookieSlice cs rules end) /\
    frame lo hi h h'.
Proof.
  intros Ho HQ Hout Hc. unfold hp_applyCookieRules. destruct rules as [|rule rest]; [by eexists _, h|].
  destruct (hq_Headers out) as [a|] eqn:Ha; inversion Ho as [a' hd' Ho' E1 E2|]; subst;
    [|eexists _, h; split; [done|]; split; [constructor|done]].
  destruct (hp_cookie_headers_spec (rule :: rest) _ _ _ _ _ Ho) as (h1 & -> & Ho1 & Hf1). cbn [mbind option_bind].
  pose proof (reads_at_frame _ _ _ _ _ _ _ Hc Hf1 Hout) as Hc1. pose proof (upward_grows _ _ _ _ _ HQ Hf1) as HQ1.
  destruct (hq_Cookies out) as [s|]; [|eexists _, h1; split; [done|]; split; [done|]; split; [|done]; cbn in Hc1; subst cs;
    by rewrite redactCookieSlice_nil].
  destruct (Nat.ltb_spec 0 (sl_len s)) as [Hs|Hs].
  - destruct Hc1 as [Hl _].
    destruct (hp_redactCookieSlice_spec Q (rule :: rest) s h1 cs Hl (HQ1 _ (le_n _))) as (s2 & h2 & -> & Hr2 & Hg2).
    eexists _, h2. split; [done|]. split; [eapply owns_opt_frame; [exact Ho1|exact Hg2|by left]|]. split; [done|].
    eapply frame_trans; [exact Hf1|by apply frame_grows].
  - eexists _, h1. split; [done|]. split; [done|]. split; [|done].
    assert (cs = []) as ->; [|rewrite redactCookieSlice_nil; done].
    destruct Hc1 as [Hl _]. unfold load in Hl. assert (sl_len s = 0) as Hz by lia. rewrite Hz in Hl. by injection Hl.
Qed.

Definition valid_request (h : heap) (r : HRequest) : Prop :=
  valid_map h (hq_Query r) /\ valid_map h (hq_Headers r) /\ valid_slice (A := Cookie) h (hq_Cookies r) /\
  valid_slice (A := ascii) h (hq_Body r).

(** The copy of a request: headers, query and cookies in places of their own,
    one after the other; the body still shared. *)
Lemma shallowCopyCapturedRequest_spec h rec : valid_request h rec ->
  exists out h' n1 n2, shallowCopyCapturedRequest rec h = Some (out, h') /\ grows h h' /\
    hq_fields out = hq_fields rec /\ hq_Body out = hq_Body rec /\ length h <= n1 <= n2 /\ n2 <= length h' /\
    owns_opt (length h) n1 h' (hq_Headers out) (read_map h (hq_Headers rec)) /\
    owns_opt n1 n2 h' (hq_Query out) (read_map h (hq_Query rec)) /\
    (forall Q : nat -> Prop, (forall i, n2 <= i -> Q i) -> reads_at Q h' (hq_Cookies out) (read_slice (A := Cookie) h (hq_Cookies rec))).
Proof.
  intros (Hq & Hh & Hc & _). unfold shallowCopyCapturedRequest.
  destruct (copyStringSliceMap_spec _ _ Hh) as (a1 & h1 & -> & Hg1 & Ho1). cbn [mbind option_bind].
  destruct (read_map_grows _ _ _ Hq Hg1) as [Hr1 Hq1].
  destruct (copyStringSliceMap_spec _ _ Hq1) as (a2 & h2 & -> & Hg2 & Ho2). cbn [mbind option_bind]. rewrite Hr1 in Ho2.
  assert (Hg12 : grows h h2) by (by eapply frame_trans). destruct (read_slice_grows _ _ _ Hc Hg12) as [Hr2 Hc2].
  destruct (copy_slice_spec (A := Cookie) (fun i => length h2 <= i) h2 (hq_Cookies rec) Hc2) as (s & h3 & -> & Hg3 & Hr3); [by intros i|].
  cbn [mbind option_bind]. eexists _, h3, (length h1), (length h2). split; [done|]. split; [by eapply frame_trans|].
  do 2 (split; [done|]). destruct (Hg1) as [? _], (Hg2) as [? _], (Hg3) as [? _]. split; [done|]. split; [done|]. cbn. split; [|split].
  - eapply owns_opt_frame; [exact Ho1|by eapply frame_trans|by left].
  - eapply owns_opt_frame; [exact Ho2|exact Hg3|by left].
  - intros Q HQ. rewrite Hr2 in Hr3. destruct s as [s|]; [|done]. destruct Hr3 as [? [?|?]]; split; auto.
Qed.

Lemma hp_regex_captured_spec Q n0 n1 n2 out eligible rules : n0 <= n1 <= n2 -> (forall i, Q i -> i < n0 \/ n2 <= i) ->
  forall h b v hd qd, upward Q h -> body_is Q h b v -> owns_opt n0 n1 h (hq_Headers out) hd -> owns_opt n1 n2 h (hq_Query out) qd ->
  exists b' h' v' hd' qd', hp_regex_captured rules eligible out b h = Some (b', h') /\
    fold_left (fun '(body, headers, query) rule =>
      let body := if eligible : bool then regexp_Replace (rgr_pattern rule) body Redacted else body in
      let headers := applyRegexRulesHeaderMap headers [rule] in
      let query := option_map (map_values (fun v => regexp_Replace (rgr_pattern rule) v Redacted)) query in
      (body, headers, query)) rules (v, hd, qd) = (v', hd', qd') /\
    body_is Q h' b' v' /\ owns_opt n0 n1 h' (hq_Headers out) hd' /\ owns_opt n1 n2 h' (hq_Query out) qd' /\ frame n0 n2 h h'.
Proof.
  intros Hn Hout. induction rules as [|rule rest IH]; intros h b v hd qd HQ Hb Ho1 Ho2; [by exists b, h, v, hd, qd|].
  cbn [hp_regex_captured fold_left].
  assert (Hstep : exists b1 h1, (if eligible then hp_replace_body rule b h else (b, h)) = (b1, h1) /\
    body_is Q h1 b1 (if eligible then regexp_Replace (rgr_pattern rule) v Redacted else v) /\ grows h h1).
  { destruct eligible; [by apply hp_replace_body_spec|by exists b, h]. }
  destruct Hstep as (b1 & h1 & -> & Hb1 & Hg1).
  assert (Ho1' : owns_opt n0 n1 h1 (hq_Headers out) hd) by (eapply owns_opt_frame; [done|done|by left]).
  destruct (hp_regex_map_spec [rule] _ _ _ _ _ Ho1') as (h2 & -> & Ho12 & Hf2). cbn [mbind option_bind].
  assert (Ho2' : owns_opt n1 n2 h2 (hq_Query out) qd)
    by (eapply owns_opt_frame; [eapply owns_opt_frame; [done|done|by left]|done|right; lia]).
  destruct (hp_regex_query_spec rule _ _ _ _ _ Ho2') as (h3 & -> & Ho23 & Hf3). cbn [mbind option_bind].
  assert (Hf : frame n0 n2 h h3).
  { eapply frame_trans; [by apply frame_grows|]. eapply frame_trans; eapply frame_weaken; try done; right; lia. }
  assert (Hf13 : frame n0 n2 h1 h3) by (eapply frame_trans; eapply frame_weaken; try done; right; lia).
  destruct (IH h3 b1 (if eligible then regexp_Replace (rgr_pattern rule) v Redacted else v)
    (applyRegexRulesHeaderMap hd [rule]) (option_map (map_values (fun v => regexp_Replace (rgr_pattern rule) v Redacted)) qd))
    as (b' & h' & v' & hd' & qd' & -> & Hfold & Hb' & Ho1f & Ho2f & Hf').
  - by eapply upward_grows.
  - by eapply reads_at_frame.
  - eapply owns_opt_frame; [done|done|right; lia].
  - done.
  - exists b', h', v', hd', qd'. split; [done|]. split; [exact Hfold|]. do 3 (split; [done|]). by eapply frame_trans.
Qed.

(** What a refinement of one variant says. *)
Definition refines {R V} (read : heap -> R -> V) (h : heap) (result : option (R * Z * heap)) (value : V * Z) : Prop :=
  exists rec' errs' h', result = Some (rec', errs', h') /\ value = (read h' rec', errs') /\ grows h h'.

Lemma original_body Q h b : valid_slice (A := ascii) h b -> (forall i, i < length h -> Q i) ->
  body_is Q h b (read_body h b).
Proof.
  intros Hv HQ. unfold body_is, read_body. rewrite String.list_ascii_of_string_of_list_ascii.
  destruct b as [s|]; [|done]. destruct Hv as [l Hl]. cbn. rewrite Hl. split; [done|].
  destruct (load_bound _ _ _ Hl); auto.
Qed.

(** The cookie, header and query rules on a copied request. *)
Lemma request_rules_spec Q n0 n1 n2 r out h hd qd cs : n0 <= n1 <= n2 -> upward Q h -> (forall i, Q i -> i < n0 \/ n2 <= i) ->
  owns_opt n0 n1 h (hq_Headers out) hd -> owns_opt n1 n2 h (hq_Query out) qd -> reads_at Q h (hq_Cookies out) cs ->
  exists cookies h1 h2 h3, hp_applyCookieRules out (rs_cookies r) h = Some (cookies, h1) /\
    hp_mask (rs_headers r) (hq_Headers out) h1 = Some h2 /\ hp_mask (rs_queryParams r) (hq_Query out) h2 = Some h3 /\
    owns_opt n0 n1 h3 (hq_Headers out) (applyHeaderRulesMap (applyCookieRulesToHeaders hd (rs_cookies r)) (rs_headers r)) /\
    owns_opt n1 n2 h3 (hq_Query out) (applyQueryRules qd (rs_queryParams r)) /\
    reads_at Q h3 cookies (match rs_cookies r, hd with [], _ | _, None => cs | _, Some _ => redactCookieSlice cs (rs_cookies r) end) /\
    frame n0 n2 h h3.
Proof.
  intros Hn HQ Hout Ho Oq Hc. assert (HQ1 : forall i, Q i -> i < n0 \/ n1 <= i) by (intros i Hi; apply Hout in Hi; lia).
  assert (HQ2 : forall i, Q i -> i < n1 \/ n2 <= i) by (intros i Hi; apply Hout in Hi; lia).
  destruct (hp_applyCookieRules_spec Q _ _ h out (rs_cookies r) _ _ Ho HQ HQ1 Hc) as (cookies & h1 & He1 & Ho1 & Hc1 & Hf1).
  destruct (hp_mask_spec (rs_headers r) _ _ _ _ _ Ho1) as (h2 & He2 & Ho2 & Hf2).
  assert (Hf12 : frame n0 n1 h h2) by (by eapply frame_trans).
  destruct (hp_mask_spec (rs_queryParams r) n1 n2 h2 (hq_Query out) qd) as (h3 & He3 & Oq3 & Hf3).
  { eapply owns_opt_frame; [exact Oq|exact Hf12|right; lia]. }
  exists cookies, h1, h2, h3. do 3 (split; [done|]). split; [|split; [|split]].
  - eapply owns_opt_frame; [exact Ho2|exact Hf3|right; lia].
  - exact Oq3.
  - eapply reads_at_frame; [|exact Hf3|exact HQ2]. by eapply reads_at_frame.
  - eapply frame_trans; [eapply frame_weaken; [exact Hf12|right; lia]|eapply frame_weaken; [exact Hf3|right; lia]].
Qed.

Lemma hp_redactCapturedRequest_refines r errs rec h : valid_request h rec ->
  refines read_request h (hp_redactCapturedRequest r errs rec h) (redactCapturedRequest r errs (read_request h rec)).
Proof.
  intros Hv. destruct (Hv) as (_ & _ & _ & Hvb). unfold refines, hp_redactCapturedRequest.
  destruct (shallowCopyCapturedRequest_spec h rec Hv)
    as (out & h1 & n1 & n2 & -> & Hg1 & Hfields & Hbody & Hn & Hn2 & Ho1 & Oq1 & Hc1). cbn [mbind option_bind].
  set (Q := fun i => i < length h \/ n2 <= i). assert (HQ1 : upward Q h1) by (intros i Hi; right; lia).
  assert (Hout : forall i, Q i -> i < length h \/ n2 <= i) by done.
  destruct (request_rules_spec Q (length h) n1 n2 r out h1 _ _ _ Hn HQ1 Hout Ho1 Oq1 (Hc1 Q (fun i Hi => or_intror Hi)))
    as (cookies & h2 & h3 & h4 & He2 & He3 & He4 & Ho4 & Oq4 & Hc4 & Hf4).
  rewrite He2. cbn [mbind option_bind]. rewrite He3. cbn [mbind option_bind]. rewrite He4. cbn [mbind option_bind].
  assert (Hb4 : body_is Q h4 (hq_Body out) (read_body h (hq_Body rec))).
  { rewrite Hbody. eapply reads_at_frame; [|exact Hf4|exact Hout]. eapply reads_at_grows; [|exact Hg1].
    apply original_body; [done|]. intros i Hi. by left. }
  assert (HQ4 : upward Q h4) by (by eapply upward_grows).
  destruct (hp_json_body_spec Q (rs_jsonPaths r) (cr_ContentType (hq_fields out)) (hq_Body out) _ errs h4 HQ4 Hb4)
    as (b5 & v5 & errs5 & h5 & -> & Hjson & Hb5 & Hg5).
  rewrite (body_is_read _ _ _ _ Hb5).
  destruct (hp_regex_captured_spec Q (length h) n1 n2 out (negb (String.eqb v5 "")) (rs_regex r) Hn Hout h5 b5 v5 _ _
    (upward_grows _ _ _ _ _ HQ4 Hg5) Hb5 (owns_opt_frame _ _ _ _ _ _ _ _ Ho4 Hg5 (or_introl eq_refl))
    (owns_opt_frame _ _ _ _ _ _ _ _ Oq4 Hg5 (or_introl eq_refl)))
    as (b6 & h6 & v6 & hd6 & qd6 & -> & Hfold & Hb6 & Ho6 & Oq6 & Hf6). cbn [mbind option_bind].
  pose proof (reads_at_frame _ _ _ _ _ _ _ (reads_at_grows _ _ _ _ _ Hc4 Hg5) Hf6 Hout) as Hc6.
  eexists _, errs5, h6. split; [done|]. split.
  - unfold read_request. cbn [hq_fields hq_Query hq_Headers hq_Cookies hq_Body].
    rewrite (owns_opt_read _ _ _ _ _ Oq6), (owns_opt_read _ _ _ _ _ Ho6), (reads_at_read _ _ _ _ Hc6), (body_is_read _ _ _ _ Hb6).
    unfold redactCapturedRequest, with_request.
    cbn [cr_ID cr_Timestamp cr_Method cr_Path cr_Query cr_Headers cr_Cookies cr_Body cr_BodyTruncated cr_BodyOriginalSize
      cr_ContentType cr_SourceIP cr_Service cr_ServiceSource cr_CorrelationID cr_CorrelationSource].
    rewrite <- Hfields, Hjson.
    match goal with |- context [applyRegexRulesCaptured ?o ?rules] =>
      replace (applyRegexRulesCaptured o rules) with (v6, hd6, qd6) by (symmetry; exact Hfold) end.
    done.
  - eapply grows_frame; [|exact Hf6|done]. eapply frame_trans; [|exact Hg5]. by eapply grows_frame.
Qed.

Lemma hp_redactResponseEvent_refines r errs rec h : valid_part h (hs_part rec) ->
  refines read_response h (hp_redactResponseEvent r errs rec h) (redactResponseEvent r errs (read_response h rec)).
Proof.
  intros Hv. unfold refines, hp_redactResponseEvent, shallowCopyResponseEvent.
  destruct (copy_part_spec _ _ Hv) as ([a b] & h1 & hi & -> & Hg1 & Hhi & Ho1 & Hb1). cbn [mbind option_bind hs_fields hs_part].
  destruct (hp_redact_part_spec r errs (re_ContentType (hs_fields rec)) (fun i => hi <= i) _ _ h1 a _ b
    (read_body h (pt_Body (hs_part rec))) Ho1) as (hd' & v' & errs' & b' & h2 & Hhalf & -> & Ho2 & Hb2 & Hf2).
  - intros i Hi. lia.
  - lia.
  - by apply (Hb1 (fun i => hi <= i)).
  - eexists _, errs', h2. split; [done|]. split; [|by eapply grows_frame].
    unfold redactResponseEvent, read_response, with_response. cbn [re_Headers re_Body re_ContentType hs_part hs_fields pt_Headers pt_Body].
    rewrite Hhalf, (owns_opt_read _ _ _ _ _ Ho2), (body_is_read _ _ _ _ Hb2). done.
Qed.

Definition valid_outbound (h : heap) (r : HOutbound) : Prop :=
  valid_part h (ho_Request r) /\
  match ho_Response r with
  | None => True
  | Some a => exists v p, h !! a = Some (CHalf v p) /\ valid_part h p
  end.

Lemma half_of_cell h a v p : h !! a = Some (CHalf v p) -> half_of h a = Some (v, p).
Proof. unfold half_of. by intros ->. Qed.

(** An outbound event without a response. *)
Lemma outbound_request_only r errs rec h : valid_part h (ho_Request rec) -> ho_Response rec = None ->
  refines read_outbound h (hp_redactOutboundEvent r errs rec h) (redactOutboundEvent r errs (read_outbound h rec)).
Proof.
  intros Hv Hn. unfold refines, hp_redactOutboundEvent, shallowCopyOutboundEvent. rewrite Hn.
  destruct (copy_part_spec _ _ Hv) as ([a b] & h1 & hi & -> & Hg1 & Hhi & Ho1 & Hb1). cbn [mbind option_bind ho_fields ho_Request ho_Response].
  destruct (hp_redact_part_spec r errs (oq_ContentType (oe_Request (ho_fields rec))) (fun i => hi <= i) _ _ h1 a _ b
    (read_body h (pt_Body (ho_Request rec))) Ho1) as (hd' & v' & errs' & b' & h2 & Hhalf & -> & Ho2 & Hb2 & Hf2).
  - intros i Hi. lia.
  - lia.
  - by apply (Hb1 (fun i => hi <= i)).
  - eexists _, errs', h2. split; [done|]. split; [|by eapply grows_frame].
    unfold redactOutboundEvent, read_outbound, with_halves, with_request_half. rewrite Hn.
    cbn [oe_Request oe_Response oq_Headers oq_Body oq_ContentType ho_fields ho_Request ho_Response pt_Headers pt_Body mbind option_bind].
    rewrite Hhalf, (owns_opt_read _ _ _ _ _ Ho2), (body_is_read _ _ _ _ Hb2). done.
Qed.

(** Both parts redacted one after the other, then the half at [n] that points to
    the second written. *)
Lemma redact_halves r errs ctq Q n0 hi1 n1 hi2 n h a1 hd1 b1 w1 a2 hd2 b2 w2 v :
  n0 <= hi1 -> hi1 <= n1 -> n1 <= hi2 -> hi2 <= n ->
  upward Q h -> (forall i, Q i -> (i < n0 \/ hi1 <= i) /\ (i < n1 \/ hi2 <= i) /\ i <> n) ->
  h !! n = Some (CHalf v (mkPart a2 b2)) -> owns_opt n0 hi1 h a1 hd1 -> owns_opt n1 hi2 h a2 hd2 ->
  body_is Q h b1 w1 -> body_is Q h b2 w2 ->
  exists hd1' w1' errs1 b1' h1 hd2' w2' errs2 b2' h2,
    redact_half r errs hd1 w1 ctq = (hd1', w1', errs1) /\ redact_half r errs1 hd2 w2 (os_ContentType v) = (hd2', w2', errs2) /\
    hp_redact_part r errs ctq (mkPart a1 b1) h = Some (mkPart a1 b1', errs1, h1) /\
    half_of h1 n = Some (v, mkPart a2 b2) /\
    hp_redact_part r errs1 (os_ContentType v) (mkPart a2 b2) h1 = Some (mkPart a2 b2', errs2, h2) /\
    (let h3 := <[n := CHalf v (mkPart a2 b2')]> h2 in
     half_of h3 n = Some (v, mkPart a2 b2') /\ read_map h3 a1 = hd1' /\ read_map h3 a2 = hd2' /\
     read_body h3 b1' = w1' /\ read_body h3 b2' = w2' /\ frame n0 (S n) h h3).
Proof.
  intros Hle1 Hle2 Hle3 Hle4 HQ Hout Hn Ho1 Ho2 Hb1 Hb2. pose proof (lookup_lt_Some _ _ _ Hn) as Hlt.
  destruct (hp_redact_part_spec r errs ctq Q _ _ h _ _ _ _ Ho1 HQ ltac:(intros i Hi; by apply Hout) Hb1)
    as (hd1' & w1' & errs1 & b1' & h1 & Hhalf1 & Hp1 & Ho11 & Hb11 & Hf1).
  assert (Hn1 : h1 !! n = Some (CHalf v (mkPart a2 b2))) by (rewrite (proj2 Hf1); [done|lia|lia]).
  destruct (hp_redact_part_spec r errs1 (os_ContentType v) Q n1 hi2 h1 a2 hd2 b2 w2)
    as (hd2' & w2' & errs2 & b2' & h2 & Hhalf2 & Hp2 & Ho22 & Hb22 & Hf2).
  { eapply owns_opt_frame; [exact Ho2|exact Hf1|right; lia]. }
  { by eapply upward_grows. }
  { intros i Hi. by apply Hout. }
  { eapply reads_at_frame; [exact Hb2|exact Hf1|]. intros i Hi. by apply Hout. }
  exists hd1', w1', errs1, b1', h1, hd2', w2', errs2, b2', h2. do 3 (split; [done|]). split; [by apply half_of_cell|]. split; [done|].
  intros h3. assert (Hf3 : frame n (S n) h2 h3) by (apply frame_write; lia).
  assert (HQn : forall i, Q i -> i < n \/ S n <= i) by (intros i Hi; apply Hout in Hi; lia).
  assert (Hb12 : body_is Q h2 b1' w1') by (eapply reads_at_frame; [exact Hb11|exact Hf2|intros i Hi; by apply Hout]).
  split; [|split; [|split; [|split; [|split]]]].
  - apply half_of_cell, list_lookup_insert_eq. pose proof (proj1 Hf1). pose proof (proj1 Hf2). lia.
  - eapply owns_opt_read, owns_opt_frame; [eapply owns_opt_frame; [exact Ho11|exact Hf2|right; lia]|exact Hf3|right; lia].
  - eapply owns_opt_read, owns_opt_frame; [exact Ho22|exact Hf3|right; lia].
  - eapply body_is_read, reads_at_frame; [exact Hb12|exact Hf3|exact HQn].
  - eapply body_is_read, reads_at_frame; [exact Hb22|exact Hf3|exact HQn].
  - do 2 (eapply frame_trans; [eapply frame_weaken; [eassumption|right; lia]|]). eapply frame_weaken; [exact Hf3|right; lia].
Qed.

(** With a response: two copied parts, then the copied half. *)
Lemma outbound_with_response r errs rec h a v p : valid_part h (ho_Request rec) -> ho_Response rec = Some a ->
  h !! a = Some (CHalf v p) -> valid_part h p ->
  refines read_outbound h (hp_redactOutboundEvent r errs rec h) (redactOutboundEvent r errs (read_outbound h rec)).
Proof.
  intros Hv Ha Hcell Hp. unfold refines, hp_redactOutboundEvent, shallowCopyOutboundEvent. rewrite Ha.
  destruct (copy_part_spec _ _ Hv) as ([a1 b1] & h1 & hi1 & -> & Hg1 & Hhi1 & Ho1 & Hb1). cbn [mbind option_bind].
  assert (Hcell1 : h1 !! a = Some (CHalf v p)).
  { destruct Hg1 as [_ Hg]. rewrite Hg; [done|by eapply lookup_lt_Some|lia]. }
  rewrite (half_of_cell _ _ _ _ Hcell1). cbn [mbind option_bind].
  destruct (valid_part_grows _ _ _ Hp Hg1) as (Hrm & Hrb & Hp1).
  destruct (copy_part_spec _ _ Hp1) as ([a2 b2] & h2 & hi2 & -> & Hg2 & Hhi2 & Ho2 & Hb2).
  cbn [mbind option_bind ho_fields ho_Request ho_Response]. rewrite Hrm in Ho2. rewrite Hrb in Hb2.
  assert (Hg3 : grows h2 (h2 ++ [CHalf v (mkPart a2 b2)])%list) by apply grows_app. pose proof (proj1 Hg2) as Hle2.
  set (Q := fun i => hi1 <= i < length h1 \/ hi2 <= i /\ i <> length h2).
  destruct (redact_halves r errs (oq_ContentType (oe_Request (ho_fields rec))) Q (length h) hi1 (length h1) hi2 (length h2)
    (h2 ++ [CHalf v (mkPart a2 b2)])%list a1 (read_map h (pt_Headers (ho_Request rec))) b1 (read_body h (pt_Body (ho_Request rec)))
    a2 (read_map h (pt_Headers p)) b2 (read_body h (pt_Body p)) v)
    as (hd1' & w1' & errs1 & b1' & h4 & hd2' & w2' & errs2 & b2' & h5 & Hh1 & Hh2 & -> & Hhalf & Hp2 & Hr); try lia.
  - intros i. rewrite length_app. cbn. unfold Q. lia.
  - unfold Q. lia.
  - by apply list_lookup_middle.
  - eapply owns_opt_frame; [exact Ho1|by eapply frame_trans|by left].
  - eapply owns_opt_frame; [exact Ho2|exact Hg3|by left].
  - eapply reads_at_grows; [|exact Hg3]. eapply reads_at_grows; [|exact Hg2].
    eapply reads_at_bound; [apply (Hb1 (fun i => hi1 <= i)); auto|]. unfold Q. lia.
  - eapply reads_at_grows; [|exact Hg3]. eapply reads_at_bound; [apply (Hb2 (fun i => hi2 <= i)); auto|]. unfold Q. lia.
  - cbn [mbind option_bind]. rewrite Hhalf. cbn [mbind option_bind]. rewrite Hp2. cbn [mbind option_bind].
    destruct Hr as (Hc3 & Hm1 & Hm2 & Hw1 & Hw2 & Hf). eexists _, errs2, _. split; [done|]. split.
    + unfold redactOutboundEvent, read_outbound, with_halves, with_request_half, with_response_half. rewrite Ha.
      cbn [oe_Request oe_Response oq_Headers oq_Body oq_ContentType ho_fields ho_Request ho_Response pt_Headers pt_Body mbind option_bind].
      rewrite (half_of_cell _ _ _ _ Hcell), Hc3. cbn [mbind option_bind pt_Headers pt_Body].
      rewrite Hh1. cbn [os_Headers os_Body os_ContentType]. rewrite Hh2, Hm1, Hm2, Hw1, Hw2. done.
    + eapply grows_frame; [|exact Hf|done]. eapply frame_trans; [exact Hg1|]. by eapply frame_trans.
Qed.

(** ** Whole records *)

Definition valid_record (h : heap) (r : HRecord) : Prop :=
  match r with
  | HRRequest r => valid_request h r
  | HRResponse r => valid_part h (hs_part r)
  | HROutbound r => valid_outbound h r
  end.

Lemma read_request_grows h h' r : valid_request h r -> grows h h' -> read_request h' r = read_request h r.
Proof.
  intros (Hq & Hh & Hc & Hb) Hg. unfold read_request, read_body.
  rewrite (proj1 (read_map_grows _ _ _ Hq Hg)), (proj1 (read_map_grows _ _ _ Hh Hg)), (proj1 (read_slice_grows _ _ _ Hc Hg)),
    (proj1 (read_slice_grows _ _ _ Hb Hg)). done.
Qed.

Lemma read_record_grows h h' rec : valid_record h rec -> grows h h' -> read_record h' rec = read_record h rec.
Proof.
  destruct rec as [r|r|r]; cbn [valid_record read_record]; intros Hv Hg; f_equal.
  - by apply read_request_grows.
  - destruct (valid_part_grows _ _ _ Hv Hg) as (Hm & Hb & _). unfold read_response. by rewrite Hm, Hb.
  - destruct Hv as [Hq Hp]. destruct (valid_part_grows _ _ _ Hq Hg) as (Hm & Hb & _). unfold read_outbound. rewrite Hm, Hb.
    f_equal. destruct (ho_Response r) as [a|]; [|done]. destruct Hp as (v & p & Hc & Hp). cbn [mbind option_bind].
    assert (Hc' : h' !! a = Some (CHalf v p)) by (rewrite (proj2 Hg); [done|by eapply lookup_lt_Some|lia]).
    rewrite (half_of_cell _ _ _ _ Hc), (half_of_cell _ _ _ _ Hc'). cbn [mbind option_bind].
    destruct (valid_part_grows _ _ _ Hp Hg) as (-> & -> & _). done.
Qed.

Lemma hp_Redact_refines r errs rec h : valid_record h rec ->
  refines read_record h (hp_Redact r errs rec h) (Redact r errs (read_record h rec)).
Proof.
  intros Hv. unfold hp_Redact, Redact. destruct (IsUnredacted r); [by exists rec, errs, h|].
  destruct rec as [v|v|v]; cbn [valid_record read_record] in *.
  - destruct (hp_redactCapturedRequest_refines r errs v h Hv) as (v' & errs' & h' & -> & -> & Hg).
    by exists (HRRequest v'), errs', h'.
  - destruct (hp_redactResponseEvent_refines r errs v h Hv) as (v' & errs' & h' & -> & -> & Hg).
    by exists (HRResponse v'), errs', h'.
  - assert (Hr : refines read_outbound h (hp_redactOutboundEvent r errs v h) (redactOutboundEvent r errs (read_outbound h v))).
    { destruct Hv as [Hq Hp]. destruct (ho_Response v) as [a|] eqn:Ha; [|by apply outbound_request_only].
      destruct Hp as (w & p & Hc & Hp). by eapply outbound_with_response. }
    destruct Hr as (v' & errs' & h' & -> & -> & Hg). by exists (HROutbound v'), errs', h'.
Qed.

(** *** The copy of the redact command *)

Lemma owns_valid lo hi h a hd : owns_opt lo hi h a hd -> valid_map h a.
Proof.
  intros [a' hd' (_ & _ & m & Hm & Hk & _)|]; [|done]. exists m. split; [done|]. intros k s Hs. specialize (Hk k).
  rewrite Hs in Hk. inversion Hk as [s' vs [_ [tail Ht]] Hms Hh|]. exists vs. by apply (arr_load _ _ _ _ Ht).
Qed.

Lemma reads_at_valid {A} `{Elem A} Q h b (l : list A) : reads_at Q h b l -> valid_slice (A := A) h b.
Proof. destruct b as [s|]; [|done]. intros [Hl _]. by exists l. Qed.

Lemma cloneRecord_spec h rec : valid_request h rec ->
  exists out h', cloneRecord rec h = Some (out, h') /\ grows h h' /\ valid_request h' out /\
    read_request h' out = read_request h rec.
Proof.
  intros Hv. destruct (Hv) as (_ & _ & _ & Hb). unfold cloneRecord.
  destruct (shallowCopyCapturedRequest_spec h rec Hv) as (out & h1 & n1 & n2 & -> & Hg1 & Hf & _ & _ & _ & Ho & Oq & Hc).
  cbn [mbind option_bind]. destruct (read_slice_grows _ _ _ Hb Hg1) as [Hr1 Hb1].
  destruct (copy_slice_spec (A := ascii) (fun _ => True) h1 (hq_Body rec) Hb1) as (b & h2 & -> & Hg2 & Hr2); [by intros i|].
  cbn [mbind option_bind]. rewrite Hr1 in Hr2. eexists _, h2. split; [done|]. split; [by eapply frame_trans|].
  pose proof (owns_opt_frame _ _ _ _ _ _ _ _ Ho Hg2 (or_introl eq_refl)) as Ho2.
  pose proof (owns_opt_frame _ _ _ _ _ _ _ _ Oq Hg2 (or_introl eq_refl)) as Oq2.
  pose proof (reads_at_grows _ _ _ _ _ (Hc (fun _ => True) (fun _ _ => I)) Hg2) as Hc2.
  split; [split; [by eapply owns_valid|split; [by eapply owns_valid|split; by eapply reads_at_valid]]|].
  unfold read_request, read_body. cbn [hq_fields hq_Query hq_Headers hq_Cookies hq_Body].
  rewrite (owns_opt_read _ _ _ _ _ Ho2), (owns_opt_read _ _ _ _ _ Oq2), (reads_at_read _ _ _ _ Hc2), (reads_at_read _ _ _ _ Hr2).
  by rewrite Hf.
Qed.

Lemma valid_request_grows h h' r : valid_request h r -> grows h h' -> valid_request h' r.
Proof.
  intros (Hq & Hh & Hc & Hb) Hg. split; [by eapply read_map_grows|]. split; [by eapply read_map_grows|].
  split; by eapply read_slice_grows.
Qed.

(** The diff of the redact command compares the sample with its redaction: what
    happens to the sample's memory does not reach the copy. *)
Lemma hp_sides_spec r rec h : valid_request h rec ->
  exists before after h', hp_sides r rec h = Some (before, after, h') /\
    read_request h' before = read_request h rec /\ read_record h' after = (Redact r 0 (RRequest (read_request h rec))).1.
Proof.
  intros Hv. unfold hp_sides. destruct (cloneRecord_spec h rec Hv) as (before & h1 & -> & Hg1 & Hvb & Hrb). cbn [mbind option_bind].
  destruct (hp_Redact_refines r 0 (HRRequest rec) h1 (valid_request_grows _ _ _ Hv Hg1)) as (after & errs & h2 & -> & Hval & Hg2).
  exists before, after, h2. split; [done|]. cbn [read_record] in Hval. rewrite (read_request_grows _ _ _ Hv Hg1) in Hval.
  rewrite Hval. split; [|done]. rewrite <- Hrb. by apply read_request_grows.
Qed.

(** C25. Redaction on shared memory. For a record whose maps, slices and halves
    may share memory in any way, redacting never fails on a reference, the
    record it returns reads as the redaction of the record given, with the same
    error count, and not one cell that existed before is written: the record
    given, and whatever else shares memory with it, reads as before. *)
Theorem redact_in_place_refines r errs rec h : valid_record h rec ->
  exists rec' errs' h', hp_Redact r errs rec h = Some (rec', errs', h') /\
    Redact r errs (read_record h rec) = (read_record h' rec', errs') /\
    (forall a, a < length h -> h' !! a = h !! a) /\ read_record h' rec = read_record h rec.
Proof.
  intros Hv. destruct (hp_Redact_refines r errs rec h Hv) as (rec' & errs' & h' & He & Hval & Hg).
  exists rec', errs', h'. split; [done|]. split; [done|]. split; [|by apply read_record_grows].
  intros a Ha. apply (proj2 Hg); lia.
Qed.
End HeapRedactor.

(** A request whose query is its header map, with one array behind two keys. *)
Definition shared_heap : heap :=
  [CMap {["Authorization" := mkSlice 1 0 1 2; "X-Trace" := mkSlice 1 0 2 2]}; CStrings ["secret"; "t1"]].
Definition shared_request : HRequest :=
  mkHRequest (mkCapturedRequest "r1" 7%Z "GET" "/" None None [] "" false 0 "" "" "svc" "header" "c1" "explicit")
    (Some 0) (Some 0) None None.

Lemma redact_in_place_refines_witness :
  exists rec' h', hp_Redact (H := ascii_unicode) (H0 := sorted_range) (H1 := literal_deps) hide_auth 0 (HRRequest shared_request) shared_heap
      = Some (rec', 0%Z, h') /\
    (cr_Headers <$> (match read_record h' rec' with RRequest v => Some v | _ => None end)) =
      Some (Some {["Authorization" := [Redacted]; "X-Trace" := ["secret"; "t1"]]}) /\
    read_record h' (HRRequest shared_request) = read_record shared_heap (HRRequest shared_request).
Proof.
  assert (Hm : valid_map shared_heap (Some 0)).
  { eexists. split; [reflexivity|]. intros k s Hs.
    apply lookup_insert_Some in Hs as [[<- <-]|[_ [<- <-]%lookup_singleton_Some]]; by eexists. }
  destruct (redact_in_place_refines (H := ascii_unicode) (H0 := sorted_range) (H1 := literal_deps) hide_auth 0
    (HRRequest shared_request) shared_heap (conj Hm (conj Hm (conj I I)))) as (rec' & errs' & h' & He & _ & _ & Hr).
  exists rec', h'. assert (errs' = 0%Z) as -> by (vm_compute in He; congruence). split; [exact He|]. split; [|exact Hr].
  clear Hr. vm_compute in He. injection He as <- <-. vm_compute. reflexivity.
Defined.
