(* ===== verification/GoTime.v ===== *)
(** * float64 and time.ParseDuration

    Floats are IEEE binary64 in the executable specification of the Standard
    Library. *)
From S2P Require Import Prelude GoLib.
From Stdlib Require Import Floats.SpecFloat.

Open Scope string_scope.

(** ** float64 *)

Definition f64 := spec_float.
Definition f64_add : f64 -> f64 -> f64 := SFadd 53 1024.
Definition f64_sub : f64 -> f64 -> f64 := SFsub 53 1024.
Definition f64_mul : f64 -> f64 -> f64 := SFmul 53 1024.
Definition f64_div : f64 -> f64 -> f64 := SFdiv 53 1024.
Definition f64_ltb : f64 -> f64 -> bool := SFltb.
Definition f64_of_Z (z : Z) : f64 := binary_normalize 53 1024 z 0 false.

(** Conversion to [int64] truncates toward zero; a value out of range gives the
    smallest integer, as on amd64. *)
Definition f64_to_i64 (f : f64) : Z :=
  match f with
  | S754_zero _ => 0
  | S754_finite neg m e =>
      let v := if (0 <=? e)%Z then (Z.pos m * 2 ^ e)%Z else (Z.pos m / 2 ^ (- e))%Z in
      let v := if neg : bool then (- v)%Z else v in
      if ((- two63 <=? v) && (v <? two63))%Z then v else (- two63)%Z
  | _ => (- two63)%Z
  end.

(** [Duration.Seconds]: whole seconds plus the remainder over 1e9. *)
Definition Seconds (d : duration) : f64 :=
  f64_add (f64_of_Z (Z.quot d second)) (f64_div (f64_of_Z (Z.rem d second)) (f64_of_Z 1000000000)).

Definition f64_max (a b : f64) : f64 := if f64_ltb a b then b else a.

(** ** time.ParseDuration

    [uint64] values stay below 2^64 because every sum is checked against 2^63
    right after it is formed. *)

(** Digits up to the first other byte; [None] is the overflow error. *)
Fixpoint leadingInt (x : Z) (s : string) : option (Z * string) :=
  match s with
  | String c s' =>
      if negb (is_digit c) then Some (x, s)
      else if (x >? two63 / 10)%Z then None
      else let x := (x * 10 + (Z.of_N (code c) - 48))%Z in
           if (x >? two63)%Z then None else leadingInt x s'
  | "" => Some (x, "")
  end.

(** Digits after the point; digits beyond the precision are skipped. *)
Fixpoint leadingFraction (x : Z) (scale : f64) (overflow : bool) (s : string) : Z * f64 * string :=
  match s with
  | String c s' =>
      if negb (is_digit c) then (x, scale, s)
      else if overflow then leadingFraction x scale true s'
      else if (x >? (two63 - 1) / 10)%Z then leadingFraction x scale true s'
      else let y := (x * 10 + (Z.of_N (code c) - 48))%Z in
           if (y >? two63)%Z then leadingFraction x scale true s'
           else leadingFraction y (f64_mul scale (f64_of_Z 10)) false s'
  | "" => (x, scale, "")
  end.

(** The unit: everything up to the next digit or point. *)
Fixpoint span_unit (s : string) : string * string :=
  match s with
  | String c s' =>
      if (Ascii.eqb c "." || is_digit c)%bool then ("", s)
      else let '(u, r) := span_unit s' in (String c u, r)
  | "" => ("", "")
  end.

(** [unitMap]; the two micro signs are U+00B5 and U+03BC. *)
Definition unitMap (u : string) : option Z :=
  if String.eqb u "ns" then Some 1%Z
  else if (String.eqb u "us" || String.eqb u (String "194" (String "181" "s")) ||
           String.eqb u (String "206" (String "188" "s")))%bool then Some 1000%Z
  else if String.eqb u "ms" then Some 1000000%Z
  else if String.eqb u "s" then Some second
  else if String.eqb u "m" then Some (60 * second)%Z
  else if String.eqb u "h" then Some (3600 * second)%Z
  else None.

(** One round of the loop: one number with its unit, and what follows. *)
Definition parse_component (s : string) : option (Z * string) :=
  match s with
  | "" => None
  | String c _ =>
      if negb (Ascii.eqb c "." || is_digit c) then None else
      r ← leadingInt 0 s;
      let '(v, s1) := r in
      let pre := negb (String.length s1 =? String.length s)%nat in
      let '(f, scale, s2, post) :=
        match s1 with
        | String "." s1' =>
            let '(f, scale, s2) := leadingFraction 0 (f64_of_Z 1) false s1' in
            (f, scale, s2, negb (String.length s2 =? String.length s1')%nat)
        | _ => (0%Z, f64_of_Z 1, s1, false)
        end in
      if negb pre && negb post then None else
      let '(u, s3) := span_unit s2 in
      if String.eqb u "" then None else
      unit ← unitMap u;
      if (v >? two63 / unit)%Z then None else
      let v := (v * unit)%Z in
      if (f >? 0)%Z then
        let v := (v + f64_to_i64 (f64_mul (f64_of_Z f) (f64_div (f64_of_Z unit) scale)))%Z in
        if (v >? two63)%Z then None else Some (v, s3)
      else Some (v, s3)
  end.

(** Each round consumes at least the number and the unit. *)
Fixpoint parse_components (fuel : nat) (d : Z) (s : string) : option Z :=
  match s, fuel with
  | "", _ => Some d
  | _, 0%nat => None
  | _, S fuel =>
      r ← parse_component s;
      let '(v, rest) := r in
      let d := (d + v)%Z in
      if (d >? two63)%Z then None else parse_components fuel d rest
  end.

Definition ParseDuration (s : string) : option duration :=
  let '(neg, s) :=
    match s with
    | String c s' => if (Ascii.eqb c "-" || Ascii.eqb c "+")%bool then (Ascii.eqb c "-", s') else (false, s)
    | "" => (false, s)
    end in
  if String.eqb s "0" then Some 0%Z
  else if String.eqb s "" then None
  else d ← parse_components (String.length s) 0 s;
       if neg then Some (wrap_i64 (- wrap_i64 d))
       else if (d >? two63 - 1)%Z then None else Some d.

Example ParseDuration_ex1 : ParseDuration "1h15m30.5s" = Some (4530500000000)%Z.
Proof. reflexivity. Qed.
Example ParseDuration_ex2 : ParseDuration "-1.5h" = Some (-5400000000000)%Z.
Proof. reflexivity. Qed.
Example ParseDuration_ex3 : ParseDuration "10" = None.
Proof. reflexivity. Qed.
Example ParseDuration_ex4 : ParseDuration ".s" = None.
Proof. reflexivity. Qed.

(** A component consumes input, so the loop's fuel is never the reason to stop. *)
Lemma leadingInt_length s x v r : leadingInt x s = Some (v, r) -> String.length r <= String.length s.
Proof.
  revert x. induction s as [|c s IH]; intros x; simpl; [by intros [= <- <-]|].
  repeat case_match; intros E; simplify_eq; simpl; try lia. apply IH in E. lia.
Qed.

Lemma leadingFraction_length s x sc o : String.length (leadingFraction x sc o s).2 <= String.length s.
Proof.
  revert x sc o. induction s as [|c s IH]; intros x sc o; simpl; [done|].
  repeat case_match; simpl; try lia; etrans; [apply IH|lia|apply IH|lia|apply IH|lia|apply IH|lia].
Qed.

Lemma span_unit_length s u r : span_unit s = (u, r) -> String.length u + String.length r = String.length s.
Proof.
  revert u r. induction s as [|c s IH]; intros u r; simpl; [by intros [= <- <-]|].
  destruct (_ || _)%bool; [by intros [= <- <-]|]. destruct (span_unit s) as [u' r'] eqn:E. intros [= <- <-].
  simpl. by rewrite (IH _ _ eq_refl).
Qed.

Lemma parse_component_length s v r : parse_component s = Some (v, r) -> String.length r < String.length s.
Proof.
  unfold parse_component. destruct s as [|c s]; [done|]. destruct (negb _); [done|]. generalize (String c s) as t. clear c s. intros t. destruct (leadingInt 0 t) as [[v1 s1]|] eqn:E1; [|done]. cbn.
  apply leadingInt_length in E1.
  set (fr := match s1 with String "." _ => _ | _ => _ end). assert (Hf : String.length fr.1.2 <= String.length s1).
  { unfold fr. destruct s1 as [|c s1]; [done|]. destruct c as [[] [] [] [] [] [] [] []]; try done.
    pose proof (leadingFraction_length s1 0 (f64_of_Z 1) false).
    destruct (leadingFraction _ _ _ _) as [[??]?]. simpl in *. lia. }
  destruct fr as [[[f sc] s2] post]. cbn in Hf. destruct (_ && _)%bool; [done|].
  destruct (span_unit s2) as [u s3] eqn:E3. apply span_unit_length in E3.
  destruct (String.eqb_spec u ""); [done|]. destruct u as [|cu u]; [done|]. simpl in E3.
  destruct (unitMap _); [|done]. cbn. repeat case_match; intros; simplify_eq; lia.
Qed.

Lemma parse_components_fuel fuel d s : String.length s <= fuel ->
  parse_components fuel d s = parse_components (String.length s) d s.
Proof.
  intros Hf. remember (String.length s) as n eqn:En. revert fuel d s En Hf.
  induction n as [n IH] using lt_wf_ind. intros fuel d s En Hf.
  destruct s as [|c s]; [by destruct fuel, n|]. destruct fuel as [|fuel]; [simpl in *; lia|].
  destruct n as [|n]; [done|]. cbn [parse_components].
  destruct (parse_component (String c s)) as [[v r]|] eqn:E; [|done]. cbn.
  apply parse_component_length in E. case_match; [done|].
  rewrite (IH (String.length r)) by lia. symmetry. apply IH; lia.
Qed.
