(* ===== verification/Serve.v ===== *)
(** * app.Serve, app.shutdown and admin.Server.Serve: start and stop

    [Serve] with its goroutines is a step relation: the steps of the goroutine
    that runs [Serve] and [shutdown] are kept apart from those of the two HTTP
    servers, their handlers and the workers. Waiting is by a clock that only
    moves forward. *)
From S2P Require Import Prelude GoLib GoTime Record Capture Pipeline.

Open Scope string_scope.

Definition shutdownDrainTimeout : duration := (5 * second)%Z.

Inductive ServeError := ErrListen (addr : string) | ErrCapture | ErrAdmin.

(** Where the [Serve] goroutine is, with the time it began to wait. *)
Inductive Phase :=
| Starting
| Serving
| Stopping (since : time)
| Draining (since : time)
| Closing (aborted : bool)
| Returned (aborted : bool).

(** The two HTTP servers: whether they accept requests and how many requests
    their handlers are working on. [sy_cancelled] is the admin server's context;
    [sy_stop] records when the [select] ended and is read by no step. *)
Record System := mkSystem {
  sy_pool : Pool;
  sy_phase : Phase;
  sy_err : option ServeError;
  sy_clock : time;
  sy_capture_open : bool;
  sy_capture_busy : nat;
  sy_admin_open : bool;
  sy_admin_busy : nat;
  sy_cancelled : bool;
  sy_sinkCtx : bool;
  sy_sqlite_open : bool;
  sy_stop : option time;
  sy_capture_panics : nat;
  sy_event_panics : nat
}.

(** Before the listeners: the workers run, on a pool just built. *)
Definition NewSystem (pool : Pool) (sqlite : bool) (now : time) : System :=
  mkSystem pool Starting None now false 0 false 0 false true sqlite None 0 0.

(** *** One field at a time *)

Definition with_pool (s : System) (p : Pool) : System :=
  let 'mkSystem _ ph er cl co cb ao ab ca si sq sp cp ep := s in mkSystem p ph er cl co cb ao ab ca si sq sp cp ep.
Definition with_phase (s : System) (ph : Phase) : System :=
  let 'mkSystem p _ er cl co cb ao ab ca si sq sp cp ep := s in mkSystem p ph er cl co cb ao ab ca si sq sp cp ep.
Definition with_err (s : System) (er : option ServeError) : System :=
  let 'mkSystem p ph _ cl co cb ao ab ca si sq sp cp ep := s in mkSystem p ph er cl co cb ao ab ca si sq sp cp ep.
Definition with_clock (s : System) (cl : time) : System :=
  let 'mkSystem p ph er _ co cb ao ab ca si sq sp cp ep := s in mkSystem p ph er cl co cb ao ab ca si sq sp cp ep.
Definition with_capture (s : System) (co : bool) (cb : nat) : System :=
  let 'mkSystem p ph er cl _ _ ao ab ca si sq sp cp ep := s in mkSystem p ph er cl co cb ao ab ca si sq sp cp ep.
Definition with_admin (s : System) (ao : bool) (ab : nat) : System :=
  let 'mkSystem p ph er cl co cb _ _ ca si sq sp cp ep := s in mkSystem p ph er cl co cb ao ab ca si sq sp cp ep.
Definition with_cancelled (s : System) (ca : bool) : System :=
  let 'mkSystem p ph er cl co cb ao ab _ si sq sp cp ep := s in mkSystem p ph er cl co cb ao ab ca si sq sp cp ep.
Definition without_sinkCtx (s : System) : System :=
  let 'mkSystem p ph er cl co cb ao ab ca _ sq sp cp ep := s in mkSystem p ph er cl co cb ao ab ca false sq sp cp ep.
Definition without_sqlite (s : System) : System :=
  let 'mkSystem p ph er cl co cb ao ab ca si _ sp cp ep := s in mkSystem p ph er cl co cb ao ab ca si false sp cp ep.
Definition with_panics (s : System) (cp ep : nat) : System :=
  let 'mkSystem p ph er cl co cb ao ab ca si sq sp _ _ := s in mkSystem p ph er cl co cb ao ab ca si sq sp cp ep.
Definition with_stop (s : System) (t : time) : System :=
  let 'mkSystem p ph er cl co cb ao ab ca si sq _ cp ep := s in mkSystem p ph er cl co cb ao ab ca si sq (Some t) cp ep.

Section Steps.
Context `{Unicode}.
Variable redact : CRecord -> option CRecord.
Variable opts : HandlerOptions.
Variable addr : string.

(** [a.Queue.Close()]. *)
Definition close_pool (p : Pool) : Pool :=
  mkPool (CloseQueue (pl_queue p)) (pl_counters p) (pl_workers p) (pl_sinks p) (pl_errors p) (pl_panics p)
    (pl_history p) (pl_finished p).

(** What ends the [select] of [Serve]. *)
Inductive Cause := CtxDone | CaptureFailed (err : option ServeError) | AdminEnded (err : option ServeError).

Definition cause_err (c : Cause) : option ServeError :=
  match c with CtxDone => None | CaptureFailed e | AdminEnded e => e end.

(** Steps of the goroutine that runs [Serve] and [shutdown]. Closing the queue
    is part of the step that leaves [Stopping]. *)
Inductive serve_step : System -> System -> Prop :=
| serve_listen s :
    sy_phase s = Starting ->
    serve_step s (with_capture (with_phase s Serving) true 0)
| serve_listen_failed s :
    sy_phase s = Starting -> qu_closed (pl_queue (sy_pool s)) = false ->
    serve_step s (with_err (with_phase
      (with_pool s (close_pool (sy_pool s))) (Draining (sy_clock s))) (Some (ErrListen addr)))
| serve_select s c :
    sy_phase s = Serving -> (c = CtxDone -> sy_cancelled s = true) ->
    serve_step s (with_stop (with_err (with_phase (with_capture
      (with_cancelled s (match c with CaptureFailed _ => true | _ => sy_cancelled s end)) false (sy_capture_busy s))
      (Stopping (sy_clock s))) (cause_err c)) (sy_clock s))
| serve_shutdown s since :
    sy_phase s = Stopping since ->
    sy_capture_busy s = 0 \/ (since + shutdownDrainTimeout <= sy_clock s)%Z ->
    qu_closed (pl_queue (sy_pool s)) = false ->
    serve_step s (with_phase
      (with_pool s (close_pool (sy_pool s))) (Draining (sy_clock s)))
| serve_drained s since :
    sy_phase s = Draining since -> drained (sy_pool s) ->
    serve_step s (with_phase s (Closing false))
| serve_abort s since :
    sy_phase s = Draining since -> (since + shutdownDrainTimeout <= sy_clock s)%Z ->
    serve_step s (without_sinkCtx (with_phase s (Closing true)))
| serve_return s aborted :
    sy_phase s = Closing aborted ->
    serve_step s (without_sinkCtx (without_sqlite (with_cancelled (with_phase s (Returned aborted)) true))).

(** Steps of everything else: time, the caller's cancellation, the admin
    server's own goroutine, requests arriving and being handled, workers. A
    handler that meets the closed queue panics, which its server recovers. *)
Inductive other_step : System -> System -> Prop :=
| other_tick s now : (sy_clock s <= now)%Z -> other_step s (with_clock s now)
| other_cancel s : other_step s (with_cancelled s true)
| other_admin_up s :
    (* once started the goroutine listens, cancelled or not, and stops after *)
    sy_phase s = Serving \/ is_Some (sy_stop s) -> other_step s (with_admin s true (sy_admin_busy s))
| other_admin_down s : other_step s (with_admin s false (sy_admin_busy s))
| other_capture_arrives s :
    sy_capture_open s = true -> other_step s (with_capture s true (S (sy_capture_busy s)))
| other_admin_arrives s :
    sy_admin_open s = true -> other_step s (with_admin s true (S (sy_admin_busy s)))
| other_capture_done s n d req status q' c' :
    sy_capture_busy s = S n ->
    captureHandler opts d req (pl_queue (sy_pool s)) (pl_counters (sy_pool s)) = Some (status, q', c') ->
    other_step s (with_capture (with_pool s (mkPool q' c' (pl_workers (sy_pool s)) (pl_sinks (sy_pool s))
      (pl_errors (sy_pool s)) (pl_panics (sy_pool s))
      (capture_offer opts d req (pl_queue (sy_pool s)) :: pl_history (sy_pool s)) (pl_finished (sy_pool s))))
      (sy_capture_open s) n)
| other_capture_panics s n d req :
    sy_capture_busy s = S n ->
    captureHandler opts d req (pl_queue (sy_pool s)) (pl_counters (sy_pool s)) = None ->
    other_step s (with_panics (with_capture s (sy_capture_open s) n) (S (sy_capture_panics s)) (sy_event_panics s))
| other_event_offered s n r q' taken :
    sy_admin_busy s = S n -> Enqueue (pl_queue (sy_pool s)) r = Some (q', taken) ->
    other_step s (with_pool s (mkPool q' (pl_counters (sy_pool s)) (pl_workers (sy_pool s)) (pl_sinks (sy_pool s))
      (pl_errors (sy_pool s)) (pl_panics (sy_pool s))
      ((if taken : bool then OfferEvent r else OfferDropped r) :: pl_history (sy_pool s)) (pl_finished (sy_pool s))))
| other_event_panics s n r :
    sy_admin_busy s = S n -> Enqueue (pl_queue (sy_pool s)) r = None ->
    other_step s (with_panics (with_admin s (sy_admin_open s) n) (sy_capture_panics s) (S (sy_event_panics s)))
| other_admin_done s n :
    sy_admin_busy s = S n -> other_step s (with_admin s (sy_admin_open s) n)
| other_worker s p :
    step redact opts (sy_pool s) p -> pl_history p = pl_history (sy_pool s) ->
    qu_closed (pl_queue p) = qu_closed (pl_queue (sy_pool s)) ->
    other_step s (with_pool s p).

Definition sys_step (s s' : System) : Prop := serve_step s s' \/ other_step s s'.

Definition sys_reachable (s0 s : System) : Prop := rtc sys_step s0 s.
End Steps.
