(* ===== verification/ServeFacts.v ===== *)
(** * Theorems about start and stop

    The system refines the worker pool; what holds of queue, sink context and
    store in each phase; shutdown ends. *)
From S2P Require Import Prelude GoLib GoTime Record Capture Pipeline PipelineFacts Serve.

Open Scope string_scope.

Section Serve.
Context `{Unicode}.
Variable redact : CRecord -> option CRecord.
Variable opts : HandlerOptions.
Variable addr : string.

Local Abbreviation sstep := (serve_step addr).
Local Abbreviation ostep := (other_step redact opts).

(** ** The pool inside *)

(** A step of the system is a step of the pool or leaves the pool alone. *)
Lemma sys_step_pool s s' : sys_step redact opts addr s s' ->
  sy_pool s' = sy_pool s \/ step redact opts (sy_pool s) (sy_pool s').
Proof.
  intros [Hs|Hs]; destruct Hs; destruct s; cbn in *; try (by left); right.
  - by constructor.
  - by constructor.
  - by econstructor.
  - by econstructor.
  - done.
Qed.

Lemma sys_reachable_pool s0 s : sys_reachable redact opts addr s0 s -> reachable redact opts (sy_pool s0) (sy_pool s).
Proof.
  induction 1 as [|x y z Hxy _ IH]; [apply rtc_refl|]. unfold reachable in *.
  apply sys_step_pool in Hxy as [Heq|Hst]; [by rewrite <- Heq|]. by eapply rtc_l.
Qed.

(** ** Phases *)

Definition stopped (ph : Phase) : bool :=
  match ph with Starting | Serving | Stopping _ => false | _ => true end.

Definition returned (ph : Phase) : bool := match ph with Returned _ => true | _ => false end.

Definition sinks_cut (ph : Phase) : bool :=
  match ph with Closing aborted => aborted | Returned _ => true | _ => false end.

Definition clean (ph : Phase) : bool :=
  match ph with Closing aborted | Returned aborted => negb aborted | _ => false end.

(** The wait for running capture requests was cut short. *)
Definition timed_out (s : System) : Prop :=
  exists t, sy_stop s = Some t /\ (t + shutdownDrainTimeout <= sy_clock s)%Z.

Record sys_inv (sqlite : bool) (s : System) : Prop := {
  si_closed : qu_closed (pl_queue (sy_pool s)) = stopped (sy_phase s);
  si_sinks : sy_sinkCtx s = negb (sinks_cut (sy_phase s));
  si_store : sy_sqlite_open s = sqlite && negb (returned (sy_phase s));
  si_drained : clean (sy_phase s) = true -> drained (sy_pool s);
  si_listening : sy_capture_open s = true -> sy_phase s = Serving;
  si_stop : forall t, sy_phase s = Stopping t -> sy_stop s = Some t /\ (t <= sy_clock s)%Z;
  si_idle : stopped (sy_phase s) = true -> sy_capture_busy s <> 0 -> timed_out s;
  si_starting : sy_phase s = Starting -> sy_capture_busy s = 0;
  si_panics : sy_capture_panics s <> 0 -> stopped (sy_phase s) = true /\ timed_out s
}.

(** A drained pool with a closed queue stays drained: workers have nothing to
    do, events are not taken, and of captures only failed reads are counted. *)
Lemma drained_step p p' : drained p -> qu_closed (pl_queue p) = true -> step redact opts p p' -> drained p'.
Proof.
  intros [Hq Hw] Hc Hst.
  assert (Hidle : forall i w, pl_workers p !! i = Some w -> w = Idle)
    by (intros i w Hi; eapply Hw, list_elem_of_lookup_2, Hi).
  destruct Hst as [p d req status q' c' Hh|p r q' taken He|p i r q' Hi Hd|p i r r' Hi|p i r Hi|p i r r' k s s' res Hi
    |p i r r' k s s' Hi|p i r r' Hi|p Ho]; try (by apply Hidle in Hi); try congruence.
  - unfold captureHandler, Enqueue in Hh. rewrite Hc in Hh. by repeat case_step; simplify_eq.
  - unfold Enqueue in He. by rewrite Hc in He.
  - unfold Dequeue in Hd. by rewrite Hq in Hd.
Qed.

(** Closing is by the [Serve] goroutine alone. *)
Lemma captureHandler_closed d req q c status q' c' :
  captureHandler opts d req q c = Some (status, q', c') -> qu_closed q' = qu_closed q.
Proof.
  unfold captureHandler, Enqueue. intros Hh. repeat case_step; simplify_eq; cbn; congruence.
Qed.

Lemma Enqueue_closed q r q' taken : Enqueue q r = Some (q', taken) -> qu_closed q' = qu_closed q /\ qu_closed q = false.
Proof. unfold Enqueue. intros He. by repeat case_step; simplify_eq; cbn. Qed.

Lemma captureHandler_panics d req q c : captureHandler opts d req q c = None -> qu_closed q = true.
Proof. unfold captureHandler, Enqueue. intros Hh. by repeat case_step; simplify_eq; cbn. Qed.

Lemma timed_out_later s now : (sy_clock s <= now)%Z -> timed_out s -> timed_out (with_clock s now).
Proof. destruct s. intros Hle (t & Ht & Hto). exists t. cbn in *. split; [done|lia]. Qed.

Lemma sys_init sqlite pool now : qu_closed (pl_queue pool) = false -> sys_inv sqlite (NewSystem pool sqlite now).
Proof. intros Hc. split; cbn; try done. by rewrite andb_true_r. Qed.

Lemma serve_preserves sqlite s s' : sys_inv sqlite s -> sstep s s' -> sys_inv sqlite s'.
Proof.
  intros [Hcl Hsi Hst Hdr Hli Hstop Hidle Hstart Hpan] Hs.
  destruct Hs as [s Hp|s Hp Hq|s c Hp Hc|s since Hp Hw Hq|s since Hp Hd|s since Hp Hto|s aborted Hp];
    destruct s; cbn in *; subst; split; cbn in *; try done; try (intros Ho; by apply Hli in Ho).
  all: try (intros Hn; destruct (Hpan Hn); done).
  - intros _ Hb. by rewrite Hstart in Hb.
  - intros t [= <-]. split; [done|lia].
  - intros _ Hb. destruct Hw as [?|Hw]; [done|]. destruct (Hstop since eq_refl) as [Hs Hle].
    by exists since.
  - by destruct sqlite.
Qed.

Lemma clean_stopped ph : clean ph = true -> stopped ph = true.
Proof. by destruct ph. Qed.

(** A pool step while the system stays in a clean end phase. *)
Lemma clean_drained s p : qu_closed (pl_queue (sy_pool s)) = stopped (sy_phase s) ->
  (clean (sy_phase s) = true -> drained (sy_pool s)) -> step redact opts (sy_pool s) p ->
  clean (sy_phase s) = true -> drained p.
Proof. intros Hcl Hdr Hst Hc. eapply drained_step; [by apply Hdr| |done]. by rewrite Hcl, clean_stopped. Qed.

Lemma other_preserves sqlite s s' : sys_inv sqlite s -> ostep s s' -> sys_inv sqlite s'.
Proof.
  intros [Hcl Hsi Hst Hdr Hli Hstop Hidle Hstart Hpan] Hs.
  assert (Hdr' : forall p, step redact opts (sy_pool s) p -> clean (sy_phase s) = true -> drained p)
    by (intros p; by apply clean_drained).
  destruct Hs as [s now Hle|s|s Hp|s|s Ho|s Ho|s n d req status q' c' Hb Hh|s n d req Hb Hh|s n r q' taken Hb He
    |s n r Hb He|s n Hb|s p Hw Hh Hcp].
  1: assert (Hlater := timed_out_later s now Hle).
  all: destruct s; cbn in *; subst; split; cbn in *; try done.
  - intros t Ht. destruct (Hstop t Ht). split; [done|lia].
  - intros Hs Hb. by apply Hlater, Hidle.
  - intros Hn. destruct (Hpan Hn). split; [done|]. by apply Hlater.
  - by rewrite (Hli eq_refl).
  - by rewrite (Hli eq_refl).
  - by rewrite (captureHandler_closed _ _ _ _ _ _ _ Hh).
  - apply Hdr'. by econstructor.
  - intros Hs _. by apply Hidle.
  - intros Hs. by apply Hstart in Hs.
  - intros Hs _. by apply Hidle.
  - intros Hs. by apply Hstart in Hs.
  - intros _. apply captureHandler_panics in Hh. rewrite Hcl in Hh. split; [done|]. by apply Hidle.
  - by destruct (Enqueue_closed _ _ _ _ He) as [-> _].
  - apply Hdr'. by econstructor.
  - by rewrite Hcp.
  - by apply Hdr'.
Qed.

Lemma sys_reachable_inv sqlite pool now s : qu_closed (pl_queue pool) = false ->
  sys_reachable redact opts addr (NewSystem pool sqlite now) s -> sys_inv sqlite s.
Proof.
  intros Hc Hr. pose proof (sys_init sqlite pool now Hc) as H0. revert H0.
  induction Hr as [|x y z [Hxy|Hxy] _ IH]; eauto using serve_preserves, other_preserves.
Qed.

(** C38. Start and stop of the program, in every interleaving of the serving
    goroutine with requests, events and workers. The queue is closed exactly
    from the drain on, so no second close can happen; the sinks' context lives
    until the drain ended or timed out, and the store stays open until the
    return. A capture request meets the closed queue only if the wait for
    running requests timed out. If the drain was not aborted, every record the
    queue ever accepted has been processed when the store is closed: each sink
    was handed the redactions of exactly those records whose worker had not
    panicked before it came to that sink, once each; without a panic, of all. *)
Theorem shutdown_order size qcap sinks sqlite now s : fresh_sinks sinks ->
  sys_reachable redact opts addr (NewSystem (NewPool size qcap sinks) sqlite now) s ->
  qu_closed (pl_queue (sy_pool s)) = stopped (sy_phase s) /\
  sy_sinkCtx s = negb (sinks_cut (sy_phase s)) /\
  sy_sqlite_open s = sqlite && negb (returned (sy_phase s)) /\
  (sy_capture_panics s <> 0 -> timed_out s) /\
  (clean (sy_phase s) = true ->
     let fs := pl_finished (sy_pool s) in
     accepted (pl_history (sy_pool s)) ≡ₚ fi_rec <$> fs /\
     (forall f, f ∈ fs -> fi_panicked f = false -> fi_sinks f = length (pl_sinks (sy_pool s))) /\
     (forall k sink, pl_sinks (sy_pool s) !! k = Some sink ->
        sk_log sink ≡ₚ omap redact (fi_rec <$> filter (fun f => k < fi_sinks f) fs)) /\
     ((forall f, f ∈ fs -> fi_panicked f = false) ->
      forall k sink, pl_sinks (sy_pool s) !! k = Some sink ->
        Some <$> sk_log sink ≡ₚ redact <$> accepted (pl_history (sy_pool s)))).
Proof.
  intros Hf Hr. pose proof (sys_reachable_inv sqlite (NewPool size qcap sinks) now s eq_refl Hr) as Hinv.
  apply sys_reachable_pool in Hr. pose proof (reachable_inv _ _ _ _ _ _ Hf Hr) as Hpool.
  split_and!; [apply Hinv..| |].
  - intros Hn. by destruct (si_panics _ _ Hinv Hn).
  - intros Hc. pose proof (si_drained _ _ Hinv Hc) as Hd. split_and!; [| | |by apply inv_delivered].
    + destruct Hd as [Hq Hidle]. rewrite (pi_conserve _ _ Hpool), Hq. cbn [app]. by rewrite in_flight_idle.
    + intros f Hin Hnp. by destruct (pi_finished _ _ Hpool f Hin Hnp).
    + intros k sink Hk. by apply (inv_reached redact).
Qed.

(** ** Shutdown ends *)

(** Steps the serving goroutine still has to take, at most. *)
Definition serve_work (ph : Phase) : nat :=
  match ph with Starting => 5 | Serving => 4 | Stopping _ => 3 | Draining _ => 2 | Closing _ => 1 | Returned _ => 0 end.

Lemma serve_step_work s s' : sstep s s' -> serve_work (sy_phase s') < serve_work (sy_phase s).
Proof. intros Hs; destruct Hs; destruct s; cbn in *; subst; cbn; lia. Qed.

Lemma other_step_phase s s' : ostep s s' -> sy_phase s' = sy_phase s.
Proof. intros Hs; by destruct Hs; destruct s. Qed.

(** The serving goroutine can move: at once, or when its timer has run out. *)
Definition can_move (s : System) : Prop :=
  match sy_phase s with
  | Stopping t | Draining t => (t + shutdownDrainTimeout <= sy_clock s)%Z -> exists s', sstep s s'
  | Closing _ => exists s', sstep s s'
  | _ => True
  end.

Lemma inv_can_move sqlite s : sys_inv sqlite s -> can_move s.
Proof.
  intros Hinv. unfold can_move. pose proof (si_closed _ _ Hinv) as Hc. destruct (sy_phase s) eqn:Hp; try done.
  - intros Ht. eexists. by apply (serve_shutdown addr s since); [|right|].
  - intros Ht. eexists. by apply (serve_abort addr s since).
  - eexists. by apply (serve_return addr s aborted).
Qed.

(** A run to the return that takes no longer than [until]. *)
Definition returns_by (s : System) (til : time) : Prop :=
  exists s' aborted, sys_reachable redact opts addr s s' /\ sy_phase s' = Returned aborted /\ (sy_clock s' <= til)%Z.

Lemma returns_step s s' til : sys_step redact opts addr s s' -> returns_by s' til -> returns_by s til.
Proof. intros Hst (s2 & b & Hr & Hp). exists s2, b. split; [by eapply rtc_l|done]. Qed.

Lemma closing_returns s aborted : sy_phase s = Closing aborted -> returns_by s (sy_clock s).
Proof.
  intros Hp. eapply returns_step; [left; by apply (serve_return addr s aborted)|].
  eexists _, aborted. split; [apply rtc_refl|]. by destruct s.
Qed.

Lemma draining_returns s since : sy_phase s = Draining since ->
  returns_by s (Z.max (sy_clock s) (since + shutdownDrainTimeout)).
Proof.
  set (til := Z.max _ _). intros Hp. eapply returns_step; [right; apply (other_tick redact opts s til); lia|].
  eapply returns_step; [left; apply (serve_abort addr (with_clock s til) since); destruct s; cbn in *; [done|lia]|].
  clearbody til. destruct s. match goal with |- returns_by ?s1 _ => exact (closing_returns s1 true eq_refl) end.
Qed.

Lemma stopping_returns sqlite s since : sys_inv sqlite s -> sy_phase s = Stopping since ->
  returns_by s (Z.max (sy_clock s) (since + shutdownDrainTimeout) + shutdownDrainTimeout)%Z.
Proof.
  intros Hinv Hp. pose proof (si_closed _ _ Hinv) as Hc. rewrite Hp in Hc. set (til := Z.max _ _).
  eapply returns_step; [right; apply (other_tick redact opts s til); lia|].
  eapply returns_step; [left; apply (serve_shutdown addr (with_clock s til) since); destruct s; cbn in *; [done|right; lia|done]|].
  replace (til + shutdownDrainTimeout)%Z with (Z.max til (til + shutdownDrainTimeout)) by (unfold shutdownDrainTimeout, second; lia).
  clearbody til. destruct s. match goal with |- returns_by ?s1 _ => exact (draining_returns s1 til eq_refl) end.
Qed.


End Serve.

(** ** Events during shutdown *)

(** The queue is closed without waiting for the admin server: an event request
    still being handled meets the closed queue although nothing timed out. *)
Lemma event_meets_closed_queue (U : Unicode) redact opts addr pool now (r : CRecord) :
  pl_queue pool = NewQueue 1 ->
  exists s, sys_reachable redact opts addr (NewSystem pool false now) s /\ sy_event_panics s = 1 /\ sy_clock s = now.
Proof.
  intros Hq. set (s0 := NewSystem pool false now).
  eexists. split; [|].
  { eapply rtc_l; [left; by apply serve_listen|].
    eapply rtc_l; [right; apply other_admin_up; by left|].
    eapply rtc_l; [right; apply other_admin_arrives; done|].
    eapply rtc_l; [right; apply other_cancel|].
    eapply rtc_l; [left; apply (serve_select _ _ CtxDone); done|].
    eapply rtc_l; [left; eapply serve_shutdown; [done|by left|by cbn; rewrite Hq]|].
    eapply rtc_l; [right; eapply (other_event_panics _ _ _ 0 r); done|]. apply rtc_refl. }
  done.
Qed.

(** ** Witnesses *)

(** One event is accepted, the caller cancels, the worker delivers, all is closed. *)
Definition demo_start : System := NewSystem (NewPool 1 4 demo_sinks) true 0%Z.

Definition demo_returned : System :=
  mkSystem (close_pool demo_end) (Returned false) None 0%Z false 0 true 0 true false false (Some 0%Z) 0 0.

Lemma demo_served : sys_reachable Some (H := ascii_unicode) demo_opts "" demo_start demo_returned.
Proof.
  eapply rtc_l; [left; by apply serve_listen|]; cbn.
  eapply rtc_l; [right; apply other_admin_up; by left|]; cbn.
  eapply rtc_l; [right; by apply other_admin_arrives|]; cbn.
  eapply rtc_l; [right; apply (other_event_offered _ _ _ 0 ping (mkQueue [ping] 4 0 false) true); reflexivity|]; cbn.
  eapply rtc_l; [right; apply (other_admin_done _ _ _ 0); reflexivity|]; cbn.
  eapply rtc_l; [right; eapply other_worker; [apply (step_take Some demo_opts _ 0 ping (NewQueue 4))|..]; reflexivity|]; cbn.
  eapply rtc_l; [right; eapply other_worker; [apply (step_redact Some demo_opts _ 0 ping ping)|..]; reflexivity|]; cbn.
  eapply rtc_l; [right; eapply other_worker; [apply (step_write Some demo_opts _ 0 ping ping 0
    (mkSink "memory" (fun _ _ => WriteOk) []) (mkSink "memory" (fun _ _ => WriteOk) [ping]) WriteOk); done|done..]|]; cbn.
  eapply rtc_l; [right; eapply other_worker; [apply (step_done Some demo_opts _ 0 ping ping)|..]; reflexivity|]; cbn.
  eapply rtc_l; [right; apply other_cancel|]; cbn.
  eapply rtc_l; [left; by apply (serve_select _ _ CtxDone)|]; cbn.
  eapply rtc_l; [left; apply (serve_shutdown _ _ 0%Z); [reflexivity|left; reflexivity|reflexivity]|]; cbn.
  eapply rtc_l; [left; apply (serve_drained _ _ 0%Z); [reflexivity|split; [reflexivity|]]|]; cbn.
  { by intros w ->%list_elem_of_singleton. }
  eapply rtc_l; [left; by apply (serve_return _ _ false)|]. apply rtc_refl.
Qed.

Lemma shutdown_order_witness : Some <$> [ping] ≡ₚ Some <$> accepted [OfferEvent ping].
Proof.
  refine (proj2 (proj2 (proj2 (proj2 (proj2 (proj2 (proj2 (shutdown_order Some (H := ascii_unicode) demo_opts "" 1 4 demo_sinks true 0%Z
    demo_returned demo_fresh demo_served)))) eq_refl))) _ 0 (mkSink "memory" (fun _ _ => WriteOk) [ping]) eq_refl).
  by intros f ->%list_elem_of_singleton.
Defined.

Definition demo_stopping : System :=
  mkSystem (NewPool 1 4 demo_sinks) (Stopping 7%Z) None 7%Z false 1 false 0 true true true (Some 7%Z) 0 0.

Lemma demo_stops : sys_reachable Some (H := ascii_unicode) demo_opts "" demo_start demo_stopping.
Proof.
  eapply rtc_l; [left; by apply serve_listen|]; cbn.
  eapply rtc_l; [right; by apply other_capture_arrives|]; cbn.
  eapply rtc_l; [right; apply other_cancel|]; cbn.
  eapply rtc_l; [right; by apply (other_tick _ _ _ 7%Z)|]; cbn.
  eapply rtc_l; [left; by apply (serve_select _ _ CtxDone)|]. apply rtc_refl.
Qed.

