(* ===== verification/Metrics.v ===== *)
(** * metrics/metrics.go, admin/metrics.go, admin/status.go: what is exposed

    An accessor, [func() uint64] in the code, is a function of the process state
    [W] it reads when it is called; a nil accessor is [None]. A metric is the
    arguments of the library call that makes it, and the histogram its options:
    the client library itself is not modelled. *)
From S2P Require Import Prelude GoLib GoTime Json JsonFacts.
From Stdlib Require Import Floats.SpecFloat.

Open Scope string_scope.

(** ** Descriptors and samples *)

Record Desc := mkDesc { ds_name : string; ds_help : string; ds_labels : list string }.

Inductive ValueType := CounterValue | GaugeValue.

(** The arguments of [prometheus.MustNewConstMetric]. *)
Record ConstMetric := mkConstMetric { cm_desc : Desc; cm_type : ValueType; cm_value : f64; cm_labels : list string }.

#[export] Instance Desc_eq_dec : EqDecision Desc.
Proof. solve_decision. Defined.
#[export] Instance ValueType_eq_dec : EqDecision ValueType.
Proof. solve_decision. Defined.

Section Exposed.
(** The state of the process. *)
Context {W : Type}.

Record Sources := mkSources {
  src_CapturedTotal : option (W -> Z);
  src_DroppedTotal : option (W -> Z);
  src_CaptureErrorsTotal : option (W -> Z);
  src_CapturedWithoutCorrelationTotal : option (W -> Z);
  src_CapturedWithoutServiceTotal : option (W -> Z);
  src_RedactionErrorsTotal : option (W -> Z);
  src_WorkerPanicsTotal : option (W -> Z);
  src_EventsIngestedResponseTotal : option (W -> Z);
  src_EventsIngestedOutboundTotal : option (W -> Z);
  src_EventsRejectedInvalidJSONTotal : option (W -> Z);
  src_EventsRejectedPayloadTooLargeTotal : option (W -> Z);
  src_EventsRejectedUnknownTypeTotal : option (W -> Z);
  src_EventsRejectedMissingTypeTotal : option (W -> Z);
  src_EventsRejectedMissingRequiredFieldTotal : option (W -> Z);
  src_EventsRejectedEmptyBatchTotal : option (W -> Z);
  src_EventsRejectedBatchTooLargeTotal : option (W -> Z);
  src_EventsRejectedBodyTooLargeTotal : option (W -> Z);
  src_EventsDroppedQueueFullTotal : option (W -> Z);
  src_OrphansResponse : option (W -> Z);
  src_OrphansOutbound : option (W -> Z);
  src_AuthFailuresInvalidTokenTotal : option (W -> Z);
  src_AuthFailuresRateLimitedTotal : option (W -> Z);
  src_AuthFailuresCSRFBlockedTotal : option (W -> Z);
  src_SinkWriteErrorsMemoryTotal : option (W -> Z);
  src_SinkWriteErrorsSQLiteTotal : option (W -> Z);
  src_SinkWriteErrorsStdoutTotal : option (W -> Z);
  src_Version : string;
  src_BuildTime : string
}.

(** [0.0001] and the like are correctly rounded quotients. *)
Definition ProcessingBuckets : list f64 :=
  map (fun p => f64_div (f64_of_Z p.1) (f64_of_Z p.2))
    [(1, 10000); (25, 100000); (5, 10000); (1, 1000); (25, 10000); (5, 1000); (1, 100); (25, 1000); (5, 100);
     (1, 10); (25, 100); (5, 10); (1, 1)]%Z.

Record HistogramOpts := mkHistogramOpts { hs_name : string; hs_help : string; hs_buckets : list f64 }.

Record collector := mkCollector {
  co_src : Sources;
  co_captured : Desc;
  co_dropped : Desc;
  co_captureErrors : Desc;
  co_withoutCorrelation : Desc;
  co_withoutService : Desc;
  co_redactionErrors : Desc;
  co_workerPanics : Desc;
  co_eventsIngested : Desc;
  co_eventsRejected : Desc;
  co_eventsDroppedQueueFull : Desc;
  co_orphans : Desc;
  co_authFailures : Desc;
  co_sinkWriteErrors : Desc;
  co_buildInfo : Desc
}.

Definition in_quotes (s : string) : string := String dquote (s +:+ String dquote "").

Definition newCollector (src : Sources) : collector := {|
  co_src := src;
  co_captured := mkDesc "httpcatch_captured_total"
    "Total requests successfully enqueued to the capture queue by the capture endpoint." [];
  co_dropped := mkDesc "httpcatch_dropped_total"
    "Total records dropped because the capture queue was full." [];
  co_captureErrors := mkDesc "httpcatch_capture_errors_total"
    "Total capture requests dropped before enqueue because the request body could not be read." [];
  co_withoutCorrelation := mkDesc "httpcatch_captured_without_correlation_total"
    "Total captured records with a synthesized correlation id (no traceparent or X-Request-ID)." [];
  co_withoutService := mkDesc "httpcatch_captured_without_service_total"
    ("Total captured records whose service fallback chain bottomed out at " +:+ in_quotes "unknown" +:+
     " (no configured service header and no Host header).") [];
  co_redactionErrors := mkDesc "httpcatch_redaction_errors_total"
    "Total best-effort redaction failures (counter ticks on unparseable JSON or sjson write failure)." [];
  co_workerPanics := mkDesc "httpcatch_worker_panics_total"
    "Total panics recovered by the pipeline worker pool; the worker continues after each." [];
  co_eventsIngested := mkDesc "httpcatch_events_ingested_total"
    "Total events successfully enqueued via the Events API." ["type"];
  co_eventsRejected := mkDesc "httpcatch_events_rejected_total"
    "Total events rejected by the Events API, by reason." ["reason"];
  co_eventsDroppedQueueFull := mkDesc "httpcatch_events_dropped_queue_full_total"
    "Total events dropped because the queue was full at the time of enqueue, as reported by the Events API." [];
  co_orphans := mkDesc "httpcatch_orphans"
    "Current count of orphan events (no matching captured request in the store), sampled at scrape time." ["type"];
  co_authFailures := mkDesc "httpcatch_auth_failures_total"
    "Total admin auth failures, by reason." ["reason"];
  co_sinkWriteErrors := mkDesc "httpcatch_sink_write_errors_total"
    "Total sink write failures, by sink." ["sink"];
  co_buildInfo := mkDesc "httpcatch_build_info"
    "Build identity for the running binary. Always value 1." ["version"; "build_time"]
|}.

Definition Describe (c : collector) : list Desc :=
  [co_captured c; co_dropped c; co_captureErrors c; co_withoutCorrelation c; co_withoutService c;
   co_redactionErrors c; co_workerPanics c; co_eventsIngested c; co_eventsRejected c;
   co_eventsDroppedQueueFull c; co_orphans c; co_authFailures c; co_sinkWriteErrors c; co_buildInfo c].

Definition countUint (w : W) (f : option (W -> Z)) : f64 :=
  match f with None => f64_of_Z 0 | Some f => f64_of_Z (f w) end.

Definition countInt (w : W) (f : option (W -> Z)) : f64 :=
  match f with None => f64_of_Z 0 | Some f => f64_of_Z (f w) end.

Definition Collect (c : collector) (w : W) : list ConstMetric :=
  let counter d f labels := mkConstMetric d CounterValue (countUint w f) labels in
  let gauge d f labels := mkConstMetric d GaugeValue (countInt w f) labels in
  let s := co_src c in
  [counter (co_captured c) (src_CapturedTotal s) [];
   counter (co_dropped c) (src_DroppedTotal s) [];
   counter (co_captureErrors c) (src_CaptureErrorsTotal s) [];
   counter (co_withoutCorrelation c) (src_CapturedWithoutCorrelationTotal s) [];
   counter (co_withoutService c) (src_CapturedWithoutServiceTotal s) [];
   counter (co_redactionErrors c) (src_RedactionErrorsTotal s) [];
   counter (co_workerPanics c) (src_WorkerPanicsTotal s) [];
   counter (co_eventsIngested c) (src_EventsIngestedResponseTotal s) ["response"];
   counter (co_eventsIngested c) (src_EventsIngestedOutboundTotal s) ["outbound"];
   counter (co_eventsRejected c) (src_EventsRejectedInvalidJSONTotal s) ["invalid_json"];
   counter (co_eventsRejected c) (src_EventsRejectedPayloadTooLargeTotal s) ["payload_too_large"];
   counter (co_eventsRejected c) (src_EventsRejectedUnknownTypeTotal s) ["unknown_type"];
   counter (co_eventsRejected c) (src_EventsRejectedMissingTypeTotal s) ["missing_type"];
   counter (co_eventsRejected c) (src_EventsRejectedMissingRequiredFieldTotal s) ["missing_required_field"];
   counter (co_eventsRejected c) (src_EventsRejectedEmptyBatchTotal s) ["empty_batch"];
   counter (co_eventsRejected c) (src_EventsRejectedBatchTooLargeTotal s) ["batch_too_large"];
   counter (co_eventsRejected c) (src_EventsRejectedBodyTooLargeTotal s) ["body_too_large"];
   counter (co_eventsDroppedQueueFull c) (src_EventsDroppedQueueFullTotal s) [];
   gauge (co_orphans c) (src_OrphansResponse s) ["response"];
   gauge (co_orphans c) (src_OrphansOutbound s) ["outbound"];
   counter (co_authFailures c) (src_AuthFailuresInvalidTokenTotal s) ["invalid_token"];
   counter (co_authFailures c) (src_AuthFailuresRateLimitedTotal s) ["rate_limited"];
   counter (co_authFailures c) (src_AuthFailuresCSRFBlockedTotal s) ["csrf_blocked"];
   counter (co_sinkWriteErrors c) (src_SinkWriteErrorsMemoryTotal s) ["memory"];
   counter (co_sinkWriteErrors c) (src_SinkWriteErrorsSQLiteTotal s) ["sqlite"];
   counter (co_sinkWriteErrors c) (src_SinkWriteErrorsStdoutTotal s) ["stdout"];
   mkConstMetric (co_buildInfo c) GaugeValue (f64_of_Z 1) [src_Version s; src_BuildTime s]].

(** The registry holds the bridging collector and the histogram; the runtime
    and process collectors are the library's own. *)
Record Prom := mkProm { pr_collector : collector; pr_processing : HistogramOpts }.

Definition Prom_New (src : Sources) : Prom :=
  mkProm (newCollector src)
    (mkHistogramOpts "httpcatch_pipeline_processing_duration_seconds"
       "Seconds spent redacting a captured record and writing it to all configured sinks." ProcessingBuckets).

(** ** admin/metrics.go *)

Record MetricSources := mkMetricSources {
  mt_CapturedTotal : option (W -> Z);
  mt_DroppedTotal : option (W -> Z);
  mt_CaptureErrorsTotal : option (W -> Z);
  mt_CapturedWithoutCorrelationTotal : option (W -> Z);
  mt_CapturedWithoutServiceTotal : option (W -> Z);
  mt_RedactionErrorsTotal : option (W -> Z);
  mt_WorkerPanicsTotal : option (W -> Z);
  mt_Unredacted : option (W -> bool);
  mt_EventsIngestedResponseTotal : option (W -> Z);
  mt_EventsIngestedOutboundTotal : option (W -> Z);
  mt_EventsRejectedInvalidJSONTotal : option (W -> Z);
  mt_EventsRejectedPayloadTooLargeTotal : option (W -> Z);
  mt_EventsRejectedUnknownTypeTotal : option (W -> Z);
  mt_EventsRejectedMissingTypeTotal : option (W -> Z);
  mt_EventsRejectedMissingRequiredFieldTotal : option (W -> Z);
  mt_EventsRejectedEmptyBatchTotal : option (W -> Z);
  mt_EventsRejectedBatchTooLargeTotal : option (W -> Z);
  mt_EventsRejectedBodyTooLargeTotal : option (W -> Z);
  mt_EventsDroppedQueueFullTotal : option (W -> Z);
  mt_OrphansResponse : option (W -> Z);
  mt_OrphansOutbound : option (W -> Z);
  mt_AuthFailuresInvalidTokenTotal : option (W -> Z);
  mt_AuthFailuresRateLimitedTotal : option (W -> Z);
  mt_AuthFailuresCSRFBlockedTotal : option (W -> Z);
  mt_SinkWriteErrorsMemoryTotal : option (W -> Z);
  mt_SinkWriteErrorsSQLiteTotal : option (W -> Z);
  mt_SinkWriteErrorsStdoutTotal : option (W -> Z)
}.

(** [coalesce]: a nil accessor becomes one that returns zero. *)
Definition coalesce {T} (zero : T) (f : option (W -> T)) : option (W -> T) :=
  match f with Some f => Some f | None => Some (fun _ => zero) end.

Definition normalize (s : MetricSources) : MetricSources := {|
  mt_CapturedTotal := coalesce 0%Z (mt_CapturedTotal s);
  mt_DroppedTotal := coalesce 0%Z (mt_DroppedTotal s);
  mt_CaptureErrorsTotal := coalesce 0%Z (mt_CaptureErrorsTotal s);
  mt_CapturedWithoutCorrelationTotal := coalesce 0%Z (mt_CapturedWithoutCorrelationTotal s);
  mt_CapturedWithoutServiceTotal := coalesce 0%Z (mt_CapturedWithoutServiceTotal s);
  mt_RedactionErrorsTotal := coalesce 0%Z (mt_RedactionErrorsTotal s);
  mt_WorkerPanicsTotal := coalesce 0%Z (mt_WorkerPanicsTotal s);
  mt_Unredacted := coalesce false (mt_Unredacted s);
  mt_EventsIngestedResponseTotal := coalesce 0%Z (mt_EventsIngestedResponseTotal s);
  mt_EventsIngestedOutboundTotal := coalesce 0%Z (mt_EventsIngestedOutboundTotal s);
  mt_EventsRejectedInvalidJSONTotal := coalesce 0%Z (mt_EventsRejectedInvalidJSONTotal s);
  mt_EventsRejectedPayloadTooLargeTotal := coalesce 0%Z (mt_EventsRejectedPayloadTooLargeTotal s);
  mt_EventsRejectedUnknownTypeTotal := coalesce 0%Z (mt_EventsRejectedUnknownTypeTotal s);
  mt_EventsRejectedMissingTypeTotal := coalesce 0%Z (mt_EventsRejectedMissingTypeTotal s);
  mt_EventsRejectedMissingRequiredFieldTotal := coalesce 0%Z (mt_EventsRejectedMissingRequiredFieldTotal s);
  mt_EventsRejectedEmptyBatchTotal := coalesce 0%Z (mt_EventsRejectedEmptyBatchTotal s);
  mt_EventsRejectedBatchTooLargeTotal := coalesce 0%Z (mt_EventsRejectedBatchTooLargeTotal s);
  mt_EventsRejectedBodyTooLargeTotal := coalesce 0%Z (mt_EventsRejectedBodyTooLargeTotal s);
  mt_EventsDroppedQueueFullTotal := coalesce 0%Z (mt_EventsDroppedQueueFullTotal s);
  mt_OrphansResponse := coalesce 0%Z (mt_OrphansResponse s);
  mt_OrphansOutbound := coalesce 0%Z (mt_OrphansOutbound s);
  mt_AuthFailuresInvalidTokenTotal := coalesce 0%Z (mt_AuthFailuresInvalidTokenTotal s);
  mt_AuthFailuresRateLimitedTotal := coalesce 0%Z (mt_AuthFailuresRateLimitedTotal s);
  mt_AuthFailuresCSRFBlockedTotal := coalesce 0%Z (mt_AuthFailuresCSRFBlockedTotal s);
  mt_SinkWriteErrorsMemoryTotal := coalesce 0%Z (mt_SinkWriteErrorsMemoryTotal s);
  mt_SinkWriteErrorsSQLiteTotal := coalesce 0%Z (mt_SinkWriteErrorsSQLiteTotal s);
  mt_SinkWriteErrorsStdoutTotal := coalesce 0%Z (mt_SinkWriteErrorsStdoutTotal s)
|}.

(** [buildinfo.Version] and [BuildTime] are set by the linker: [version] and
    [build] here. *)
Definition promSources (s : MetricSources) (version build : string) : Sources := {|
  src_CapturedTotal := mt_CapturedTotal s;
  src_DroppedTotal := mt_DroppedTotal s;
  src_CaptureErrorsTotal := mt_CaptureErrorsTotal s;
  src_CapturedWithoutCorrelationTotal := mt_CapturedWithoutCorrelationTotal s;
  src_CapturedWithoutServiceTotal := mt_CapturedWithoutServiceTotal s;
  src_RedactionErrorsTotal := mt_RedactionErrorsTotal s;
  src_WorkerPanicsTotal := mt_WorkerPanicsTotal s;
  src_EventsIngestedResponseTotal := mt_EventsIngestedResponseTotal s;
  src_EventsIngestedOutboundTotal := mt_EventsIngestedOutboundTotal s;
  src_EventsRejectedInvalidJSONTotal := mt_EventsRejectedInvalidJSONTotal s;
  src_EventsRejectedPayloadTooLargeTotal := mt_EventsRejectedPayloadTooLargeTotal s;
  src_EventsRejectedUnknownTypeTotal := mt_EventsRejectedUnknownTypeTotal s;
  src_EventsRejectedMissingTypeTotal := mt_EventsRejectedMissingTypeTotal s;
  src_EventsRejectedMissingRequiredFieldTotal := mt_EventsRejectedMissingRequiredFieldTotal s;
  src_EventsRejectedEmptyBatchTotal := mt_EventsRejectedEmptyBatchTotal s;
  src_EventsRejectedBatchTooLargeTotal := mt_EventsRejectedBatchTooLargeTotal s;
  src_EventsRejectedBodyTooLargeTotal := mt_EventsRejectedBodyTooLargeTotal s;
  src_EventsDroppedQueueFullTotal := mt_EventsDroppedQueueFullTotal s;
  src_OrphansResponse := mt_OrphansResponse s;
  src_OrphansOutbound := mt_OrphansOutbound s;
  src_AuthFailuresInvalidTokenTotal := mt_AuthFailuresInvalidTokenTotal s;
  src_AuthFailuresRateLimitedTotal := mt_AuthFailuresRateLimitedTotal s;
  src_AuthFailuresCSRFBlockedTotal := mt_AuthFailuresCSRFBlockedTotal s;
  src_SinkWriteErrorsMemoryTotal := mt_SinkWriteErrorsMemoryTotal s;
  src_SinkWriteErrorsSQLiteTotal := mt_SinkWriteErrorsSQLiteTotal s;
  src_SinkWriteErrorsStdoutTotal := mt_SinkWriteErrorsStdoutTotal s;
  src_Version := version;
  src_BuildTime := build
|}.

(** ** admin/status.go *)

(** Calling a nil function is a panic. *)
Definition call_source {T} (f : option (W -> T)) (w : W) : option T := f ← f; Some (f w).

Definition statusHandler (src : MetricSources) (version build : string) (w : W) : option json :=
  unredacted ← call_source (mt_Unredacted src) w;
  dropped ← call_source (mt_DroppedTotal src) w;
  withoutCorrelation ← call_source (mt_CapturedWithoutCorrelationTotal src) w;
  withoutService ← call_source (mt_CapturedWithoutServiceTotal src) w;
  redactionErrors ← call_source (mt_RedactionErrorsTotal src) w;
  Some (JObj [("unredacted", JBool unredacted);
              ("counters", JObj [("dropped_total", JNum (Itoa dropped));
                                 ("captured_without_correlation_total", JNum (Itoa withoutCorrelation));
                                 ("captured_without_service_total", JNum (Itoa withoutService));
                                 ("redaction_errors_total", JNum (Itoa redactionErrors))]);
              ("version", JStr version); ("build_time", JStr build)]).

End Exposed.
Arguments Sources : clear implicits.
Arguments MetricSources : clear implicits.
Arguments collector : clear implicits.
Arguments Prom : clear implicits.

(** ** Series *)

Definition series_of (m : ConstMetric) : string * list string := (ds_name (cm_desc m), cm_labels m).

(** The value a scrape shows under a name and label values. *)
Definition scraped {W} (c : collector W) (w : W) (name : string) (labels : list string) : option f64 :=
  cm_value <$> List.find (fun m => bool_decide (series_of m = (name, labels))) (Collect c w).

(** Bounds in strictly increasing order, as the histogram requires. *)
Fixpoint increasing (l : list f64) : bool :=
  match l with
  | x :: ((y :: _) as rest) => f64_ltb x y && increasing rest
  | _ => true
  end.

Lemma Describe_distinct {W} (src : Sources W) : NoDup (ds_name <$> Describe (newCollector src)).
Proof. apply (bool_decide_unpack _). by vm_compute. Qed.

(** The twenty-six series before the build identity are fixed texts. *)
Lemma Collect_series {W} (src : Sources W) w :
  exists fixed, series_of <$> Collect (newCollector src) w =
    (fixed ++ [("httpcatch_build_info", [src_Version src; src_BuildTime src])])%list /\
  NoDup fixed /\ "httpcatch_build_info" ∉ fixed.*1.
Proof.
  eexists (take 26 (series_of <$> Collect (newCollector src) w)). split; [reflexivity|].
  split; apply (bool_decide_unpack _); by vm_compute.
Qed.

Lemma Collect_distinct {W} (src : Sources W) w : NoDup (series_of <$> Collect (newCollector src) w).
Proof.
  destruct (Collect_series src w) as (fixed & -> & Hfixed & Hnew).
  apply NoDup_app. split; [done|]. split; [|apply NoDup_singleton].
  intros x Hx ->%list_elem_of_singleton. apply Hnew. apply list_elem_of_fmap. eexists. by split; [|exact Hx].
Qed.

(** What a scrape shows under a series is the metric made for it. *)
Lemma scraped_elem {W} (src : Sources W) w m : m ∈ Collect (newCollector src) w ->
  scraped (newCollector src) w (ds_name (cm_desc m)) (cm_labels m) = Some (cm_value m).
Proof.
  unfold scraped. pose proof (Collect_distinct src w) as Hnd. revert Hnd.
  generalize (Collect (newCollector src) w). intros l. induction l as [|x l IH]; intros Hnd Hm; [by inv Hm|].
  cbn in Hnd. apply NoDup_cons in Hnd as [Hx Hnd]. cbn [List.find].
  apply elem_of_cons in Hm as [->|Hm].
  - by rewrite bool_decide_true.
  - rewrite bool_decide_false; [by apply IH|]. intros He. apply Hx. rewrite He.
    apply list_elem_of_fmap. by exists m.
Qed.

Lemma scraped_at {W} (src : Sources W) w i m : Collect (newCollector src) w !! i = Some m ->
  scraped (newCollector src) w (ds_name (cm_desc m)) (cm_labels m) = Some (cm_value m).
Proof. intros Hi. eapply scraped_elem, list_elem_of_lookup_2, Hi. Qed.

(** C40. A scrape is well formed whatever the sources: no two metrics share a
    name and label values, each carries one value per label of its descriptor,
    its descriptor is one the collector announced, every announced descriptor
    has a metric (absent traffic reads as a zero, not as a missing series), the
    announced names are distinct, and the histogram's bounds are strictly
    increasing. *)
Theorem scrape_well_formed {W} (src : Sources W) (w : W) :
  let c := pr_collector (Prom_New src) in
  NoDup (series_of <$> Collect c w) /\
  (forall m, m ∈ Collect c w -> length (cm_labels m) = length (ds_labels (cm_desc m)) /\ cm_desc m ∈ Describe c) /\
  (forall d, d ∈ Describe c -> exists m, m ∈ Collect c w /\ cm_desc m = d) /\
  NoDup (ds_name <$> Describe c) /\
  increasing (hs_buckets (pr_processing (Prom_New src))) = true.
Proof.
  cbn zeta. split_and!.
  - apply Collect_distinct.
  - apply Forall_forall. repeat constructor; cbn; set_solver.
  - intros d Hd. enough (existsb (fun m => bool_decide (cm_desc m = d)) (Collect (newCollector src) w) = true) as Hex.
    { apply existsb_true_iff in Hex as (m & Hm & He). exists m. by rewrite bool_decide_eq_true in He. }
    revert d Hd. apply forallb_true_iff. by vm_compute.
  - apply Describe_distinct.
  - by vm_compute.
Qed.

(** Filling in nil accessors changes no scrape. *)
Lemma normalize_scrape {W} (s : MetricSources W) version build w :
  Collect (newCollector (promSources (normalize s) version build)) w =
  Collect (newCollector (promSources s version build)) w.
Proof.
  assert (Hc : forall f, countUint w (coalesce 0%Z f) = countUint w f) by (by intros [f|]).
  assert (Hi : forall f, countInt w (coalesce 0%Z f) = countInt w f) by (by intros [f|]).
  unfold Collect. cbn. by rewrite ?Hc, ?Hi.
Qed.

(** With the nil accessors filled in, the status page never panics. *)
Lemma status_total {W} (s : MetricSources W) version build w :
  is_Some (statusHandler (normalize s) version build w).
Proof.
  unfold statusHandler, normalize. cbn.
  by destruct (mt_Unredacted s), (mt_DroppedTotal s), (mt_CapturedWithoutCorrelationTotal s),
    (mt_CapturedWithoutServiceTotal s), (mt_RedactionErrorsTotal s).
Qed.
