(* ===== verification/Config.v ===== *)
(** * config/config.go: defaults, file and environment overlays, validation

    Decoding a file is the operation of class [YamlDeps]; [ConfigYaml] makes it
    from the library and the strict section decoders. Pointer fields of the raw structs are
    options. A configuration is passed by value and every assignment
    [*step.dst = d] is an update of one field. The raw rule structs have the
    fields of the configuration's, to which the code converts them. *)
From S2P Require Import Prelude GoLib GoTime Record Redact.

Open Scope string_scope.
Open Scope go_scope.

Record TimeoutsConfig := mkTimeouts {
  tc_ReadHeader : duration;
  tc_Read : duration;
  tc_Write : duration;
  tc_Idle : duration
}.

Record SinksRetentionConfig := mkRetention {
  sr_MaxAge : duration;
  sr_MaxCount : Z;
  sr_Interval : duration
}.

Record SinksConfig := mkSinks {
  sc_Stdout : bool;
  sc_Memory : bool;
  sc_MemoryCapacity : Z;
  sc_SQLite : bool;
  sc_SQLitePath : string;
  sc_Retention : SinksRetentionConfig
}.

Record AdminConfig := mkAdminConfig {
  ac_Bind : string;
  ac_Token : string;
  ac_InsecureListen : bool;
  ac_SessionTTL : duration;
  ac_SessionSecure : bool
}.

Record InspectConfig := mkInspectConfig { ic_QueryTimeout : duration }.

Record Config := mkConfig {
  cfg_CapturePort : Z;
  cfg_CaptureBind : string;
  cfg_QueueSize : Z;
  cfg_BodyCap : Z;
  cfg_MaxEventsPayload : Z;
  cfg_MaxEventsPerBatch : Z;
  cfg_Workers : Z;
  cfg_ServiceHeader : string;
  cfg_LogFormat : string;
  cfg_Timeouts : TimeoutsConfig;
  cfg_Sinks : SinksConfig;
  cfg_Redaction : RedactionConfig;
  cfg_Admin : AdminConfig;
  cfg_Inspect : InspectConfig
}.

Definition DefaultCapturePort : Z := 8080.
Definition DefaultQueueSize : Z := 1024.
Definition DefaultBodyCap : Z := 1048576.
Definition DefaultMaxEventsPayload : Z := 1048576.
Definition DefaultMaxEventsPerBatch : Z := 1000.
Definition DefaultServiceHeader : string := "X-Httpcatch-Service".
Definition DefaultMemoryCapacity : Z := 1000.
Definition DefaultSQLitePath : string := "./httpcatch.db".
Definition DefaultAdminBind : string := "127.0.0.1:8081".
Definition DefaultAdminSessionTTL : duration := (24 * 3600 * second)%Z.
Definition DefaultLogFormat : string := "text".
Definition LogFormatJSON : string := "json".
Definition DefaultReadHeaderTimeout : duration := (10 * second)%Z.
Definition DefaultReadTimeout : duration := (60 * second)%Z.
Definition DefaultWriteTimeout : duration := (30 * second)%Z.
Definition DefaultIdleTimeout : duration := (120 * second)%Z.
Definition DefaultInspectQueryTimeout : duration := (5 * second)%Z.

(** [runtime.NumCPU()] is [cpus]. *)
Definition Defaults (cpus : Z) : Config :=
  mkConfig DefaultCapturePort "" DefaultQueueSize DefaultBodyCap DefaultMaxEventsPayload DefaultMaxEventsPerBatch cpus
    DefaultServiceHeader DefaultLogFormat
    (mkTimeouts DefaultReadHeaderTimeout DefaultReadTimeout DefaultWriteTimeout DefaultIdleTimeout)
    (mkSinks false false DefaultMemoryCapacity false DefaultSQLitePath (mkRetention 0%Z 0 0%Z))
    (mkRedactionConfig [] [] [] [] [])
    (mkAdminConfig DefaultAdminBind "" false DefaultAdminSessionTTL false)
    (mkInspectConfig DefaultInspectQueryTimeout).

(** ** The file overlay *)

Record rawTimeoutsConfig := mkRawTimeouts {
  rt_ReadHeader : option string;
  rt_Read : option string;
  rt_Write : option string;
  rt_Idle : option string
}.

Record rawSinksRetentionConfig := mkRawRetention {
  rr_MaxAge : option string;
  rr_MaxCount : option Z;
  rr_Interval : option string
}.

Record rawSinks := mkRawSinks {
  rk_Stdout : option bool;
  rk_Memory : option bool;
  rk_MemoryCapacity : option Z;
  rk_SQLite : option bool;
  rk_SQLitePath : option string;
  rk_Retention : option rawSinksRetentionConfig
}.

Record rawAdminConfig := mkRawAdmin {
  ra_Bind : option string;
  ra_Token : option string;
  ra_InsecureListen : option bool;
  ra_SessionTTL : option string;
  ra_SessionSecure : option bool
}.

Record rawInspectConfig := mkRawInspect { ri_QueryTimeout : option string }.

Record rawConfig := mkRawConfig {
  raw_CapturePort : option Z;
  raw_CaptureBind : option string;
  raw_QueueSize : option Z;
  raw_BodyCap : option Z;
  raw_MaxEventsPayload : option Z;
  raw_MaxEventsPerBatch : option Z;
  raw_Workers : option Z;
  raw_ServiceHeader : option string;
  raw_LogFormat : option string;
  raw_Timeouts : option rawTimeoutsConfig;
  raw_Sinks : rawSinks;
  raw_Redaction : option RedactionConfig;
  raw_Admin : option rawAdminConfig;
  raw_Inspect : option rawInspectConfig
}.

Inductive ConfigIssue :=
| IssueCapturePort (got : Z) | IssueCaptureBind | IssueQueueSize (got : Z) | IssueWorkers (got : Z) | IssueBodyCap (got : Z)
| IssueMaxEventsPayload (got : Z) | IssueMaxEventsPerBatch (got : Z) | IssueTimeout (name : string) (got : duration)
| IssueMemoryCapacity (got : Z) | IssueSQLitePath | IssueRetentionExclusive | IssueMaxAge (got : duration)
| IssueMaxCount (got : Z) | IssueInterval (got : duration) | IssueRetentionNeedsSQLite | IssueLogFormat (got : string)
| IssueSessionTTL (got : duration) | IssueQueryTimeout (got : duration).

Inductive ConfigError :=
| ErrReadConfig | ErrParseConfig
| ErrDuration (key value : string)
| ErrInteger (key value : string)
| ErrBoolean (key value : string)
| ErrUnknownSink (name : string)
| ErrInvalidConfig (issues : list ConfigIssue).

(** ** Field updates *)

Definition set_CapturePort (c : Config) (v : Z) : Config :=
  let 'mkConfig _ bind qs bc mp mb w sh lf t s r a i := c in mkConfig v bind qs bc mp mb w sh lf t s r a i.
Definition set_CaptureBind (c : Config) (v : string) : Config :=
  let 'mkConfig port _ qs bc mp mb w sh lf t s r a i := c in mkConfig port v qs bc mp mb w sh lf t s r a i.
Definition set_QueueSize (c : Config) (v : Z) : Config :=
  let 'mkConfig port bind _ bc mp mb w sh lf t s r a i := c in mkConfig port bind v bc mp mb w sh lf t s r a i.
Definition set_BodyCap (c : Config) (v : Z) : Config :=
  let 'mkConfig port bind qs _ mp mb w sh lf t s r a i := c in mkConfig port bind qs v mp mb w sh lf t s r a i.
Definition set_MaxEventsPayload (c : Config) (v : Z) : Config :=
  let 'mkConfig port bind qs bc _ mb w sh lf t s r a i := c in mkConfig port bind qs bc v mb w sh lf t s r a i.
Definition set_MaxEventsPerBatch (c : Config) (v : Z) : Config :=
  let 'mkConfig port bind qs bc mp _ w sh lf t s r a i := c in mkConfig port bind qs bc mp v w sh lf t s r a i.
Definition set_Workers (c : Config) (v : Z) : Config :=
  let 'mkConfig port bind qs bc mp mb _ sh lf t s r a i := c in mkConfig port bind qs bc mp mb v sh lf t s r a i.
Definition set_ServiceHeader (c : Config) (v : string) : Config :=
  let 'mkConfig port bind qs bc mp mb w _ lf t s r a i := c in mkConfig port bind qs bc mp mb w v lf t s r a i.
Definition set_LogFormat (c : Config) (v : string) : Config :=
  let 'mkConfig port bind qs bc mp mb w sh _ t s r a i := c in mkConfig port bind qs bc mp mb w sh v t s r a i.
Definition set_Timeouts (c : Config) (v : TimeoutsConfig) : Config :=
  let 'mkConfig port bind qs bc mp mb w sh lf _ s r a i := c in mkConfig port bind qs bc mp mb w sh lf v s r a i.
Definition set_Sinks (c : Config) (v : SinksConfig) : Config :=
  let 'mkConfig port bind qs bc mp mb w sh lf t _ r a i := c in mkConfig port bind qs bc mp mb w sh lf t v r a i.
Definition set_Redaction (c : Config) (v : RedactionConfig) : Config :=
  let 'mkConfig port bind qs bc mp mb w sh lf t s _ a i := c in mkConfig port bind qs bc mp mb w sh lf t s v a i.
Definition set_Admin (c : Config) (v : AdminConfig) : Config :=
  let 'mkConfig port bind qs bc mp mb w sh lf t s r _ i := c in mkConfig port bind qs bc mp mb w sh lf t s r v i.
Definition set_Inspect (c : Config) (v : InspectConfig) : Config :=
  let 'mkConfig port bind qs bc mp mb w sh lf t s r a _ := c in mkConfig port bind qs bc mp mb w sh lf t s r a v.

Definition set_Timeouts_ReadHeader (c : Config) (v : duration) : Config :=
  let 'mkTimeouts _ read write idle := cfg_Timeouts c in set_Timeouts c (mkTimeouts v read write idle).
Definition set_Timeouts_Read (c : Config) (v : duration) : Config :=
  let 'mkTimeouts readHeader _ write idle := cfg_Timeouts c in set_Timeouts c (mkTimeouts readHeader v write idle).
Definition set_Timeouts_Write (c : Config) (v : duration) : Config :=
  let 'mkTimeouts readHeader read _ idle := cfg_Timeouts c in set_Timeouts c (mkTimeouts readHeader read v idle).
Definition set_Timeouts_Idle (c : Config) (v : duration) : Config :=
  let 'mkTimeouts readHeader read write _ := cfg_Timeouts c in set_Timeouts c (mkTimeouts readHeader read write v).

Definition set_Sinks_Stdout (c : Config) (v : bool) : Config :=
  let 'mkSinks _ memory memoryCapacity sQLite sQLitePath retention := cfg_Sinks c in set_Sinks c (mkSinks v memory memoryCapacity sQLite sQLitePath retention).
Definition set_Sinks_Memory (c : Config) (v : bool) : Config :=
  let 'mkSinks stdout _ memoryCapacity sQLite sQLitePath retention := cfg_Sinks c in set_Sinks c (mkSinks stdout v memoryCapacity sQLite sQLitePath retention).
Definition set_Sinks_MemoryCapacity (c : Config) (v : Z) : Config :=
  let 'mkSinks stdout memory _ sQLite sQLitePath retention := cfg_Sinks c in set_Sinks c (mkSinks stdout memory v sQLite sQLitePath retention).
Definition set_Sinks_SQLite (c : Config) (v : bool) : Config :=
  let 'mkSinks stdout memory memoryCapacity _ sQLitePath retention := cfg_Sinks c in set_Sinks c (mkSinks stdout memory memoryCapacity v sQLitePath retention).
Definition set_Sinks_SQLitePath (c : Config) (v : string) : Config :=
  let 'mkSinks stdout memory memoryCapacity sQLite _ retention := cfg_Sinks c in set_Sinks c (mkSinks stdout memory memoryCapacity sQLite v retention).
Definition set_Sinks_Retention (c : Config) (v : SinksRetentionConfig) : Config :=
  let 'mkSinks stdout memory memoryCapacity sQLite sQLitePath _ := cfg_Sinks c in set_Sinks c (mkSinks stdout memory memoryCapacity sQLite sQLitePath v).

Definition set_Retention_MaxAge (c : Config) (v : duration) : Config :=
  let 'mkRetention _ maxCount interval := sc_Retention (cfg_Sinks c) in set_Sinks_Retention c (mkRetention v maxCount interval).
Definition set_Retention_MaxCount (c : Config) (v : Z) : Config :=
  let 'mkRetention maxAge _ interval := sc_Retention (cfg_Sinks c) in set_Sinks_Retention c (mkRetention maxAge v interval).
Definition set_Retention_Interval (c : Config) (v : duration) : Config :=
  let 'mkRetention maxAge maxCount _ := sc_Retention (cfg_Sinks c) in set_Sinks_Retention c (mkRetention maxAge maxCount v).

Definition set_Admin_Bind (c : Config) (v : string) : Config :=
  let 'mkAdminConfig _ token insecureListen sessionTTL sessionSecure := cfg_Admin c in set_Admin c (mkAdminConfig v token insecureListen sessionTTL sessionSecure).
Definition set_Admin_Token (c : Config) (v : string) : Config :=
  let 'mkAdminConfig bind _ insecureListen sessionTTL sessionSecure := cfg_Admin c in set_Admin c (mkAdminConfig bind v insecureListen sessionTTL sessionSecure).
Definition set_Admin_InsecureListen (c : Config) (v : bool) : Config :=
  let 'mkAdminConfig bind token _ sessionTTL sessionSecure := cfg_Admin c in set_Admin c (mkAdminConfig bind token v sessionTTL sessionSecure).
Definition set_Admin_SessionTTL (c : Config) (v : duration) : Config :=
  let 'mkAdminConfig bind token insecureListen _ sessionSecure := cfg_Admin c in set_Admin c (mkAdminConfig bind token insecureListen v sessionSecure).
Definition set_Admin_SessionSecure (c : Config) (v : bool) : Config :=
  let 'mkAdminConfig bind token insecureListen sessionTTL _ := cfg_Admin c in set_Admin c (mkAdminConfig bind token insecureListen sessionTTL v).

Definition set_Inspect_QueryTimeout (c : Config) (v : duration) : Config := set_Inspect c (mkInspectConfig v).

(** [if raw.X != nil { cfg.X = *raw.X }]. *)
Definition opt_set {A} (set : Config -> A -> Config) (v : option A) (c : Config) : Config :=
  match v with Some v => set c v | None => c end.

(** The table loops over optional duration texts. *)
Fixpoint raw_durations (steps : list (string * option string * (Config -> duration -> Config))) (c : Config)
  : result ConfigError Config :=
  match steps with
  | [] => Ok c
  | (key, None, set) :: steps => raw_durations steps c
  | (key, Some v, set) :: steps =>
      match ParseDuration v with
      | None => Err (ErrDuration key v)
      | Some d => raw_durations steps (set c d)
      end
  end.

Definition when {A} (o : option A) (f : A -> Config -> result ConfigError Config) (c : Config) : result ConfigError Config :=
  match o with Some x => f x c | None => Ok c end.

Definition raw_timeouts (t : rawTimeoutsConfig) (c : Config) : result ConfigError Config :=
  raw_durations [("timeouts.read_header", rt_ReadHeader t, set_Timeouts_ReadHeader);
                 ("timeouts.read", rt_Read t, set_Timeouts_Read);
                 ("timeouts.write", rt_Write t, set_Timeouts_Write);
                 ("timeouts.idle", rt_Idle t, set_Timeouts_Idle)] c.

Definition raw_retention (ret : rawSinksRetentionConfig) (c : Config) : result ConfigError Config :=
  try c <- raw_durations [("sinks.retention.max_age", rr_MaxAge ret, set_Retention_MaxAge);
                          ("sinks.retention.interval", rr_Interval ret, set_Retention_Interval)] c;
  Ok (opt_set set_Retention_MaxCount (rr_MaxCount ret) c).

(** Empty rule lists leave the configured ones; the name lists are replaced. *)
Definition raw_redaction (r : RedactionConfig) (c : Config) : result ConfigError Config :=
  let old := cfg_Redaction c in
  Ok (set_Redaction c (mkRedactionConfig (rc_Headers r) (rc_QueryParams r) (rc_JSONPaths r)
    (match rc_Regex r with [] => rc_Regex old | regex => regex end)
    (match rc_Cookies r with [] => rc_Cookies old | cookies => cookies end))).

Definition raw_admin (a : rawAdminConfig) (c : Config) : result ConfigError Config :=
  let c := opt_set set_Admin_Bind (ra_Bind a) c in
  let c := opt_set set_Admin_Token (ra_Token a) c in
  let c := opt_set set_Admin_InsecureListen (ra_InsecureListen a) c in
  try c <- raw_durations [("admin.session_ttl", ra_SessionTTL a, set_Admin_SessionTTL)] c;
  Ok (opt_set set_Admin_SessionSecure (ra_SessionSecure a) c).

Definition raw_inspect (i : rawInspectConfig) (c : Config) : result ConfigError Config :=
  raw_durations [("inspect.query_timeout", ri_QueryTimeout i, set_Inspect_QueryTimeout)] c.

Definition applyRaw (c : Config) (raw : rawConfig) : result ConfigError Config :=
  let c := opt_set set_CapturePort (raw_CapturePort raw) c in
  let c := opt_set set_CaptureBind (raw_CaptureBind raw) c in
  let c := opt_set set_QueueSize (raw_QueueSize raw) c in
  let c := opt_set set_BodyCap (raw_BodyCap raw) c in
  let c := opt_set set_MaxEventsPayload (raw_MaxEventsPayload raw) c in
  let c := opt_set set_MaxEventsPerBatch (raw_MaxEventsPerBatch raw) c in
  let c := opt_set set_Workers (raw_Workers raw) c in
  let c := opt_set set_ServiceHeader (raw_ServiceHeader raw) c in
  let c := opt_set set_LogFormat (raw_LogFormat raw) c in
  try c <- when (raw_Timeouts raw) raw_timeouts c;
  let s := raw_Sinks raw in
  let c := opt_set set_Sinks_Stdout (rk_Stdout s) c in
  let c := opt_set set_Sinks_Memory (rk_Memory s) c in
  let c := opt_set set_Sinks_MemoryCapacity (rk_MemoryCapacity s) c in
  let c := opt_set set_Sinks_SQLite (rk_SQLite s) c in
  let c := opt_set set_Sinks_SQLitePath (rk_SQLitePath s) c in
  try c <- when (rk_Retention s) raw_retention c;
  try c <- when (raw_Redaction raw) raw_redaction c;
  try c <- when (raw_Admin raw) raw_admin c;
  when (raw_Inspect raw) raw_inspect c.

(** ** The environment overlay *)

(** The table loops over environment variables: unset or empty is skipped. *)
Fixpoint env_steps {A} (parse : string -> option A) (bad : string -> string -> ConfigError) (env : string -> string)
    (steps : list (string * (Config -> A -> Config))) (c : Config) : result ConfigError Config :=
  match steps with
  | [] => Ok c
  | (name, set) :: steps =>
      let v := env name in
      if String.eqb v "" then env_steps parse bad env steps c
      else match parse v with
           | None => Err (bad name v)
           | Some x => env_steps parse bad env steps (set c x)
           end
  end.

Definition parseBoolEnv (v : string) : option bool :=
  if (String.eqb v "true" || String.eqb v "1")%bool then Some true
  else if (String.eqb v "false" || String.eqb v "0")%bool then Some false
  else None.

(** [strings.FieldsFunc] on commas: no empty fields. *)
Definition fields_comma (v : string) : list string := filter (fun f => f <> "") (Split v ",").

Section Load.
Context `{Unicode}.

Fixpoint enable_sinks (names : list string) (c : Config) : result ConfigError Config :=
  match names with
  | [] => Ok c
  | name :: names =>
      let n := ToLower (TrimSpace name) in
      if String.eqb n "stdout" then enable_sinks names (set_Sinks_Stdout c true)
      else if String.eqb n "memory" then enable_sinks names (set_Sinks_Memory c true)
      else if String.eqb n "sqlite" then enable_sinks names (set_Sinks_SQLite c true)
      else Err (ErrUnknownSink name)
  end.

Definition env_sinks (env : string -> string) (c : Config) : result ConfigError Config :=
  let v := env "HTTPCATCH_SINKS" in
  if String.eqb v "" then Ok c
  else enable_sinks (fields_comma v)
         (set_Sinks_SQLite (set_Sinks_Memory (set_Sinks_Stdout c false) false) false).

Definition applyEnv (c : Config) (env : string -> string) : result ConfigError Config :=
  try c <- env_steps Atoi ErrInteger env
    [("HTTPCATCH_CAPTURE_PORT", set_CapturePort); ("HTTPCATCH_QUEUE_SIZE", set_QueueSize);
     ("HTTPCATCH_BODY_CAP", set_BodyCap); ("HTTPCATCH_MAX_EVENTS_PAYLOAD", set_MaxEventsPayload);
     ("HTTPCATCH_MAX_EVENTS_PER_BATCH", set_MaxEventsPerBatch); ("HTTPCATCH_WORKER_COUNT", set_Workers);
     ("HTTPCATCH_MEMORY_CAPACITY", set_Sinks_MemoryCapacity)] c;
  try c <- env_steps Some ErrInteger env
    [("HTTPCATCH_CAPTURE_BIND", set_CaptureBind); ("HTTPCATCH_SERVICE_HEADER", set_ServiceHeader);
     ("HTTPCATCH_LOG_FORMAT", set_LogFormat); ("HTTPCATCH_SQLITE_PATH", set_Sinks_SQLitePath)] c;
  try c <- env_steps ParseDuration ErrDuration env
    [("HTTPCATCH_SINKS_RETENTION_MAX_AGE", set_Retention_MaxAge);
     ("HTTPCATCH_SINKS_RETENTION_INTERVAL", set_Retention_Interval)] c;
  try c <- env_steps Atoi ErrInteger env [("HTTPCATCH_SINKS_RETENTION_MAX_COUNT", set_Retention_MaxCount)] c;
  try c <- env_sinks env c;
  try c <- env_steps ParseDuration ErrDuration env
    [("HTTPCATCH_READ_HEADER_TIMEOUT", set_Timeouts_ReadHeader); ("HTTPCATCH_READ_TIMEOUT", set_Timeouts_Read);
     ("HTTPCATCH_WRITE_TIMEOUT", set_Timeouts_Write); ("HTTPCATCH_IDLE_TIMEOUT", set_Timeouts_Idle)] c;
  try c <- env_steps Some ErrInteger env
    [("HTTPCATCH_ADMIN_BIND", set_Admin_Bind); ("HTTPCATCH_ADMIN_TOKEN", set_Admin_Token)] c;
  try c <- env_steps parseBoolEnv ErrBoolean env [("HTTPCATCH_ADMIN_INSECURE_LISTEN", set_Admin_InsecureListen)] c;
  try c <- env_steps ParseDuration ErrDuration env [("HTTPCATCH_ADMIN_SESSION_TTL", set_Admin_SessionTTL)] c;
  try c <- env_steps parseBoolEnv ErrBoolean env [("HTTPCATCH_ADMIN_SESSION_SECURE", set_Admin_SessionSecure)] c;
  env_steps ParseDuration ErrDuration env [("HTTPCATCH_INSPECT_QUERY_TIMEOUT", set_Inspect_QueryTimeout)] c.

(** ** Validation *)

Definition issue (bad : bool) (e : ConfigIssue) : list ConfigIssue := if bad then [e] else [].

Definition port_in_range (p : Z) : bool := negb ((p <? 1) || (p >? 65535))%Z.

Definition bind_ok (bind : string) : bool :=
  match SplitHostPort bind with
  | Err _ => false
  | Ok (_, portStr) => match Atoi portStr with Some p => port_in_range p | None => false end
  end.

Definition Config_Validate (c : Config) : list ConfigIssue :=
  let t := cfg_Timeouts c in
  let s := cfg_Sinks c in
  let r := sc_Retention s in
  let timeout name v := issue (v <? 0)%Z (IssueTimeout name v) in
  let retentionSet := ((sr_MaxAge r >? 0) || (sr_MaxCount r >? 0) || (sr_Interval r >? 0))%Z in
  (issue (negb (port_in_range (cfg_CapturePort c))) (IssueCapturePort (cfg_CapturePort c)) ++
   issue (negb (String.eqb (cfg_CaptureBind c) "") && negb (bind_ok (cfg_CaptureBind c))) IssueCaptureBind ++
   issue (cfg_QueueSize c <? 1)%Z (IssueQueueSize (cfg_QueueSize c)) ++
   issue (cfg_Workers c <? 1)%Z (IssueWorkers (cfg_Workers c)) ++
   issue (cfg_BodyCap c <? 0)%Z (IssueBodyCap (cfg_BodyCap c)) ++
   issue (cfg_MaxEventsPayload c <? 0)%Z (IssueMaxEventsPayload (cfg_MaxEventsPayload c)) ++
   issue (cfg_MaxEventsPerBatch c <? 0)%Z (IssueMaxEventsPerBatch (cfg_MaxEventsPerBatch c)) ++
   timeout "timeouts.read_header" (tc_ReadHeader t) ++ timeout "timeouts.read" (tc_Read t) ++
   timeout "timeouts.write" (tc_Write t) ++ timeout "timeouts.idle" (tc_Idle t) ++
   issue (sc_MemoryCapacity s <? 1)%Z (IssueMemoryCapacity (sc_MemoryCapacity s)) ++
   issue (sc_SQLite s && String.eqb (sc_SQLitePath s) "") IssueSQLitePath ++
   issue ((sr_MaxAge r >? 0) && (sr_MaxCount r >? 0))%Z IssueRetentionExclusive ++
   issue (sr_MaxAge r <? 0)%Z (IssueMaxAge (sr_MaxAge r)) ++
   issue (sr_MaxCount r <? 0)%Z (IssueMaxCount (sr_MaxCount r)) ++
   issue (sr_Interval r <? 0)%Z (IssueInterval (sr_Interval r)) ++
   issue (retentionSet && negb (sc_SQLite s)) IssueRetentionNeedsSQLite ++
   issue (negb (String.eqb (cfg_LogFormat c) DefaultLogFormat) && negb (String.eqb (cfg_LogFormat c) LogFormatJSON)) (IssueLogFormat (cfg_LogFormat c)) ++
   issue (ac_SessionTTL (cfg_Admin c) <=? 0)%Z (IssueSessionTTL (ac_SessionTTL (cfg_Admin c))) ++
   issue (ic_QueryTimeout (cfg_Inspect c) <? 0)%Z (IssueQueryTimeout (ic_QueryTimeout (cfg_Inspect c))))%list.

(** ** Load *)

(** [yaml.Unmarshal] into the raw configuration. *)
Class YamlDeps := { yaml_Unmarshal : string -> option rawConfig }.

Context `{YamlDeps}.

(** The file step: what [os.ReadFile] gives for the path, if a path is set. *)
Definition load_file (file : option (option string)) (c : Config) : result ConfigError Config :=
  match file with
  | None => Ok c
  | Some None => Err ErrReadConfig
  | Some (Some data) =>
      match yaml_Unmarshal data with
      | None => Err ErrParseConfig
      | Some raw => applyRaw c raw
      end
  end.

Definition Load (cpus : Z) (file : option (option string)) (env : string -> string) : result ConfigError Config :=
  let c := Defaults cpus in
  try c <- load_file file c;
  try c <- applyEnv c env;
  let c := if String.eqb (cfg_CaptureBind c) "" then set_CaptureBind c ("0.0.0.0:" +:+ Itoa (cfg_CapturePort c)) else c in
  match Config_Validate c with
  | [] => Ok c
  | issues => Err (ErrInvalidConfig issues)
  end.

End Load.
