(* ===== verification/Auth.v ===== *)
(** * admin: sessions, the failure limiter, middleware, login, CSRF, bind policy

    The clock reading and the random bytes of a call are its arguments. A fused
    multiply-add, which some platforms may use, is not modelled. *)
From S2P Require Import Prelude GoLib GoTime Record Capture Config.
From Stdlib Require Import Floats.SpecFloat.

Open Scope string_scope.

(** ** session.go *)

Record Session := mkSession { sn_ID : string; sn_ExpiresAt : time }.

Abbreviation SessionStore := (gmap string Session).

Definition NewSessionStore : SessionStore := ∅.

(** [base64.RawURLEncoding] of 32 random bytes is drawn as [id]; [None] is a
    failure of the random source. *)
Definition Create (s : SessionStore) (now : time) (ttl : duration) (id : option string)
  : option (Session * SessionStore) :=
  match id with
  | None => None
  | Some id => let sess := mkSession id (now + ttl)%Z in Some (sess, <[id := sess]> s)
  end.

Definition Validate (s : SessionStore) (now : time) (id : string) : bool :=
  match s !! id with
  | Some sess => After (sn_ExpiresAt sess) now
  | None => false
  end.

Definition Revoke (s : SessionStore) (id : string) : SessionStore := delete id s.

Definition Sweep (s : SessionStore) (now : time) : SessionStore :=
  filter (fun p => negb (Before (sn_ExpiresAt p.2) now)) s.

(** The goroutine of [StartSweeper]: a sweep per tick, at the time it reads. *)
Definition session_sweeper (ticks : list time) (s : SessionStore) : SessionStore := foldl Sweep s ticks.

(** ** authlimit.go *)

Definition authLimitPerIPCapacity : f64 := f64_of_Z 5.
Definition authLimitGlobalCapacity : f64 := f64_of_Z 20.
Definition perIPRefillRate : f64 := f64_div (f64_of_Z 5) (Seconds (30 * second)%Z).
Definition globalRefillRate : f64 := f64_div (f64_of_Z 20) (Seconds second).

Record authBucket := mkAuthBucket { ab_tokens : f64; ab_lastSeen : time }.

Record AuthLimiter := mkAuthLimiter {
  al_perIP : gmap string authBucket;
  al_global : authBucket;
  al_invalidToken : Z;
  al_rateLimited : Z;
  al_csrfBlocked : Z
}.

Definition NewAuthLimiter : AuthLimiter :=
  mkAuthLimiter ∅ (mkAuthBucket authLimitGlobalCapacity time_zero) 0 0 0.

Definition ClientIP (remoteAddr : string) : string :=
  match SplitHostPort remoteAddr with Ok (h, _) => h | Err _ => remoteAddr end.

Definition f64_zero : f64 := S754_zero false.
Definition f64_one : f64 := f64_of_Z 1.

Definition refillTokens (b : authBucket) (capacity refillPerSec : f64) (now : time) : f64 :=
  let elapsed := Seconds (TimeSub now (ab_lastSeen b)) in
  let elapsed := if f64_ltb elapsed f64_zero then f64_zero else elapsed in
  let t := f64_add (ab_tokens b) (f64_mul elapsed refillPerSec) in
  if f64_ltb capacity t then capacity else t.

Definition set_perIP (l : AuthLimiter) (m : gmap string authBucket) : AuthLimiter :=
  mkAuthLimiter m (al_global l) (al_invalidToken l) (al_rateLimited l) (al_csrfBlocked l).

(** [bt >= 1] is false for NaN, like [1 <= bt]. *)
Definition Allowed (l : AuthLimiter) (now : time) (ip : string) : bool * AuthLimiter :=
  let gt := refillTokens (al_global l) authLimitGlobalCapacity globalRefillRate now in
  if f64_ltb gt f64_one then (false, l)
  else match al_perIP l !! ip with
       | None => (true, set_perIP l (<[ip := mkAuthBucket authLimitPerIPCapacity now]> (al_perIP l)))
       | Some b =>
           let bt := refillTokens b authLimitPerIPCapacity perIPRefillRate now in
           (SFleb f64_one bt, l)
       end.

Definition debit (t : f64) : f64 := if f64_ltb f64_zero t then f64_sub t f64_one else t.

Definition RegisterFailure (l : AuthLimiter) (now : time) (ip : string) : AuthLimiter :=
  let gt := debit (refillTokens (al_global l) authLimitGlobalCapacity globalRefillRate now) in
  let b := default (mkAuthBucket authLimitPerIPCapacity time_zero) (al_perIP l !! ip) in
  let bt := debit (refillTokens b authLimitPerIPCapacity perIPRefillRate now) in
  mkAuthLimiter (<[ip := mkAuthBucket bt now]> (al_perIP l)) (mkAuthBucket gt now)
    (al_invalidToken l) (al_rateLimited l) (al_csrfBlocked l).

Definition RetryAfter (l : AuthLimiter) (now : time) (ip : string) : duration :=
  let gt := refillTokens (al_global l) authLimitGlobalCapacity globalRefillRate now in
  let globalWait := if f64_ltb gt f64_one && f64_ltb f64_zero globalRefillRate
                    then f64_div (f64_sub f64_one gt) globalRefillRate else f64_zero in
  let perIPWait :=
    match al_perIP l !! ip with
    | Some b =>
        let bt := refillTokens b authLimitPerIPCapacity perIPRefillRate now in
        if f64_ltb bt f64_one && f64_ltb f64_zero perIPRefillRate
        then f64_div (f64_sub f64_one bt) perIPRefillRate else f64_zero
    | None => f64_zero
    end in
  let waitSecs := f64_max globalWait perIPWait in
  let d := f64_to_i64 (f64_mul waitSecs (f64_of_Z second)) in
  let d := wrap_i64 (Z.quot (wrap_i64 (d + second - 1)) second * second)%Z in
  Z.max d second.

Definition RecordInvalidToken (l : AuthLimiter) : AuthLimiter :=
  mkAuthLimiter (al_perIP l) (al_global l) (u64_incr (al_invalidToken l)) (al_rateLimited l) (al_csrfBlocked l).
Definition RecordRateLimited (l : AuthLimiter) : AuthLimiter :=
  mkAuthLimiter (al_perIP l) (al_global l) (al_invalidToken l) (u64_incr (al_rateLimited l)) (al_csrfBlocked l).
Definition RecordCSRFBlocked (l : AuthLimiter) : AuthLimiter :=
  mkAuthLimiter (al_perIP l) (al_global l) (al_invalidToken l) (al_rateLimited l) (u64_incr (al_csrfBlocked l)).

Definition InvalidTokenTotal (l : AuthLimiter) : Z := al_invalidToken l.
Definition RateLimitedTotal (l : AuthLimiter) : Z := al_rateLimited l.
Definition CSRFBlockedTotal (l : AuthLimiter) : Z := al_csrfBlocked l.

Definition idleEvict : duration := (600 * second)%Z.

Definition sweep (l : AuthLimiter) (now : time) : AuthLimiter :=
  set_perIP l (filter (fun p => negb (TimeSub now (ab_lastSeen p.2) >? idleEvict)%Z) (al_perIP l)).

(** The goroutine of the limiter's [StartSweeper]. *)
Definition limiter_sweeper (ticks : list time) (l : AuthLimiter) : AuthLimiter := foldl sweep l ticks.

(** ** middleware.go *)

Definition sessionCookieName : string := "httpcatch_session".

Definition extractBearer (r : Request) : string :=
  let auth := Header_Get (rq_Header r) "Authorization" in
  if negb (HasPrefix auth "Bearer ") then "" else str_drop 7 auth.

(** [ConstantTimeCompare] is equality of the bytes. *)
Definition checkBearer (presented adminToken : string) : bool :=
  if String.eqb adminToken "" then false else String.eqb presented adminToken.

(** [r.Cookie]: the first cookie of that name. *)
Definition request_cookie (r : Request) (name : string) : option string :=
  ck_Value <$> List.find (fun c => String.eqb (ck_Name c) name) (rq_Cookies r).

Definition authenticate (r : Request) (adminToken : string) (store : SessionStore) (now : time) (cookieAuth : bool) : bool :=
  let bearer := extractBearer r in
  if (negb (String.eqb bearer "") && checkBearer bearer adminToken)%bool then true
  else if cookieAuth then
    match request_cookie r sessionCookieName with
    | Some v => Validate store now v
    | None => false
    end
  else false.

(** What the gate answers; [GateNext] hands the request on. *)
Inductive GateAnswer :=
| GateNext
| GateRateLimited (retryAfterSecs : Z)
| GateLoginRedirect
| GateUnauthorized.

Definition denyRequest (r : Request) : GateAnswer :=
  if Contains (Header_Get (rq_Header r) "Accept") "text/html" then GateLoginRedirect else GateUnauthorized.

(** [int(retryAfter.Seconds())]. *)
Definition retry_seconds (d : duration) : Z := f64_to_i64 (Seconds d).

Definition Middleware (adminToken : string) (cookieAuth : bool) (store : SessionStore) (l : AuthLimiter)
    (now : time) (r : Request) : GateAnswer * AuthLimiter :=
  let ip := ClientIP (rq_RemoteAddr r) in
  let '(allowed, l) := Allowed l now ip in
  if negb allowed then
    let l := RecordRateLimited l in
    (GateRateLimited (retry_seconds (RetryAfter l now ip)), l)
  else if authenticate r adminToken store now cookieAuth then (GateNext, l)
  else (denyRequest r, RecordInvalidToken (RegisterFailure l now ip)).

(** ** login.go *)

Definition isSafePath (next : string) : bool := HasPrefix next "/" && negb (HasPrefix next "//").

(** [ParseForm] failing, or the two form fields. *)
Record LoginForm := mkLoginForm { lf_bad : bool; lf_token : string; lf_next : string }.

Inductive LoginAnswer :=
| LoginRateLimited (retryAfterSecs : Z)
| LoginBadRequest
| LoginMissingToken
| LoginRefused (next : string)
| LoginInternalError
| LoginOk (cookie : string) (expires : time) (maxAge : Z) (location : string).

Definition loginPostHandler (cfg : AdminConfig) (store : SessionStore) (l : AuthLimiter) (now : time)
    (draw : option string) (r : Request) (form : LoginForm) : LoginAnswer * SessionStore * AuthLimiter :=
  let ip := ClientIP (rq_RemoteAddr r) in
  let '(allowed, l) := Allowed l now ip in
  if negb allowed then
    let l := RecordRateLimited l in
    (LoginRateLimited (retry_seconds (RetryAfter l now ip)), store, l)
  else if lf_bad form then (LoginBadRequest, store, l)
  else if String.eqb (lf_token form) "" then (LoginMissingToken, store, l)
  else if negb (checkBearer (lf_token form) (ac_Token cfg)) then
    (LoginRefused (if isSafePath (lf_next form) then lf_next form else ""), store,
     RecordInvalidToken (RegisterFailure l now ip))
  else match Create store now (ac_SessionTTL cfg) draw with
       | None => (LoginInternalError, store, l)
       | Some (sess, store') =>
           (LoginOk (sn_ID sess) (sn_ExpiresAt sess) (Z.quot (ac_SessionTTL cfg) second)
              (if isSafePath (lf_next form) then lf_next form else "/"), store', l)
       end.

(** The cleared cookie and the redirect to the login page are always sent. *)
Definition logoutHandler (store : SessionStore) (r : Request) : SessionStore :=
  match request_cookie r sessionCookieName with
  | Some v => Revoke store v
  | None => store
  end.

(** ** csrf.go and bindpolicy.go *)

Class WebDeps := {
  (** [url.Parse]: the host of a parsed URL *)
  url_Parse_Host : string -> option string;
  (** [strings.EqualFold] beyond ASCII *)
  uni_EqualFold : string -> string -> bool;
  (** [net.ParseIP(host).IsLoopback()] where the host is an IP address *)
  parse_ip_loopback : string -> option bool
}.

Section Web.
Context `{WebDeps}.

Definition EqualFold (s t : string) : bool :=
  if is_ascii s && is_ascii t then String.eqb (str_map lower_byte s) (str_map lower_byte t) else uni_EqualFold s t.

Definition originMatchesHost (origin host : string) : bool :=
  if String.eqb origin "null" then false
  else match url_Parse_Host origin with
       | None => false
       | Some h => if String.eqb h "" then false else EqualFold h host
       end.

Definition isSameOrigin (r : Request) : bool :=
  let site := Header_Get (rq_Header r) "Sec-Fetch-Site" in
  let origin := Header_Get (rq_Header r) "Origin" in
  if negb (String.eqb site "") then
    if (String.eqb site "same-origin" || String.eqb site "none")%bool then true
    else if String.eqb site "same-site" then originMatchesHost origin (rq_Host r)
    else false
  else if String.eqb origin "" then true
  else originMatchesHost origin (rq_Host r).

(** [false] is the 403; a nil limiter is not counted. *)
Definition csrfOriginCheck (l : AuthLimiter) (r : Request) : bool * AuthLimiter :=
  if negb (isSameOrigin r) then (false, RecordCSRFBlocked l) else (true, l).

Definition isLoopback (host : string) : bool :=
  if String.eqb host "localhost" then true else default false (parse_ip_loopback host).

Inductive Reason := ReasonLoopbackDefault | ReasonTokenConfigured | ReasonInsecureMode.
Inductive BindError := ErrInvalidBind | ErrRefused.

Definition Guard (bind : string) (tokenConfigured insecureListen : bool) : result BindError Reason :=
  match SplitHostPort bind with
  | Err _ => Err ErrInvalidBind
  | Ok (host, _) =>
      if isLoopback host then Ok ReasonLoopbackDefault
      else if tokenConfigured then Ok ReasonTokenConfigured
      else if insecureListen then Ok ReasonInsecureMode
      else Err ErrRefused
  end.

End Web.
