(* ===== verification/AuthFacts.v ===== *)
(** * Authentication: sessions, lockout, the gate, login *)
From S2P Require Import Prelude GoLib GoTime Record Capture Config Auth.
From Stdlib Require Import Floats.SpecFloat.

Open Scope string_scope.

(** ** Sessions *)

Inductive SessionOp :=
| OpCreate (now : time) (ttl : duration) (id : string)
| OpRevoke (id : string)
| OpSweep (now : time).

Definition session_step (s : SessionStore) (op : SessionOp) : SessionStore :=
  match op with
  | OpCreate now ttl id => match Create s now ttl (Some id) with Some (_, s') => s' | None => s end
  | OpRevoke id => Revoke s id
  | OpSweep now => Sweep s now
  end.

Definition session_run (ops : list SessionOp) : SessionStore := foldl session_step NewSessionStore ops.

(** The abstract store: the expiry of the last creation not revoked since;
    sweeps are not part of it. *)
Definition spec_step (id : string) (e : option time) (op : SessionOp) : option time :=
  match op with
  | OpCreate now ttl i => if String.eqb i id then Some (now + ttl)%Z else e
  | OpRevoke i => if String.eqb i id then None else e
  | OpSweep _ => e
  end.
Definition spec_expiry (ops : list SessionOp) (id : string) : option time := foldl (spec_step id) None ops.

(** The store agrees with the specification but for sessions expired by [now]. *)
Definition agrees (now : time) (id : string) (s : SessionStore) (e : option time) : Prop :=
  match s !! id, e with
  | Some sess, Some t => sn_ExpiresAt sess = t
  | None, None => True
  | None, Some t => (t < now)%Z
  | Some _, None => False
  end.

Lemma Sweep_lookup s t id :
  Sweep s t !! id = match s !! id with
                    | Some sess => if Before (sn_ExpiresAt sess) t then None else Some sess
                    | None => None
                    end.
Proof.
  apply option_eq. intros x. unfold Sweep. rewrite map_lookup_filter_Some. cbn.
  destruct (s !! id) as [sess|]; [|naive_solver].
  destruct (Before (sn_ExpiresAt sess) t) eqn:E; split.
  - intros [[= <-] Hx]. by rewrite E in Hx.
  - done.
  - by intros [? _].
  - intros [= <-]. by rewrite E.
Qed.

(** The background sweeps never end a session that has not expired. *)
Lemma session_sweeper_validate ticks now id s : (forall t, t ∈ ticks -> (t <= now)%Z) ->
  Validate (session_sweeper ticks s) now id = Validate s now id.
Proof.
  unfold session_sweeper. revert s. induction ticks as [|t ticks IH]; intros s Ht; [done|]. cbn [foldl].
  rewrite IH by (intros x Hx; apply Ht; by right). unfold Validate, Before, After. rewrite Sweep_lookup.
  destruct (s !! id) as [sess|]; [|done]. unfold Before. destruct (Z.ltb_spec (sn_ExpiresAt sess) t) as [Hlt|_]; [|done].
  specialize (Ht t (list_elem_of_here _ _)). symmetry. apply Z.ltb_ge. lia.
Qed.

(** The limiter's sweeps keep the counters, the global bucket, and every bucket
    used in the ten minutes before each of them. *)
Lemma limiter_sweeper_keeps ticks l : al_global (limiter_sweeper ticks l) = al_global l /\
  al_invalidToken (limiter_sweeper ticks l) = al_invalidToken l /\
  (forall ip b, al_perIP l !! ip = Some b -> (forall t, t ∈ ticks -> (TimeSub t (ab_lastSeen b) <= idleEvict)%Z) ->
    al_perIP (limiter_sweeper ticks l) !! ip = Some b).
Proof.
  unfold limiter_sweeper. revert l. induction ticks as [|t ticks IH]; intros l; [done|]. cbn [foldl].
  destruct (IH (sweep l t)) as (Hg & Hi & Hk). split; [by rewrite Hg|]. split; [by rewrite Hi|].
  intros ip b Hb Ht. apply Hk; [|intros x Hx; apply Ht; by right]. unfold sweep, set_perIP. cbn [al_perIP].
  apply map_lookup_filter_Some. split; [done|]. cbn. specialize (Ht t (list_elem_of_here _ _)).
  rewrite Z.gtb_ltb. by rewrite (proj2 (Z.ltb_ge _ _)).
Qed.

Lemma session_step_agrees now id s e op :
  (forall t, op = OpSweep t -> t <= now)%Z -> agrees now id s e ->
  agrees now id (session_step s op) (spec_step id e op).
Proof.
  intros Hop Ha. unfold agrees in *. destruct op as [t ttl i|i|t]; cbn.
  - destruct (String.eqb_spec i id) as [->|Hne]; [by rewrite lookup_insert_eq|]. by rewrite lookup_insert_ne.
  - unfold Revoke. destruct (String.eqb_spec i id) as [->|Hne]; [by rewrite lookup_delete_eq|]. by rewrite lookup_delete_ne.
  - rewrite Sweep_lookup. destruct (s !! id) as [sess|]; [|done]. destruct e as [x|]; [|done]. subst x.
    unfold Before. destruct (Z.ltb_spec (sn_ExpiresAt sess) t); [|done]. specialize (Hop t eq_refl). lia.
Qed.

(** C28. A session id is valid exactly from its last creation until its expiry
    unless revoked in between: creating, revoking and expiring other sessions
    and any number of sweeps up to now make no difference. *)
Theorem Validate_refines_spec ops now id :
  (forall t, OpSweep t ∈ ops -> (t <= now)%Z) ->
  Validate (session_run ops) now id =
  match spec_expiry ops id with Some t => (now <? t)%Z | None => false end.
Proof.
  intros Hops. assert (Ha : agrees now id (session_run ops) (spec_expiry ops id)).
  { unfold session_run, spec_expiry. assert (H0 : agrees now id NewSessionStore None) by done.
    revert H0. generalize NewSessionStore as s, (@None time) as e.
    induction ops as [|op ops IH]; intros s e Hs; [done|]. cbn [foldl]. apply IH.
    - intros t Ht. apply Hops. by right.
    - apply session_step_agrees; [|done]. intros t ->. apply Hops. left. }
  unfold agrees, Validate, After in *.
  destruct (session_run ops !! id) as [sess|], (spec_expiry ops id) as [t|]; try done.
  - by subst t.
  - symmetry. apply Z.ltb_ge. lia.
Qed.

Lemma Validate_refines_spec_witness :
  Validate (session_run [OpCreate 10 100 "a"; OpSweep 50; OpCreate 60 5 "b"]%Z) 100%Z "a" = true.
Proof.
  rewrite (Validate_refines_spec [OpCreate 10 100 "a"; OpSweep 50; OpCreate 60 5 "b"]%Z 100%Z "a").
  - reflexivity.
  - intros t Ht. repeat (apply elem_of_cons in Ht as [Ht|Ht]; [by injection Ht as -> || discriminate Ht|]).
    by apply elem_of_nil in Ht.
Defined.

(** ** The failure limiter at one instant *)

(** Any clock reading later than 292 years after the zero time: the first
    refill of a bucket never seen before saturates. *)
Definition modern (now : time) : Prop := (time_zero + two63 <= now)%Z.

Lemma modern_elapsed now : modern now -> TimeSub now time_zero = (two63 - 1)%Z.
Proof. unfold modern, TimeSub, two63. lia. Qed.

Lemma TimeSub_self now : TimeSub now now = 0%Z.
Proof. unfold TimeSub, two63. lia. Qed.

Lemma fresh_refill now : modern now ->
  refillTokens (mkAuthBucket authLimitPerIPCapacity time_zero) authLimitPerIPCapacity perIPRefillRate now
    = authLimitPerIPCapacity /\
  refillTokens (mkAuthBucket authLimitGlobalCapacity time_zero) authLimitGlobalCapacity globalRefillRate now
    = authLimitGlobalCapacity.
Proof.
  intros Hm. unfold refillTokens. cbn [ab_lastSeen ab_tokens]. rewrite (modern_elapsed now Hm).
  split; vm_compute; reflexivity.
Qed.

(** A refill at the very instant of the last failure adds nothing. *)
Lemma refill_now_perIP k now : k <= 5 ->
  refillTokens (mkAuthBucket (f64_of_Z (Z.of_nat k)) now) authLimitPerIPCapacity perIPRefillRate now = f64_of_Z (Z.of_nat k).
Proof.
  intros Hk. unfold refillTokens. cbn [ab_lastSeen ab_tokens]. rewrite TimeSub_self.
  do 6 (destruct k as [|k]; [vm_compute; reflexivity|]). lia.
Qed.

Lemma refill_now_global k now : k <= 20 ->
  refillTokens (mkAuthBucket (f64_of_Z (Z.of_nat k)) now) authLimitGlobalCapacity globalRefillRate now = f64_of_Z (Z.of_nat k).
Proof.
  intros Hk. unfold refillTokens. cbn [ab_lastSeen ab_tokens]. rewrite TimeSub_self.
  do 21 (destruct k as [|k]; [vm_compute; reflexivity|]). lia.
Qed.

(** Small integers are exact: a debit takes one, down to zero. *)
Lemma debit_small k : k <= 20 -> debit (f64_of_Z (Z.of_nat k)) = f64_of_Z (Z.of_nat (k - 1)).
Proof. intros Hk. do 21 (destruct k as [|k]; [vm_compute; reflexivity|]). lia. Qed.

Lemma small_lt_one k : k <= 20 -> f64_ltb (f64_of_Z (Z.of_nat k)) f64_one = (k =? 0)%nat.
Proof. intros Hk. do 21 (destruct k as [|k]; [vm_compute; reflexivity|]). lia. Qed.

Lemma one_le_small k : k <= 5 -> SFleb f64_one (f64_of_Z (Z.of_nat k)) = (0 <? k)%nat.
Proof. intros Hk. do 6 (destruct k as [|k]; [vm_compute; reflexivity|]). lia. Qed.

Definition failures (now : time) (ips : list string) : AuthLimiter :=
  foldl (fun l ip => RegisterFailure l now ip) NewAuthLimiter ips.

Definition times (ip : string) (ips : list string) : nat := length (filter (fun x => x = ip) ips).

Lemma times_snoc ip ips x : times ip (ips ++ [x]) = times ip ips + (if decide (x = ip) then 1 else 0).
Proof. unfold times. rewrite filter_app, length_app, filter_cons. by case_decide. Qed.

(** Buckets after a burst: five less the own failures, twenty less all. *)
Lemma failures_buckets now ips : modern now ->
  refillTokens (al_global (failures now ips)) authLimitGlobalCapacity globalRefillRate now
    = f64_of_Z (Z.of_nat (20 - length ips)) /\
  forall ip, match al_perIP (failures now ips) !! ip with
             | None => times ip ips = 0
             | Some b => b = mkAuthBucket (f64_of_Z (Z.of_nat (5 - times ip ips))) now /\ 0 < times ip ips
             end.
Proof.
  intros Hm. destruct (fresh_refill now Hm) as [Hp Hg].
  induction ips as [|x ips IH] using rev_ind.
  { split; [exact Hg|]. intros ip. done. }
  destruct IH as [IHg IHp]. unfold failures in *. rewrite foldl_app. cbn [foldl].
  set (l := foldl _ NewAuthLimiter ips) in *. unfold RegisterFailure at 1. cbn [al_global al_perIP]. split.
  - rewrite IHg, debit_small by lia. rewrite refill_now_global by lia. rewrite length_app. simpl. do 2 f_equal. lia.
  - intros ip. unfold RegisterFailure. cbn [al_perIP]. rewrite times_snoc. specialize (IHp ip).
    destruct (decide (x = ip)) as [->|Hne]; [|rewrite lookup_insert_ne, Nat.add_0_r by done; exact IHp].
    rewrite lookup_insert_eq. split; [|lia]. f_equal.
    destruct (al_perIP l !! ip) as [b|]; cbn [from_option id].
    + destruct IHp as [-> _]. rewrite refill_now_perIP, debit_small by lia. do 2 f_equal. lia.
    + rewrite Hp. change authLimitPerIPCapacity with (f64_of_Z (Z.of_nat 5)). rewrite debit_small by lia.
      do 2 f_equal. lia.
Qed.

(** C29. The lockout, to the attempt: after any burst of failed attempts at one
    instant, an address may try again exactly when it failed fewer than five
    times and all addresses together fewer than twenty times; other addresses'
    failures count only against the global limit. *)
Theorem lockout_exact now ips ip :
  modern now ->
  (Allowed (failures now ips) now ip).1 = ((times ip ips <? 5)%nat && (length ips <? 20)%nat).
Proof.
  intros Hm. destruct (failures_buckets now ips Hm) as [Hg Hp]. specialize (Hp ip).
  unfold Allowed. rewrite Hg, small_lt_one by lia.
  destruct (Nat.eqb_spec (20 - length ips) 0), (Nat.ltb_spec (length ips) 20); try lia; [by rewrite andb_false_r|].
  rewrite andb_true_r. destruct (al_perIP (failures now ips) !! ip) as [b|]; cbn [fst].
  - destruct Hp as [-> Hpos]. rewrite refill_now_perIP, one_le_small by lia.
    destruct (Nat.ltb_spec 0 (5 - times ip ips)), (Nat.ltb_spec (times ip ips) 5); lia.
  - by rewrite Hp.
Qed.

Lemma lockout_exact_witness :
  (Allowed (failures 0%Z ["a"; "a"; "b"; "a"; "a"; "a"]) 0%Z "a").1 = false /\
  (Allowed (failures 0%Z ["a"; "a"; "b"; "a"; "a"; "a"]) 0%Z "b").1 = true.
Proof.
  split.
  - rewrite (lockout_exact 0%Z ["a"; "a"; "b"; "a"; "a"; "a"] "a"); [reflexivity | unfold modern, time_zero, two63; lia].
  - rewrite (lockout_exact 0%Z ["a"; "a"; "b"; "a"; "a"; "a"] "b"); [reflexivity | unfold modern, time_zero, two63; lia].
Defined.

(** A refused client is told to wait a whole number of seconds, at least
    one, whatever the state of the buckets. *)
Lemma RetryAfter_whole_seconds l now ip :
  (second <= RetryAfter l now ip)%Z /\ (RetryAfter l now ip mod second = 0)%Z.
Proof.
  unfold RetryAfter. set (d := f64_to_i64 _). split; [apply Z.le_max_r|].
  set (x := wrap_i64 (d + second - 1)). pose proof (wrap_i64_range (d + second - 1)) as Hr. fold x in Hr.
  assert (Hq : in_i64 (Z.quot x second * second)%Z).
  { unfold in_i64, two63, second in *. pose proof (Z.quot_rem' x 1000000000).
    destruct (Z.le_gt_cases 0 x).
    - pose proof (Z.rem_bound_pos x 1000000000 ltac:(lia) ltac:(lia)). pose proof (Z.quot_pos x 1000000000). lia.
    - pose proof (Z.rem_bound_pos (- x) 1000000000 ltac:(lia) ltac:(lia)). pose proof (Z.quot_rem' (- x) 1000000000).
      pose proof (Z.quot_opp_l x 1000000000 ltac:(lia)). pose proof (Z.quot_pos (- x) 1000000000). lia. }
  rewrite wrap_i64_id by done. destruct (Z.max_spec (Z.quot x second * second) second) as [[_ ->]|[_ ->]].
  - apply Z.mod_same. done.
  - apply Z.mod_mul. done.
Qed.

(** ** The gate *)

Definition bearer_ok (adminToken : string) (r : Request) : Prop :=
  adminToken <> "" /\ Header_Get (rq_Header r) "Authorization" = "Bearer " +:+ adminToken.
Definition cookie_ok (store : SessionStore) (now : time) (r : Request) : Prop :=
  exists v, request_cookie r sessionCookieName = Some v /\ Validate store now v = true.

Lemma bearer_spec adminToken r :
  (negb (String.eqb (extractBearer r) "") && checkBearer (extractBearer r) adminToken)%bool = true <->
  bearer_ok adminToken r.
Proof.
  unfold bearer_ok, extractBearer, checkBearer. set (auth := Header_Get _ _).
  destruct (HasPrefix auth "Bearer ") eqn:Ep; cbn [negb].
  - apply HasPrefix_spec in Ep as [rest ->]. change (str_drop 7 ("Bearer " +:+ rest)) with (str_drop 0 rest).
    replace (str_drop 0 rest) with rest by (by destruct rest).
    destruct (String.eqb_spec rest ""), (String.eqb_spec adminToken ""), (String.eqb_spec rest adminToken); cbn;
      split; intros; destruct_and?; try done; subst; try done; simplify_eq; done.
  - split; [done|]. intros [_ E]. rewrite E, HasPrefix_app in Ep. done.
Qed.

Lemma authenticate_spec r adminToken store now cookieAuth :
  authenticate r adminToken store now cookieAuth = true <->
  bearer_ok adminToken r \/ (cookieAuth = true /\ cookie_ok store now r).
Proof.
  unfold authenticate, cookie_ok. rewrite <- bearer_spec.
  destruct (negb (String.eqb (extractBearer r) "") && checkBearer (extractBearer r) adminToken)%bool; [naive_solver|].
  destruct cookieAuth; [|naive_solver]. destruct (request_cookie r sessionCookieName); naive_solver.
Qed.

(** The admin gate: a request reaches the handler exactly when its address
    is not locked out and it carries the configured non-empty bearer token or,
    where cookies are accepted, an unexpired session; passing consumes no
    budget. A locked-out request is answered 429 without looking at its
    credentials, and every other refusal is charged to its address. *)
Lemma Middleware_gate adminToken cookieAuth store l now r :
  let ip := ClientIP (rq_RemoteAddr r) in
  let '(answer, l') := Middleware adminToken cookieAuth store l now r in
  let '(allowed, l1) := Allowed l now ip in
  (answer = GateNext <->
     allowed = true /\ (bearer_ok adminToken r \/ (cookieAuth = true /\ cookie_ok store now r))) /\
  (answer = GateNext -> l' = l1) /\
  (allowed = false -> (exists n, answer = GateRateLimited n) /\ l' = RecordRateLimited l1) /\
  (allowed = true -> answer <> GateNext ->
     (answer = GateLoginRedirect \/ answer = GateUnauthorized) /\
     l' = RecordInvalidToken (RegisterFailure l1 now ip)).
Proof.
  cbv zeta. unfold Middleware. destruct (Allowed l now (ClientIP (rq_RemoteAddr r))) as [allowed l1].
  pose proof (authenticate_spec r adminToken store now cookieAuth) as Ha.
  destruct allowed; cbn [negb]; [|split_and!; [split; [done | by intros [? _]] | done | eauto | done]].
  destruct (authenticate r adminToken store now cookieAuth).
  - split_and!; [|done..]. split; [intros _|done]. split; [done|]. by apply Ha.
  - assert (Hn : forall a, a = denyRequest r -> a <> GateNext /\ (a = GateLoginRedirect \/ a = GateUnauthorized))
      by (intros a ->; unfold denyRequest; destruct (Contains _ _); auto).
    destruct (Hn _ eq_refl) as [Hn1 Hn2]. split_and!; [|done..|done].
    split; [done|]. intros [_ Hc]. by apply Ha in Hc.
Qed.

(** ** Login *)

(** A login succeeds only with the configured non-empty token from an
    address that is not locked out; it then opens exactly one session, valid
    from now to its expiry, and redirects to a path of this origin (one leading
    slash). Every other answer leaves the session store as it was, and a wrong
    token is charged to the address. *)
Lemma loginPost_spec cfg store l now draw r form :
  let ip := ClientIP (rq_RemoteAddr r) in
  let '(answer, store', l') := loginPostHandler cfg store l now draw r form in
  match answer with
  | LoginOk cookie expires maxAge location =>
      (Allowed l now ip).1 = true /\ lf_token form = ac_Token cfg /\ ac_Token cfg <> "" /\
      draw = Some cookie /\ expires = (now + ac_SessionTTL cfg)%Z /\
      (forall t, Validate store' t cookie = (t <? expires)%Z) /\
      (forall id t, id <> cookie -> Validate store' t id = Validate store t id) /\
      (exists rest, location = "/" +:+ rest /\ HasPrefix rest "/" = false) /\ l' = (Allowed l now ip).2
  | LoginRefused _ =>
      store' = store /\ lf_token form <> ac_Token cfg \/ store' = store /\ ac_Token cfg = ""
  | _ => store' = store
  end /\
  (lf_bad form = false -> lf_token form <> "" -> (Allowed l now ip).1 = true ->
   (lf_token form <> ac_Token cfg \/ ac_Token cfg = "") ->
   l' = RecordInvalidToken (RegisterFailure (Allowed l now ip).2 now ip)).
Proof.
  cbv zeta. unfold loginPostHandler. destruct (Allowed l now (ClientIP (rq_RemoteAddr r))) as [allowed l1]. cbn [fst snd].
  destruct allowed; cbn [negb]; [|done].
  destruct (lf_bad form); [done|]. destruct (String.eqb_spec (lf_token form) ""); [done|].
  unfold checkBearer. destruct (String.eqb_spec (ac_Token cfg) "") as [Ht|Ht]; cbn [negb]; [split; [right|]; done|].
  destruct (String.eqb_spec (lf_token form) (ac_Token cfg)) as [E|E]; cbn [negb]; [|split; [left|]; done].
  destruct draw as [id|]; cbn; [|split; [done|]; intros _ _ _ [?|?]; done].
  split; [|intros _ _ _ [?|?]; done]. split_and!; try done.
  - intros t. unfold Validate, After. rewrite lookup_insert_eq. done.
  - intros i t Hi. unfold Validate. by rewrite lookup_insert_ne.
  - destruct (isSafePath (lf_next form)) eqn:Es; [|by exists ""].
    unfold isSafePath in Es. apply andb_true_iff in Es as [Es1 Es2]. apply HasPrefix_spec in Es1 as [rest Er].
    exists rest. split; [done|]. rewrite Er in Es2. apply negb_true_iff in Es2.
    change (HasPrefix ("/" +:+ rest) "//") with (HasPrefix rest "/") in Es2. done.
Qed.
