(* ===== verification/Events.v ===== *)
(** * admin/events.go and events_counters.go: POST /events

    [encoding/json] decoding is the operations of class [JsonDeps]. Between two
    enqueues of a batch the rest of the program may act on the queue: the
    handler takes that interference as an argument. Counters are always
    present, as the server wires them. *)
From S2P Require Import Prelude GoLib Record Capture.

Open Scope string_scope.
Open Scope go_scope.

(** ** Wire shapes *)

Record wireResponseEvent := mkWireResponse {
  wr_Type : string;
  wr_CorrelationID : string;
  wr_Service : string;
  wr_Timestamp : option time;
  wr_Status : option Z;
  wr_Headers : option header;
  wr_Body : string;
  wr_ContentType : string;
  wr_DurationMS : option Z
}.

Record wireOutboundHalf := mkWireHalf {
  wh_Method : string;
  wh_Path : string;
  wh_Headers : option header;
  wh_Body : string;
  wh_ContentType : string;
  wh_Status : option Z
}.

Record wireOutboundEvent := mkWireOutbound {
  wo_Type : string;
  wo_CorrelationID : string;
  wo_Service : string;
  wo_Timestamp : option time;
  wo_Request : option wireOutboundHalf;
  wo_Response : option wireOutboundHalf;
  wo_DurationMS : option Z
}.

(** [json.Unmarshal] into the two shapes and into an array of raw items. *)
Class JsonDeps := {
  unmarshal_response : string -> option wireResponseEvent;
  unmarshal_outbound : string -> option wireOutboundEvent;
  unmarshal_array : string -> option (list string)
}.

Inductive EventMsg := MsgRequired | MsgInvalid | MsgRequiredWhenPresent | MsgBadJSON | MsgBodyTooLarge
| MsgUnknownType (t : string) | MsgPayloadTooLarge | MsgEmptyBatch | MsgBatchTooLarge | MsgQueueFull.

Record validationError := mkValidationError { ve_Index : option nat; ve_Field : string; ve_Message : EventMsg }.

(** ** events_counters.go *)

Inductive RejectReason :=
| RejectReasonInvalidJSON | RejectReasonPayloadTooLarge | RejectReasonUnknownType | RejectReasonMissingType
| RejectReasonMissingRequiredField | RejectReasonEmptyBatch | RejectReasonBatchTooLarge | RejectReasonBodyTooLarge.

#[export] Instance RejectReason_eq_dec : EqDecision RejectReason.
Proof. solve_decision. Defined.

(** The eight rejection counters are one function of the reason. *)
Record EventsCounters := mkEventsCounters {
  ec_ingestedResponse : Z;
  ec_ingestedOutbound : Z;
  ec_rejected : RejectReason -> Z;
  ec_droppedQueueFull : Z
}.

Definition NewEventsCounters : EventsCounters := mkEventsCounters 0 0 (fun _ => 0%Z) 0.

Definition incRejected (c : EventsCounters) (reason : RejectReason) : EventsCounters :=
  mkEventsCounters (ec_ingestedResponse c) (ec_ingestedOutbound c)
    (fun r => if decide (r = reason) then u64_incr (ec_rejected c r) else ec_rejected c r) (ec_droppedQueueFull c).

Definition incIngestedResponse (c : EventsCounters) : EventsCounters :=
  mkEventsCounters (u64_incr (ec_ingestedResponse c)) (ec_ingestedOutbound c) (ec_rejected c) (ec_droppedQueueFull c).
Definition incIngestedOutbound (c : EventsCounters) : EventsCounters :=
  mkEventsCounters (ec_ingestedResponse c) (u64_incr (ec_ingestedOutbound c)) (ec_rejected c) (ec_droppedQueueFull c).

Definition incIngested (c : EventsCounters) (rec : CRecord) : EventsCounters :=
  match rec with
  | RResponse _ => incIngestedResponse c
  | ROutbound _ => incIngestedOutbound c
  | RRequest _ => c
  end.

Definition incDroppedQueueFull (c : EventsCounters) : EventsCounters :=
  mkEventsCounters (ec_ingestedResponse c) (ec_ingestedOutbound c) (ec_rejected c) (u64_incr (ec_droppedQueueFull c)).

(** ** Validation and construction *)

Definition maxExplicitCorrelationID : nat := 256.

Definition isPrintableASCII (s : string) : bool := str_forall (fun c => negb ((code c <? 32) || (126 <? code c))%N) s.

Definition capEventBody (body : string) (bodyCap : Z) : string * Z * bool :=
  if String.eqb body "" then ("", 0%Z, false)
  else match CapBody (mkBody body false) bodyCap with
       | Ok r => r
       | Err _ => ("", 0%Z, false)
       end.

Section Events.
Context `{Unicode} `{MapRange} `{JsonDeps}.

Definition validate_service (service : string) : list (string * EventMsg) :=
  let trimmed := TrimSpace service in
  if String.eqb trimmed "" then [("service", MsgRequired)]
  else if String.eqb (SanitiseServiceLabel trimmed) "" then [("service", MsgInvalid)] else [].

(** A required pointer field. *)
Definition require {A} (field : string) (v : option A) : list (string * EventMsg) :=
  match v with None => [(field, MsgRequired)] | Some _ => [] end.

Definition validateResponseEvent (e : wireResponseEvent) : list (string * EventMsg) :=
  (validate_service (wr_Service e) ++ require "status" (wr_Status e) ++ require "duration_ms" (wr_DurationMS e))%list.

Definition require_text (field v : string) : list (string * EventMsg) :=
  if String.eqb (TrimSpace v) "" then [(field, MsgRequired)] else [].

Definition validateOutboundEvent (e : wireOutboundEvent) : list (string * EventMsg) :=
  (validate_service (wo_Service e) ++
   match wo_Request e with
   | None => [("request", MsgRequired)]
   | Some q => require_text "request.method" (wh_Method q) ++ require_text "request.path" (wh_Path q)
   end ++
   require "duration_ms" (wo_DurationMS e) ++
   match wo_Response e with
   | Some p => match wh_Status p with None => [("response.status", MsgRequiredWhenPresent)] | Some _ => [] end
   | None => []
   end)%list.

Definition deriveCorrelation (correlationID : string) (headers : option header) (fresh : string) : string * string :=
  let c := TrimSpace correlationID in
  let from_headers :=
    IdentifyCorrelation
      (fold_left (fun h '(k, vs) => fold_left (fun h v => Header_Add h k v) vs h) (go_range (headers_of headers)) ∅) fresh in
  if String.eqb c "" then from_headers
  else if ((String.length c <=? maxExplicitCorrelationID)%nat && isPrintableASCII c)%bool
  then (c, CorrelationSourceExplicit)
  else from_headers.

Definition nonempty_head (vals : list string) : option string :=
  match vals with v :: _ => if String.eqb v "" then None else Some v | [] => None end.

Fixpoint first_content_type (key : string) (l : list (string * list string)) : string :=
  match l with
  | [] => ""
  | (k, vals) :: l' =>
      if String.eqb (CanonicalMIMEHeaderKey k) key
      then match nonempty_head vals with Some v => v | None => first_content_type key l' end
      else first_content_type key l'
  end.

Definition resolveContentType (wireContentType : string) (headers : option header) : string :=
  if negb (String.eqb wireContentType "") then wireContentType else
  let key := CanonicalMIMEHeaderKey "Content-Type" in
  match headers_of headers !! key ≫= nonempty_head with
  | Some v => v
  | None => first_content_type key (go_range (headers_of headers))
  end.

(** The pointers [*e.Status] and [*e.DurationMS] were validated; [None] is the
    nil dereference that would panic otherwise. *)
Definition buildResponseRecord (d : Draw) (e : wireResponseEvent) (bodyCap : Z) (now : time) : option ResponseEvent :=
  let ts := default now (wr_Timestamp e) in
  let '(corrID, corrSource) := deriveCorrelation (wr_CorrelationID e) (wr_Headers e) (dw_corr d) in
  let '(body, originalSize, truncated) := capEventBody (wr_Body e) bodyCap in
  status ← wr_Status e;
  durationMS ← wr_DurationMS e;
  Some (mkResponseEvent (dw_id d) ts corrID corrSource (SanitiseServiceLabel (wr_Service e)) "explicit" status
    (wr_Headers e) body truncated originalSize (resolveContentType (wr_ContentType e) (wr_Headers e)) durationMS).

Definition buildOutboundRecord (d : Draw) (e : wireOutboundEvent) (bodyCap : Z) (now : time) : option OutboundEvent :=
  let ts := default now (wo_Timestamp e) in
  q ← wo_Request e;
  let '(corrID, corrSource) := deriveCorrelation (wo_CorrelationID e) (wh_Headers q) (dw_corr d) in
  let '(body, originalSize, truncated) := capEventBody (wh_Body q) bodyCap in
  let req := mkOutboundRequestHalf (wh_Method q) (wh_Path q) (wh_Headers q) body truncated originalSize
    (resolveContentType (wh_ContentType q) (wh_Headers q)) in
  resp ← match wo_Response e with
         | None => Some None
         | Some p =>
             let '(body, originalSize, truncated) := capEventBody (wh_Body p) bodyCap in
             status ← wh_Status p;
             Some (Some (mkOutboundResponseHalf status (wh_Headers p) body truncated originalSize
               (resolveContentType (wh_ContentType p) (wh_Headers p))))
         end;
  durationMS ← wo_DurationMS e;
  Some (mkOutboundEvent (dw_id d) ts corrID corrSource (SanitiseServiceLabel (wo_Service e)) "explicit" durationMS req resp).

Definition fieldErrors (idx : option nat) (errs : list (string * EventMsg)) : list validationError :=
  (fun '(f, m) => mkValidationError idx f m) <$> errs.

Definition too_large (bodyCap : Z) (body : string) : bool :=
  ((bodyCap >? 0) && (Z.of_nat (String.length body) >? bodyCap))%Z.

(** A rejection carries its reason and the errors to report. *)
Definition parseAndBuild (item : string) (idx : option nat) (d : Draw) (bodyCap : Z) (now : time)
  : option (result (RejectReason * list validationError) CRecord) :=
  match unmarshal_response item with
  | None => Some (Err (RejectReasonInvalidJSON, [mkValidationError idx "body" MsgBadJSON]))
  | Some re =>
      if String.eqb (wr_Type re) "" then
        Some (Err (RejectReasonMissingType, [mkValidationError idx "type" MsgRequired]))
      else if String.eqb (wr_Type re) "response" then
        match validateResponseEvent re with
        | e :: es => Some (Err (RejectReasonMissingRequiredField, fieldErrors idx (e :: es)))
        | [] =>
            if too_large bodyCap (wr_Body re)
            then Some (Err (RejectReasonBodyTooLarge, [mkValidationError idx "body" MsgBodyTooLarge]))
            else (fun v => Ok (RResponse v)) <$> buildResponseRecord d re bodyCap now
        end
      else if String.eqb (wr_Type re) "outbound" then
        match unmarshal_outbound item with
        | None => Some (Err (RejectReasonInvalidJSON, [mkValidationError idx "body" MsgBadJSON]))
        | Some oe =>
            match validateOutboundEvent oe with
            | e :: es => Some (Err (RejectReasonMissingRequiredField, fieldErrors idx (e :: es)))
            | [] =>
                if match wo_Request oe with Some q => too_large bodyCap (wh_Body q) | None => false end
                then Some (Err (RejectReasonBodyTooLarge, [mkValidationError idx "request.body" MsgBodyTooLarge]))
                else if match wo_Response oe with Some p => too_large bodyCap (wh_Body p) | None => false end
                then Some (Err (RejectReasonBodyTooLarge, [mkValidationError idx "response.body" MsgBodyTooLarge]))
                else (fun v => Ok (ROutbound v)) <$> buildOutboundRecord d oe bodyCap now
            end
        end
      else Some (Err (RejectReasonUnknownType, [mkValidationError idx "type" (MsgUnknownType (wr_Type re))]))
  end.

(** ** The handler *)

Inductive EventsAnswer :=
| EvAccepted
| EvMultiStatus (accepted dropped : nat)
| EvQueueFull
| EvNoPipeline
| EvTooLarge (e : validationError)
| EvBadRequest (es : list validationError).

Definition ev_status (a : EventsAnswer) : Z :=
  match a with
  | EvAccepted => 202
  | EvMultiStatus _ _ => 207
  | EvQueueFull | EvNoPipeline => 503
  | EvTooLarge _ => 413
  | EvBadRequest _ => 400
  end.

(** First non-blank byte is an opening bracket. *)
Fixpoint is_batch (s : string) : bool :=
  match s with
  | "" => false
  | String c s' =>
      if (Ascii.eqb c " " || Ascii.eqb c "009" || Ascii.eqb c "013" || Ascii.eqb c "010")%bool then is_batch s'
      else Ascii.eqb c "["
  end.

(** [io.ReadAll(http.MaxBytesReader(...))]. *)
Definition read_payload (b : Body) (maxPayload : Z) : option string :=
  if ((maxPayload >? 0) && (Z.of_nat (String.length (bd_data b)) >? maxPayload))%Z then None
  else if bd_fails b then None else Some (bd_data b).

(** The first pass of a batch: all records, or the first rejection. *)
Fixpoint build_all (items : list string) (i : nat) (draw : nat -> Draw) (bodyCap : Z) (now : time)
  : option (result (RejectReason * list validationError) (list CRecord)) :=
  match items with
  | [] => Some (Ok [])
  | item :: rest =>
      r ← parseAndBuild item (Some i) (draw i) bodyCap now;
      match r with
      | Err e => Some (Err e)
      | Ok rec =>
          rs ← build_all rest (S i) draw bodyCap now;
          Some (match rs with Err e => Err e | Ok recs => Ok (rec :: recs) end)
      end
  end.

(** The second pass; [env i] is what happens to the queue before enqueue [i].
    Returns the records taken and refused. *)
Fixpoint enqueue_all (env : nat -> Queue -> Queue) (i : nat) (recs : list CRecord) (q : Queue) (c : EventsCounters)
  : option (Queue * EventsCounters * list CRecord * list CRecord) :=
  match recs with
  | [] => Some (q, c, [], [])
  | rec :: rest =>
      r ← Enqueue (env i q) rec;
      let '(q, taken) := r in
      let c := if taken : bool then incIngested c rec else incDroppedQueueFull c in
      tail ← enqueue_all env (S i) rest q c;
      let '(q, c, acc, dr) := tail in
      Some (if taken : bool then (q, c, rec :: acc, dr) else (q, c, acc, rec :: dr))
  end.

Record EventsOptions := mkEventsOptions { eo_bodyCap : Z; eo_maxPayload : Z; eo_maxBatch : Z }.

(** The answer, the new state, and the records the queue took. *)
Definition eventsHandler (opts : EventsOptions) (env : nat -> Queue -> Queue) (draw : nat -> Draw) (now : time)
    (contentLength : Z) (body : Body) (queue : option Queue) (c : EventsCounters)
  : option (EventsAnswer * option Queue * EventsCounters * list CRecord) :=
  let body_error m := mkValidationError None "body" m in
  let reject a reason := Some (a, queue, incRejected c reason, []) in
  if ((eo_maxPayload opts >? 0) && (contentLength >? eo_maxPayload opts))%Z
  then reject (EvTooLarge (body_error MsgPayloadTooLarge)) RejectReasonPayloadTooLarge
  else match read_payload body (eo_maxPayload opts) with
  | None => reject (EvTooLarge (body_error MsgPayloadTooLarge)) RejectReasonPayloadTooLarge
  | Some rawBody =>
      match queue with
      | None => Some (EvNoPipeline, queue, c, [])
      | Some q =>
          if is_batch rawBody then
            match unmarshal_array rawBody with
            | None => reject (EvBadRequest [body_error MsgBadJSON]) RejectReasonInvalidJSON
            | Some [] => reject (EvBadRequest [body_error MsgEmptyBatch]) RejectReasonEmptyBatch
            | Some items =>
                if ((eo_maxBatch opts >? 0) && (Z.of_nat (length items) >? eo_maxBatch opts))%Z
                then reject (EvTooLarge (body_error MsgBatchTooLarge)) RejectReasonBatchTooLarge
                else
                  built ← build_all items 0 draw (eo_bodyCap opts) now;
                  match built with
                  | Err (reason, verrs) => reject (EvBadRequest verrs) reason
                  | Ok records =>
                      r ← enqueue_all env 0 records q c;
                      let '(q', c', acc, dr) := r in
                      Some (match dr, acc with
                            | [], _ => EvAccepted
                            | _, _ :: _ => EvMultiStatus (length acc) (length dr)
                            | _, [] => EvQueueFull
                            end, Some q', c', acc)
                  end
            end
          else
            built ← parseAndBuild rawBody None (draw 0) (eo_bodyCap opts) now;
            match built with
            | Err (reason, verrs) => reject (EvBadRequest verrs) reason
            | Ok rec =>
                r ← Enqueue (env 0 q) rec;
                let '(q', taken) := r in
                Some (if taken : bool then (EvAccepted, Some q', incIngested c rec, [rec])
                      else (EvQueueFull, Some q', incDroppedQueueFull c, []))
            end
      end
  end.

End Events.
