(* ===== verification/EventsFacts.v ===== *)
(** * The events endpoint is all-or-nothing *)
From S2P Require Import Prelude GoLib Record Capture CaptureFacts Events.

Open Scope string_scope.

Section Facts.
Context `{Unicode} `{MapRange} `{JsonDeps}.

Lemma validated_response e : validateResponseEvent e = [] -> is_Some (wr_Status e) /\ is_Some (wr_DurationMS e).
Proof.
  unfold validateResponseEvent, require. intros E.
  destruct (wr_Status e), (wr_DurationMS e); eauto; destruct (validate_service _); done.
Qed.

Lemma validated_outbound e : validateOutboundEvent e = [] ->
  is_Some (wo_Request e) /\ is_Some (wo_DurationMS e) /\
  forall p, wo_Response e = Some p -> is_Some (wh_Status p).
Proof.
  unfold validateOutboundEvent, require. intros [_ [E1 [E2 E3]%app_eq_nil]%app_eq_nil]%app_eq_nil.
  split_and!.
  - destruct (wo_Request e); [eauto|done].
  - destruct (wo_DurationMS e); [eauto|done].
  - intros p Hp. rewrite Hp in E3. destruct (wh_Status p); [eauto|done].
Qed.

(** A record built from an event is an event record, unless rejected. *)
Definition is_event (r : CRecord) : Prop := Kind r <> KindRequest.

Lemma parseAndBuild_total item idx d bodyCap now :
  exists r, parseAndBuild item idx d bodyCap now = Some r /\
    match r with Ok rec => is_event rec /\ RecordID rec = dw_id d | Err (_, es) => es <> [] end.
Proof.
  unfold parseAndBuild. destruct (unmarshal_response item) as [re|]; [|by eexists].
  destruct (String.eqb (wr_Type re) ""); [by eexists|]. destruct (String.eqb (wr_Type re) "response").
  - destruct (validateResponseEvent re) as [|e es] eqn:Ev; [|by eexists].
    destruct (too_large bodyCap (wr_Body re)); [by eexists|].
    destruct (validated_response re Ev) as [[st Hs] [du Hd]]. unfold buildResponseRecord.
    destruct (deriveCorrelation _ _ _) as [??], (capEventBody _ _) as [[??]?]. rewrite Hs, Hd. by eexists.
  - destruct (String.eqb (wr_Type re) "outbound"); [|by eexists].
    destruct (unmarshal_outbound item) as [oe|]; [|by eexists].
    destruct (validateOutboundEvent oe) as [|e es] eqn:Ev; [|by eexists].
    destruct (match wo_Request oe with Some _ => _ | None => _ end); [by eexists|].
    destruct (match wo_Response oe with Some _ => _ | None => _ end); [by eexists|].
    destruct (validated_outbound oe Ev) as ([q Hq] & [du Hd] & Hp). unfold buildOutboundRecord. rewrite Hq. cbn.
    destruct (deriveCorrelation _ _ _) as [??], (capEventBody (wh_Body q) _) as [[??]?].
    destruct (wo_Response oe) as [p|]; cbn.
    + destruct (capEventBody (wh_Body p) _) as [[??]?]. destruct (Hp p eq_refl) as [st Hst]. rewrite Hst, Hd. cbn. by eexists.
    + rewrite Hd. cbn. by eexists.
Qed.

(** The records of the items, each validated and built at its own index. *)
Inductive built (draw : nat -> Draw) (bodyCap : Z) (now : time) : nat -> list string -> list CRecord -> Prop :=
| built_nil i : built draw bodyCap now i [] []
| built_cons i item items rec recs :
    parseAndBuild item (Some i) (draw i) bodyCap now = Some (Ok rec) ->
    built draw bodyCap now (S i) items recs -> built draw bodyCap now i (item :: items) (rec :: recs).

Lemma build_all_total items i draw bodyCap now :
  exists r, build_all items i draw bodyCap now = Some r /\
    match r with
    | Ok recs => built draw bodyCap now i items recs
    | Err (_, es) => forall recs, built draw bodyCap now i items recs -> False
    end.
Proof.
  revert i. induction items as [|item items IH]; intros i; cbn [build_all]; [eexists; split; [done|constructor]|].
  destruct (parseAndBuild_total item (Some i) (draw i) bodyCap now) as (r & E & Hr). rewrite E. cbn.
  destruct r as [rec|[reason es]]; [|eexists; split; [done|]; cbn; inversion 1; congruence].
  destruct (IH (S i)) as (rs & -> & Hrs). cbn. eexists. split; [done|].
  destruct rs as [recs|[reason es]]; [by constructor|]. inversion 1; subst. by eapply Hrs.
Qed.

Lemma built_events draw bodyCap now i items recs : built draw bodyCap now i items recs ->
  (items <> [] -> recs <> []) /\ forall rec, rec ∈ recs -> is_event rec.
Proof.
  induction 1 as [i|i item items rec recs E Hb [_ IH]]; (split; [done|]); [intros rec []%elem_of_nil|].
  intros x [->|Hx]%elem_of_cons; [|auto].
  destruct (parseAndBuild_total item (Some i) (draw i) bodyCap now) as (r & E' & Hr).
  rewrite E in E'. injection E' as <-. apply Hr.
Qed.

(** The interference never closes the queue. *)
Definition stays_open (env : nat -> Queue -> Queue) : Prop :=
  forall i q, qu_closed q = false -> qu_closed (env i q) = false.

Lemma drop_foldl_comm c recs :
  foldl incIngested (incDroppedQueueFull c) recs = incDroppedQueueFull (foldl incIngested c recs).
Proof. revert c. induction recs as [|r recs IH]; intros c; [done|]. cbn [foldl]. rewrite <- IH. f_equal. by destruct r. Qed.

Lemma iter_drop n c :
  Nat.iter (S n) incDroppedQueueFull c = Nat.iter n incDroppedQueueFull (incDroppedQueueFull c).
Proof. apply Nat.iter_succ_r. Qed.

Lemma enqueue_all_total env i recs q c :
  stays_open env -> qu_closed q = false ->
  exists q' acc dr, enqueue_all env i recs q c =
      Some (q', Nat.iter (length dr) incDroppedQueueFull (foldl incIngested c acc), acc, dr) /\
    (acc ++ dr)%list ≡ₚ recs /\ acc `sublist_of` recs /\ qu_closed q' = false.
Proof.
  intros Henv. revert i q c. induction recs as [|rec recs IH]; intros i q c Hq; cbn [enqueue_all].
  { eexists q, [], []. done. }
  rewrite (Enqueue_open (env i q) rec (Henv i q Hq)).
  destruct (length (qu_buf (env i q)) <? qu_cap (env i q))%nat; cbn.
  - edestruct (IH (S i)) as (q' & acc & dr & E & Hp & Hs & Ho); [|rewrite E; exists q', (rec :: acc), dr]; [done|].
    split_and!; [done|cbn; by rewrite Hp|by constructor|done].
  - edestruct (IH (S i)) as (q' & acc & dr & E & Hp & Hs & Ho); [|rewrite E; exists q', acc, (rec :: dr)]; [done|].
    split_and!; [|by rewrite <- Permutation_middle, Hp|by constructor|done].
    by rewrite drop_foldl_comm, <- iter_drop.
Qed.

(** An admissible payload and its records: within the limits, a non-empty array
    of valid items or one valid item. *)
Definition admissible (opts : EventsOptions) (draw : nat -> Draw) (now : time) (contentLength : Z) (body : Body)
    (recs : list CRecord) : Prop :=
  ((eo_maxPayload opts >? 0) && (contentLength >? eo_maxPayload opts))%Z = false /\
  exists raw, read_payload body (eo_maxPayload opts) = Some raw /\
    if is_batch raw then
      exists items, unmarshal_array raw = Some items /\ items <> [] /\
        ((eo_maxBatch opts >? 0) && (Z.of_nat (length items) >? eo_maxBatch opts))%Z = false /\
        built draw (eo_bodyCap opts) now 0 items recs
    else exists rec, recs = [rec] /\ parseAndBuild raw None (draw 0) (eo_bodyCap opts) now = Some (Ok rec).

Lemma admissible_raw opts draw now contentLength body raw recs :
  ((eo_maxPayload opts >? 0) && (contentLength >? eo_maxPayload opts))%Z = false ->
  read_payload body (eo_maxPayload opts) = Some raw ->
  admissible opts draw now contentLength body recs <->
  if is_batch raw then
    exists items, unmarshal_array raw = Some items /\ items <> [] /\
      ((eo_maxBatch opts >? 0) && (Z.of_nat (length items) >? eo_maxBatch opts))%Z = false /\
      built draw (eo_bodyCap opts) now 0 items recs
  else exists rec, recs = [rec] /\ parseAndBuild raw None (draw 0) (eo_bodyCap opts) now = Some (Ok rec).
Proof.
  intros El Er. unfold admissible. rewrite El, Er. split; [by intros (_ & ? & [= <-] & ?)|]. intros Hx. split; [done|]. by exists raw.
Qed.

(** What an answer promises: a 4xx means the payload was not admissible, the
    queue is as it was, nothing was taken and one rejection was counted;
    otherwise the payload's records [recs] were offered, [taken] of them are
    queued and the rest was dropped, as status and counters say. *)
Definition outcome_ok (payload : list CRecord -> Prop) (q : Queue) (c : EventsCounters) (answer : EventsAnswer)
    (q' : option Queue) (c' : EventsCounters) (taken : list CRecord) : Prop :=
  if bool_decide (ev_status answer = 400 \/ ev_status answer = 413)%Z then
    (forall recs, payload recs -> False) /\ q' = Some q /\ taken = [] /\ exists reason, c' = incRejected c reason
  else exists recs dropped,
    payload recs /\ recs <> [] /\ (forall rec, rec ∈ recs -> is_event rec) /\
    (taken ++ dropped)%list ≡ₚ recs /\ taken `sublist_of` recs /\
    c' = Nat.iter (length dropped) incDroppedQueueFull (foldl incIngested c taken) /\
    (ev_status answer = 202%Z <-> dropped = []) /\ (ev_status answer = 503%Z <-> taken = []) /\
    (forall a d, answer = EvMultiStatus a d -> a = length taken /\ d = length dropped).

Lemma rejected_ok (payload : list CRecord -> Prop) q c a reason :
  (forall recs, payload recs -> False) -> ev_status a = 400%Z \/ ev_status a = 413%Z ->
  exists answer q' c' taken,
    Some (a, Some q, incRejected c reason, [] : list CRecord) = Some (answer, q', c', taken) /\
    outcome_ok payload q c answer q' c' taken.
Proof. intros Hn Ha. eexists _, _, _, _. split; [done|]. unfold outcome_ok. rewrite bool_decide_eq_true_2 by done. eauto. Qed.

Lemma offered_ok (payload : list CRecord -> Prop) q c recs taken dropped answer q' :
  payload recs -> recs <> [] -> (forall rec, rec ∈ recs -> is_event rec) ->
  (taken ++ dropped)%list ≡ₚ recs -> taken `sublist_of` recs ->
  answer = match dropped, taken with
           | [], _ => EvAccepted
           | _, _ :: _ => EvMultiStatus (length taken) (length dropped)
           | _, [] => EvQueueFull
           end ->
  outcome_ok payload q c answer q' (Nat.iter (length dropped) incDroppedQueueFull (foldl incIngested c taken)) taken.
Proof.
  intros Hpay Hne He Hp Hs ->. unfold outcome_ok.
  destruct dropped as [|x dr], taken as [|y acc]; rewrite bool_decide_eq_false_2 by (cbn; lia);
    [by apply Permutation_nil_l in Hp|..]; eexists recs, _; split_and!; try done; naive_solver.
Qed.

(** C31. An events payload is all or nothing up to the queue: the handler never
    panics; a 4xx answer is given exactly to a payload that is over a limit,
    empty or has an invalid item, and then nothing of it reached the queue, no
    record was counted as ingested and exactly one rejection reason was
    counted; otherwise every record of the payload was offered, 202 means all
    were taken, 207 reports exactly how many were and were not, 503 means none
    was, and the ingested and dropped counters advanced by those numbers, for
    every interference with the queue in between. *)
Theorem eventsHandler_all_or_nothing opts env draw now contentLength body q c :
  stays_open env -> qu_closed q = false ->
  exists answer q' c' taken, eventsHandler opts env draw now contentLength body (Some q) c
      = Some (answer, q', c', taken) /\
    outcome_ok (admissible opts draw now contentLength body) q c answer q' c' taken.
Proof.
  intros Henv Hq. unfold eventsHandler.
  destruct (_ && (contentLength >? _)%Z)%bool eqn:El; [apply rejected_ok; [intros ? []; congruence|by right]|].
  destruct (read_payload body _) as [raw|] eqn:Er; [|apply rejected_ok; [intros ? (_ & ? & ? & _); congruence|by right]].
  pose proof (fun recs => admissible_raw opts draw now contentLength body raw recs El Er) as Hadm.
  destruct (is_batch raw).
  - destruct (unmarshal_array raw) as [[|item items]|];
      [apply rejected_ok; [intros ? (? & ? & ? & _)%Hadm; congruence|by left]|
      |apply rejected_ok; [intros ? (? & ? & _)%Hadm; congruence|by left]].
    clear El. destruct (_ && _)%bool eqn:Em; [apply rejected_ok; [intros ? (? & ? & _ & ? & _)%Hadm; congruence|by right]|].
    destruct (build_all_total (item :: items) 0 draw (eo_bodyCap opts) now) as (r & -> & Hr). cbn [mbind option_bind].
    destruct r as [recs|[reason es]];
      [|apply rejected_ok; [intros recs (? & [= <-] & _ & _ & ?)%Hadm; by eapply Hr|by left]].
    destruct (built_events _ _ _ _ _ _ Hr) as [Hne He].
    destruct (enqueue_all_total env 0 recs q c Henv Hq) as (q' & acc & dr & -> & Hp & Hs & _). cbn.
    eexists _, _, _, _. split; [done|]. apply (offered_ok _ q c recs acc dr); [|by apply Hne|done..].
    apply Hadm. by exists (item :: items).
  - destruct (parseAndBuild_total raw None (draw 0) (eo_bodyCap opts) now) as (r & E & Hr). rewrite E. cbn [mbind option_bind].
    destruct r as [rec|[reason es]]; [|apply rejected_ok; [intros recs (? & _ & ?)%Hadm; congruence|by left]].
    rewrite (Enqueue_open (env 0 q) rec (Henv 0 q Hq)).
    assert (Hpay : admissible opts draw now contentLength body [rec]) by (apply Hadm; by exists rec).
    assert (He : forall x, x ∈ [rec] -> is_event x) by (intros x ->%list_elem_of_singleton; apply Hr).
    destruct (_ <? _)%nat; cbn; eexists _, _, _, _; (split; [done|]).
    + by apply (offered_ok _ q c [rec] [rec] []).
    + apply (offered_ok _ q c [rec] [] [rec]); try done. by constructor.
Qed.
End Facts.

(** A decoder for two fixed texts: a valid response event and an event without a type. *)
Definition sample_response : wireResponseEvent :=
  mkWireResponse "response" "" "shop" None (Some 200%Z) None "hi" "text/plain" (Some 3%Z).

#[local] Instance sample_json : JsonDeps := {|
  unmarshal_response s := if String.eqb s "R" then Some sample_response else None;
  unmarshal_outbound _ := None;
  unmarshal_array s := if String.eqb s "[R,R]" then Some ["R"; "R"] else None
|}.

#[local] Existing Instance ascii_unicode.
#[local] Existing Instance sorted_range.

Definition sample_opts : EventsOptions := mkEventsOptions 100 1000 10.
Definition sample_draw (i : nat) : Draw := mkDraw 7%Z "id" "corr".
Definition sample_body : Body := mkBody "[R,R]" false.

Definition sample_run :=
  eventsHandler sample_opts (fun _ q => q) sample_draw 7%Z 5%Z sample_body (Some (NewQueue 1)) NewEventsCounters.

(** Two events and one free place: 207 with one taken and one dropped. *)
Lemma eventsHandler_all_or_nothing_witness :
  (exists answer q' c' taken, sample_run = Some (answer, q', c', taken) /\
     outcome_ok (admissible sample_opts sample_draw 7%Z 5%Z sample_body) (NewQueue 1) NewEventsCounters answer q' c' taken) /\
  match sample_run with Some (answer, _, _, _) => answer = EvMultiStatus 1 1 | None => False end.
Proof.
  split; [|by vm_compute].
  apply eventsHandler_all_or_nothing; [by intros i q|done].
Defined.
