(* ===== verification/ConfigFacts.v ===== *)
(** * Loading a configuration: precedence, strictness, and what it guarantees

    The overlays of the code are compared with one declarative table that gives
    each setting its value from environment, file and default. *)
From S2P Require Import Prelude GoLib GoTime Record Capture CaptureFacts Pipeline MemorySink Redact Config Auth.

Open Scope string_scope.
Open Scope go_scope.

(** ** Optional updates as total updates *)

(** [get] reads what [set] writes: writing it back changes nothing. *)
Class Lens {A} (set : Config -> A -> Config) (get : Config -> A) : Prop := lens_law : forall c, set c (get c) = c.

Lemma opt_set_lens {A} set get `{L : !Lens (A:=A) set get} v c : opt_set set v c = set c (default (get c) v).
Proof. destruct v; [done|]. cbn. symmetry. exact (L c). Qed.

Ltac lens := intros []; repeat match goal with r : TimeoutsConfig |- _ => destruct r | r : AdminConfig |- _ => destruct r
  | r : InspectConfig |- _ => destruct r | r : SinksConfig |- _ => destruct r | r : SinksRetentionConfig |- _ => destruct r end; reflexivity.

Abbreviation in_timeouts f := (fun c => f (cfg_Timeouts c)).
Abbreviation in_sinks f := (fun c => f (cfg_Sinks c)).
Abbreviation in_retention f := (fun c => f (sc_Retention (cfg_Sinks c))).
Abbreviation in_admin f := (fun c => f (cfg_Admin c)).

#[local] Instance lens1 : Lens set_CapturePort cfg_CapturePort. Proof. lens. Qed.
#[local] Instance lens2 : Lens set_CaptureBind cfg_CaptureBind. Proof. lens. Qed.
#[local] Instance lens3 : Lens set_QueueSize cfg_QueueSize. Proof. lens. Qed.
#[local] Instance lens4 : Lens set_BodyCap cfg_BodyCap. Proof. lens. Qed.
#[local] Instance lens5 : Lens set_MaxEventsPayload cfg_MaxEventsPayload. Proof. lens. Qed.
#[local] Instance lens6 : Lens set_MaxEventsPerBatch cfg_MaxEventsPerBatch. Proof. lens. Qed.
#[local] Instance lens7 : Lens set_Workers cfg_Workers. Proof. lens. Qed.
#[local] Instance lens8 : Lens set_ServiceHeader cfg_ServiceHeader. Proof. lens. Qed.
#[local] Instance lens9 : Lens set_LogFormat cfg_LogFormat. Proof. lens. Qed.
#[local] Instance lens10 : Lens set_Timeouts_ReadHeader (in_timeouts tc_ReadHeader). Proof. lens. Qed.
#[local] Instance lens11 : Lens set_Timeouts_Read (in_timeouts tc_Read). Proof. lens. Qed.
#[local] Instance lens12 : Lens set_Timeouts_Write (in_timeouts tc_Write). Proof. lens. Qed.
#[local] Instance lens13 : Lens set_Timeouts_Idle (in_timeouts tc_Idle). Proof. lens. Qed.
#[local] Instance lens14 : Lens set_Sinks_Stdout (in_sinks sc_Stdout). Proof. lens. Qed.
#[local] Instance lens15 : Lens set_Sinks_Memory (in_sinks sc_Memory). Proof. lens. Qed.
#[local] Instance lens16 : Lens set_Sinks_MemoryCapacity (in_sinks sc_MemoryCapacity). Proof. lens. Qed.
#[local] Instance lens17 : Lens set_Sinks_SQLite (in_sinks sc_SQLite). Proof. lens. Qed.
#[local] Instance lens18 : Lens set_Sinks_SQLitePath (in_sinks sc_SQLitePath). Proof. lens. Qed.
#[local] Instance lens19 : Lens set_Retention_MaxAge (in_retention sr_MaxAge). Proof. lens. Qed.
#[local] Instance lens20 : Lens set_Retention_MaxCount (in_retention sr_MaxCount). Proof. lens. Qed.
#[local] Instance lens21 : Lens set_Retention_Interval (in_retention sr_Interval). Proof. lens. Qed.
#[local] Instance lens22 : Lens set_Admin_Bind (in_admin ac_Bind). Proof. lens. Qed.
#[local] Instance lens23 : Lens set_Admin_Token (in_admin ac_Token). Proof. lens. Qed.
#[local] Instance lens24 : Lens set_Admin_InsecureListen (in_admin ac_InsecureListen). Proof. lens. Qed.
#[local] Instance lens25 : Lens set_Admin_SessionTTL (in_admin ac_SessionTTL). Proof. lens. Qed.
#[local] Instance lens26 : Lens set_Admin_SessionSecure (in_admin ac_SessionSecure). Proof. lens. Qed.
#[local] Instance lens27 : Lens set_Inspect_QueryTimeout (fun c => ic_QueryTimeout (cfg_Inspect c)). Proof. lens. Qed.

(** Push optional updates into an explicit configuration, innermost first. *)
Ltac fields := cbn [
    set_CapturePort set_CaptureBind set_QueueSize set_BodyCap set_MaxEventsPayload set_MaxEventsPerBatch
    set_Workers set_ServiceHeader set_LogFormat set_Timeouts set_Sinks set_Redaction set_Admin set_Inspect
    set_Timeouts_ReadHeader set_Timeouts_Read set_Timeouts_Write set_Timeouts_Idle set_Sinks_Stdout
    set_Sinks_Memory set_Sinks_MemoryCapacity set_Sinks_SQLite set_Sinks_SQLitePath set_Sinks_Retention
    set_Retention_MaxAge set_Retention_MaxCount set_Retention_Interval set_Admin_Bind set_Admin_Token
    set_Admin_InsecureListen set_Admin_SessionTTL set_Admin_SessionSecure set_Inspect_QueryTimeout
    cfg_CapturePort cfg_CaptureBind cfg_QueueSize cfg_BodyCap cfg_MaxEventsPayload cfg_MaxEventsPerBatch
    cfg_Workers cfg_ServiceHeader cfg_LogFormat cfg_Timeouts cfg_Sinks cfg_Redaction cfg_Admin cfg_Inspect
    tc_ReadHeader tc_Read tc_Write tc_Idle sc_Stdout sc_Memory sc_MemoryCapacity sc_SQLite sc_SQLitePath
    sc_Retention sr_MaxAge sr_MaxCount sr_Interval ac_Bind ac_Token ac_InsecureListen ac_SessionTTL
    ac_SessionSecure ic_QueryTimeout].
Ltac push_updates :=
  repeat match goal with
  | |- context [opt_set ?s ?v (mkConfig ?a1 ?a2 ?a3 ?a4 ?a5 ?a6 ?a7 ?a8 ?a9 ?a10 ?a11 ?a12 ?a13 ?a14)] =>
      rewrite (opt_set_lens s _ v (mkConfig a1 a2 a3 a4 a5 a6 a7 a8 a9 a10 a11 a12 a13 a14)); fields
  end.

(** ** The loops *)

(** A step succeeds exactly under [P], and then yields [d]. *)
Definition yields (r : result ConfigError Config) (P : Prop) (d : Config) : Prop := forall c, r = Ok c <-> P /\ c = d.

Lemma yields_try m P d (k : Config -> result ConfigError Config) Q e :
  yields m P d -> yields (k d) Q e -> yields (try c <- m; k c) (P /\ Q) e.
Proof.
  unfold yields. intros Hm Hk c. destruct m as [c1|e1].
  - destruct (proj1 (Hm c1) eq_refl) as [HP ->]. rewrite Hk. naive_solver.
  - split; [done|]. intros [[HP _] _]. discriminate (proj2 (Hm d) (conj HP eq_refl)).
Qed.

Lemma yields_iff r P Q d e : yields r P d -> (P <-> Q) -> d = e -> yields r Q e.
Proof. unfold yields. intros Hr HPQ <- c. by rewrite Hr, HPQ. Qed.

Lemma yields_ok c : yields (Ok c) True c.
Proof. intros d. naive_solver. Qed.

(** A duration text that parses, if there is one. *)
Definition text_ok (o : option string) : Prop := forall v, o = Some v -> is_Some (ParseDuration v).

Definition duration_of (o : option string) : option duration := o ≫= ParseDuration.

Lemma raw_durations_yields steps c :
  yields (raw_durations steps c) (Forall (fun st => text_ok st.1.2) steps)
    (foldl (fun c st => opt_set st.2 (duration_of st.1.2) c) c steps).
Proof.
  revert c. induction steps as [|[[key o] set] steps IH]; intros c d; simpl.
  { split; [intros [= <-]|intros [_ ->]]; auto. }
  rewrite Forall_cons. destruct o as [v|]; simpl.
  - destruct (ParseDuration v) as [x|] eqn:E; simpl.
    + rewrite (IH _ d). split; [|naive_solver]. intros [Hs ->]. split; [split; [|done]|done]. intros w [= <-]. by eexists.
    + split; [done|]. intros [[Ht _] _]. destruct (Ht v eq_refl). simpl in *. congruence.
  - rewrite (IH c d). split; [|naive_solver]. intros [Hs ->]. split; [split; [|done]|done]. done.
Qed.

(** The value an environment variable gives, if it is set and not empty. *)
Definition env_value {A} (parse : string -> option A) (env : string -> string) (name : string) : option A :=
  if String.eqb (env name) "" then None else parse (env name).

Definition env_good {A} (parse : string -> option A) (env : string -> string) (name : string) : Prop :=
  env name <> "" -> is_Some (parse (env name)).

Lemma env_steps_yields {A} (parse : string -> option A) bad env steps c :
  yields (env_steps parse bad env steps c) (Forall (env_good parse env) (fst <$> steps))
    (foldl (fun c st => opt_set st.2 (env_value parse env st.1) c) c steps).
Proof.
  revert c. induction steps as [|[name set] steps IH]; intros c d; simpl.
  { split; [intros [= <-]|intros [_ ->]]; auto. }
  rewrite Forall_cons. unfold env_good at 1.
  assert (Hv : env_value parse env name = if String.eqb (env name) "" then None else parse (env name)) by done.
  rewrite Hv. destruct (String.eqb_spec (env name) "") as [E|E]; simpl.
  - rewrite (IH c d). naive_solver.
  - destruct (parse (env name)) as [x|] eqn:Ep; simpl.
    + rewrite (IH _ d). split; [|naive_solver]. intros [Hs ->]. split; [split; [by eexists|done]|done].
    + split; [done|]. intros [[Ht _] _]. by destruct (Ht E).
Qed.

Section Facts.
Context `{Unicode}.

Definition sink_name (name : string) : string := ToLower (TrimSpace name).
Definition known_sink (name : string) : Prop :=
  sink_name name = "stdout" \/ sink_name name = "memory" \/ sink_name name = "sqlite".

(** Whether [names] asks for the sink. *)
Definition asks (sink : string) (names : list string) : bool := existsb (fun n => String.eqb (sink_name n) sink) names.

Definition set_sinks (c : Config) (stdout memory sqlite : bool) : Config :=
  set_Sinks_SQLite (set_Sinks_Memory (set_Sinks_Stdout c stdout) memory) sqlite.

Lemma enable_sinks_yields names c so me sq :
  yields (enable_sinks names (set_sinks c so me sq)) (Forall known_sink names)
    (set_sinks c (so || asks "stdout" names) (me || asks "memory" names) (sq || asks "sqlite" names)).
Proof.
  revert so me sq. induction names as [|n names IH]; intros so me sq d; simpl.
  { rewrite !orb_false_r. split; [intros [= <-]|intros [_ ->]]; auto. }
  rewrite Forall_cons. unfold known_sink at 1. fold (sink_name n).
  assert (Hset : forall s1 m1 q1, set_Sinks_Stdout (set_sinks c s1 m1 q1) true = set_sinks c true m1 q1 /\
    set_Sinks_Memory (set_sinks c s1 m1 q1) true = set_sinks c s1 true q1 /\
    set_Sinks_SQLite (set_sinks c s1 m1 q1) true = set_sinks c s1 m1 true).
  { intros s1 m1 q1. destruct c as [??????????[]???]. done. }
  destruct (Hset so me sq) as (E1 & E2 & E3).
  destruct (String.eqb_spec (sink_name n) "stdout") as [->|N1]; [rewrite E1, (IH _ _ _ d); cbn; rewrite ?orb_true_r; naive_solver|].
  destruct (String.eqb_spec (sink_name n) "memory") as [->|N2]; [rewrite E2, (IH _ _ _ d); cbn; rewrite ?orb_true_r; naive_solver|].
  destruct (String.eqb_spec (sink_name n) "sqlite") as [->|N3]; [rewrite E3, (IH _ _ _ d); cbn; rewrite ?orb_true_r; naive_solver|].
  naive_solver.
Qed.

(** The sinks variable replaces the file's choice. *)
Definition env_sink (env : string -> string) (sink : string) : option bool :=
  if String.eqb (env "HTTPCATCH_SINKS") "" then None else Some (asks sink (fields_comma (env "HTTPCATCH_SINKS"))).

Lemma env_sinks_yields env c :
  yields (env_sinks env c) (env "HTTPCATCH_SINKS" <> "" -> Forall known_sink (fields_comma (env "HTTPCATCH_SINKS")))
    (opt_set set_Sinks_SQLite (env_sink env "sqlite") (opt_set set_Sinks_Memory (env_sink env "memory")
      (opt_set set_Sinks_Stdout (env_sink env "stdout") c))).
Proof.
  intros d. unfold env_sinks, env_sink. destruct (String.eqb_spec (env "HTTPCATCH_SINKS") "") as [E|E]; simpl.
  - split; [intros [= <-]|intros [_ ->]]; done.
  - rewrite (enable_sinks_yields _ c false false false d). unfold set_sinks. naive_solver.
Qed.

(** ** The table of settings *)

(** A file without settings, which stands for no file. *)
Definition no_settings : rawConfig :=
  mkRawConfig None None None None None None None None None None (mkRawSinks None None None None None None) None None None.

(** File over default. *)
Definition from_file (cpus : Z) (raw : rawConfig) : Config :=
  mkConfig (default 8080%Z (raw_CapturePort raw)) (default "" (raw_CaptureBind raw)) (default 1024%Z (raw_QueueSize raw))
    (default 1048576%Z (raw_BodyCap raw)) (default 1048576%Z (raw_MaxEventsPayload raw))
    (default 1000%Z (raw_MaxEventsPerBatch raw)) (default cpus (raw_Workers raw))
    (default "X-Httpcatch-Service" (raw_ServiceHeader raw)) (default "text" (raw_LogFormat raw))
    (mkTimeouts (default (10 * second)%Z (duration_of (raw_Timeouts raw ≫= rt_ReadHeader))) (default (60 * second)%Z (duration_of (raw_Timeouts raw ≫= rt_Read)))
       (default (30 * second)%Z (duration_of (raw_Timeouts raw ≫= rt_Write))) (default (120 * second)%Z (duration_of (raw_Timeouts raw ≫= rt_Idle))))
    (mkSinks (default false (rk_Stdout (raw_Sinks raw))) (default false (rk_Memory (raw_Sinks raw)))
       (default 1000%Z (rk_MemoryCapacity (raw_Sinks raw))) (default false (rk_SQLite (raw_Sinks raw)))
       (default "./httpcatch.db" (rk_SQLitePath (raw_Sinks raw)))
       (mkRetention (default 0%Z (duration_of (rk_Retention (raw_Sinks raw) ≫= rr_MaxAge))) (default 0%Z (rk_Retention (raw_Sinks raw) ≫= rr_MaxCount))
          (default 0%Z (duration_of (rk_Retention (raw_Sinks raw) ≫= rr_Interval)))))
    (default (mkRedactionConfig [] [] [] [] []) (raw_Redaction raw))
    (mkAdminConfig (default "127.0.0.1:8081" (raw_Admin raw ≫= ra_Bind)) (default "" (raw_Admin raw ≫= ra_Token)) (default false (raw_Admin raw ≫= ra_InsecureListen))
       (default (24 * 3600 * second)%Z (duration_of (raw_Admin raw ≫= ra_SessionTTL))) (default false (raw_Admin raw ≫= ra_SessionSecure)))
    (mkInspectConfig (default (5 * second)%Z (duration_of (raw_Inspect raw ≫= ri_QueryTimeout)))).

(** Environment over file; the redaction rules come from the file only. *)
Definition with_env (c : Config) (env : string -> string) : Config :=
  let int name v := default v (env_value Atoi env ("HTTPCATCH_" +:+ name)) in
  let text name v := default v (env_value Some env ("HTTPCATCH_" +:+ name)) in
  let dur name v := default v (env_value ParseDuration env ("HTTPCATCH_" +:+ name)) in
  let flag name v := default v (env_value parseBoolEnv env ("HTTPCATCH_" +:+ name)) in
  let t := cfg_Timeouts c in let s := cfg_Sinks c in let r := sc_Retention s in let a := cfg_Admin c in
  mkConfig (int "CAPTURE_PORT" (cfg_CapturePort c)) (text "CAPTURE_BIND" (cfg_CaptureBind c)) (int "QUEUE_SIZE" (cfg_QueueSize c))
    (int "BODY_CAP" (cfg_BodyCap c)) (int "MAX_EVENTS_PAYLOAD" (cfg_MaxEventsPayload c))
    (int "MAX_EVENTS_PER_BATCH" (cfg_MaxEventsPerBatch c)) (int "WORKER_COUNT" (cfg_Workers c))
    (text "SERVICE_HEADER" (cfg_ServiceHeader c)) (text "LOG_FORMAT" (cfg_LogFormat c))
    (mkTimeouts (dur "READ_HEADER_TIMEOUT" (tc_ReadHeader t)) (dur "READ_TIMEOUT" (tc_Read t))
       (dur "WRITE_TIMEOUT" (tc_Write t)) (dur "IDLE_TIMEOUT" (tc_Idle t)))
    (mkSinks (default (sc_Stdout s) (env_sink env "stdout")) (default (sc_Memory s) (env_sink env "memory"))
       (int "MEMORY_CAPACITY" (sc_MemoryCapacity s)) (default (sc_SQLite s) (env_sink env "sqlite"))
       (text "SQLITE_PATH" (sc_SQLitePath s))
       (mkRetention (dur "SINKS_RETENTION_MAX_AGE" (sr_MaxAge r)) (int "SINKS_RETENTION_MAX_COUNT" (sr_MaxCount r))
          (dur "SINKS_RETENTION_INTERVAL" (sr_Interval r))))
    (cfg_Redaction c)
    (mkAdminConfig (text "ADMIN_BIND" (ac_Bind a)) (text "ADMIN_TOKEN" (ac_Token a)) (flag "ADMIN_INSECURE_LISTEN" (ac_InsecureListen a))
       (dur "ADMIN_SESSION_TTL" (ac_SessionTTL a)) (flag "ADMIN_SESSION_SECURE" (ac_SessionSecure a)))
    (mkInspectConfig (dur "INSPECT_QUERY_TIMEOUT" (ic_QueryTimeout (cfg_Inspect c)))).

(** Without a capture address the port is used on all interfaces. *)
Definition with_bind (c : Config) : Config :=
  if String.eqb (cfg_CaptureBind c) "" then set_CaptureBind c ("0.0.0.0:" +:+ Itoa (cfg_CapturePort c)) else c.

Lemma with_bind_derived c : cfg_CaptureBind c = "" ->
  cfg_CaptureBind (with_bind c) = "0.0.0.0:" +:+ Itoa (cfg_CapturePort (with_bind c)).
Proof. intros E. unfold with_bind. rewrite E. by destruct c. Qed.

(** Every duration of the file is one. *)
Definition file_ok (raw : rawConfig) : Prop :=
  Forall text_ok
    [raw_Timeouts raw ≫= rt_ReadHeader; raw_Timeouts raw ≫= rt_Read; raw_Timeouts raw ≫= rt_Write; raw_Timeouts raw ≫= rt_Idle;
     rk_Retention (raw_Sinks raw) ≫= rr_MaxAge; rk_Retention (raw_Sinks raw) ≫= rr_Interval;
     raw_Admin raw ≫= ra_SessionTTL; raw_Inspect raw ≫= ri_QueryTimeout].

(** Every variable that is set has a value of its type. *)
Definition env_ok (env : string -> string) : Prop :=
  Forall (fun n => env_good Atoi env ("HTTPCATCH_" +:+ n))
    ["CAPTURE_PORT"; "QUEUE_SIZE"; "BODY_CAP"; "MAX_EVENTS_PAYLOAD"; "MAX_EVENTS_PER_BATCH"; "WORKER_COUNT"; "MEMORY_CAPACITY";
     "SINKS_RETENTION_MAX_COUNT"] /\
  Forall (fun n => env_good ParseDuration env ("HTTPCATCH_" +:+ n))
    ["SINKS_RETENTION_MAX_AGE"; "SINKS_RETENTION_INTERVAL"; "READ_HEADER_TIMEOUT"; "READ_TIMEOUT"; "WRITE_TIMEOUT"; "IDLE_TIMEOUT";
     "ADMIN_SESSION_TTL"; "INSPECT_QUERY_TIMEOUT"] /\
  Forall (fun n => env_good parseBoolEnv env ("HTTPCATCH_" +:+ n)) ["ADMIN_INSECURE_LISTEN"; "ADMIN_SESSION_SECURE"] /\
  (env "HTTPCATCH_SINKS" <> "" -> Forall known_sink (fields_comma (env "HTTPCATCH_SINKS"))).

Lemma applyEnv_yields c env : yields (applyEnv c env) (env_ok env) (with_env c env).
Proof.
  unfold applyEnv. eapply yields_iff.
  - do 4 (eapply yields_try; [apply env_steps_yields|]). eapply yields_try; [apply env_sinks_yields|].
    do 5 (eapply yields_try; [apply env_steps_yields|]). apply env_steps_yields.
  - unfold env_ok. cbn [fmap list_fmap fst]. rewrite !Forall_cons, !Forall_nil. unfold env_good. cbn [String.append].
    assert (Hs : forall v, is_Some (Some v : option string)) by (by eexists). naive_solver.
  - destruct c as [?????????[][?????[]]?[][]]. cbn [foldl fst snd]. by push_updates.
Qed.

(** A whole section is optional; without it nothing is written. *)
Lemma when_yields {A} (o : option A) f c (P : A -> Prop) (g : A -> Config) Q d :
  (forall x, yields (f x c) (P x) (g x)) ->
  (forall x, o = Some x -> (P x <-> Q) /\ g x = d) -> (o = None -> Q /\ c = d) ->
  yields (when o f c) Q d.
Proof.
  intros Hf Hs Hn. destruct o as [x|]; cbn.
  - destruct (Hs x eq_refl) as [HP <-]. by eapply yields_iff.
  - destruct (Hn eq_refl) as [HQ <-]. intros e. naive_solver.
Qed.

Lemma raw_timeouts_yields o c :
  yields (when o raw_timeouts c) (Forall text_ok [o ≫= rt_ReadHeader; o ≫= rt_Read; o ≫= rt_Write; o ≫= rt_Idle])
    (opt_set set_Timeouts_Idle (duration_of (o ≫= rt_Idle)) (opt_set set_Timeouts_Write (duration_of (o ≫= rt_Write))
      (opt_set set_Timeouts_Read (duration_of (o ≫= rt_Read)) (opt_set set_Timeouts_ReadHeader (duration_of (o ≫= rt_ReadHeader)) c)))).
Proof.
  eapply when_yields; [intros x; apply raw_durations_yields|intros x ->; by rewrite !Forall_cons, !Forall_nil|].
  intros ->. split; [by repeat constructor|done].
Qed.

Lemma raw_retention_yields o c :
  yields (when o raw_retention c) (Forall text_ok [o ≫= rr_MaxAge; o ≫= rr_Interval])
    (opt_set set_Retention_MaxCount (o ≫= rr_MaxCount) (opt_set set_Retention_Interval (duration_of (o ≫= rr_Interval))
      (opt_set set_Retention_MaxAge (duration_of (o ≫= rr_MaxAge)) c))).
Proof.
  eapply when_yields; [intros x; eapply yields_try; [apply raw_durations_yields|apply yields_ok]|..].
  - intros x ->. rewrite !Forall_cons, !Forall_nil. split; [tauto|done].
  - intros ->. split; [by repeat constructor|done].
Qed.

Lemma raw_admin_yields o c :
  yields (when o raw_admin c) (text_ok (o ≫= ra_SessionTTL))
    (opt_set set_Admin_SessionSecure (o ≫= ra_SessionSecure) (opt_set set_Admin_SessionTTL (duration_of (o ≫= ra_SessionTTL))
      (opt_set set_Admin_InsecureListen (o ≫= ra_InsecureListen) (opt_set set_Admin_Token (o ≫= ra_Token)
        (opt_set set_Admin_Bind (o ≫= ra_Bind) c))))).
Proof.
  eapply when_yields; [intros x; eapply yields_try; [apply raw_durations_yields|apply yields_ok]|..].
  - intros x ->. rewrite !Forall_cons, !Forall_nil. split; [cbn; tauto|done].
  - intros ->. done.
Qed.

Lemma raw_inspect_yields o c :
  yields (when o raw_inspect c) (text_ok (o ≫= ri_QueryTimeout))
    (opt_set set_Inspect_QueryTimeout (duration_of (o ≫= ri_QueryTimeout)) c).
Proof.
  eapply when_yields; [intros x; apply raw_durations_yields|..].
  - intros x ->. rewrite !Forall_cons, !Forall_nil. split; [cbn; tauto|done].
  - intros ->. done.
Qed.

Lemma raw_redaction_yields o c : cfg_Redaction c = mkRedactionConfig [] [] [] [] [] ->
  yields (when o raw_redaction c) True (set_Redaction c (default (cfg_Redaction c) o)).
Proof.
  intros Hc. eapply when_yields; [intros x; apply yields_ok|..].
  - intros x ->. split; [done|]. rewrite Hc. by destruct x as [???[|??][|??]].
  - intros ->. split; [done|]. by destruct c.
Qed.

Lemma applyRaw_yields cpus raw : yields (applyRaw (Defaults cpus) raw) (file_ok raw) (from_file cpus raw).
Proof.
  unfold applyRaw, Defaults. push_updates. eapply yields_iff.
  - eapply yields_try; [apply raw_timeouts_yields|]. eapply yields_try; [apply raw_retention_yields|].
    push_updates. eapply yields_try; [by apply raw_redaction_yields|]. fields.
    eapply yields_try; [apply raw_admin_yields|apply raw_inspect_yields].
  - unfold file_ok. rewrite !Forall_cons, !Forall_nil. tauto.
  - unfold from_file. by push_updates.
Qed.

(** ** Validation *)

Definition port_ok (p : Z) : Prop := (1 <= p <= 65535)%Z.

(** What a usable configuration satisfies. *)
Record valid (c : Config) : Prop := {
  v_port : port_ok (cfg_CapturePort c);
  v_bind : cfg_CaptureBind c = "" \/
    exists host portStr p, SplitHostPort (cfg_CaptureBind c) = Ok (host, portStr) /\ Atoi portStr = Some p /\ port_ok p;
  v_queue : (1 <= cfg_QueueSize c)%Z;
  v_workers : (1 <= cfg_Workers c)%Z;
  v_caps : (0 <= cfg_BodyCap c /\ 0 <= cfg_MaxEventsPayload c /\ 0 <= cfg_MaxEventsPerBatch c)%Z;
  v_timeouts : let t := cfg_Timeouts c in (0 <= tc_ReadHeader t /\ 0 <= tc_Read t /\ 0 <= tc_Write t /\ 0 <= tc_Idle t)%Z;
  v_memory : (1 <= sc_MemoryCapacity (cfg_Sinks c))%Z;
  v_sqlite : sc_SQLite (cfg_Sinks c) = true -> sc_SQLitePath (cfg_Sinks c) <> "";
  v_retention : let r := sc_Retention (cfg_Sinks c) in
    (0 <= sr_MaxAge r /\ 0 <= sr_MaxCount r /\ 0 <= sr_Interval r /\ ~ (0 < sr_MaxAge r /\ 0 < sr_MaxCount r))%Z /\
    (sc_SQLite (cfg_Sinks c) = false -> sr_MaxAge r = 0 /\ sr_MaxCount r = 0 /\ sr_Interval r = 0)%Z;
  v_log : cfg_LogFormat c = "text" \/ cfg_LogFormat c = "json";
  v_ttl : (0 < ac_SessionTTL (cfg_Admin c))%Z;
  v_query : (0 <= ic_QueryTimeout (cfg_Inspect c))%Z
}.

Lemma issue_nil b e rest : (issue b e ++ rest)%list = [] <-> b = false /\ rest = [].
Proof. destruct b; cbn; naive_solver. Qed.

Lemma port_in_range_true p : port_in_range p = true <-> port_ok p.
Proof. unfold port_in_range, port_ok. rewrite negb_true_iff, orb_false_iff, Z.ltb_ge, Z.gtb_ltb, Z.ltb_ge. lia. Qed.

Lemma bind_ok_true bind : bind_ok bind = true <->
  exists host portStr p, SplitHostPort bind = Ok (host, portStr) /\ Atoi portStr = Some p /\ port_ok p.
Proof.
  unfold bind_ok. setoid_rewrite <- port_in_range_true. destruct (SplitHostPort bind) as [[h ps]|]; [|naive_solver].
  destruct (Atoi ps) eqn:E; naive_solver.
Qed.

Lemma Config_Validate_valid c : Config_Validate c = [] <-> valid c.
Proof.
  unfold Config_Validate. rewrite !issue_nil, <- (app_nil_r (issue (ic_QueryTimeout _ <? 0)%Z _)), issue_nil.
  rewrite !andb_false_iff, !orb_false_iff, !negb_false_iff, !Z.gtb_ltb, !Z.ltb_ge, !Z.leb_gt, !String.eqb_eq, !String.eqb_neq,
    port_in_range_true, bind_ok_true.
  split.
  - intros. destruct_and!. destruct (sc_SQLite (cfg_Sinks c)) eqn:Es;
      (constructor; cbn; rewrite ?Es; try tauto; try lia; try (intuition (congruence || lia))).
  - intros []. cbn in *. destruct (sc_SQLite (cfg_Sinks c)); intuition lia.
Qed.

(** ** Load *)

(** The default capture address splits into all interfaces and the port. *)
Lemma no_byte_digits s (d : ascii) : is_digit d = false -> str_forall is_digit s = true ->
  LastIndexByte s d = None /\ ContainsByte s d = false.
Proof.
  intros Hd. unfold ContainsByte, str_exists. induction s as [|c s IH]; [done|]. simpl. intros Hs. bool_hyps.
  destruct IH as [-> IH]; [done|]. assert (Hc : Ascii.eqb d c = false) by (apply Ascii.eqb_neq; intros ->; congruence).
  rewrite Hc in *. done.
Qed.

Lemma SplitHostPort_all p : (0 <= p)%Z -> SplitHostPort ("0.0.0.0:" +:+ Itoa p) = Ok ("0.0.0.0", Itoa p).
Proof.
  intros Hp. unfold Itoa. rewrite (proj2 (Z.ltb_ge _ _)) by done.
  pose proof (Itoa_N_digits (Z.abs_N p)) as D. set (s := Itoa_N _) in *.
  destruct (no_byte_digits s ":" eq_refl D) as [E _]. destruct (no_byte_digits s "[" eq_refl D) as [_ E1].
  destruct (no_byte_digits s "]" eq_refl D) as [_ E2].
  unfold SplitHostPort. cbn. rewrite E. cbn. by rewrite !ContainsByte_cons, E1, E2.
Qed.

Context `{YamlDeps}.

(** The settings of the file, if it could be read and decoded. *)
Definition file_settings (file : option (option string)) : option rawConfig :=
  match file with
  | None => Some no_settings
  | Some None => None
  | Some (Some data) => yaml_Unmarshal data
  end.

Definition resolved (cpus : Z) (raw : rawConfig) (env : string -> string) : Config :=
  with_bind (with_env (from_file cpus raw) env).

Lemma load_file_yields cpus file raw : file_settings file = Some raw ->
  yields (load_file file (Defaults cpus)) (file_ok raw) (from_file cpus raw).
Proof.
  destruct file as [[data|]|]; cbn; [|done|].
  - intros ->. apply applyRaw_yields.
  - intros [= <-]. eapply yields_iff; [apply yields_ok| |done]. split; [|done]. intros _. by repeat constructor.
Qed.

(** The overlays together, before the address default and validation. *)
Lemma overlays_yield cpus file raw env : file_settings file = Some raw ->
  yields (try c <- load_file file (Defaults cpus); applyEnv c env) (file_ok raw /\ env_ok env) (with_env (from_file cpus raw) env).
Proof.
  intros Ef. apply (yields_try _ _ (from_file cpus raw) (fun c => applyEnv c env)); [by apply load_file_yields|].
  apply applyEnv_yields.
Qed.

Lemma Load_unfold cpus file env c : Load cpus file env = Ok c <->
  exists c', (try c <- load_file file (Defaults cpus); applyEnv c env) = Ok c' /\ c = with_bind c' /\ Config_Validate c = [].
Proof.
  unfold Load. destruct (load_file file (Defaults cpus)) as [c1|]; [|naive_solver].
  destruct (applyEnv c1 env) as [c2|]; [|naive_solver]. fold (with_bind c2).
  destruct (Config_Validate (with_bind c2)) eqn:Ev; naive_solver congruence.
Qed.

Lemma Load_inv cpus file env c : Load cpus file env = Ok c ->
  exists raw, file_settings file = Some raw /\ file_ok raw /\ env_ok env /\ c = resolved cpus raw env /\ valid c.
Proof.
  intros (c' & E & -> & V%Config_Validate_valid)%Load_unfold. destruct (file_settings file) as [raw|] eqn:Ef.
  - apply (overlays_yield cpus file raw env Ef) in E as [[Hf He] ->]. by exists raw.
  - destruct file as [[data|]|]; cbn in Ef, E; [by rewrite Ef in E|done..].
Qed.

(** C32. Loading a configuration succeeds exactly when the file can be read and
    decoded, every duration of the file and every environment variable that is
    set parses, every name in HTTPCATCH_SINKS is a sink, and the result is
    valid; and then each setting is the environment's value if that is set,
    else the file's, else the default, with the capture address derived from
    the port when none is given. *)
Theorem Load_resolves cpus file env c :
  Load cpus file env = Ok c <->
  exists raw, file_settings file = Some raw /\ file_ok raw /\ env_ok env /\ c = resolved cpus raw env /\ valid c.
Proof.
  split; [apply Load_inv|]. intros (raw & Ef & Hf & He & Hc & V). apply Load_unfold.
  exists (with_env (from_file cpus raw) env). split_and!; [by apply (overlays_yield cpus file raw env Ef)|done|].
  by apply Config_Validate_valid.
Qed.

(** A loaded configuration is valid and has a capture address. *)
Lemma Load_valid cpus file env c : Load cpus file env = Ok c -> valid c /\ cfg_CaptureBind c <> "".
Proof.
  intros (raw & _ & _ & _ & Hc & V)%Load_inv. split; [done|].
  rewrite Hc. unfold resolved, with_bind. destruct (String.eqb_spec (cfg_CaptureBind (with_env (from_file cpus raw) env)) "");
    [by destruct (with_env _ _)|done].
Qed.

(** The sizes of a valid configuration are the ones that apply. *)
Lemma valid_sizes c sinks : valid c ->
  Z.of_nat (qu_cap (NewQueue (cfg_QueueSize c))) = cfg_QueueSize c /\
  Z.of_nat (length (pl_workers (NewPool (cfg_Workers c) (cfg_QueueSize c) sinks))) = cfg_Workers c /\
  Z.of_nat (ms_capacity (NewMemorySink (sc_MemoryCapacity (cfg_Sinks c)))) = sc_MemoryCapacity (cfg_Sinks c).
Proof.
  intros V. pose proof (v_queue c V). pose proof (v_workers c V). pose proof (v_memory c V). split_and!.
  - unfold NewQueue. cbn. destruct (Z.ltb_spec (cfg_QueueSize c) 1); lia.
  - unfold NewPool. cbn. rewrite length_replicate. destruct (Z.ltb_spec (cfg_Workers c) 1); lia.
  - unfold NewMemorySink. cbn. destruct (Z.ltb_spec (sc_MemoryCapacity (cfg_Sinks c)) 1); lia.
Qed.

(** A loaded configuration is what the components are built with: queue,
    worker pool and memory ring get exactly the configured sizes, none of their
    fallbacks applies; a session opened at a login is valid at once; and the
    capture address has a port in range, that of the capture port when no
    address was given. *)
Lemma loaded_sizes_apply cpus file env c sinks :
  Load cpus file env = Ok c ->
  Z.of_nat (qu_cap (NewQueue (cfg_QueueSize c))) = cfg_QueueSize c /\
  Z.of_nat (length (pl_workers (NewPool (cfg_Workers c) (cfg_QueueSize c) sinks))) = cfg_Workers c /\
  Z.of_nat (ms_capacity (NewMemorySink (sc_MemoryCapacity (cfg_Sinks c)))) = sc_MemoryCapacity (cfg_Sinks c) /\
  (forall store now id sess store', Create store now (ac_SessionTTL (cfg_Admin c)) (Some id) = Some (sess, store') ->
     Validate store' now id = true) /\
  exists host portStr p, SplitHostPort (cfg_CaptureBind c) = Ok (host, portStr) /\ Atoi portStr = Some p /\ port_ok p /\
    (env "HTTPCATCH_CAPTURE_BIND" = "" -> (file_settings file ≫= raw_CaptureBind) = None ->
     host = "0.0.0.0" /\ p = cfg_CapturePort c).
Proof.
  intros HL. destruct (Load_valid _ _ _ _ HL) as [_ Hn]. apply Load_inv in HL as (raw & Ef & _ & _ & Hc & V).
  pose proof (v_ttl c V). destruct (valid_sizes c sinks V) as (Hs1 & Hs2 & Hs3). split_and!; [done..| |].
  - intros store now id sess store'. unfold Create, Validate. intros [= <- <-]. rewrite lookup_insert_eq. cbn.
    unfold After. apply Z.ltb_lt. lia.
  - destruct (v_bind c V) as [?|(host & ps & p & Es & Ea & Hp)]; [done|]. exists host, ps, p. split_and!; try done.
    intros He Hraw. rewrite Ef in Hraw. cbn in Hraw.
    assert (E0 : cfg_CaptureBind (with_env (from_file cpus raw) env) = "").
    { unfold with_env, from_file. cbn. unfold env_value. by rewrite Hraw, He. }
    pose proof (v_port c V) as [Hp1 Hp2]. subst c. unfold resolved in *. rewrite (with_bind_derived _ E0) in Es.
    rewrite SplitHostPort_all in Es by lia. injection Es as <- <-. rewrite Atoi_Itoa in Ea by (unfold in_i64, two63; lia).
    by injection Ea as <-.
Qed.
End Facts.

(** A file that sets three things, decoded by a fixed decoder. *)
#[local] Instance sample_yaml : YamlDeps := {|
  yaml_Unmarshal _ := Some (mkRawConfig (Some 9000%Z) None (Some 16%Z) None None None None None None
    (Some (mkRawTimeouts None (Some "1m30s") None None)) (mkRawSinks (Some true) None None None None None) None None None)
|}.

Definition sample_env (name : string) : string :=
  if String.eqb name "HTTPCATCH_QUEUE_SIZE" then "32" else if String.eqb name "HTTPCATCH_SINKS" then "memory,,stdout" else "".

Definition sample_config : result ConfigError Config :=
  @Load ascii_unicode sample_yaml 4 (Some (Some "file")) sample_env.

(** The environment's queue size wins, the file's port gives the address. *)
Lemma loaded_sizes_apply_witness :
  match sample_config with
  | Ok c => Z.of_nat (qu_cap (NewQueue (cfg_QueueSize c))) = cfg_QueueSize c /\ cfg_QueueSize c = 32%Z /\
            cfg_CaptureBind c = "0.0.0.0:9000" /\ sc_Memory (cfg_Sinks c) = true /\ tc_Read (cfg_Timeouts c) = (90 * second)%Z
  | Err _ => False
  end.
Proof.
  assert (E : exists c, sample_config = Ok c) by (vm_compute; eauto). destruct E as [c E]. rewrite E. split.
  - exact (proj1 (@loaded_sizes_apply ascii_unicode sample_yaml 4%Z _ _ c [] E)).
  - revert E. vm_compute. by intros [= <-].
Defined.
