(* ===== verification/ConfigYaml.v ===== *)
(** * config/config.go: the strict sections of the configuration file

    Five raw structs have an [UnmarshalYAML] method that refuses keys it does not
    know before it decodes the rest. The YAML library is class [YamlLib]: it
    finds the node of each section, calls these methods on it, and decodes a node
    into a struct without methods ([Decode] into [plain]). *)
From S2P Require Import Prelude GoLib GoTime Record Redact Config ConfigFacts.

Open Scope string_scope.
Open Scope go_scope.

(** ** yaml.Node *)

Inductive Kind := DocumentNode | SequenceNode | MappingNode | ScalarNode | AliasNode.

#[export] Instance Kind_eq_dec : EqDecision Kind.
Proof. solve_decision. Defined.

Inductive Node := mkNode (kind : Kind) (value : string) (content : list Node).

Definition nd_Kind (n : Node) : Kind := let 'mkNode k _ _ := n in k.
Definition nd_Value (n : Node) : string := let 'mkNode _ v _ := n in v.
Definition nd_Content (n : Node) : list Node := let 'mkNode _ _ c := n in c.

Inductive YamlError := UnknownKey (section key : string) | DecodeError.

(** ** The UnmarshalYAML methods *)

(** [for i := 0; i < len(value.Content)-1; i += 2]: the keys of the pairs. *)
Fixpoint pair_keys (content : list Node) : list string :=
  match content with
  | key :: _ :: rest => nd_Value key :: pair_keys rest
  | _ => []
  end.

(** The first key outside the table. *)
Definition unknown_key (validKeys : list string) (value : Node) : option string :=
  if decide (nd_Kind value = MappingNode)
  then List.find (fun key => negb (bool_decide (key ∈ validKeys))) (pair_keys (nd_Content value))
  else None.

Definition validSinksRetentionKeys : list string := ["max_age"; "max_count"; "interval"].
Definition validTimeoutsKeys : list string := ["read_header"; "read"; "write"; "idle"].
Definition validAdminKeys : list string := ["bind"; "token"; "insecure_listen"; "session_ttl"; "session_secure"].
Definition validRedactionKeys : list string := ["headers"; "query_params"; "json_paths"; "regex"; "cookies"].
Definition validInspectKeys : list string := ["query_timeout"].

(** The methods the library calls on the node of a section. *)
Record Hooks := mkHooks {
  hk_Retention : Node -> result YamlError rawSinksRetentionConfig;
  hk_Timeouts : Node -> result YamlError rawTimeoutsConfig;
  hk_Admin : Node -> result YamlError rawAdminConfig;
  hk_Redaction : Node -> result YamlError RedactionConfig;
  hk_Inspect : Node -> result YamlError rawInspectConfig
}.

Class YamlLib := {
  (** [value.Decode] into the struct without methods *)
  plain_Retention : Node -> option rawSinksRetentionConfig;
  plain_Timeouts : Node -> option rawTimeoutsConfig;
  plain_Admin : Node -> option rawAdminConfig;
  plain_Redaction : Node -> option RedactionConfig;
  plain_Inspect : Node -> option rawInspectConfig;
  (** the node under a path of keys, if the document has a value there *)
  yaml_Section : string -> list string -> option Node;
  (** [yaml.Unmarshal] into a raw configuration with these methods *)
  yaml_UnmarshalWith : Hooks -> string -> result YamlError rawConfig
}.

Section Unmarshal.
Context `{YamlLib}.

Definition decode_plain {A} (plain : Node -> option A) (value : Node) : result YamlError A :=
  match plain value with Some r => Ok r | None => Err DecodeError end.

Definition strict {A} (section : string) (validKeys : list string) (plain : Node -> option A) (value : Node)
  : result YamlError A :=
  match unknown_key validKeys value with
  | Some key => Err (UnknownKey section key)
  | None => decode_plain plain value
  end.

Definition Retention_UnmarshalYAML : Node -> result YamlError rawSinksRetentionConfig :=
  strict "sinks.retention" validSinksRetentionKeys plain_Retention.
Definition Timeouts_UnmarshalYAML : Node -> result YamlError rawTimeoutsConfig :=
  strict "timeouts" validTimeoutsKeys plain_Timeouts.
Definition Admin_UnmarshalYAML : Node -> result YamlError rawAdminConfig := strict "admin" validAdminKeys plain_Admin.
Definition Redaction_UnmarshalYAML : Node -> result YamlError RedactionConfig :=
  strict "redaction" validRedactionKeys plain_Redaction.
Definition Inspect_UnmarshalYAML : Node -> result YamlError rawInspectConfig :=
  strict "inspect" validInspectKeys plain_Inspect.

Definition hooks : Hooks :=
  mkHooks Retention_UnmarshalYAML Timeouts_UnmarshalYAML Admin_UnmarshalYAML Redaction_UnmarshalYAML Inspect_UnmarshalYAML.

(** The strict decoder is the decoder [Load] uses. *)
#[export] Instance strict_yaml : YamlDeps := {|
  yaml_Unmarshal data := match yaml_UnmarshalWith hooks data with Ok raw => Some raw | Err _ => None end |}.

End Unmarshal.

(** Where the methods apply, and what a method says about the node there. *)
Definition refuses (h : Hooks) (path : list string) (n : Node) : Prop :=
  match path with
  | ["sinks"; "retention"] => is_ok (hk_Retention h n) = false
  | ["timeouts"] => is_ok (hk_Timeouts h n) = false
  | ["admin"] => is_ok (hk_Admin h n) = false
  | ["redaction"] => is_ok (hk_Redaction h n) = false
  | ["inspect"] => is_ok (hk_Inspect h n) = false
  | _ => False
  end.

(** The documented contract of an [Unmarshaler]: it is called for a present
    value, and its error ends the decoding; a decoded pointer field holds what
    the method returned for the node. *)
Class YamlLaws `{YamlLib} : Prop := {
  yaml_refused : forall h data path n, yaml_Section data path = Some n -> refuses h path n ->
    is_ok (yaml_UnmarshalWith h data) = false;
  yaml_admin : forall h data raw a, yaml_UnmarshalWith h data = Ok raw -> raw_Admin raw = Some a ->
    exists n, yaml_Section data ["admin"] = Some n /\ hk_Admin h n = Ok a;
  yaml_redaction : forall h data raw r, yaml_UnmarshalWith h data = Ok raw -> raw_Redaction raw = Some r ->
    exists n, yaml_Section data ["redaction"] = Some n /\ hk_Redaction h n = Ok r
}.

(** ** Unknown keys *)

(** The sections with a table of keys. *)
Definition valid_keys (path : list string) : option (list string) :=
  match path with
  | ["sinks"; "retention"] => Some validSinksRetentionKeys
  | ["timeouts"] => Some validTimeoutsKeys
  | ["admin"] => Some validAdminKeys
  | ["redaction"] => Some validRedactionKeys
  | ["inspect"] => Some validInspectKeys
  | _ => None
  end.

Lemma unknown_key_None keys n : unknown_key keys n = None <->
  (nd_Kind n = MappingNode -> forall key, key ∈ pair_keys (nd_Content n) -> key ∈ keys).
Proof.
  unfold unknown_key. case_decide as Hk; [|naive_solver]. split.
  - intros Hf _ key Hin. eapply find_none in Hf; [|by apply list_elem_of_In].
    by apply negb_false_iff, bool_decide_eq_true in Hf.
  - intros Hall. destruct (List.find _ _) as [key|] eqn:Hf; [|done]. exfalso.
    apply find_some in Hf as [Hin Hb]. apply negb_true_iff, bool_decide_eq_false in Hb.
    by apply Hb, Hall, list_elem_of_In.
Qed.

Lemma strict_ok {A} section keys (plain : Node -> option A) n r : strict section keys plain n = Ok r <->
  plain n = Some r /\ (nd_Kind n = MappingNode -> forall key, key ∈ pair_keys (nd_Content n) -> key ∈ keys).
Proof.
  unfold strict, decode_plain. rewrite <- unknown_key_None.
  destruct (unknown_key keys n), (plain n); naive_solver.
Qed.

Lemma strict_unknown {A} section keys (plain : Node -> option A) n key :
  nd_Kind n = MappingNode -> key ∈ pair_keys (nd_Content n) -> key ∉ keys -> is_ok (strict section keys plain n) = false.
Proof.
  intros Hk Hin Hn. destruct (strict section keys plain n) eqn:Hs; [|done].
  apply strict_ok in Hs as [_ Hs]. destruct Hn. by apply Hs.
Qed.

(** A misspelt setting is never ignored in the sections that decide on
    retention, timeouts, access, redaction and inspection: a key outside the
    section's table makes the whole configuration fail to load. Conversely, when
    the file decodes, the access and redaction settings are what the library
    decoded from a section with known keys only. *)
Lemma strict_sections `{Unicode} `{YamlLaws} data :
  (forall path keys n key cpus env, valid_keys path = Some keys -> yaml_Section data path = Some n ->
     nd_Kind n = MappingNode -> key ∈ pair_keys (nd_Content n) -> key ∉ keys ->
     Load cpus (Some (Some data)) env = Err ErrParseConfig) /\
  (forall raw, yaml_Unmarshal data = Some raw ->
     (forall a, raw_Admin raw = Some a -> exists n, yaml_Section data ["admin"] = Some n /\ plain_Admin n = Some a /\
        (nd_Kind n = MappingNode -> forall key, key ∈ pair_keys (nd_Content n) -> key ∈ validAdminKeys)) /\
     (forall r, raw_Redaction raw = Some r -> exists n, yaml_Section data ["redaction"] = Some n /\ plain_Redaction n = Some r /\
        (nd_Kind n = MappingNode -> forall key, key ∈ pair_keys (nd_Content n) -> key ∈ validRedactionKeys))).
Proof.
  split.
  - intros path keys n key cpus env Hp Hs Hk Hin Hn.
    assert (Hr : refuses hooks path n).
    { unfold valid_keys in Hp. repeat (case_match; try discriminate Hp); injection Hp as <-; cbn; by eapply strict_unknown. }
    pose proof (yaml_refused hooks data path n Hs Hr) as Hf. unfold Load, load_file. cbn [yaml_Unmarshal strict_yaml].
    by destruct (yaml_UnmarshalWith hooks data).
  - cbn. intros raw Hraw. destruct (yaml_UnmarshalWith hooks data) as [raw'|] eqn:Hu; [|done]. injection Hraw as ->. split.
    + intros a Ha. destruct (yaml_admin _ _ _ _ Hu Ha) as (n & Hn & Hok). apply strict_ok in Hok as [? ?]. by exists n.
    + intros r Hr. destruct (yaml_redaction _ _ _ _ Hu Hr) as (n & Hn & Hok). apply strict_ok in Hok as [? ?]. by exists n.
Qed.

(** ** Witness *)

(** A library whose documents have an [admin] section only: a token under the
    document's text as key. *)
Definition text_node (v : string) : Node := mkNode ScalarNode v [].
Definition admin_section (data : string) : Node := mkNode MappingNode "" [text_node data; text_node "x"].
Definition blank_raw (a : option rawAdminConfig) : rawConfig :=
  mkRawConfig None None None None None None None None None None (mkRawSinks None None None None None None) None a None.

Definition admin_lib : YamlLib := {|
  plain_Retention _ := None;
  plain_Timeouts _ := None;
  plain_Admin n := Some (mkRawAdmin None (Some "x") None None None);
  plain_Redaction _ := None;
  plain_Inspect _ := None;
  yaml_Section data path := match path with ["admin"] => Some (admin_section data) | _ => None end;
  yaml_UnmarshalWith h data :=
    match hk_Admin h (admin_section data) with Ok a => Ok (blank_raw (Some a)) | Err e => Err e end
|}.

Lemma admin_lib_laws : @YamlLaws admin_lib.
Proof.
  split.
  - intros h data path n Hs Hr. cbn in Hs. repeat (case_match; try discriminate Hs). injection Hs as <-.
    cbn in *. by destruct (hk_Admin h (admin_section data)).
  - intros h data raw a Hu Ha. cbn in *. exists (admin_section data). split; [done|].
    destruct (hk_Admin h (admin_section data)); [|done]. by injection Hu as <-; injection Ha as <-.
  - intros h data raw r Hu Hr. cbn in *. destruct (hk_Admin h (admin_section data)); [|done]. by injection Hu as <-.
Qed.

Lemma strict_sections_witness :
  @Load ascii_unicode (@strict_yaml admin_lib) 4 (Some (Some "tokn")) (fun _ => "") = Err ErrParseConfig /\
  is_ok (@Load ascii_unicode (@strict_yaml admin_lib) 4 (Some (Some "token")) (fun _ => "")) = true.
Proof.
  split; [|by vm_compute].
  refine (proj1 (@strict_sections ascii_unicode admin_lib admin_lib_laws "tokn") ["admin"] validAdminKeys
    (admin_section "tokn") "tokn" 4%Z (fun _ => "") eq_refl eq_refl eq_refl _ _); [left|].
  apply (bool_decide_unpack _). by vm_compute.
Defined.
