(* ===== verification/Stdout.v ===== *)
(** * sinks/stdout.go: one JSON object per line

    The envelopes are JSON values; the encoder prints one and a newline, and
    keeps a write error for good. The mutex makes a [Write] one step. *)
From S2P Require Import Prelude GoLib Record Json JsonFacts.

Open Scope string_scope.

(** ** Envelopes *)

(** [time.Time.MarshalJSON]: the text between the quotes, or the error for
    years it cannot express. *)
Class TimeJSON := { MarshalTime : time -> option string }.

Definition jint (z : Z) : json := JNum (Itoa z).

Section Envelopes.
Context `{TimeJSON}.

Definition requestEnvelope (r : CapturedRequest) : option json :=
  ts ← MarshalTime (cr_Timestamp r);
  Some (JObj [("kind", JStr (KindName KindRequest)); ("id", JStr (cr_ID r)); ("timestamp", JStr ts);
    ("method", JStr (cr_Method r)); ("path", JStr (cr_Path r)); ("query", json_header (cr_Query r));
    ("headers", json_header (cr_Headers r)); ("cookies", json_cookies (cr_Cookies r)); ("body", JStr (cr_Body r));
    ("body_truncated", JBool (cr_BodyTruncated r)); ("body_original_size", jint (cr_BodyOriginalSize r));
    ("content_type", JStr (cr_ContentType r)); ("source_ip", JStr (cr_SourceIP r)); ("service", JStr (cr_Service r));
    ("service_source", JStr (cr_ServiceSource r)); ("correlation_id", JStr (cr_CorrelationID r));
    ("correlation_source", JStr (cr_CorrelationSource r))]).

Definition responseEnvelope (r : ResponseEvent) : option json :=
  ts ← MarshalTime (re_Timestamp r);
  Some (JObj [("kind", JStr (KindName KindResponseEvent)); ("id", JStr (re_ID r)); ("timestamp", JStr ts);
    ("correlation_id", JStr (re_CorrelationID r)); ("correlation_source", JStr (re_CorrelationSource r));
    ("service", JStr (re_Service r)); ("service_source", JStr (re_ServiceSource r)); ("status", jint (re_Status r));
    ("headers", json_header (re_Headers r)); ("body", JStr (re_Body r)); ("body_truncated", JBool (re_BodyTruncated r));
    ("body_original_size", jint (re_BodyOriginalSize r)); ("content_type", JStr (re_ContentType r));
    ("duration_ms", jint (re_DurationMS r))]).

Definition outboundRequestHalfEnv (q : OutboundRequestHalf) : json :=
  JObj [("method", JStr (oq_Method q)); ("path", JStr (oq_Path q)); ("headers", json_header (oq_Headers q));
    ("body", JStr (oq_Body q)); ("body_truncated", JBool (oq_BodyTruncated q));
    ("body_original_size", jint (oq_BodyOriginalSize q)); ("content_type", JStr (oq_ContentType q))].

Definition outboundResponseHalfEnv (p : OutboundResponseHalf) : json :=
  JObj [("status", jint (os_Status p)); ("headers", json_header (os_Headers p)); ("body", JStr (os_Body p));
    ("body_truncated", JBool (os_BodyTruncated p)); ("body_original_size", jint (os_BodyOriginalSize p));
    ("content_type", JStr (os_ContentType p))].

Definition outboundEnvelope (r : OutboundEvent) : option json :=
  ts ← MarshalTime (oe_Timestamp r);
  Some (JObj [("kind", JStr (KindName KindOutboundEvent)); ("id", JStr (oe_ID r)); ("timestamp", JStr ts);
    ("correlation_id", JStr (oe_CorrelationID r)); ("correlation_source", JStr (oe_CorrelationSource r));
    ("service", JStr (oe_Service r)); ("service_source", JStr (oe_ServiceSource r)); ("duration_ms", jint (oe_DurationMS r));
    ("request", outboundRequestHalfEnv (oe_Request r));
    ("response", match oe_Response r with None => JNull | Some p => outboundResponseHalfEnv p end)]).

Definition envelope (r : CRecord) : option json :=
  match r with
  | RRequest v => requestEnvelope v
  | RResponse v => responseEnvelope v
  | ROutbound v => outboundEnvelope v
  end.

(** ** The sink *)

(** What reached the writer, and the encoder's [err]. *)
Record StdoutSink := mkStdoutSink { so_out : string; so_err : bool }.

Definition NewWriterSink : StdoutSink := mkStdoutSink "" false.

Inductive StdoutError := ErrMarshal | ErrWriter.

(** A writer takes a prefix of what it is given, all of it unless it fails. *)
Definition Writer := string -> string * bool.

Definition line_end : string := String "010"%char "".

Definition Stdout_Write (w : Writer) (s : StdoutSink) (r : CRecord) : StdoutSink * option StdoutError :=
  if so_err s then (s, Some ErrWriter)
  else match envelope r with
       | None => (s, Some ErrMarshal)
       | Some v =>
           let '(written, ok) := w (print_json v +:+ line_end) in
           (mkStdoutSink (so_out s +:+ written) (negb ok), if ok then None else Some ErrWriter)
       end.

End Envelopes.

(** ** Lines *)

Definition no_newline (s : string) : bool := negb (ContainsByte s "010").

Lemma no_newline_app a b : no_newline (a +:+ b) = no_newline a && no_newline b.
Proof. unfold no_newline. by rewrite ContainsByte_app, negb_orb. Qed.

Lemma no_newline_concat l : no_newline (str_concat l) = forallb no_newline l.
Proof. induction l as [|s l IH]; [done|]. simpl. by rewrite no_newline_app, IH. Qed.

Lemma quote_no_newline s : no_newline (quote s) = true.
Proof.
  assert (Hc : forall c, chunk_ok c -> no_newline (escape_chunk c) = true).
  { assert (Ha : forall c, no_newline (escape_ascii c) = true).
    { apply (byte_ind (fun c => no_newline (escape_ascii c))). by vm_compute. }
    assert (Hhigh : forall bs, str_forall high bs = true -> no_newline bs = true).
    { intros bs. induction bs as [|c bs IH]; [done|]. simpl. intros Hb. bool_hyps.
      unfold no_newline in *. rewrite ContainsByte_cons, negb_orb, IH by done. rewrite andb_true_r.
      destruct (Ascii.eqb_spec "010" c) as [<-|]; done. }
    intros [bs|b]; [|done]. destruct bs as [|a [|a' bs]]; [done|intros _; apply Ha|]. cbn [chunk_ok escape_chunk].
    intros Hb. repeat case_match; try done. by apply Hhigh. }
  unfold quote. change (String dquote ?t) with (String dquote "" +:+ t). rewrite !no_newline_app, no_newline_concat.
  change (no_newline (String dquote "")) with true. rewrite andb_true_r. cbn [andb].
  destruct (runes_spec s) as [_ Hok]. induction Hok as [|c l Hx _ IH]; [done|]. simpl. by rewrite Hc, IH.
Qed.

Lemma int_literal_no_newline lit : int_literal lit = true -> no_newline lit = true.
Proof.
  assert (Hd : forall s, str_forall is_digit s = true -> no_newline s = true).
  { intros s. induction s as [|c s IH]; [done|]. simpl. intros Hs. bool_hyps. unfold no_newline in *.
    rewrite ContainsByte_cons, negb_orb, IH by done. rewrite andb_true_r. destruct (Ascii.eqb_spec "010" c) as [<-|]; done. }
  assert (Hp : forall s, plain_digits s = true -> no_newline s = true).
  { intros s Hs. apply Hd. destruct s as [|c s]; [done|]. simpl. destruct (Ascii.eqb_spec c "0") as [->|Hc].
    - simpl in Hs. apply String.eqb_eq in Hs as ->. done.
    - destruct c as [[] [] [] [] [] [] [] []]; done. }
  destruct lit as [|c s]; [done|]. destruct (Ascii.eqb_spec c "-") as [->|Hc].
  - intros Hs. apply Hp in Hs. unfold no_newline in *. by rewrite ContainsByte_cons.
  - intros Hs. apply Hp. destruct c as [[] [] [] [] [] [] [] []]; done.
Qed.

Lemma join_no_newline {A} (f : A -> string) l :
  Forall (fun x => no_newline (f x) = true) l -> no_newline (join_with "," (map f l)) = true.
Proof.
  intros Hl. destruct l as [|x l]; [done|]. rewrite join_with_cons, no_newline_app.
  apply Forall_cons in Hl as [-> Hl]. unfold tail_text. rewrite no_newline_concat. simpl.
  induction Hl as [|y l Hy _ IH]; [done|]. simpl.
  change (String "," (f y)) with ("," +:+ f y). by rewrite no_newline_app, Hy, IH.
Qed.

Lemma print_no_newline v : json_ints v = true -> no_newline (print_json v) = true.
Proof.
  induction v as [|b|lit|s|l Hl|l Hl] using json_nested_ind; cbn [print_json json_ints]; intros Hv.
  - done.
  - by destruct b.
  - by apply int_literal_no_newline.
  - apply quote_no_newline.
  - rewrite !no_newline_app, join_no_newline; [done|]. rewrite forallb_forall in Hv.
    rewrite Forall_forall in Hl |- *. intros x Hx. by apply Hl, Hv, list_elem_of_In.
  - rewrite !no_newline_app, join_no_newline; [done|]. rewrite forallb_forall in Hv.
    rewrite Forall_forall in Hl |- *. intros x Hx. rewrite !no_newline_app, quote_no_newline.
    by rewrite Hl by (done || by apply Hv, list_elem_of_In).
Qed.

Section Lines.
Context `{TimeJSON}.

Lemma json_header_ints h : json_ints (json_header h) = true.
Proof.
  destruct h as [m|]; [|done]. cbn [json_header json_ints]. apply forallb_forall. intros kv.
  rewrite in_map_iff. intros ([k vs] & <- & _). cbn. apply forallb_forall. intros v. rewrite in_map_iff.
  by intros (x & <- & _).
Qed.

Lemma json_cookies_ints cs : json_ints (json_cookies cs) = true.
Proof. cbn. apply forallb_forall. intros v. rewrite in_map_iff. by intros (x & <- & _). Qed.

Lemma envelope_ints r v : envelope r = Some v -> json_ints v = true.
Proof.
  destruct r as [r|r|r]; cbn [envelope]; unfold requestEnvelope, responseEnvelope, outboundEnvelope;
    destruct (MarshalTime _) as [ts|]; try done; cbn [mbind option_bind]; intros [= <-];
    unfold outboundRequestHalfEnv; try destruct (oe_Response r) as [p|]; unfold outboundResponseHalfEnv;
    cbn -[json_header json_cookies Itoa]; by rewrite ?json_header_ints, ?json_cookies_ints, ?Itoa_literal.
Qed.

(** Text the encoder keeps: valid UTF-8 throughout. *)
Definition valid_texts (l : list string) : Prop := Forall (fun s => ValidString s = true) l.

Definition valid_record (r : CRecord) : Prop :=
  match r with
  | RRequest v =>
      valid_texts [cr_ID v; cr_Method v; cr_Path v; cr_Body v; cr_ContentType v; cr_SourceIP v; cr_Service v;
        cr_ServiceSource v; cr_CorrelationID v; cr_CorrelationSource v] /\
      valid_header (cr_Query v) /\ valid_header (cr_Headers v) /\ Forall valid_cookie (cr_Cookies v)
  | RResponse v =>
      valid_texts [re_ID v; re_CorrelationID v; re_CorrelationSource v; re_Service v; re_ServiceSource v; re_Body v;
        re_ContentType v] /\ valid_header (re_Headers v)
  | ROutbound v =>
      valid_texts [oe_ID v; oe_CorrelationID v; oe_CorrelationSource v; oe_Service v; oe_ServiceSource v;
        oq_Method (oe_Request v); oq_Path (oe_Request v); oq_Body (oe_Request v); oq_ContentType (oe_Request v)] /\
      valid_header (oq_Headers (oe_Request v)) /\
      forall p, oe_Response v = Some p -> valid_texts [os_Body p; os_ContentType p] /\ valid_header (os_Headers p)
  end.

(** Every field of an object literal is fine by hypothesis. *)
Ltac fields_ok :=
  cbn -[json_header json_cookies Itoa ValidString];
  repeat match goal with Hx : ?f ?y = true |- context [?f ?y] => rewrite Hx; clear Hx end;
  by rewrite ?Itoa_literal.

Lemma envelope_ok r v : (forall t x, MarshalTime t = Some x -> ValidString x = true) ->
  valid_record r -> envelope r = Some v -> json_ok v = true.
Proof.
  intros Ht Hr. destruct r as [r|r|r]; cbn [envelope]; unfold requestEnvelope, responseEnvelope, outboundEnvelope;
    destruct (MarshalTime _) as [ts|] eqn:Ets; try done; apply Ht in Ets; cbn [mbind option_bind]; intros [= <-];
    unfold valid_record, valid_texts in Hr; rewrite ?Forall_cons in Hr.
  - destruct Hr as ((?&?&?&?&?&?&?&?&?&?&_) & Hq & Hh & Hc).
    apply json_header_ok in Hq, Hh. apply json_cookies_ok in Hc. fields_ok.
  - destruct Hr as ((?&?&?&?&?&?&?&_) & Hh). apply json_header_ok in Hh. fields_ok.
  - destruct Hr as ((?&?&?&?&?&?&?&?&?&_) & Hh & Hp). apply json_header_ok in Hh.
    unfold outboundRequestHalfEnv. destruct (oe_Response r) as [p|]; [|clear Hp; fields_ok].
    destruct (Hp p eq_refl) as [Hx Hph]. clear Hp. rewrite !Forall_cons in Hx. destruct Hx as (?&?&_).
    apply json_header_ok in Hph. unfold outboundResponseHalfEnv. fields_ok.
Qed.

(** *** The record is in its envelope *)

Lemma json_header_inj h1 h2 : json_header h1 = json_header h2 -> h1 = h2.
Proof. intros E. apply (f_equal decode_header) in E. rewrite !decode_json_header in E. congruence. Qed.

Lemma json_cookies_inj c1 c2 : json_cookies c1 = json_cookies c2 -> c1 = c2.
Proof. intros E. apply (f_equal decode_cookies) in E. rewrite !decode_json_cookies in E. congruence. Qed.

Lemma Itoa_inj a b : Itoa a = Itoa b -> a = b.
Proof.
  assert (Hn : forall x y, Itoa_N x = Itoa_N y -> x = y).
  { intros x y E. apply (f_equal parse_digits) in E. rewrite !parse_digits_Itoa_N in E. congruence. }
  assert (Hm : forall n s, Itoa_N n <> String "-" s).
  { intros n s E. destruct (Itoa_N_head n) as (c & t & Hc & Hd). rewrite E in Hc. injection Hc as <- _. done. }
  unfold Itoa. destruct (Z.ltb_spec a 0), (Z.ltb_spec b 0).
  - intros [= E%Hn]. lia.
  - intros E. by destruct (Hm (Z.abs_N b) (Itoa_N (Z.abs_N a))).
  - intros E. by destruct (Hm (Z.abs_N a) (Itoa_N (Z.abs_N b))).
  - intros E%Hn. lia.
Qed.

Ltac same_fields E :=
  injection E; clear E; intros;
  repeat match goal with
  | Hx : json_header _ = json_header _ |- _ => apply json_header_inj in Hx
  | Hx : map json_cookie _ = map json_cookie _ |- _ => apply (f_equal JArr), json_cookies_inj in Hx
  | Hx : Itoa _ = Itoa _ |- _ => apply Itoa_inj in Hx
  end.

Lemma request_half_inj q1 q2 : outboundRequestHalfEnv q1 = outboundRequestHalfEnv q2 -> q1 = q2.
Proof. unfold outboundRequestHalfEnv. intros E. same_fields E. destruct q1, q2; simpl in *; by subst. Qed.

Lemma response_half_inj p1 p2 : outboundResponseHalfEnv p1 = outboundResponseHalfEnv p2 -> p1 = p2.
Proof. unfold outboundResponseHalfEnv. intros E. same_fields E. destruct p1, p2; simpl in *; by subst. Qed.

Lemma envelope_inj r1 r2 v :
  (forall t1 t2 x, MarshalTime t1 = Some x -> MarshalTime t2 = Some x -> t1 = t2) ->
  envelope r1 = Some v -> envelope r2 = Some v -> r1 = r2.
Proof.
  intros Ht E1 E2.
  destruct r1 as [r1|r1|r1], r2 as [r2|r2|r2]; cbn [envelope] in E1, E2;
    unfold requestEnvelope, responseEnvelope, outboundEnvelope in E1, E2;
    match type of E1 with context [MarshalTime ?t] => destruct (MarshalTime t) as [x1|] eqn:T1; [|done] end;
    match type of E2 with context [MarshalTime ?t] => destruct (MarshalTime t) as [x2|] eqn:T2; [|done] end;
    cbn [mbind option_bind] in E1, E2; rewrite <- E2 in E1; clear E2; try done.
  - same_fields E1. subst x2. pose proof (Ht _ _ _ T1 T2). clear Ht T1 T2. destruct r1, r2; simpl in *; by subst.
  - same_fields E1. subst x2. pose proof (Ht _ _ _ T1 T2). clear Ht T1 T2. destruct r1, r2; simpl in *; by subst.
  - assert (Hp : oe_Response r1 = oe_Response r2 /\ oe_Request r1 = oe_Request r2).
    { pose proof (f_equal (fun j => match j with
        | Some (JObj [_; _; _; _; _; _; _; _; (_, q); _]) => q | _ => JNull end) E1) as Eq.
      pose proof (f_equal (fun j => match j with
        | Some (JObj [_; _; _; _; _; _; _; _; _; (_, p)]) => p | _ => JNull end) E1) as Ep.
      split; [|by apply request_half_inj]. cbv beta iota in Ep.
      destruct (oe_Response r1), (oe_Response r2); try done. f_equal. by apply response_half_inj. }
    same_fields E1. subst x2. pose proof (Ht _ _ _ T1 T2). clear Ht T1 T2. destruct Hp, r1, r2; simpl in *; by subst.
Qed.

(** Writing a list of records. *)
Definition write_all (w : Writer) (s : StdoutSink) (rs : list CRecord) : StdoutSink :=
  foldl (fun s r => (Stdout_Write w s r).1) s rs.

Lemma write_all_out w s rs : (forall x, w x = (x, true)) -> so_err s = false ->
  Forall (fun r => is_Some (envelope r)) rs ->
  so_out (write_all w s rs) = so_out s +:+ str_concat (map (fun r => match envelope r with
    | Some v => print_json v +:+ line_end | None => "" end) rs) /\ so_err (write_all w s rs) = false.
Proof.
  intros Hw Hs Hrs. revert s Hs. induction Hrs as [|r rs [v Hv] _ IH]; intros s Hs.
  - simpl. by rewrite str_app_nil_r.
  - assert (E : (Stdout_Write w s r).1 = mkStdoutSink (so_out s +:+ print_json v +:+ line_end) false).
    { unfold Stdout_Write. by rewrite Hs, Hv, Hw. }
    unfold write_all in *. cbn [foldl map str_concat foldr]. rewrite E, Hv.
    destruct (IH (mkStdoutSink (so_out s +:+ print_json v +:+ line_end) false)) as [E1 E2]; [done|].
    cbn [so_out] in E1. by rewrite E1, E2, str_app_assoc.
Qed.

Lemma Split_lines l : Forall (fun s => no_newline s = true) l ->
  Split (str_concat (map (fun s => s +:+ line_end) l)) "010" = (l ++ [""])%list.
Proof.
  induction 1 as [|s l Hs _ IH]; [done|]. simpl. rewrite str_app_assoc. unfold line_end at 1. cbn [String.append].
  unfold no_newline in Hs. apply negb_true_iff in Hs. by rewrite Split_cons, IH.
Qed.

End Lines.

(** C22. The stdout sink as its consumer sees it: whatever records are written
    to a working writer, the output splits at newlines into exactly one line
    per record, in order, and every line parses as JSON to the record's envelope
    with U+FFFD in place of each byte that starts no UTF-8 rune. When all text
    of the record is UTF-8 that is the envelope itself, which no other record
    has; a binary body or header is readable only up to that replacement. A
    failing writer stops the sink: every later write reports the error and puts
    nothing on the writer. *)
Theorem Stdout_lines `{TimeJSON} (w : Writer) (rs : list CRecord) :
  (forall x, w x = (x, true)) -> Forall (fun r => is_Some (envelope r)) rs ->
  (forall t x, MarshalTime t = Some x -> ValidString x = true) ->
  (forall t1 t2 x, MarshalTime t1 = Some x -> MarshalTime t2 = Some x -> t1 = t2) ->
  (exists lines, Split (so_out (write_all w NewWriterSink rs)) "010" = (lines ++ [""])%list /\
     Forall2 (fun r line => exists v, envelope r = Some v /\ parse_json line = Some (json_clean v) /\
       (valid_record r -> json_clean v = v) /\ forall r', envelope r' = Some v -> r' = r) rs lines) /\
  (forall w' s r, (Stdout_Write w' s r).2 = Some ErrWriter ->
     forall w'' r', Stdout_Write w'' (Stdout_Write w' s r).1 r' = ((Stdout_Write w' s r).1, Some ErrWriter)).
Proof.
  intros Hw Hrs Hv Ht. split.
  - set (text := fun r => match envelope r with Some v => print_json v | None => "" end).
    exists (map text rs). destruct (write_all_out w NewWriterSink rs Hw eq_refl Hrs) as [-> _]. split.
    + simpl. rewrite <- Split_lines.
      * rewrite map_map. f_equal. f_equal. apply map_ext_in. intros r Hr%list_elem_of_In.
        rewrite Forall_forall in Hrs. unfold text. by destruct (Hrs r Hr) as [v ->].
      * apply Forall_forall. intros s (r & -> & Hr)%list_elem_of_fmap. rewrite Forall_forall in Hrs.
        unfold text. destruct (Hrs r Hr) as [v Ev]. rewrite Ev. by eapply print_no_newline, envelope_ints.
    + induction Hrs as [|r rs [v Ev] _ IH]; simpl; constructor; [|done]. exists v. unfold text. rewrite Ev.
      split_and!; [done|by eapply parse_print_clean, envelope_ints| |].
      * intros Hr. by eapply json_ok_clean, envelope_ok.
      * intros r' Er'. by eapply envelope_inj.
  - intros w' s r He w'' r'. unfold Stdout_Write in *. destruct (so_err s) eqn:Es; [cbn [fst]; by rewrite Es|].
    destruct (envelope r) as [v|]; [|done]. destruct (w' _) as [written []]; [done|]. done.
Qed.

(** Decimal numbers in place of calendar text. *)
Definition decimal_json : TimeJSON := {| MarshalTime t := Some (Itoa t) |}.

Lemma Itoa_valid z : ValidString (Itoa z) = true.
Proof.
  assert (Hd : forall s, str_forall (fun c => (code c <? 128)%N) s = true -> ValidString s = true).
  { intros s. unfold ValidString. induction s as [|c s IH]; [done|]. simpl str_forall. intros [Hc Hs]%andb_true_iff.
    cbn [runes]. rewrite Hc. cbn. by apply IH. }
  apply Hd. assert (Hn : forall n, str_forall (fun c => (code c <? 128)%N) (Itoa_N n) = true).
  { intros n. pose proof (Itoa_N_digits n) as Hs. induction (Itoa_N n) as [|c s IH]; [done|]. simpl in *. bool_hyps.
    rewrite IH by done. rewrite andb_true_r. unfold is_digit, in_range in H.
    apply andb_true_iff in H as [_ H%N.leb_le]. apply N.ltb_lt. lia. }
  unfold Itoa. destruct (z <? 0)%Z; simpl; apply Hn.
Qed.

Definition stdout_request : CRecord :=
  RRequest (mkCapturedRequest "r1" 7%Z "GET" "/a" None (Some {[ "Host" := ["h"] ]}) [] (String "010" "x") false 2 "" "" "svc" "" "c" "").

#[local] Existing Instance decimal_json.

(** A body that is not UTF-8. *)
Definition binary_response : CRecord :=
  RResponse (mkResponseEvent "e1" 8%Z "c" "" "svc" "" 200 None (String "255" "x") false 2 "" 3).

Definition body_member (v : json) : option json :=
  match v with JObj l => snd <$> List.find (fun kv => String.eqb kv.1 "body") l | _ => None end.

Lemma Stdout_lines_witness : exists line1 line2,
  Split (so_out (write_all (fun x => (x, true)) NewWriterSink [stdout_request; binary_response])) "010" = [line1; line2; ""] /\
  parse_json line1 = envelope stdout_request /\
  (v ← parse_json line2; body_member v) = Some (JStr (RuneError +:+ "x")).
Proof.
  destruct (Stdout_lines (fun x => (x, true)) [stdout_request; binary_response]) as [(lines & Hl & Hf) _].
  - reflexivity.
  - repeat (apply Forall_cons_2); [by eexists..|constructor].
  - intros t x Hx. injection Hx as <-. apply Itoa_valid.
  - intros t1 t2 x H1 H2. injection H1 as <-. injection H2 as H2. symmetry. by apply Itoa_inj.
  - inversion Hf as [|r line1 rs lines1 H1 Hf1]; subst. inversion Hf1 as [|r line2 rs lines2 H2 Hf2]; subst.
    inversion Hf2; subst. exists line1, line2. split; [exact Hl|].
    destruct H1 as (v1 & E1 & P1 & V1 & _), H2 as (v2 & E2 & P2 & _). rewrite P1, P2, E1. split.
    + f_equal. apply V1. split; [repeat constructor|]. split; [done|]. split; [|constructor].
      intros m [= <-]. intros k vs [<- <-]%lookup_singleton_Some. by repeat constructor.
    + injection E2 as <-. vm_compute. reflexivity.
Defined.
