(* ===== verification/RedactCmd.v ===== *)
(** * cli/redactcmd: the dry run of the redactor

    [diff.go] and [redactcmd.go]. The flag package, the file system and the
    decoding of the sample enter through [Env]; what the command writes and its
    exit code are the result. Maps are ranged over in any order. *)
From S2P Require Import Prelude GoLib Record Json Redact GoTime Config.

Open Scope string_scope.
Open Scope go_scope.

(** ** strconv.Quote, the [%q] verb *)

(** [strconv.IsPrint] on the encoding of a rune beyond ASCII. *)
Class Printable := { is_print : string -> bool }.

Definition rune_value (bs : string) : N :=
  match bs with
  | String a "" => code a
  | String a (String b "") => (code a mod 32) * 64 + code b mod 64
  | String a (String b (String c "")) => ((code a mod 16) * 64 + code b mod 64) * 64 + code c mod 64
  | String a (String b (String c (String d _))) =>
      (((code a mod 8) * 64 + code b mod 64) * 64 + code c mod 64) * 64 + code d mod 64
  | "" => 0
  end%N.

Fixpoint hex_digits (width : nat) (u : N) : string :=
  match width with
  | 0%nat => ""
  | S k => hex_digits k (u / 16) +:+ String (hex_digit (u mod 16)) ""
  end.

Definition quote_ascii (c : ascii) : string :=
  if (Ascii.eqb c dquote || Ascii.eqb c backslash)%bool then String backslash (String c "")
  else if in_range 32 126 c then String c ""
  else if (code c =? 7)%N then String backslash "a"
  else if (code c =? 8)%N then String backslash "b"
  else if (code c =? 12)%N then String backslash "f"
  else if (code c =? 10)%N then String backslash "n"
  else if (code c =? 13)%N then String backslash "r"
  else if (code c =? 9)%N then String backslash "t"
  else if (code c =? 11)%N then String backslash "v"
  else String backslash ("x" +:+ hex_digits 2 (code c)).

Section Diff.
Context `{MapRange} `{Printable}.

Definition quote_chunk (c : chunk) : string :=
  match c with
  | CBad b => String backslash ("x" +:+ hex_digits 2 (code b))
  | CRune (String a "") => quote_ascii a
  | CRune bs =>
      if is_print bs then bs
      else let u := rune_value bs in
           if (u <? 65536)%N then String backslash ("u" +:+ hex_digits 4 u)
           else String backslash ("U" +:+ hex_digits 8 u)
  end.

Definition Quote (s : string) : string :=
  String dquote (str_concat (map quote_chunk (runes s)) +:+ String dquote "").

Definition RuneCountInString (s : string) : nat := length (runes s).

(** ** diff.go *)

Record DiffEntry := mkDiffEntry { de_Path : string; de_Before : string; de_After : string }.

Definition removedMarker : string := "<removed>".
Definition addedMarker : string := "<added>".
Definition arrow : string := " -> ".

Definition masked_value (v : string) : string :=
  "<masked: " +:+ Itoa (Z.of_nat (RuneCountInString v)) +:+ " chars>".

Definition formatSliceSide (vals : list string) (present : bool) (absentMarker : string) (mask : bool) : string :=
  if negb present then absentMarker
  else match vals with
       | [] => String dquote (String dquote "")
       | _ => Join (map (fun v => if mask then masked_value v else Quote v) vals) ", "
       end.

Fixpoint stringSliceEqual (a b : list string) : bool :=
  match a, b with
  | [], [] => true
  | x :: a', y :: b' => String.eqb x y && stringSliceEqual a' b'
  | _, _ => false
  end.

Record side := mkSide { sd_display : string; sd_vals : list string; sd_present : bool }.
Definition absent : side := mkSide "" [] false.

(** The two loops that fill [merged]. *)
Definition merge_left (normaliseKey : string -> string) (before : list (string * list string)) : gmap string (side * side) :=
  foldl (fun merged '(k, v) => <[normaliseKey k := (mkSide k v true, absent)]> merged) ∅ before.

Definition merge_right (normaliseKey : string -> string) (merged : gmap string (side * side))
    (after : list (string * list string)) : gmap string (side * side) :=
  foldl (fun merged '(k, v) =>
           match merged !! normaliseKey k with
           | Some (l, _) => <[normaliseKey k := (l, mkSide k v true)]> merged
           | None => <[normaliseKey k := (absent, mkSide k v true)]> merged
           end) merged after.

Definition side_entry (section : string) (maskBefore : bool) (p : side * side) : option DiffEntry :=
  let '(l, r) := p in
  if sd_present l && sd_present r && stringSliceEqual (sd_vals l) (sd_vals r) then None
  else
    let display := if String.eqb (sd_display l) "" then sd_display r else sd_display l in
    Some (mkDiffEntry (section +:+ "." +:+ display)
            (formatSliceSide (sd_vals l) (sd_present l) addedMarker maskBefore)
            (formatSliceSide (sd_vals r) (sd_present r) removedMarker false)).

Definition diffStringSliceMap (section : string) (before after : option header) (normaliseKey : string -> string)
    (maskBefore : bool) : list DiffEntry :=
  let merged := merge_right normaliseKey (merge_left normaliseKey (go_range (headers_of before))) (go_range (headers_of after)) in
  omap (fun nk => p ← merged !! nk; side_entry section maskBefore p) (sort_strings (go_range merged).*1).

(** The last cookie of a name wins. *)
Definition cookie_map (cs : list Cookie) : gmap string string :=
  foldl (fun m c => <[ck_Name c := ck_Value c]> m) ∅ cs.

Definition cookie_diff (maskBefore : bool) (n : string) (bv av : option string) : option DiffEntry :=
  if bool_decide (bv = av) && negb (bool_decide (bv = None)) then None
  else Some (mkDiffEntry ("cookies." +:+ n)
               (match bv with None => addedMarker | Some v => if maskBefore then masked_value v else v end)
               (default removedMarker av)).

Definition diffCookieSlice (before after : list Cookie) (maskBefore : bool) : list DiffEntry :=
  let beforeMap := cookie_map before in
  let afterMap := cookie_map after in
  let names : gmap string unit := gset_to_gmap tt (dom beforeMap ∪ dom afterMap) in
  omap (fun n => cookie_diff maskBefore n (beforeMap !! n) (afterMap !! n)) (sort_strings (go_range names).*1).

Definition diff_path (before after : CapturedRequest) : list DiffEntry :=
  if String.eqb (cr_Path before) (cr_Path after) then [] else [mkDiffEntry "path" (cr_Path before) (cr_Path after)].

Definition byte_count (b : string) : string := Itoa (Z.of_nat (String.length b)) +:+ " bytes".

Definition diff_body (before after : CapturedRequest) : list DiffEntry :=
  if String.eqb (cr_Body before) (cr_Body after) then []
  else [mkDiffEntry "body" (byte_count (cr_Body before)) (byte_count (cr_Body after))].

(** [sort.Slice] is not stable; the paths are distinct, so no order is left open. *)
Definition diffRecords (before after : CapturedRequest) (maskBefore : bool) : list DiffEntry :=
  SliceStable (fun a b => str_ltb (de_Path a) (de_Path b))
    (diff_path before after
     ++ diffStringSliceMap "headers" (cr_Headers before) (cr_Headers after) CanonicalMIMEHeaderKey maskBefore
     ++ diffStringSliceMap "query" (cr_Query before) (cr_Query after) id maskBefore
     ++ diffCookieSlice (cr_Cookies before) (cr_Cookies after) maskBefore
     ++ diff_body before after)%list.

Definition newline_text : string := String "010"%char "".

Definition render_entry (e : DiffEntry) : string :=
  de_Path e +:+ ": " +:+ de_Before e +:+ arrow +:+ de_After e +:+ newline_text.

Definition renderDiff (entries : list DiffEntry) : string :=
  match entries with
  | [] => "no changes" +:+ newline_text
  | _ => str_concat (map render_entry entries)
  end.

End Diff.

(** ** redactcmd.go *)

Inductive RunError :=
| RunUsage                     (** the flag package has written its message *)
| RunMissingTest
| RunConfig (e : ConfigError)
| RunRuleset (e : RulesetError)
| RunReadSample (path : string)
| RunDecodeSample (path : string)
| RunUnexpectedRecord
| RunWrite.

Definition exit_code (e : RunError) : Z :=
  match e with RunUsage | RunMissingTest => 2 | _ => 1 end.

Record Flags := mkFlags { fl_test : string; fl_config : string; fl_show_values : bool }.

(** The command line, the files, the variables and the writer. *)
Record Env := mkEnv {
  env_flags : option Flags;
  env_ReadFile : string -> option string;
  env_Getenv : string -> string;
  env_write_ok : bool
}.

(** [json.Unmarshal] into a request. *)
Class SampleDeps := { sample_Unmarshal : string -> option CapturedRequest }.

Section Run.
Context `{Unicode} `{MapRange} `{RedactDeps} `{YamlDeps} `{Printable} `{SampleDeps}.

(** The records are values here: the copy the code takes of the sample is the
    sample itself. *)
Definition Run (cpus : Z) (env : Env) : result RunError string :=
  match env_flags env with
  | None => Err RunUsage
  | Some fl =>
      if String.eqb (fl_test fl) "" then Err RunMissingTest else
      match Load cpus (if String.eqb (fl_config fl) "" then None else Some (env_ReadFile env (fl_config fl))) (env_Getenv env) with
      | Err e => Err (RunConfig e)
      | Ok cfg =>
          match NewRuleset (cfg_Redaction cfg) with
          | Err e => Err (RunRuleset e)
          | Ok ruleset =>
              match env_ReadFile env (fl_test fl) with
              | None => Err (RunReadSample (fl_test fl))
              | Some data =>
                  match sample_Unmarshal data with
                  | None => Err (RunDecodeSample (fl_test fl))
                  | Some before =>
                      match (Redact ruleset 0 (RRequest before)).1 with
                      | RRequest after =>
                          if env_write_ok env
                          then Ok (renderDiff (diffRecords before after (negb (fl_show_values fl))))
                          else Err RunWrite
                      | _ => Err RunUnexpectedRecord
                      end
                  end
              end
          end
      end
  end.

End Run.
