(* ===== verification/RedactCmdFacts.v ===== *)
(** * Theorems about the redact command

    The diff lists exactly the fields the redactor changed, in an order that
    does not depend on map iteration, and a masked diff tells of the values
    before redaction only their lengths. *)
From S2P Require Import Prelude GoLib Record Json Redact GoTime Config RedactCmd.

Open Scope string_scope.

(** ** Sides *)

Section Sides.
Context (norm : string -> string).
Implicit Types (l : list (string * list string)) (nk : string).

(** No two keys of the map are spellings of one key. *)
Definition distinct_keys l : Prop := NoDup (norm <$> l.*1).

Definition side_of l nk : side :=
  match List.find (fun kv => String.eqb (norm kv.1) nk) l with
  | Some (k, v) => mkSide k v true
  | None => absent
  end.

Lemma side_of_cons k v l nk :
  side_of ((k, v) :: l) nk = if decide (norm k = nk) then mkSide k v true else side_of l nk.
Proof.
  unfold side_of. simpl. destruct (decide (norm k = nk)), (String.eqb_spec (norm k) nk); done.
Qed.

Lemma side_of_absent l nk : nk ∉ norm <$> l.*1 -> side_of l nk = absent.
Proof.
  induction l as [|[k v] l IH]; [done|]. rewrite side_of_cons, !fmap_cons, not_elem_of_cons. simpl.
  intros [Hne Hni]. rewrite decide_False by congruence. by apply IH.
Qed.

Lemma side_of_present l k v : distinct_keys l -> (k, v) ∈ l -> side_of l (norm k) = mkSide k v true.
Proof.
  induction l as [|[k' v'] l IH]; [by intros _ ?%elem_of_nil|]. unfold distinct_keys. rewrite !fmap_cons, NoDup_cons.
  intros [Hni Hnd] Hin. rewrite side_of_cons. apply elem_of_cons in Hin as [[= -> ->]|Hin]; [by rewrite decide_True|].
  rewrite decide_False; [by apply IH|]. intros E. apply Hni. simpl. rewrite E.
  apply list_elem_of_fmap_2, list_elem_of_fmap. by exists (k, v).
Qed.

Lemma side_of_cases l nk :
  side_of l nk = absent /\ nk ∉ norm <$> l.*1 \/
  exists k v, (k, v) ∈ l /\ norm k = nk /\ side_of l nk = mkSide k v true.
Proof.
  induction l as [|[k v] l IH]; [left; split; [done|apply not_elem_of_nil]|]. rewrite side_of_cons.
  destruct (decide (norm k = nk)) as [<-|Hne]; [right; exists k, v; split_and!; [by left|done..]|].
  destruct IH as [[-> Hni]|(k' & v' & Hin & Hn & ->)].
  - left. split; [done|]. rewrite !fmap_cons. apply not_elem_of_cons. by split; [simpl; congruence|].
  - right. exists k', v'. split_and!; [by right|done..].
Qed.

(** Iteration order does not matter. *)
Lemma side_of_perm l1 l2 nk : distinct_keys l1 -> l1 ≡ₚ l2 -> side_of l1 nk = side_of l2 nk.
Proof.
  intros Hd Hp. destruct (side_of_cases l2 nk) as [[-> Hni]|(k & v & Hin & <- & ->)].
  - apply side_of_absent. by rewrite Hp.
  - apply side_of_present; [done|]. by rewrite Hp.
Qed.

Lemma merge_left_lookup l nk : distinct_keys l ->
  merge_left norm l !! nk = (if sd_present (side_of l nk) then Some (side_of l nk, absent) else None).
Proof.
  unfold merge_left. intros Hd.
  enough (E : forall m, foldl (fun merged '(k, v) => <[norm k := (mkSide k v true, absent)]> merged) m l !! nk
    = if sd_present (side_of l nk) then Some (side_of l nk, absent) else m !! nk) by (by rewrite E, lookup_empty).
  induction l as [|[k v] l IH]; [done|]. unfold distinct_keys in Hd. rewrite !fmap_cons, NoDup_cons in Hd.
  destruct Hd as [Hni Hnd]. intros m. simpl. rewrite (IH Hnd), side_of_cons.
  destruct (decide (norm k = nk)) as [<-|Hne].
  - rewrite side_of_absent by done. simpl. by rewrite lookup_insert_eq.
  - destruct (sd_present _); [done|]. by rewrite lookup_insert_ne.
Qed.

Lemma merge_right_lookup l m nk : distinct_keys l ->
  merge_right norm m l !! nk =
    (if sd_present (side_of l nk) then Some (default absent (fst <$> m !! nk), side_of l nk) else m !! nk).
Proof.
  unfold merge_right. revert m. induction l as [|[k v] l IH]; intros m Hd; [done|].
  unfold distinct_keys in Hd. rewrite !fmap_cons, NoDup_cons in Hd. destruct Hd as [Hni Hnd].
  cbn [foldl]. rewrite IH, side_of_cons by done. destruct (decide (norm k = nk)) as [<-|Hne].
  - rewrite side_of_absent by done. simpl. destruct (m !! norm k) as [[]|]; by rewrite lookup_insert_eq.
  - destruct (m !! norm k) as [[]|]; by rewrite !lookup_insert_ne.
Qed.

(** What [merged] holds: the pair of sides of every key of either map. *)
Definition sides l1 l2 nk : side * side := (side_of l1 nk, side_of l2 nk).

Lemma merged_lookup l1 l2 nk : distinct_keys l1 -> distinct_keys l2 ->
  merge_right norm (merge_left norm l1) l2 !! nk =
    (if sd_present (side_of l1 nk) || sd_present (side_of l2 nk) then Some (sides l1 l2 nk) else None).
Proof.
  intros H1 H2. rewrite merge_right_lookup, merge_left_lookup by done. unfold sides.
  destruct (side_of_cases l1 nk) as [[-> _]|(k1 & v1 & _ & _ & ->)],
    (side_of_cases l2 nk) as [[-> _]|(k2 & v2 & _ & _ & ->)]; done.
Qed.

(** The key a pair is shown under normalises to its key. *)
Lemma display_key l1 l2 nk :
  sd_present (side_of l1 nk) || sd_present (side_of l2 nk) = true ->
  norm (if String.eqb (sd_display (side_of l1 nk)) "" then sd_display (side_of l2 nk) else sd_display (side_of l1 nk)) = nk.
Proof.
  destruct (side_of_cases l1 nk) as [[-> _]|(k1 & v1 & _ & Hk1 & ->)],
    (side_of_cases l2 nk) as [[-> _]|(k2 & v2 & _ & Hk2 & ->)]; simpl; try done;
    destruct (String.eqb_spec k1 ""); by subst.
Qed.

End Sides.

(** ** Sections of the diff *)

Lemma stringSliceEqual_spec a b : stringSliceEqual a b = true <-> a = b.
Proof.
  revert b. induction a as [|x a IH]; intros [|y b]; simpl; try done.
  rewrite andb_true_iff, String.eqb_eq, IH. split; [by intros [-> ->]|by intros [= -> ->]].
Qed.

Lemma str_app_inj_l a b c : a +:+ b = a +:+ c -> b = c.
Proof. induction a; simpl; [done|]. intros E. injection E as E. auto. Qed.

Lemma elem_of_sorted_keys `{MapRange} {V} (m : gmap string V) k :
  k ∈ sort_strings (go_range m).*1 <-> is_Some (m !! k).
Proof.
  unfold sort_strings. rewrite SliceStable_perm, list_elem_of_fmap. split.
  - intros ([k' x] & -> & Hin%elem_of_go_range). by exists x.
  - intros [x Hx]. exists (k, x). split; [done|]. by apply elem_of_go_range.
Qed.

(** Keys in order, whatever the iteration order. *)
Lemma sorted_keys_eq (R1 R2 : MapRange) {V W} (m : gmap string V) (m' : gmap string W) :
  (forall k, is_Some (m !! k) <-> is_Some (m' !! k)) ->
  sort_strings (go_range (MapRange := R1) m).*1 = sort_strings (go_range (MapRange := R2) m').*1.
Proof.
  intros Hd. apply sorted_strings_unique; [apply SliceStable_sorted, _..|].
  apply NoDup_Permutation.
  - unfold sort_strings. rewrite SliceStable_perm, go_range_perm. apply NoDup_fst_map_to_list.
  - unfold sort_strings. rewrite SliceStable_perm, go_range_perm. apply NoDup_fst_map_to_list.
  - intros k. by rewrite !elem_of_sorted_keys.
Qed.

Lemma NoDup_sorted_keys `{MapRange} {V} (m : gmap string V) : NoDup (sort_strings (go_range m).*1).
Proof. unfold sort_strings. rewrite SliceStable_perm, go_range_perm. apply NoDup_fst_map_to_list. Qed.

(** The sides of a key of two header maps. *)
Definition header_sides (norm : string -> string) (before after : option header) (nk : string) : side * side :=
  sides norm (map_to_list (headers_of before)) (map_to_list (headers_of after)) nk.

Definition distinct_in (norm : string -> string) (h : option header) : Prop :=
  distinct_keys norm (map_to_list (headers_of h)).

Section Section_.
Context `{MapRange} `{Printable}.

Definition some_side (p : side * side) : bool := sd_present p.1 || sd_present p.2.

Lemma section_lookup norm before after nk : distinct_in norm before -> distinct_in norm after ->
  merge_right norm (merge_left norm (go_range (headers_of before))) (go_range (headers_of after)) !! nk
    = if some_side (header_sides norm before after nk) then Some (header_sides norm before after nk) else None.
Proof.
  intros Hb Ha. unfold distinct_in in *.
  assert (Hd : forall h : option header, distinct_keys norm (map_to_list (headers_of h)) ->
    distinct_keys norm (go_range (headers_of h))).
  { intros h. unfold distinct_keys. by rewrite go_range_perm. }
  rewrite merged_lookup by auto. unfold some_side, header_sides, sides. simpl.
  by rewrite !(side_of_perm norm (go_range _) (map_to_list _)) by (auto using go_range_perm).
Qed.

(** An entry is listed exactly for the keys whose sides differ. *)
Lemma section_entries sec norm before after mask e : distinct_in norm before -> distinct_in norm after ->
  e ∈ diffStringSliceMap sec before after norm mask <->
  exists nk, some_side (header_sides norm before after nk) = true /\
    side_entry sec mask (header_sides norm before after nk) = Some e.
Proof.
  intros Hb Ha. unfold diffStringSliceMap. rewrite list_elem_of_omap.
  setoid_rewrite elem_of_sorted_keys. setoid_rewrite section_lookup; [|done..]. split.
  - intros (nk & _ & Hs). exists nk. by destruct (some_side _).
  - intros (nk & Hs & He). exists nk. rewrite Hs. by eauto.
Qed.

(** How a key appears in the diff of one map. *)
Inductive changed_key (norm : string -> string) (before after : header) (sec : string) (mask : bool) : DiffEntry -> Prop :=
| key_removed k v :
    before !! k = Some v -> (forall k', norm k' = norm k -> after !! k' = None) ->
    changed_key norm before after sec mask
      (mkDiffEntry (sec +:+ "." +:+ k) (formatSliceSide v true addedMarker mask) removedMarker)
| key_added k v :
    after !! k = Some v -> (forall k', norm k' = norm k -> before !! k' = None) ->
    changed_key norm before after sec mask
      (mkDiffEntry (sec +:+ "." +:+ k) addedMarker (formatSliceSide v true removedMarker false))
| key_changed k v k' v' :
    before !! k = Some v -> after !! k' = Some v' -> norm k' = norm k -> v <> v' ->
    changed_key norm before after sec mask
      (mkDiffEntry (sec +:+ "." +:+ (if String.eqb k "" then k' else k))
         (formatSliceSide v true addedMarker mask) (formatSliceSide v' true removedMarker false)).

Lemma absent_side (norm : string -> string) (h : header) (nk : string) :
  nk ∉ norm <$> (map_to_list h).*1 <-> forall k, norm k = nk -> h !! k = None.
Proof.
  split.
  - intros Hni k <-. destruct (h !! k) as [v|] eqn:E; [|done]. destruct Hni.
    apply list_elem_of_fmap_2, list_elem_of_fmap. exists (k, v). split; [done|]. by apply elem_of_map_to_list.
  - intros Hn (k & -> & ([k' v] & -> & Hin%elem_of_map_to_list)%list_elem_of_fmap)%list_elem_of_fmap.
    simpl in Hn. by rewrite Hn in Hin.
Qed.

Lemma section_spec sec norm before after mask e : distinct_in norm before -> distinct_in norm after ->
  e ∈ diffStringSliceMap sec before after norm mask <->
  changed_key norm (headers_of before) (headers_of after) sec mask e.
Proof.
  intros Hb Ha. rewrite section_entries by done. split.
  - intros (nk & Hs & He). unfold some_side, header_sides, sides, side_entry in *. simpl in Hs.
    destruct (side_of_cases norm (map_to_list (headers_of before)) nk) as [[Eb Hnb]|(k & v & Hk & Hnk & Eb)],
      (side_of_cases norm (map_to_list (headers_of after)) nk) as [[Ea Hna]|(k' & v' & Hk' & Hn & Ea)];
      rewrite Eb, Ea in *; simpl in *; [done|..]; rewrite ?elem_of_map_to_list, ?absent_side in *.
    + injection He as <-. apply key_added; [done|]. by rewrite Hn.
    + destruct (String.eqb_spec k "") as [->|]; injection He as <-; (apply key_removed; [done|by rewrite Hnk]).
    + destruct (stringSliceEqual v v') eqn:Ev; [done|]. injection He as <-. apply key_changed; try congruence.
      intros ->. by rewrite (proj2 (stringSliceEqual_spec v' v')) in Ev.
  - assert (Hsb : forall k v, headers_of before !! k = Some v ->
      side_of norm (map_to_list (headers_of before)) (norm k) = mkSide k v true).
    { intros k v Hk. apply side_of_present; [done|]. by apply elem_of_map_to_list. }
    assert (Hsa : forall k v, headers_of after !! k = Some v ->
      side_of norm (map_to_list (headers_of after)) (norm k) = mkSide k v true).
    { intros k v Hk. apply side_of_present; [done|]. by apply elem_of_map_to_list. }
    unfold some_side, header_sides, sides, side_entry. intros Hc. inversion Hc as [k v Hk Hn|k v Hk Hn|k v k' v' Hk Hk' Hn Hne]; subst e.
    + exists (norm k). rewrite (Hsb k v), (side_of_absent norm (map_to_list (headers_of after))) by (done || by apply absent_side).
      simpl. split; [done|]. by destruct (String.eqb_spec k "") as [->|].
    + exists (norm k). rewrite (Hsa k v), (side_of_absent norm (map_to_list (headers_of before))) by (done || by apply absent_side).
      done.
    + exists (norm k). rewrite (Hsb k v) by done. rewrite <- Hn, (Hsa k' v') by done. simpl. split; [done|].
      destruct (stringSliceEqual v v') eqn:Ev; [by apply stringSliceEqual_spec in Ev|]. done.
Qed.

Lemma NoDup_fmap_omap {A B C} (f : A -> option B) (g : B -> C) l :
  NoDup l -> (forall x y a b, x ∈ l -> y ∈ l -> f x = Some a -> f y = Some b -> g a = g b -> x = y) ->
  NoDup (g <$> omap f l).
Proof.
  induction 1 as [|x l Hx _ IH]; intros Hinj; [constructor|]. rewrite omap_cons.
  assert (Hl : NoDup (g <$> omap f l)) by (apply IH; intros ??????; by apply Hinj; right).
  destruct (f x) as [a|] eqn:E; [|done]. rewrite fmap_cons. constructor; [|done].
  intros (b & Hg & (y & Hy & Hf)%list_elem_of_omap)%list_elem_of_fmap. apply Hx.
  rewrite (Hinj x y a b); [done|by left|by right|done..].
Qed.

Lemma section_NoDup sec norm before after mask : distinct_in norm before -> distinct_in norm after ->
  NoDup (de_Path <$> diffStringSliceMap sec before after norm mask).
Proof.
  intros Hb Ha. unfold diffStringSliceMap. apply NoDup_fmap_omap; [apply NoDup_sorted_keys|].
  intros x y ex ey _ _. rewrite !section_lookup by done.
  assert (Hp : forall nk e, ((if some_side (header_sides norm before after nk) then Some (header_sides norm before after nk) else None)
    ≫= side_entry sec mask) = Some e -> exists d, de_Path e = sec +:+ "." +:+ d /\ norm d = nk).
  { intros nk e. destruct (some_side _) eqn:Es; [|done]. simpl. unfold header_sides, sides, side_entry.
    destruct (_ && _); [done|]. intros [= <-]. eexists. split; [done|]. by apply display_key. }
  intros (d1 & -> & <-)%Hp (d2 & -> & <-)%Hp E. do 2 apply str_app_inj_l in E. by subst.
Qed.

End Section_.

Lemma omap_ext_in {A B} (f g : A -> option B) (l : list A) : (forall x, x ∈ l -> f x = g x) -> omap f l = omap g l.
Proof.
  induction l as [|x l IH]; [done|]. intros Hfg. rewrite !omap_cons, (Hfg x) by left.
  rewrite IH; [done|]. intros y Hy. apply Hfg. by right.
Qed.

(** Two sections are equal when every key has the same entry. *)
Lemma section_ext `{Printable} (R1 R2 : MapRange) sec norm mask b1 a1 b2 a2 :
  distinct_in norm b1 -> distinct_in norm a1 -> distinct_in norm b2 -> distinct_in norm a2 ->
  (forall nk, some_side (header_sides norm b1 a1 nk) = some_side (header_sides norm b2 a2 nk) /\
     side_entry sec mask (header_sides norm b1 a1 nk) = side_entry sec mask (header_sides norm b2 a2 nk)) ->
  diffStringSliceMap (H := R1) sec b1 a1 norm mask = diffStringSliceMap (H := R2) sec b2 a2 norm mask.
Proof.
  intros Hb1 Ha1 Hb2 Ha2 He. unfold diffStringSliceMap.
  rewrite (sorted_keys_eq R1 R2 _ (merge_right norm (merge_left norm (go_range (MapRange := R2) (headers_of b2)))
    (go_range (MapRange := R2) (headers_of a2)))).
  - apply omap_ext_in. intros nk _. rewrite !section_lookup by done. destruct (He nk) as [-> Hs].
    by destruct (some_side _).
  - intros nk. rewrite !section_lookup by done. destruct (He nk) as [-> _]. by destruct (some_side _).
Qed.

(** ** Cookies *)

(** How a cookie appears in the diff; the last one of a name counts. *)
Inductive changed_cookie (before after : gmap string string) (mask : bool) : DiffEntry -> Prop :=
| cookie_changed n :
    before !! n <> after !! n ->
    changed_cookie before after mask
      (mkDiffEntry ("cookies." +:+ n)
         (match before !! n with None => addedMarker | Some v => if mask then masked_value v else v end)
         (default removedMarker (after !! n))).

Lemma name_of_either (m1 m2 : gmap string string) n :
  is_Some (gset_to_gmap tt (dom m1 ∪ dom m2) !! n) <-> m1 !! n <> None \/ m2 !! n <> None.
Proof.
  rewrite <- not_eq_None_Some, lookup_gset_to_gmap_None, not_elem_of_union, !not_elem_of_dom.
  destruct (m1 !! n), (m2 !! n); naive_solver.
Qed.

Lemma cookie_diff_None mask n bv av : cookie_diff mask n bv av = None <-> bv = av /\ bv <> None.
Proof. unfold cookie_diff. repeat case_bool_decide; simpl; naive_solver. Qed.

Lemma cookies_spec `{MapRange} before after mask e :
  e ∈ diffCookieSlice before after mask <-> changed_cookie (cookie_map before) (cookie_map after) mask e.
Proof.
  unfold diffCookieSlice. rewrite list_elem_of_omap. setoid_rewrite elem_of_sorted_keys.
  setoid_rewrite name_of_either. split.
  - intros (n & Hn & He). assert (Hne : cookie_map before !! n <> cookie_map after !! n).
    { intros E. assert (cookie_diff mask n (cookie_map before !! n) (cookie_map after !! n) = None); [|congruence].
      apply cookie_diff_None. split; [done|]. destruct Hn; [done|congruence]. }
    unfold cookie_diff in He. rewrite bool_decide_false in He by done. simpl in He. injection He as <-. by constructor.
  - intros Hc. inversion Hc as [n Hn]. subst e. exists n. split.
    + destruct (cookie_map before !! n), (cookie_map after !! n); naive_solver.
    + unfold cookie_diff. by rewrite bool_decide_false.
Qed.

Lemma cookies_NoDup `{MapRange} before after mask : NoDup (de_Path <$> diffCookieSlice before after mask).
Proof.
  unfold diffCookieSlice. apply NoDup_fmap_omap; [apply NoDup_sorted_keys|].
  intros x y a b _ _. unfold cookie_diff. destruct (_ && _); [done|]. destruct (_ && _); [done|].
  intros [= <-] [= <-]. simpl. intros E. by injection E.
Qed.

Lemma cookies_ext (R1 R2 : MapRange) mask b1 a1 b2 a2 :
  (forall n, (cookie_map b1 !! n = None <-> cookie_map b2 !! n = None) /\
             (cookie_map a1 !! n = None <-> cookie_map a2 !! n = None) /\
     cookie_diff mask n (cookie_map b1 !! n) (cookie_map a1 !! n)
       = cookie_diff mask n (cookie_map b2 !! n) (cookie_map a2 !! n)) ->
  diffCookieSlice (H := R1) b1 a1 mask = diffCookieSlice (H := R2) b2 a2 mask.
Proof.
  intros He. unfold diffCookieSlice.
  rewrite (sorted_keys_eq R1 R2 _ (gset_to_gmap tt (dom (cookie_map b2) ∪ dom (cookie_map a2)))).
  - apply omap_ext_in. intros n _. apply He.
  - intros n. rewrite !name_of_either. destruct (He n) as (-> & -> & _). done.
Qed.

(** ** The whole diff *)

Section Records.
Context `{MapRange} `{Printable}.

Inductive changed (before after : CapturedRequest) (mask : bool) : DiffEntry -> Prop :=
| changed_path : cr_Path before <> cr_Path after ->
    changed before after mask (mkDiffEntry "path" (cr_Path before) (cr_Path after))
| changed_header e :
    changed_key CanonicalMIMEHeaderKey (headers_of (cr_Headers before)) (headers_of (cr_Headers after)) "headers" mask e ->
    changed before after mask e
| changed_query e :
    changed_key id (headers_of (cr_Query before)) (headers_of (cr_Query after)) "query" mask e ->
    changed before after mask e
| changed_cookies e :
    changed_cookie (cookie_map (cr_Cookies before)) (cookie_map (cr_Cookies after)) mask e ->
    changed before after mask e
| changed_body : cr_Body before <> cr_Body after ->
    changed before after mask (mkDiffEntry "body" (byte_count (cr_Body before)) (byte_count (cr_Body after))).

Lemma id_distinct h : distinct_in id h.
Proof. unfold distinct_in, distinct_keys. rewrite list_fmap_id. apply NoDup_fst_map_to_list. Qed.

Definition distinct_headers (r : CapturedRequest) : Prop := distinct_in CanonicalMIMEHeaderKey (cr_Headers r).

Lemma section_prefix sec norm b a mask p : distinct_in norm b -> distinct_in norm a ->
  p ∈ de_Path <$> diffStringSliceMap sec b a norm mask -> HasPrefix p (sec +:+ ".") = true.
Proof.
  intros Hb Ha (e & -> & He%section_spec)%list_elem_of_fmap; [|done..].
  destruct He; cbn [de_Path]; rewrite <- (str_app_assoc sec "."); apply HasPrefix_app.
Qed.

Lemma cookies_prefix b a mask p : p ∈ de_Path <$> diffCookieSlice b a mask -> HasPrefix p "cookies." = true.
Proof. intros (e & -> & He%cookies_spec)%list_elem_of_fmap. by destruct He. Qed.

Lemma paths_NoDup before after mask : distinct_headers before -> distinct_headers after ->
  NoDup (de_Path <$> diffRecords before after mask).
Proof.
  intros Hb Ha. unfold diffRecords. rewrite SliceStable_perm, !fmap_app.
  pose proof (section_prefix "headers" CanonicalMIMEHeaderKey (cr_Headers before) (cr_Headers after) mask) as Hh.
  pose proof (section_prefix "query" id (cr_Query before) (cr_Query after) mask) as Hq.
  pose proof (cookies_prefix (cr_Cookies before) (cr_Cookies after) mask) as Hc.
  assert (Hpath : forall p, p ∈ de_Path <$> diff_path before after -> p = "path").
  { unfold diff_path. intros p. case_match; simpl; set_solver. }
  assert (Hbody : forall p, p ∈ de_Path <$> diff_body before after -> p = "body").
  { unfold diff_body. intros p. case_match; simpl; set_solver. }
  repeat (apply NoDup_app; split_and!).
  all: try (by apply section_NoDup; auto using id_distinct).
  all: try apply cookies_NoDup.
  all: try (unfold diff_path, diff_body; case_match; simpl; first [by constructor | by apply NoDup_singleton]).
  all: intros p Hp; rewrite ?elem_of_app; intros Hp'.
  all: repeat match goal with
    | Hx : _ ∈ de_Path <$> diff_path _ _ |- _ => apply Hpath in Hx
    | Hx : _ ∈ de_Path <$> diff_body _ _ |- _ => apply Hbody in Hx
    | Hx : _ ∈ de_Path <$> diffCookieSlice _ _ _ |- _ => apply Hc in Hx
    | Hx : _ ∈ de_Path <$> diffStringSliceMap "headers" _ _ _ _ |- _ => apply Hh in Hx; [|done..]
    | Hx : _ ∈ de_Path <$> diffStringSliceMap "query" _ _ _ _ |- _ => apply Hq in Hx; [|apply id_distinct..]
    | Hx : _ \/ _ |- _ => destruct Hx
    end.
  all: subst; try done; by destruct p as [|[[] [] [] [] [] [] [] []] p].
Qed.

Definition path_less (a b : DiffEntry) : bool := str_ltb (de_Path a) (de_Path b).

Lemma path_less_strict_weak : StrictWeak path_less.
Proof. apply (strict_weak_on de_Path str_ltb), _. Qed.

Lemma strictly_sorted l :
  sorted_by path_less l -> NoDup (de_Path <$> l) -> StronglySorted (fun a b => path_less a b = true) l.
Proof.
  unfold sorted_by. induction 1 as [|x l Hl IH Hx]; intros Hnd; [constructor|].
  rewrite fmap_cons, NoDup_cons in Hnd. destruct Hnd as [Hni Hnd]. constructor; [auto|].
  rewrite Forall_forall in Hx |- *. intros y Hy. specialize (Hx y Hy). unfold path_less in *.
  destruct (str_ltb (de_Path x) (de_Path y)) eqn:E; [done|]. destruct Hni.
  rewrite (str_ltb_total _ _ E Hx). by apply list_elem_of_fmap_2.
Qed.

Lemma diff_entries before after mask e : distinct_headers before -> distinct_headers after ->
  e ∈ diffRecords before after mask <-> changed before after mask e.
Proof.
  intros Hb Ha. unfold diffRecords. rewrite SliceStable_perm, !elem_of_app.
  rewrite !section_spec, cookies_spec by auto using id_distinct.
  assert (Hp : e ∈ diff_path before after <->
    cr_Path before <> cr_Path after /\ e = mkDiffEntry "path" (cr_Path before) (cr_Path after)).
  { unfold diff_path. destruct (String.eqb_spec (cr_Path before) (cr_Path after)); set_solver. }
  assert (Hbd : e ∈ diff_body before after <-> cr_Body before <> cr_Body after /\
    e = mkDiffEntry "body" (byte_count (cr_Body before)) (byte_count (cr_Body after))).
  { unfold diff_body. destruct (String.eqb_spec (cr_Body before) (cr_Body after)); set_solver. }
  rewrite Hp, Hbd. split.
  - intros [[? ->]|[?|[?|[?|[? ->]]]]]; by constructor.
  - intros Hc. inversion Hc; subst; tauto.
Qed.

End Records.

Lemma diffRecords_ext `{Printable} (R1 R2 : MapRange) mask b1 b2 after :
  diff_path b1 after = diff_path b2 after -> diff_body b1 after = diff_body b2 after ->
  diffStringSliceMap (H := R1) "headers" (cr_Headers b1) (cr_Headers after) CanonicalMIMEHeaderKey mask
    = diffStringSliceMap (H := R2) "headers" (cr_Headers b2) (cr_Headers after) CanonicalMIMEHeaderKey mask ->
  diffStringSliceMap (H := R1) "query" (cr_Query b1) (cr_Query after) id mask
    = diffStringSliceMap (H := R2) "query" (cr_Query b2) (cr_Query after) id mask ->
  diffCookieSlice (H := R1) (cr_Cookies b1) (cr_Cookies after) mask
    = diffCookieSlice (H := R2) (cr_Cookies b2) (cr_Cookies after) mask ->
  diffRecords (H := R1) b1 after mask = diffRecords (H := R2) b2 after mask.
Proof. unfold diffRecords. by intros -> -> -> -> ->. Qed.

(** ** Properties *)

(** C26. The diff of the dry run is exact: for records whose header names are
    distinct up to canonicalisation, it has one entry for every changed field
    (the path, each header under its canonical name, each query key, each
    cookie name, the body) and no other, strictly ordered by path, so the
    output does not depend on the order in which Go ranges over the maps. *)
Theorem diffRecords_exact `{MapRange} `{Printable} (before after : CapturedRequest) (mask : bool) :
  distinct_headers before -> distinct_headers after ->
  (forall e, e ∈ diffRecords before after mask <-> changed before after mask e) /\
  StronglySorted (fun a b => str_ltb (de_Path a) (de_Path b) = true) (diffRecords before after mask) /\
  forall R : MapRange, diffRecords (H := R) before after mask = diffRecords before after mask.
Proof.
  intros Hb Ha. pose proof path_less_strict_weak. split_and!.
  - intros e. by apply diff_entries.
  - apply strictly_sorted; [apply SliceStable_sorted, _|by apply paths_NoDup].
  - intros R. apply diffRecords_ext; [done..| | |].
    + by apply section_ext.
    + apply section_ext; try apply id_distinct. done.
    + by apply cookies_ext.
Qed.

(** *** Masking *)

(** Two header maps that look alike from outside: the same keys, value lists of
    the same shape and lengths in characters, and the same keys equal to those
    of [after]. *)
Definition same_outline (norm : string -> string) (after b1 b2 : header) : Prop :=
  (forall k, b1 !! k = None <-> b2 !! k = None) /\
  forall k v1 v2, b1 !! k = Some v1 -> b2 !! k = Some v2 ->
    map RuneCountInString v1 = map RuneCountInString v2 /\
    forall k' v', after !! k' = Some v' -> norm k' = norm k -> (v1 = v' <-> v2 = v').

Definition same_cookie_outline (after b1 b2 : gmap string string) : Prop :=
  forall n, (b1 !! n = None <-> b2 !! n = None) /\
  forall v1 v2, b1 !! n = Some v1 -> b2 !! n = Some v2 ->
    RuneCountInString v1 = RuneCountInString v2 /\ (after !! n = Some v1 <-> after !! n = Some v2).

Definition same_record_outline (after b1 b2 : CapturedRequest) : Prop :=
  cr_Path b1 = cr_Path b2 /\
  String.length (cr_Body b1) = String.length (cr_Body b2) /\ (cr_Body b1 = cr_Body after <-> cr_Body b2 = cr_Body after) /\
  same_outline CanonicalMIMEHeaderKey (headers_of (cr_Headers after)) (headers_of (cr_Headers b1)) (headers_of (cr_Headers b2)) /\
  same_outline id (headers_of (cr_Query after)) (headers_of (cr_Query b1)) (headers_of (cr_Query b2)) /\
  same_cookie_outline (cookie_map (cr_Cookies after)) (cookie_map (cr_Cookies b1)) (cookie_map (cr_Cookies b2)).

Lemma masked_same `{Printable} v1 v2 m : map RuneCountInString v1 = map RuneCountInString v2 ->
  formatSliceSide v1 true m true = formatSliceSide v2 true m true.
Proof.
  intros E. unfold formatSliceSide. cbn [negb].
  assert (Em : map masked_value v1 = map masked_value v2).
  { unfold masked_value. rewrite <- (map_map RuneCountInString (fun n => "<masked: " +:+ Itoa (Z.of_nat n) +:+ " chars>")).
    by rewrite E, map_map. }
  destruct v1, v2; try done. exact (f_equal (fun l => Join l ", ") Em).
Qed.

Lemma outline_sides `{Printable} sec norm after b1 b2 nk :
  distinct_in norm b1 -> distinct_in norm b2 -> same_outline norm (headers_of after) (headers_of b1) (headers_of b2) ->
  some_side (header_sides norm b1 after nk) = some_side (header_sides norm b2 after nk) /\
  side_entry sec true (header_sides norm b1 after nk) = side_entry sec true (header_sides norm b2 after nk).
Proof.
  intros H1 H2 [Hd Hv]. unfold some_side, header_sides, sides, side_entry. cbn [fst snd].
  destruct (side_of_cases norm (map_to_list (headers_of b1)) nk) as [[-> Hn]|(k & v1 & Hk & Hnk & ->)].
  - rewrite absent_side in Hn. rewrite (side_of_absent norm (map_to_list (headers_of b2))); [done|]. apply absent_side. intros k Hk. by apply Hd, Hn.
  - rewrite elem_of_map_to_list in Hk. destruct (headers_of b2 !! k) as [v2|] eqn:E2; [|apply Hd in E2; congruence].
    rewrite <- Hnk. rewrite (side_of_present norm (map_to_list (headers_of b2)) k v2) by (done || by apply elem_of_map_to_list).
    destruct (Hv k v1 v2 Hk E2) as [Hl He]. split; [done|]. cbn [sd_present sd_vals sd_display andb].
    rewrite (masked_same v1 v2) by done.
    destruct (side_of_cases norm (map_to_list (headers_of after)) (norm k)) as [[-> _]|(k' & v' & Hk' & Hn' & ->)]; [done|].
    rewrite elem_of_map_to_list in Hk'. specialize (He k' v' Hk' Hn'). cbn [sd_present sd_vals andb].
    replace (stringSliceEqual v1 v') with (stringSliceEqual v2 v'); [done|]. apply Bool.eq_iff_eq_true.
    by rewrite !stringSliceEqual_spec.
Qed.

Lemma outline_cookies mask after b1 b2 n : mask = true -> same_cookie_outline after b1 b2 ->
  cookie_diff mask n (b1 !! n) (after !! n) = cookie_diff mask n (b2 !! n) (after !! n).
Proof.
  intros -> Ho. destruct (Ho n) as [Hn Hv].
  destruct (b1 !! n) as [v1|], (b2 !! n) as [v2|]; [|naive_solver..|done].
  destruct (Hv v1 v2 eq_refl eq_refl) as [Hl He]. unfold cookie_diff, masked_value. rewrite Hl.
  replace (bool_decide (Some v1 = after !! n)) with (bool_decide (Some v2 = after !! n)); [done|].
  apply bool_decide_ext. split; intros E; symmetry; apply He; congruence.
Qed.

(** C27. A masked diff hides what was redacted: two samples with the same path,
    the same keys and cookie names, values of the same lengths in characters,
    a body of the same length, and the same fields equal to those after
    redaction give the same diff. Nothing else about the values before
    redaction can be learnt from the output. *)
Theorem masked_diff_hides `{MapRange} `{Printable} (after b1 b2 : CapturedRequest) :
  distinct_headers after -> distinct_headers b1 -> distinct_headers b2 -> same_record_outline after b1 b2 ->
  renderDiff (diffRecords b1 after true) = renderDiff (diffRecords b2 after true).
Proof.
  intros Ha H1 H2 (Hp & Hbl & Hbe & Hh & Hq & Hc). f_equal. apply diffRecords_ext.
  - unfold diff_path. by rewrite Hp.
  - unfold diff_body, byte_count. rewrite Hbl.
    destruct (String.eqb_spec (cr_Body b1) (cr_Body after)), (String.eqb_spec (cr_Body b2) (cr_Body after)); tauto.
  - apply section_ext; try done. intros nk. by apply outline_sides.
  - apply section_ext; try apply id_distinct. intros nk. by apply outline_sides; [apply id_distinct..|].
  - apply cookies_ext. intros n. split; [apply Hc|]. split; [done|]. by apply outline_cookies.
Qed.

(** A record does not differ from itself, so an empty rule set prints "no changes". *)
Lemma diff_same `{MapRange} `{Printable} r mask : distinct_headers r -> diffRecords r r mask = [].
Proof.
  intros Hd. apply elem_of_nil_inv. intros e He%diff_entries; [|done..].
  assert (Hk : forall norm h, distinct_in norm h -> forall sec e, ~ changed_key norm (headers_of h) (headers_of h) sec mask e).
  { intros norm h Hh sec x Hc. inversion Hc as [k v Hk Hn|k v Hk Hn|k v k' v' Hk Hk' Hn Hne].
    - by rewrite Hn in Hk.
    - by rewrite Hn in Hk.
    - apply Hne. apply elem_of_map_to_list in Hk, Hk'. pose proof (side_of_present norm _ k v Hh Hk) as E.
      rewrite <- Hn, (side_of_present norm _ k' v' Hh Hk') in E. congruence. }
  inversion He as [| e' He' | e' He' | e' He' |]; subst; try done.
  - by eapply Hk.
  - exact (Hk id _ (id_distinct _) _ _ He').
  - by inversion He'.
Qed.

Lemma Run_no_rules `{Unicode} `{MapRange} `{RedactDeps} `{YamlDeps} `{Printable} `{SampleDeps} cpus env fl cfg ruleset data r :
  env_flags env = Some fl -> fl_test fl <> "" ->
  Load cpus (if String.eqb (fl_config fl) "" then None else Some (env_ReadFile env (fl_config fl))) (env_Getenv env) = Ok cfg ->
  NewRuleset (cfg_Redaction cfg) = Ok ruleset -> IsUnredacted ruleset = true ->
  env_ReadFile env (fl_test fl) = Some data -> sample_Unmarshal data = Some r -> distinct_headers r ->
  env_write_ok env = true ->
  Run cpus env = Ok ("no changes" +:+ newline_text).
Proof.
  intros Hf Ht Hl Hn Hu Hr Hs Hd Hw. unfold Run. rewrite Hf, (proj2 (String.eqb_neq _ "")) by done.
  rewrite Hl, Hn, Hr, Hs. unfold Redact. rewrite Hu. simpl. by rewrite Hw, diff_same.
Qed.

(** ** Examples *)

Definition reverse_range : MapRange.
Proof.
  refine {| go_range V m := rev (map_to_list m) |}. intros V m. symmetry. apply Permutation_rev.
Defined.

Definition ascii_print : Printable := {| is_print := fun _ => false |}.

Definition sample (headers : header) (cookies : list Cookie) : CapturedRequest :=
  mkCapturedRequest "r" 1%Z "GET" "/" None (Some headers) cookies "abc" false 3 "" "" "" "" "" "".

(** Two spellings of one header name make the entry depend on the iteration
    order, so the output is not byte-stable then. *)
Lemma diff_order_dependent :
  let b := sample {[ "x-a" := ["1"]; "X-A" := ["2"] ]} [] in
  let a := sample {[ "x-a" := ["REDACTED"]; "X-A" := ["REDACTED"] ]} [] in
  diffRecords (H := sorted_range) (H0 := ascii_print) b a false <>
  diffRecords (H := reverse_range) (H0 := ascii_print) b a false.
Proof. by vm_compute. Qed.

Definition sample_before (token : string) : CapturedRequest :=
  sample {[ "authorization" := [token]; "Host" := ["h"] ]} [mkCookie "sid" token].
Definition sample_after : CapturedRequest :=
  sample {[ "Authorization" := ["[REDACTED]"]; "Host" := ["h"] ]} [mkCookie "sid" "[REDACTED]"].

#[local] Existing Instances sorted_range ascii_print.

Lemma sample_distinct h : bool_decide (distinct_keys CanonicalMIMEHeaderKey (map_to_list h)) = true ->
  forall cs, distinct_headers (sample h cs).
Proof. intros Hd cs. by apply bool_decide_eq_true in Hd. Qed.

Lemma diffRecords_exact_witness :
  diffRecords (sample_before "secret") sample_after true =
    [mkDiffEntry "cookies.sid" "<masked: 6 chars>" "[REDACTED]";
     mkDiffEntry "headers.authorization" "<masked: 6 chars>" (String dquote ("[REDACTED]" +:+ String dquote ""))] /\
  forall e, e ∈ diffRecords (sample_before "secret") sample_after true <->
    changed (sample_before "secret") sample_after true e.
Proof.
  split; [by vm_compute|].
  refine (proj1 (diffRecords_exact (sample_before "secret") sample_after true _ _));
    apply sample_distinct; vm_compute; reflexivity.
Defined.

Lemma sample_outline t1 t2 :
  RuneCountInString t1 = RuneCountInString t2 -> t1 <> "[REDACTED]" -> t2 <> "[REDACTED]" ->
  same_record_outline sample_after (sample_before t1) (sample_before t2).
Proof.
  intros Hl H1 H2. split; [done|]. split; [done|]. split; [done|]. split; [|split; [by split|]].
  - simpl. split.
    + intros k. destruct (decide (k = "authorization")) as [->|]; [|destruct (decide (k = "Host")) as [->|]]; by simplify_map_eq.
    + intros k v1 v2. destruct (decide (k = "authorization")) as [->|]; [|destruct (decide (k = "Host")) as [->|]];
        simplify_map_eq; try done.
      * intros [= <-] [= <-]. simpl. rewrite Hl. split; [done|]. intros k' v'.
        destruct (decide (k' = "Authorization")) as [->|]; [|destruct (decide (k' = "Host")) as [->|]]; simplify_map_eq; try done.
        intros [= <-] _. split; congruence.
      * by intros [= <-] [= <-].
  - intros n. unfold cookie_map. simpl. destruct (decide (n = "sid")) as [->|]; simplify_map_eq; [|done]. split; [done|].
    intros v1 v2 [= <-] [= <-]. split; [done|]. split; congruence.
Qed.

Lemma masked_diff_hides_witness :
  renderDiff (diffRecords (sample_before "secret") sample_after true)
    = renderDiff (diffRecords (sample_before "public") sample_after true).
Proof.
  apply (masked_diff_hides sample_after (sample_before "secret") (sample_before "public"));
    [apply sample_distinct; vm_compute; reflexivity..|]. by apply sample_outline.
Defined.
