(* ===== verification/UiViews.v ===== *)
(** * admin/ui_views.go: the HTML pages

    Each handler is modelled up to the data it hands to its template, with the
    status code; template execution and the YAML encoder are parameters. Time
    readings are arguments. *)
From S2P Require Import Prelude GoLib Record Json Url SearchQL SearchSQL Inspect AdminInspect Redact GoTime Config.

Open Scope string_scope.
Open Scope go_scope.

Definition httpMethods : list string :=
  ["GET"; "HEAD"; "POST"; "PUT"; "DELETE"; "CONNECT"; "OPTIONS"; "TRACE"; "PATCH"].

Definition servicesSince : duration := (24 * 3600 * second)%Z.
Definition defaultExplorerWindow : duration := (15 * 60 * second)%Z.

(** [t.UTC().Format(time.RFC3339Nano)]. *)
Class TimeFormat := { FormatRFC3339Nano : time -> string }.

(** Years 0 to 9999, which the layout can express. *)
Definition rfc3339_range (t : time) : Prop :=
  (-62167219200 * second <= t < 253402300800 * second)%Z.

(** A formatted instant is read back by [time.Parse] with layout RFC3339, which
    accepts fractional seconds. *)
Class TimeLaws `{TimeParse} `{TimeFormat} : Prop := {
  format_nonempty : forall t, FormatRFC3339Nano t <> "";
  parse_format : forall t, rfc3339_range t -> parse_rfc3339 (FormatRFC3339Nano t) = Some t
}.

(** ** Chips *)

Record chipView := mkChip {
  cv_Token : string;
  cv_Key : string;
  cv_Value : string;
  cv_Negated : bool;
  cv_IsHeader : bool;
  cv_IsFreeform : bool
}.

Definition chipDisplayValue (t : Term) : string :=
  match t_StatusFilter t with
  | Some sf => if negb (sf_Exact sf =? 0)%Z then Itoa (sf_Exact sf) else sf_Class sf
  | None =>
      if t_QuotedLiteral t
      then String dquote (ReplaceAll (t_Value t) (String dquote "") (String backslash (String dquote ""))
                          +:+ String dquote "")
      else match t_Wildcard t with
           | WildcardPrefix => t_Value t +:+ "*"
           | WildcardSubstring => "*" +:+ t_Value t +:+ "*"
           | WildcardNone => t_Value t
           end
  end.

Definition chip_of_term (t : Term) : chipView :=
  let value := chipDisplayValue t in
  let key := if bool_decide (t_Field t = FieldHeader) then "header." +:+ t_HeaderName t
             else field_name (t_Field t) in
  let freeform := bool_decide (t_Field t = FieldFree) in
  let token := if freeform then value else key +:+ ":" +:+ value in
  let token := if t_Negated t then "-" +:+ token else token in
  mkChip token key value (t_Negated t)
    (bool_decide (t_Field t = FieldHeaders) || bool_decide (t_Field t = FieldHeader)) freeform.

Definition chipsFromQuery (q : Query) : list chipView := map chip_of_term (q_Terms q).

(** ** Rows *)

Definition httpStatusClass (c : Z) : string :=
  if ((200 <=? c) && (c <? 300))%Z then "2xx"
  else if ((300 <=? c) && (c <? 400))%Z then "3xx"
  else if ((400 <=? c) && (c <? 500))%Z then "4xx"
  else if ((500 <=? c) && (c <? 600))%Z then "5xx"
  else "other".

(** [rowView] embeds the row. *)
Definition EventCountText (r : RootRow) : string :=
  match row_EventCount r with None => "" | Some n => Itoa (Z.of_nat n) end.
Definition EventCountNonZero (r : RootRow) : bool :=
  match row_EventCount r with None => false | Some n => (0 <? n)%nat end.
Definition StatusText (r : RootRow) : string :=
  match row_Status r with None => "" | Some c => Itoa c end.
Definition StatusClassCSS (r : RootRow) : string :=
  match row_Status r with None => "" | Some c => httpStatusClass c end.

(** ** The list page *)

Record listQueryView := mkListQuery {
  lq_Q : string;
  lq_SinceRaw : string;
  lq_UntilRaw : string;
  lq_Chips : list chipView
}.

(** [data.Error]: the first field error or the narrowing message. *)
Inductive ListError := LEField (e : parseFieldError) | LENarrowing.

Record listPageData := mkListPage {
  lp_Page : string;
  lp_Error : option ListError;
  lp_Services : list string;
  lp_Methods : list string;
  lp_Query : listQueryView;
  lp_Rows : list RootRow;
  lp_UnindexedScan : bool;
  lp_NextURL : string
}.

Inductive ListResponse := ListPage (status : Z) (data : listPageData) | ListReadError.

Definition serviceAggregateReader (rs : ReadSources) : option Reader :=
  match rs_SQLite rs with Some sql => Some sql | None => rs_Memory rs end.

(** The copy skips [key]; [Set] then adds it. *)
Definition overrideQueryParam (existing : header) (key val : string) : string :=
  Values_Encode (Values_Set (filter (fun kv => kv.1 <> key) existing) key val).

Section List.
Context `{Unicode} `{MapRange} `{TimeParse} `{TimeFormat}.

Definition with_default_window (now : time) (vals : header) : header :=
  if String.eqb (Values_Get vals "since") "" && String.eqb (Values_Get vals "until") ""
     && String.eqb (Values_Get vals "cursor") ""
  then Values_Set (Values_Set vals "since" (FormatRFC3339Nano (now - defaultExplorerWindow)%Z))
         "until" (FormatRFC3339Nano now)
  else vals.

(** Services for the dropdown; an error leaves the list empty. *)
Definition dropdown_services (rs : ReadSources) (now : time) : result ReadError (list string) :=
  match serviceAggregateReader rs with
  | None => Ok []
  | Some rd =>
      match rd_ServicesSeen rd (now - servicesSince)%Z with
      | Ok svcs => Ok svcs
      | Err ReadPanic => Err ReadPanic
      | Err _ => Ok []
      end
  end.

(** The clock is read once for the dropdown and once for the window. *)
Definition requestListHandler (rs : ReadSources) (now_services now : time) (values : header) : ListResponse :=
  match dropdown_services rs now_services with
  | Err _ => ListReadError
  | Ok services =>
      let vals := with_default_window now values in
      let page err chips rows scan next :=
        mkListPage "explorer" err services httpMethods
          (mkListQuery (Values_Get vals "q") (Values_Get vals "since") (Values_Get vals "until") chips)
          rows scan next in
      let '(q, fieldErrs) := parseInspectQuery vals in
      match fieldErrs with
      | e :: _ => ListPage 200 (page (Some (LEField e)) [] [] false "")
      | [] =>
          let chips := chipsFromQuery (iq_Query q) in
          let scan := IsUnindexedScan (iq_Query q) in
          if scan && negb (requiresNarrowing q) then ListPage 400 (page (Some LENarrowing) chips [] scan "")
          else match gatherRoots q (rs_Memory rs) (rs_SQLite rs) with
               | Err _ => ListReadError
               | Ok (rows, nextCur, _) =>
                   ListPage 200 (page None chips rows scan
                     match nextCur with
                     | Some c => "/ui/requests?" +:+ overrideQueryParam vals "cursor" (Encode c)
                     | None => ""
                     end)
               end
      end
  end.

End List.

(** ** The detail page *)

(** "≥ " in UTF-8. *)
Definition at_least : string := String "226" (String "137" (String "165" " ")).

Definition size_label (truncated : bool) (size : Z) : string :=
  if truncated then at_least +:+ Itoa size else Itoa size.

Definition formatBody (body : string) : string := body.

Definition HeadersJSON (v : CapturedRequest) : string := MarshalHeader (cr_Headers v).
Definition BodyBase64 (v : CapturedRequest) : string :=
  if (String.length (cr_Body v) =? 0)%nat then "" else EncodeToString (cr_Body v).
Definition BodyText (v : CapturedRequest) : string := formatBody (cr_Body v).
Definition BodyOriginalSizeLabel (v : CapturedRequest) : string :=
  size_label (cr_BodyTruncated v) (cr_BodyOriginalSize v).

(** [eventView] wraps any record; its methods dispatch on the record's type. *)
Definition ev_Kind (ev : CRecord) : string :=
  match ev with
  | RResponse _ | ROutbound _ => KindName (Kind ev)
  | RRequest _ => ""
  end.

Definition ev_Timestamp (ev : CRecord) : time :=
  match ev with RResponse r => re_Timestamp r | ROutbound r => oe_Timestamp r | RRequest _ => time_zero end.
Definition ev_DurationMS (ev : CRecord) : Z :=
  match ev with RResponse r => re_DurationMS r | ROutbound r => oe_DurationMS r | RRequest _ => 0%Z end.

Definition as_response {A} (ev : CRecord) (f : ResponseEvent -> A) (zero : A) : A :=
  match ev with RResponse r => f r | _ => zero end.

Definition ev_Status (ev : CRecord) : Z := as_response ev re_Status 0%Z.
Definition ev_StatusClass (ev : CRecord) : string := httpStatusClass (ev_Status ev).
Definition ev_Headers (ev : CRecord) : option header := as_response ev re_Headers None.
Definition ev_Body (ev : CRecord) : string := as_response ev re_Body "".
Definition ev_BodyText (ev : CRecord) : string := as_response ev (fun r => formatBody (re_Body r)) "".
Definition ev_ContentType (ev : CRecord) : string := as_response ev re_ContentType "".
Definition ev_BodyTruncated (ev : CRecord) : bool := as_response ev re_BodyTruncated false.
Definition ev_BodyOriginalSize (ev : CRecord) : Z := as_response ev re_BodyOriginalSize 0%Z.
Definition ev_BodyOriginalSizeLabel (ev : CRecord) : string := size_label (ev_BodyTruncated ev) (ev_BodyOriginalSize ev).

Definition as_outbound {A} (ev : CRecord) (f : OutboundEvent -> A) (zero : A) : A :=
  match ev with ROutbound r => f r | _ => zero end.

Definition as_outbound_response {A} (ev : CRecord) (f : OutboundResponseHalf -> A) (zero : A) : A :=
  match ev with
  | ROutbound r => match oe_Response r with Some h => f h | None => zero end
  | _ => zero
  end.

Definition ev_HasOutboundResponse (ev : CRecord) : bool :=
  as_outbound ev (fun r => match oe_Response r with Some _ => true | None => false end) false.
Definition ev_OutboundMethod (ev : CRecord) : string := as_outbound ev (fun r => oq_Method (oe_Request r)) "".
Definition ev_OutboundPath (ev : CRecord) : string := as_outbound ev (fun r => oq_Path (oe_Request r)) "".
Definition ev_OutboundRequestHeaders (ev : CRecord) : option header :=
  as_outbound ev (fun r => oq_Headers (oe_Request r)) None.
Definition ev_OutboundRequestBody (ev : CRecord) : string := as_outbound ev (fun r => oq_Body (oe_Request r)) "".
Definition ev_OutboundRequestBodyText (ev : CRecord) : string :=
  as_outbound ev (fun r => formatBody (oq_Body (oe_Request r))) "".
Definition ev_OutboundRequestContentType (ev : CRecord) : string :=
  as_outbound ev (fun r => oq_ContentType (oe_Request r)) "".
Definition ev_OutboundRequestBodyTruncated (ev : CRecord) : bool :=
  as_outbound ev (fun r => oq_BodyTruncated (oe_Request r)) false.
Definition ev_OutboundRequestBodyOriginalSize (ev : CRecord) : Z :=
  as_outbound ev (fun r => oq_BodyOriginalSize (oe_Request r)) 0%Z.
Definition ev_OutboundRequestBodyOriginalSizeLabel (ev : CRecord) : string :=
  size_label (ev_OutboundRequestBodyTruncated ev) (ev_OutboundRequestBodyOriginalSize ev).

Definition ev_OutboundStatus (ev : CRecord) : Z := as_outbound_response ev os_Status 0%Z.
Definition ev_OutboundStatusClass (ev : CRecord) : string := httpStatusClass (ev_OutboundStatus ev).
Definition ev_OutboundResponseHeaders (ev : CRecord) : option header := as_outbound_response ev os_Headers None.
Definition ev_OutboundResponseBody (ev : CRecord) : string := as_outbound_response ev os_Body "".
Definition ev_OutboundResponseBodyText (ev : CRecord) : string :=
  as_outbound_response ev (fun h => formatBody (os_Body h)) "".
Definition ev_OutboundResponseContentType (ev : CRecord) : string := as_outbound_response ev os_ContentType "".
Definition ev_OutboundResponseBodyTruncated (ev : CRecord) : bool := as_outbound_response ev os_BodyTruncated false.
Definition ev_OutboundResponseBodyOriginalSize (ev : CRecord) : Z := as_outbound_response ev os_BodyOriginalSize 0%Z.
Definition ev_OutboundResponseBodyOriginalSizeLabel (ev : CRecord) : string :=
  size_label (ev_OutboundResponseBodyTruncated ev) (ev_OutboundResponseBodyOriginalSize ev).

Definition ev_Service (ev : CRecord) : string :=
  match ev with RResponse r => re_Service r | ROutbound r => oe_Service r | RRequest _ => "" end.
Definition ev_ServiceSource (ev : CRecord) : string :=
  match ev with RResponse r => re_ServiceSource r | ROutbound r => oe_ServiceSource r | RRequest _ => "" end.
Definition ev_CorrelationID (ev : CRecord) : string :=
  match ev with RResponse r => re_CorrelationID r | ROutbound r => oe_CorrelationID r | RRequest _ => "" end.
Definition ev_CorrelationSource (ev : CRecord) : string :=
  match ev with RResponse r => re_CorrelationSource r | ROutbound r => oe_CorrelationSource r | RRequest _ => "" end.
Definition ev_IsResponseEvent (ev : CRecord) : bool := match ev with RResponse _ => true | _ => false end.
Definition ev_IsOutboundEvent (ev : CRecord) : bool := match ev with ROutbound _ => true | _ => false end.

Record detailPageData := mkDetailPage { dp_Root : CapturedRequest; dp_Events : list CRecord }.

Record eventDetailPageData := mkEventPage {
  ep_Root : CRecord;
  ep_Events : list CRecord;
  ep_HasRequestSibling : bool
}.

(** The first response event and its position. *)
Definition FirstResponse (d : detailPageData) : option CRecord :=
  List.find ev_IsResponseEvent (dp_Events d).

Inductive DetailResponse :=
| DetailPage (data : detailPageData)
| EventPage (data : eventDetailPageData)
| DetailNotFound (id : string)
| DetailReadError.

Definition detail_status (r : DetailResponse) : Z :=
  match r with
  | DetailPage _ | EventPage _ => 200
  | DetailNotFound _ => 404
  | DetailReadError => 500
  end.

Definition is_request (r : CRecord) : bool := match r with RRequest _ => true | _ => false end.

(** The type switch on the root; its [default] branch is for types no reader
    returns. *)
Definition detail_page (detail : DetailRecord) : DetailResponse :=
  match dr_Root detail with
  | RRequest root => DetailPage (mkDetailPage root (dr_Events detail))
  | root => EventPage (mkEventPage root (filter (fun e => is_request e = false) (dr_Events detail))
                         (existsb is_request (dr_Events detail)))
  end.

Definition requestDetailUIHandler (rs : ReadSources) (id : string) : DetailResponse :=
  match rs_Memory rs, rs_SQLite rs with
  | None, None => DetailNotFound id
  | mem, sql =>
      match gatherDetail id mem sql with
      | Err ErrNotFound => DetailNotFound id
      | Err _ => DetailReadError
      | Ok detail => detail_page detail
      end
  end.

(** ** The services page *)

(** [Duration.Minutes] and [Duration.Hours]. *)
Definition Minutes (d : duration) : f64 :=
  f64_add (f64_of_Z (Z.quot d (60 * second))) (f64_div (f64_of_Z (Z.rem d (60 * second))) (f64_of_Z (60 * second))).
Definition Hours (d : duration) : f64 :=
  f64_add (f64_of_Z (Z.quot d (3600 * second))) (f64_div (f64_of_Z (Z.rem d (3600 * second))) (f64_of_Z (3600 * second))).

Definition relativeTime (t now : time) : string :=
  if IsZero t then "" else
  let d := TimeSub now t in
  if (d <? 60 * second)%Z then "just now"
  else if (d <? 3600 * second)%Z then Itoa (f64_to_i64 (Minutes d)) +:+ "m ago"
  else if (d <? 24 * 3600 * second)%Z then Itoa (f64_to_i64 (Hours d)) +:+ "h ago"
  else Itoa (f64_to_i64 (f64_div (Hours d) (f64_of_Z 24))) +:+ "d ago".

Record statusSegment := mkSegment { sg_Class : string; sg_Count : nat; sg_Pct : f64 }.

Record serviceCard := mkCard {
  sc_Name : string;
  sc_Requests : nat;
  sc_LastSeen : string;
  sc_Responses : nat;
  sc_Segments : list statusSegment
}.

Definition stat_classes (st : ServiceStat) : list (string * nat) :=
  [("2xx", ss_S2xx st); ("3xx", ss_S3xx st); ("4xx", ss_S4xx st); ("5xx", ss_S5xx st); ("other", ss_Other st)].

Definition buildServiceCard (st : ServiceStat) (now : time) : serviceCard :=
  let responses := (ss_S2xx st + ss_S3xx st + ss_S4xx st + ss_S5xx st + ss_Other st)%nat in
  mkCard (ss_Name st) (ss_Requests st) (relativeTime (ss_LastSeen st) now) responses
    (if (0 <? responses)%nat then
       omap (fun '(name, count) =>
               if (count =? 0)%nat then None
               else Some (mkSegment name count
                      (f64_mul (f64_div (f64_of_Z (Z.of_nat count)) (f64_of_Z (Z.of_nat responses))) (f64_of_Z 100))))
            (stat_classes st)
     else []).

Record servicesPageData := mkServicesPage {
  sp_Error : option ReadError;
  sp_Services : list serviceCard;
  sp_Since : string;
  sp_Until : string
}.

(** A panic of the reader leaves no page. *)
Definition servicesUIHandler `{TimeFormat} (rs : ReadSources) (now : time) : option servicesPageData :=
  let since := (now - servicesSince)%Z in
  let page err cards := mkServicesPage err cards (FormatRFC3339Nano since) (FormatRFC3339Nano now) in
  match serviceAggregateReader rs with
  | None => Some (page None [])
  | Some rd =>
      match rd_ServiceStats rd since with
      | Ok stats => Some (page None (map (fun st => buildServiceCard st now) stats))
      | Err ReadPanic => None
      | Err e => Some (page (Some e) [])
      end
  end.

(** ** The configuration page *)

(** [template.HTMLEscapeString]. *)
Definition html_escape_byte (c : ascii) : string :=
  if Ascii.eqb c dquote then "&#34;"
  else if Ascii.eqb c "'" then "&#39;"
  else if Ascii.eqb c "&" then "&amp;"
  else if Ascii.eqb c "<" then "&lt;"
  else if Ascii.eqb c ">" then "&gt;"
  else if (code c =? 0)%N then RuneError
  else String c "".

Fixpoint HTMLEscapeString (s : string) : string :=
  match s with
  | "" => ""
  | String c r => html_escape_byte c +:+ HTMLEscapeString r
  end.

Definition key_char (c : ascii) : bool := is_lower c || Ascii.eqb c "_".
Definition newline : ascii := "010"%char.

(** [(?m)^([a-z_]+):] matches at most once in a line, at its start. *)
Definition anchor_line (line : string) : string :=
  let '(key, r) := span key_char line in
  if negb (String.eqb key "") && HasPrefix r ":" then
    "<span id=" +:+ String dquote (key +:+ String dquote (">" +:+ key +:+ "</span>:" +:+ str_drop 1 r))
  else line.

Definition injectConfigurationAnchors (yamlText : string) : string :=
  Join (map anchor_line (Split (HTMLEscapeString yamlText) newline)) (String newline "").

Definition adminTokenMaskUnset : string := "<unset>".
Definition adminTokenMaskSet : string := "<set>".

Definition with_token (cfg : Config) (token : string) : Config :=
  let a := cfg_Admin cfg in
  mkConfig (cfg_CapturePort cfg) (cfg_CaptureBind cfg) (cfg_QueueSize cfg) (cfg_BodyCap cfg)
    (cfg_MaxEventsPayload cfg) (cfg_MaxEventsPerBatch cfg) (cfg_Workers cfg) (cfg_ServiceHeader cfg)
    (cfg_LogFormat cfg) (cfg_Timeouts cfg) (cfg_Sinks cfg) (cfg_Redaction cfg)
    (mkAdminConfig (ac_Bind a) token (ac_InsecureListen a) (ac_SessionTTL a) (ac_SessionSecure a))
    (cfg_Inspect cfg).

Definition display_config (effective : Config) : Config :=
  with_token effective (if String.eqb (ac_Token (cfg_Admin effective)) "" then adminTokenMaskUnset else adminTokenMaskSet).

(** yaml.v3's encoder, the configuration template and SHA-256; [None] is an
    error, on which the construction panics. *)
Class PageDeps := {
  yaml_Encode : Config -> option string;
  configurationTmpl : string -> bool -> option string;
  sha256_Sum256 : string -> string
}.

Fixpoint hex_EncodeToString (s : string) : string :=
  match s with
  | "" => ""
  | String c r => String (hex_digit (code c / 16)) (String (hex_digit (code c mod 16)) (hex_EncodeToString r))
  end.

Inductive ConfigResponse := NotModified | ConfigPage (etag body : string).

Section Configuration.
Context `{PageDeps}.

Definition configuration_body (effective : Config) (unredacted : bool) : option string :=
  text ← yaml_Encode (display_config effective);
  configurationTmpl (injectConfigurationAnchors text) unredacted.

Definition etag_of (body : string) : string :=
  String dquote (str_take 16 (hex_EncodeToString (sha256_Sum256 body)) +:+ String dquote "").

Definition configurationUIHandler (effective : Config) (unredacted : bool) (headers : header) : option ConfigResponse :=
  body ← configuration_body effective unredacted;
  let etag := etag_of body in
  Some (if String.eqb (Header_Get headers "If-None-Match") etag then NotModified else ConfigPage etag body).

End Configuration.

Example relativeTime_ex : relativeTime (1000 * second)%Z 1119999999999%Z = "1m ago".
Proof. by vm_compute. Qed.
Example anchor_ex : injectConfigurationAnchors ("admin:" +:+ String newline "  x: <a>")
  = "<span id=" +:+ String dquote ("admin" +:+ String dquote (">admin</span>:" +:+ String newline "  x: &lt;a&gt;")).
Proof. by vm_compute. Qed.
