(* ===== verification/UiChipsFacts.v ===== *)
(** * The chips of the list page

    Every parsed query is shown as chips whose tokens are search text again:
    any selection of them parses to the terms they stand for. *)
From S2P Require Import Prelude GoLib Record SearchQL SearchQLFacts Predicate SearchSQL UiViews.

Open Scope string_scope.

(** Facts of the Unicode tables: no rune's lower case has or loses a double
    quote, and none beyond ASCII maps to a letter of [header.]. *)
Class CaseTables `{Unicode} : Prop := {
  lower_quote : forall s, ContainsByte (uni_lower s) dquote = ContainsByte s dquote;
  lower_header : forall s, HasPrefix (uni_lower s) "header." = true ->
    HasPrefix (str_map lower_byte s) "header." = true
}.

(** ** Token bodies *)

Lemma token_body_skip a b :
  ContainsByte a dquote = false -> token_body false (a +:+ b) -> token_body false b.
Proof.
  induction a as [|c a IH]; [done|]. rewrite ContainsByte_cons. intros Ha Hb. bool_hyps.
  simpl in Hb. apply IH; [done|]. by inversion Hb; subst.
Qed.

Lemma token_body_star q s : token_body q s -> token_body q (s +:+ "*").
Proof.
  induction 1 as [|c s ?? _ IH|s _ IH|s _ IH|s _ IH|c s Hq Hb Hs IH]; simpl; auto with go.
  constructor; [done| |done]. intros ->. specialize (Hb eq_refl). by destruct s; [invc Hs|].
Qed.

Lemma token_body_unstar q s : token_body q (s +:+ "*") -> token_body q s.
Proof.
  remember (s +:+ "*") as r eqn:Er. intros Hr. revert s Er.
  induction Hr as [|c r ?? Hr IH|r Hr IH|r Hr IH|r Hr IH|c r Hq Hb Hr IH]; intros s Er.
  - by destruct s.
  - destruct s as [|d s]; [constructor|]. invc Er. by constructor; [| |apply IH].
  - destruct s as [|d s]; [done|]. invc Er. by constructor; apply IH.
  - destruct s as [|d s]; [done|]. invc Er. by constructor; apply IH.
  - destruct s as [|d [|e s]]; [done..|]. invc Er. by constructor; apply IH.
  - destruct s as [|d s].
    + invc Er. by invc Hr.
    + invc Er. constructor; [done| |by apply IH]. intros ->. specialize (Hb eq_refl). by destruct s.
Qed.

(** A quote that ends a token is not preceded by a backslash. *)
Lemma token_body_escape q s r : token_body q r -> r = s +:+ String backslash (String dquote "") -> False.
Proof.
  intros Hr. revert s. induction Hr as [|c r ?? Hr IH|r Hr IH|r Hr IH|r Hr IH|c r Hq Hb Hr IH]; intros s Es.
  - by destruct s.
  - destruct s as [|d s]; invc Es; [|by eapply IH].
    inversion Hr as [|? ? ? Hd|? Hd| | |]; subst; [done|by invc Hd].
  - destruct s as [|d s]; invc Es; by eapply IH.
  - destruct s as [|d s]; invc Es; by eapply IH.
  - destruct s as [|d [|e s]]; invc Es; [by invc Hr|]. by eapply IH.
  - destruct s as [|d s]; invc Es; [by specialize (Hb eq_refl)|]. by eapply IH.
Qed.

(** Unescaping keeps the last byte unless it is a quote. *)
Lemma unescape_suffix n s :
  n <= String.length s ->
  HasSuffix (replace_all_from n s (String backslash (String dquote "")) (String dquote "")) (String backslash "") = true ->
  HasSuffix s (String backslash "") = true.
Proof.
  revert n. induction s as [|c s IH]; intros n Hn; [done|]. rewrite HasSuffix_unfold, orb_true_iff.
  destruct n as [|n]; [|intros Hs; right; eapply IH; [|exact Hs]; simpl in *; lia].
  cbn [replace_all_from]. destruct (HasPrefix (String c s) _) eqn:Ep.
  - cbn [String.append]. rewrite HasSuffix_unfold, orb_true_iff.
    intros [Hs|Hs]; [done|]. right. eapply IH; [|exact Hs].
    destruct s as [|d s]; simpl in Ep |- *; [by rewrite andb_false_r in Ep|lia].
  - rewrite HasSuffix_unfold, orb_true_iff. intros [Hs|Hs]; [|right; eapply IH; [|exact Hs]; lia].
    apply String.eqb_eq in Hs. injection Hs as -> Hs. destruct s as [|d s]; [by left|].
    cbn [replace_all_from] in Hs. by destruct (HasPrefix (String d s) _).
Qed.

(** ** Values of parsed terms *)

(** What the tokeniser and [parseValue] guarantee of a value. *)
Definition sound_value (v : string) (w : Wildcard) (quoted : bool) : Prop :=
  if quoted then HasSuffix v (String backslash "") = false
  else token_body false v /\ (w <> WildcardSubstring -> HasPrefix v (String dquote "") = false).

(** An unquoted value is the text without its wildcards. *)
Lemma parseValue_parts raw v w :
  parseValue raw = Ok (v, w, false) ->
  HasPrefix raw (String dquote "") = false /\ v <> "" /\
  exists post, (post = "" \/ post = "*") /\
    raw = (if decide (w = WildcardSubstring) then "*" else "") +:+ v +:+ post.
Proof.
  unfold parseValue. destruct (HasPrefix raw (String dquote "")); [by destruct (_ || _)|].
  set (leading := HasPrefix raw "*"). set (v0 := if leading then str_drop 1 raw else raw).
  assert (Hraw : raw = (if leading then "*" else "") +:+ v0).
  { unfold v0, leading. destruct (HasPrefix raw "*") eqn:E; [|done]. apply HasPrefix_spec in E as [r ->]. by destruct r. }
  clearbody v0. set (trailing := HasSuffix v0 "*" && _). set (v1 := if trailing then _ else v0).
  assert (Hv0 : v0 = v1 +:+ (if trailing then "*" else "")).
  { unfold v1. destruct trailing eqn:E; [|by rewrite str_app_nil_r]. unfold trailing in E. bool_hyps.
    apply HasSuffix_spec in H as [r Er]. rewrite Er, str_length_app. simpl String.length.
    replace (String.length r + 1 - 1) with (String.length r) by lia. by rewrite str_take_app. }
  clearbody v1 trailing. destruct (String.eqb_spec v1 ""); [done|]. destruct (Contains v1 "*"); [done|]. intros Hw.
  split; [done|]. destruct leading, trailing; injection Hw as <- <-; (split; [done|]);
    rewrite Hraw, Hv0; eexists; by eauto.
Qed.

Lemma parseValue_sound raw v w q :
  token_body false raw -> parseValue raw = Ok (v, w, q) -> sound_value v w q.
Proof.
  intros Hb Hp. destruct q; simpl.
  - unfold parseValue in Hp. destruct (HasPrefix raw (String dquote "")) eqn:Eq; [|by repeat case_step; simplify_eq].
    destruct (_ || _) eqn:El; [done|]. bool_hyps. apply Nat.ltb_ge in H.
    apply HasSuffix_spec in H0 as [r ->]. apply HasPrefix_spec in Eq as [r' Er].
    destruct r as [|c r]; [simpl in H; lia|]. simpl in Er. invc Er.
    injection Hp as <- <-. rewrite str_length_app. simpl (String.length (String dquote "")).
    replace (String.length r + 1 - 1) with (String.length r) by lia. rewrite str_take_app. unfold ReplaceAll.
    destruct (HasSuffix (replace_all_from _ _ _ _) _) eqn:Es; [|done]. exfalso.
    apply unescape_suffix in Es as [r0 ->]%HasSuffix_spec; [|lia].
    eapply (token_body_escape _ (String dquote r0)); [exact Hb|]. simpl. by rewrite str_app_assoc.
  - apply parseValue_parts in Hp as (Hq & Hne & post & Hpost & ->). split.
    + apply token_body_skip in Hb; [|by case_decide]. destruct Hpost as [->| ->]; [by rewrite str_app_nil_r in Hb|].
      by apply token_body_unstar.
    + intros Hw. rewrite decide_False in Hq by done. by destruct v.
Qed.

(** The spelling a chip gives an unquoted value. *)
Definition bare_value (v : string) (w : Wildcard) : string :=
  match w with
  | WildcardPrefix => v +:+ "*"
  | WildcardSubstring => "*" +:+ v +:+ "*"
  | WildcardNone => v
  end.

Lemma parseValue_bare v w :
  v <> "" -> star_free v -> (w <> WildcardSubstring -> HasPrefix v (String dquote "") = false) ->
  parseValue (bare_value v w) = Ok (v, w, false).
Proof.
  intros Hne Hs Hp. pose proof (star_free_prefix _ Hs) as Hpre. pose proof (star_free_suffix _ Hs) as Hsuf.
  assert (Hc : Contains v "*" = false) by by rewrite Contains_byte.
  assert (Htail : forall r, HasPrefix (v +:+ r) "*" = false) by (intros; by apply HasPrefix_app_ne).
  assert (Hend : HasSuffix (v +:+ "*") "*" = true) by (apply HasSuffix_spec; eauto).
  assert (Hlen : forall s, str_take (String.length (s +:+ "*") - 1) (s +:+ "*") = s).
  { intros s. rewrite str_length_app. simpl String.length. replace (_ + 1 - 1) with (String.length s) by lia.
    apply str_take_app. }
  assert (Hpos : (0 <? String.length (v +:+ "*"))%nat = true).
  { apply Nat.ltb_lt. rewrite str_length_app. simpl. lia. }
  apply String.eqb_neq in Hne as Hne'. unfold parseValue, bare_value. destruct w.
  - rewrite Hp, Hpre, Hsuf by done. cbn [andb]. by rewrite Hne', Hc.
  - rewrite HasPrefix_app_ne, Htail, Hend, Hpos by auto. cbn [andb]. by rewrite Hlen, Hne', Hc.
  - change ("*" +:+ v +:+ "*") with (String "*" (v +:+ "*")).
    cbn [HasPrefix]. rewrite (Ascii.eqb_refl "*"). replace (Ascii.eqb dquote "*") with false by done.
    cbn [andb str_drop]. destruct (v +:+ "*") eqn:E; [by destruct v|]. rewrite <- E in *.
    rewrite Hend, Hpos. cbn [andb]. by rewrite Hlen, Hne', Hc.
Qed.

Lemma plain_head s : str_forall plain_byte s = true -> HasPrefix s (String dquote "") = false.
Proof.
  destruct s as [|c s]; [done|]. cbn [str_forall HasPrefix]. intros Hp.
  by destruct (Ascii.eqb_spec dquote c) as [<-|].
Qed.

Lemma bare_value_body v w : token_body false v -> token_body false (bare_value v w).
Proof.
  intros Hv. destruct w; simpl; [done| |]; [by apply token_body_star|].
  by constructor; [| |apply token_body_star].
Qed.

Lemma bare_value_nonempty v w : v <> "" -> bare_value v w <> "".
Proof. by destruct w, v. Qed.

(** [ReplaceAll] of one byte. *)
Lemma ReplaceAll_quote s :
  ReplaceAll s (String dquote "") (String backslash (String dquote "")) = escape_quotes s.
Proof.
  unfold ReplaceAll. induction s as [|c s IH]; [done|].
  cbn [replace_all_from escape_quotes HasPrefix]. rewrite (Ascii.eqb_sym dquote).
  destruct (Ascii.eqb_spec c dquote) as [->|]; cbn [andb]; [|by rewrite IH].
  change (String.length (String dquote "") - 1) with 0. by rewrite IH.
Qed.

(** ** Parsed terms *)

Section Chips.
Context `{CaseTables}.

(** What holds of every term of a parsed query. *)
Definition sound_term (t : Term) : Prop :=
  wf_term t /\ sound_value (t_Value t) (t_Wildcard t) (t_QuotedLiteral t) /\
  (t_Field t = FieldFree -> t_QuotedLiteral t = false ->
   ContainsByte (t_Value t) ":" = false /\
   (t_Negated t = false -> t_Wildcard t <> WildcardSubstring -> HasPrefix (t_Value t) "-" = false)) /\
  (t_Field t = FieldHeader -> exists name, t_HeaderName t = CanonicalMIMEHeaderKey name).

Lemma ToLower_quote s : ContainsByte (ToLower s) dquote = ContainsByte s dquote.
Proof.
  unfold ToLower. destruct (is_ascii s); [|apply lower_quote].
  induction s as [|c s IH]; [done|]. cbn [str_map]. rewrite !ContainsByte_cons, IH. f_equal.
  apply Bool.eqb_prop. revert c.
  apply (byte_ind (fun c => Bool.eqb (Ascii.eqb dquote (lower_byte c)) (Ascii.eqb dquote c))). by vm_compute.
Qed.

Lemma knownFields_key key f : knownFields (ToLower key) = Some f -> ContainsByte key dquote = false.
Proof.
  intros [Hin He%String.eqb_eq]%List.find_some. rewrite <- ToLower_quote, <- He.
  by apply list_elem_of_In, list_elem_of_lookup in Hin as [i Hi]; do 10 (destruct i as [|i]; [by invc Hi|]).
Qed.

(** The first seven bytes of a header key, whatever their case, and the name. *)
Lemma header_key_parts key :
  HasPrefix (ToLower key) "header." = true -> ContainsByte (str_drop 7 key) dquote = false ->
  ContainsByte key dquote = false.
Proof.
  intros Hp Hd. assert (Hl : HasPrefix (str_map lower_byte key) "header." = true).
  { unfold ToLower in Hp. destruct (is_ascii key); [done|]. by apply lower_header. }
  clear Hp. apply HasPrefix_spec in Hl as [r Hl].
  assert (Hq : forall c d, lower_byte c = d -> d <> dquote -> Ascii.eqb dquote c = false).
  { intros c d <- Hne. destruct (Ascii.eqb_spec dquote c) as [<-|]; [by destruct Hne|done]. }
  do 7 (destruct key as [|? key]; [done|]; simpl in Hl; injection Hl as Hc Hl; apply Hq in Hc; [|done];
        rewrite ContainsByte_cons, Hc; clear Hc; cbn [orb]). done.
Qed.

Lemma canonical_name_token name :
  str_forall is_token_byte (CanonicalMIMEHeaderKey name) = true -> str_forall is_token_byte name = true.
Proof. unfold CanonicalMIMEHeaderKey. destruct (str_forall is_token_byte name) eqn:E; congruence. Qed.

Lemma token_no_quote name : str_forall is_token_byte name = true -> ContainsByte name dquote = false.
Proof.
  induction name as [|c s IH]; [done|]. simpl. rewrite ContainsByte_cons. intros Ht. bool_hyps.
  rewrite IH by done. rewrite orb_false_r. destruct (Ascii.eqb_spec dquote c) as [<-|]; done.
Qed.

Lemma canonical_from_idem u s : canonical_from u (canonical_from u s) = canonical_from u s.
Proof.
  revert u. induction s as [|c s IH]; intros u; [done|]. cbn [canonical_from].
  set (c' := if u then upper_byte c else lower_byte c).
  assert (E : (if u then upper_byte c' else lower_byte c') = c').
  { unfold c'. destruct u; [|apply lower_byte_idem]. apply Ascii.eqb_eq. revert c c'.
    intros c _. revert c. apply (byte_ind (fun c => Ascii.eqb (upper_byte (upper_byte c)) (upper_byte c))). by vm_compute. }
  by rewrite E, IH.
Qed.

Lemma canonical_name_idem name :
  str_forall is_token_byte (CanonicalMIMEHeaderKey name) = true ->
  CanonicalMIMEHeaderKey (CanonicalMIMEHeaderKey name) = CanonicalMIMEHeaderKey name.
Proof.
  intros Ht. unfold CanonicalMIMEHeaderKey at 1. rewrite Ht. unfold CanonicalMIMEHeaderKey.
  rewrite (canonical_name_token _ Ht). apply canonical_from_idem.
Qed.

(** Header terms of the query name valid HTTP headers. *)
Definition header_token (t : Term) : Prop :=
  t_Field t = FieldHeader -> str_forall is_token_byte (t_HeaderName t) = true.

Lemma freeform_sound raw tok neg t :
  token_body false tok -> freeform raw tok neg = Ok t ->
  (HasPrefix tok (String dquote "") = true \/ ContainsByte tok ":" = false /\ (neg = false -> HasPrefix tok "-" = false)) ->
  sound_term t.
Proof.
  intros Hb Hf Hc. pose proof (freeform_wf _ _ _ _ Hf) as Hwf. unfold freeform, at_token in Hf.
  destruct (parseValue tok) as [[[v w] q]|] eqn:Ev; [|done]. injection Hf as <-.
  split; [done|]. split; [by eapply parseValue_sound|]. simpl. split; [|done]. intros _ ->.
  destruct Hc as [Hq|[Hcol Hd]].
  { apply parseValue_parts in Ev as [Hn _]. congruence. }
  apply parseValue_parts in Ev as (_ & Hne & post & _ & ->). rewrite !ContainsByte_app in Hcol. bool_hyps.
  split; [done|]. intros Hn Hw. specialize (Hd Hn). rewrite decide_False in Hd by done. by destruct v.
Qed.

Lemma method_plain (m : string) : m ∈ canonicalHTTPMethods ->
  HasSuffix m (String backslash "") = false /\ token_body false m /\ HasPrefix m (String dquote "") = false.
Proof.
  intros Hm. assert (Hall : Forall (fun m => HasSuffix m (String backslash "") = false /\
    str_forall plain_byte m = true /\ HasPrefix m (String dquote "") = false) canonicalHTTPMethods).
  { unfold canonicalHTTPMethods. repeat (constructor; [by repeat split|]). constructor. }
  rewrite Forall_forall in Hall. destruct (Hall m Hm) as (? & Hp & ?). split_and!; [done| |done].
  rewrite <- (str_app_nil_r m). apply token_body_plain; [done|constructor].
Qed.

Lemma finish_term_sound raw f v w q neg t :
  sound_value v w q -> f <> FieldFree -> f <> FieldHeader -> finish_term raw (mkTerm f v w q neg "" None None) = Ok t ->
  wf_term t -> sound_term t.
Proof.
  intros Hs Hf Hh Hfin Hwf. split; [done|]. unfold finish_term, at_token in Hfin.
  destruct f; try done; try (injection Hfin as <-; done).
  - destruct (existsb _ _) eqn:E; [|done]. injection Hfin as <-. simpl. split; [|done].
    apply existsb_true_iff in E as (m & Hm & ->%String.eqb_eq). destruct (method_plain m Hm) as (?&?&?).
    destruct q; simpl; auto.
  - destruct (parseStatusValue v); [|done]. by injection Hfin as <-.
  - destruct (String.eqb _ _); [by injection Hfin as <-|]. destruct (String.eqb _ _); [|done]. by injection Hfin as <-.
Qed.

Lemma parseKeyed_sound raw key v neg t :
  token_body false (key +:+ String ":" v) -> parseKeyed raw key v neg = Ok t -> wf_term t -> header_token t ->
  sound_term t.
Proof.
  intros Hb Hp Hwf Hh. unfold parseKeyed in Hp.
  assert (Hv : ContainsByte key dquote = false -> token_body false v).
  { intros Hk. apply token_body_skip in Hb; [|done]. by apply (token_body_skip ":"). }
  destruct (knownFields (ToLower key)) as [f|] eqn:Ef.
  - apply knownFields_key in Ef as Hk. specialize (Hv Hk). unfold at_token in Hp.
    destruct (parseValue v) as [[[x w] q]|] eqn:Ev; [|done]. apply parseValue_sound in Ev; [|done].
    destruct (_ && _); [done|]. eapply finish_term_sound; [exact Ev| | |exact Hp|done]; [|by intros ->; eapply knownFields_not_header].
    intros ->. apply List.find_some in Ef as [Hin _]. simpl in Hin. intuition discriminate.
  - destruct (HasPrefix (ToLower key) "header.") eqn:Epre; [|done]. unfold parseHeaderTerm, at_token in Hp.
    change (String.length "header.") with 7 in Hp. destruct (String.eqb _ ""); [done|]. destruct (ContainsByte _ "*"); [done|].
    destruct (parseValue v) as [[[x w] q]|] eqn:Ev; [|done]. injection Hp as <-.
    specialize (Hh eq_refl). simpl in Hh. apply canonical_name_token in Hh.
    split; [done|]. split; [|split; [done|simpl; by eauto]]. eapply parseValue_sound; [|exact Ev].
    apply Hv, header_key_parts; [done|]. by apply token_no_quote.
Qed.

Lemma parseToken_sound raw t :
  token_body false raw -> parseToken raw = Ok t -> header_token t -> sound_term t.
Proof.
  intros Hb Hp Hh. pose proof (parseToken_wf _ _ Hp) as Hwf. unfold parseToken in Hp.
  set (neg := HasPrefix raw "-") in *. set (tok := if neg then str_drop 1 raw else raw) in *.
  assert (Ht : token_body false tok /\ (neg = false -> HasPrefix tok "-" = false)).
  { unfold tok, neg. destruct (HasPrefix raw "-") eqn:E; [|done]. split; [|done].
    apply HasPrefix_spec in E as [r ->]. simpl. apply (token_body_skip "-"); [done|]. by destruct r. }
  destruct Ht as [Ht Hd]. destruct (neg && _); [done|].
  destruct (HasPrefix tok (String dquote "")) eqn:Eq; [eapply freeform_sound; eauto|].
  destruct (IndexByte tok ":") as [i|] eqn:Ei.
  - destruct (IndexByte_Some _ _ _ Ei) as [Htok _]. destruct i as [|i]; [done|]. destruct (String.eqb _ ""); [done|].
    eapply parseKeyed_sound; [|exact Hp|done|done]. by rewrite <- Htok.
  - apply IndexByte_None in Ei. eapply freeform_sound; eauto.
Qed.

Lemma Parse_sound s q : Parse s = Ok q -> Forall header_token (q_Terms q) -> Forall sound_term (q_Terms q).
Proof.
  unfold Parse. destruct (tokenize s) as [ws|] eqn:Et; [|done]. apply tokenize_loop_words in Et; [|lia].
  assert (Hw : Forall (token_body false) ws) by (by induction Et; constructor).
  destruct (parse_tokens ws) as [ts|] eqn:Ep; [|done]. intros [= <-]. simpl. clear Et. revert ts Ep.
  induction Hw as [|w ws Hb _ IH]; intros ts; simpl; [by intros [= <-]|].
  destruct (parseToken w) as [t|] eqn:Ew; [|done]. destruct (parse_tokens ws) as [ts'|]; [|done].
  intros [= <-] [Hh Hhs]%Forall_cons. constructor; [by eapply parseToken_sound|auto].
Qed.

(** ** Chips as search text *)

(** The term a chip's token denotes: a status term loses its quotes and its
    spelling of the code, nothing else changes. *)
Definition chip_term (t : Term) : Term :=
  match t_StatusFilter t with
  | Some sf => mkTerm (t_Field t) (chipDisplayValue t) WildcardNone false (t_Negated t) (t_HeaderName t) (Some sf) (t_HasEvents t)
  | None => t
  end.

Lemma status_code_ok n : (100 <= n <= 599)%Z ->
  parseStatusValue (Itoa n) = Ok (mkStatusFilter n "") /\ Itoa n <> "" /\ star_free (Itoa n) /\
  str_forall plain_byte (Itoa n) = true.
Proof.
  assert (Hall : forallb (fun k => match parseStatusValue (Itoa (100 + Z.of_nat k)) with
      | Ok sf => bool_decide (sf = mkStatusFilter (100 + Z.of_nat k) "") | Err _ => false end
      && negb (String.eqb (Itoa (100 + Z.of_nat k)) "") && negb (ContainsByte (Itoa (100 + Z.of_nat k)) "*")
      && str_forall plain_byte (Itoa (100 + Z.of_nat k))) (seq 0 500) = true) by by vm_compute.
  intros Hn. rewrite forallb_forall in Hall. specialize (Hall (Z.to_nat (n - 100))).
  rewrite Z2Nat.id in Hall by lia. replace (100 + (n - 100))%Z with n in Hall by lia.
  rewrite !andb_true_iff in Hall. destruct Hall as [[[H1 H2] H3] H4]; [apply in_seq; lia|].
  destruct (parseStatusValue (Itoa n)); [|done]. apply bool_decide_eq_true in H1 as ->. bool_hyps. done.
Qed.

Lemma chip_status t sf : wf_term t -> t_StatusFilter t = Some sf ->
  t_Field t = FieldStatus /\ parseStatusValue (chipDisplayValue t) = Ok sf /\ chipDisplayValue t <> "" /\
  star_free (chipDisplayValue t) /\ str_forall plain_byte (chipDisplayValue t) = true.
Proof.
  intros (_ & _ & Hf & Hs & _) Hsf. destruct (decide (t_Field t = FieldStatus)) as [E|E]; [|by rewrite Hs in Hsf].
  split; [done|]. rewrite E in Hf. destruct Hf as (sf' & Hsf' & Hp).
  rewrite Hsf in Hsf'. injection Hsf' as <-. unfold chipDisplayValue. rewrite Hsf.
  unfold parseStatusValue in Hp. destruct (Z.eqb_spec (sf_Exact sf) 0) as [E0|E0]; simpl.
  - destruct (parseStatusValue_shape (t_Value t) sf) as [[_ Hr]|_]; [by unfold parseStatusValue|lia|].
    assert (Hd : exists d, t_Value t = String d "xx" /\ in_range 49 53 d = true /\ sf = mkStatusFilter 0 (t_Value t)).
    { repeat case_step; simplify_eq; simpl in *; bool_hyps; try lia; eauto. }
    destruct Hd as (d & Hv & Hd & ->). rewrite Hv. simpl sf_Class. unfold parseStatusValue. rewrite Hd.
    assert (Hb : implb (in_range 49 53 d) (negb (Ascii.eqb "*" d) && plain_byte d) = true).
    { revert d Hv Hd. intros d _ _. revert d. apply (byte_ind (fun d => implb (in_range 49 53 d) (negb (Ascii.eqb "*" d) && plain_byte d))). by vm_compute. }
    rewrite Hd in Hb. cbn [implb] in Hb. apply andb_true_iff in Hb as [Hst%negb_true_iff Hpl].
    split_and!; [done|done| |].
    + unfold star_free. by rewrite ContainsByte_cons, Hst.
    + simpl. by rewrite Hpl.
  - destruct (parseStatusValue_shape (t_Value t) sf) as [[Hc Hr]|[? _]]; [by unfold parseStatusValue| |done].
    destruct (status_code_ok (sf_Exact sf) Hr) as (-> & ?). destruct sf; simpl in *; by subst.
Qed.

Lemma chip_term_wf t : wf_term t -> wf_term (chip_term t).
Proof.
  intros Hwf. unfold chip_term. destruct (t_StatusFilter t) as [sf|] eqn:E; [|done].
  destruct (chip_status t sf Hwf E) as (Hf & Hp & Hne & Hst & _).
  destruct Hwf as (_ & _ & _ & _ & Hhe & Hhn). unfold wf_term. simpl. rewrite Hf in *.
  split_and!; eauto; try done; intros; by rewrite ?Hhe, ?Hhn.
Qed.

(** The displayed value is a token that reads as the chip's term. *)
Lemma chip_value t : sound_term t ->
  parseValue (chipDisplayValue t)
    = Ok (t_Value (chip_term t), t_Wildcard (chip_term t), t_QuotedLiteral (chip_term t)) /\
  chipDisplayValue t <> "" /\ token_body false (chipDisplayValue t).
Proof.
  intros (Hwf & Hs & _). unfold chip_term. destruct (t_StatusFilter t) as [sf|] eqn:E.
  - destruct (chip_status t sf Hwf E) as (_ & _ & Hne & Hst & Hpl).
    cbn [t_Value t_Wildcard t_QuotedLiteral]. split_and!; [|done|].
    + apply (parseValue_bare _ WildcardNone); [done..|]. intros _. by apply plain_head.
    + rewrite <- str_app_nil_r. apply token_body_plain; [done|constructor].
  - destruct Hwf as (Hshape & _). unfold chipDisplayValue. rewrite E, ReplaceAll_quote.
    unfold sound_value in Hs. destruct (t_QuotedLiteral t).
    + rewrite Hshape. split_and!; [by apply parseValue_quoted|done|].
      apply body_open, escape_quotes_body; [done|constructor].
    + destruct Hshape as [Hne Hst], Hs as [Hb Hq].
      change (match t_Wildcard t with WildcardNone => t_Value t | WildcardPrefix => t_Value t +:+ "*"
        | WildcardSubstring => "*" +:+ t_Value t +:+ "*" end) with (bare_value (t_Value t) (t_Wildcard t)).
      split_and!; [by apply parseValue_bare|by apply bare_value_nonempty|by apply bare_value_body].
Qed.

Lemma chip_token_text t :
  cv_Token (chip_of_term t) = (if t_Negated t then "-" else "") +:+ render_key t +:+ chipDisplayValue t.
Proof.
  unfold chip_of_term, render_key. cbn [cv_Token]. destruct (t_Field t), (t_Negated t); try done;
    rewrite ?bool_decide_true, ?bool_decide_false by done; by rewrite ?str_app_assoc.
Qed.

Lemma chip_free_shape t : sound_term t -> t_Field t = FieldFree ->
  (HasPrefix (chipDisplayValue t) (String dquote "") = true \/ ContainsByte (chipDisplayValue t) ":" = false) /\
  (t_Negated t = false -> HasPrefix (chipDisplayValue t) "-" = false).
Proof.
  intros (Hwf & Hs & Hfree & _) Hf. specialize (Hfree Hf).
  assert (Hsf : t_StatusFilter t = None) by (apply Hwf; by rewrite Hf). unfold chipDisplayValue. rewrite Hsf.
  destruct Hwf as (Hshape & _).
  destruct (t_QuotedLiteral t); [split; [by left|done]|]. destruct Hfree as [Hc Hd]; [done|].
  destruct Hshape as [Hne _]. destruct (t_Wildcard t); rewrite ?ContainsByte_app, Hc;
    (split; [by right|intros Hn]); auto. by apply HasPrefix_app_ne, Hd.
Qed.

Lemma chip_token t : sound_term t -> header_token t ->
  (token_body false (cv_Token (chip_of_term t)) /\ cv_Token (chip_of_term t) <> "") /\
  parseToken (cv_Token (chip_of_term t)) = Ok (chip_term t).
Proof.
  intros Ht Hh. destruct (chip_value t Ht) as (Hv & Hne & Hb). rewrite chip_token_text.
  pose proof (chip_term_wf t (proj1 Ht)) as Hwf.
  assert (Hfield : t_Field (chip_term t) = t_Field t /\ t_Negated (chip_term t) = t_Negated t /\
    t_HeaderName (chip_term t) = t_HeaderName t /\ render_key (chip_term t) = render_key t).
  { unfold chip_term, render_key. by destruct (t_StatusFilter t). }
  destruct Hfield as (Ef & En & Eh & Ek). destruct (decide (t_Field t = FieldFree)) as [Hf|Hf].
  - destruct (chip_free_shape t Ht Hf) as [Hq Hd]. unfold render_key. rewrite Hf. cbn [String.append].
    split; [destruct (t_Negated t); split; try done; by constructor|].
    apply parseToken_free; [done..|]. intros raw. unfold freeform, at_token. rewrite Hv.
    destruct Hwf as (_ & _ & _ & Hsf & Hhe & Hhn). rewrite Ef in Hsf, Hhe, Hhn. rewrite <- En, <- Hf, <- Ef.
    destruct (chip_term t); simpl in *. by rewrite Hsf, Hhe, Hhn by congruence.
  - destruct (parseKeyed_value (chip_term t) (chipDisplayValue t)) as (k & Hk & Hkne & Hc & Hd & Hq & Hp & Hkey);
      [done| |by rewrite Ef|done|].
    { unfold canonical_name. rewrite Ef, Eh. intros E. specialize (Hh E). split; [done|].
      destruct Ht as (_ & _ & _ & Hn). destruct (Hn E) as [name En']. rewrite En' in Hh |- *. by apply canonical_name_idem. }
    rewrite <- Ek, Hk. split; [|rewrite <- En; by apply parseToken_keyed].
    assert (Hbody : token_body false ((k +:+ ":") +:+ chipDisplayValue t)).
    { rewrite str_app_assoc. apply token_body_plain; [done|]. by constructor. }
    destruct (t_Negated t); (split; [|by destruct k]); [by constructor|done].
Qed.

End Chips.

(** ** The property *)

(** Both compilers and the scan test see the same search. *)
Definition same_search `{Unicode} `{MapRange} (q q' : Query) : Prop :=
  CompileSQL q = CompileSQL q' /\ CompileSQLHaving q = CompileSQLHaving q' /\
  CompileSQLOrphans q = CompileSQLOrphans q' /\ IsUnindexedScan q = IsUnindexedScan q' /\
  forall r, CompilePredicate q r = CompilePredicate q' r.

(** Only status terms change, and only in what no compiler reads. *)
Lemma chip_term_cases `{Unicode} t : wf_term t -> chip_term t = t \/
  exists v sf, t_Field t = FieldStatus /\ t_Wildcard t = WildcardNone /\ t_StatusFilter t = Some sf /\
    chip_term t = mkTerm FieldStatus v WildcardNone false (t_Negated t) (t_HeaderName t) (Some sf) (t_HasEvents t).
Proof.
  intros Hwf. unfold chip_term. destruct (t_StatusFilter t) as [sf|] eqn:E; [|by left]. right.
  destruct Hwf as (_ & Hw & _ & Hs & _). destruct (decide (t_Field t = FieldStatus)) as [Ef|Ef]; [|by rewrite Hs in E].
  exists (chipDisplayValue t), sf. rewrite Ef in *. auto.
Qed.

Lemma existsb_map_id {A} (f : A -> bool) l : existsb f l = existsb id (map f l).
Proof. induction l; simpl; congruence. Qed.

Lemma forallb_map_id {A} (f : A -> bool) l : forallb f l = forallb id (map f l).
Proof. induction l; simpl; congruence. Qed.

Lemma chip_same_search `{Unicode} `{MapRange} ts :
  Forall wf_term ts -> same_search (mkQuery (map chip_term ts)) (mkQuery ts).
Proof.
  intros Hts.
  assert (Hmap : forall A (f : Term -> A), (forall t, wf_term t -> f (chip_term t) = f t) ->
    map f (map chip_term ts) = map f ts).
  { intros A f Hf. rewrite map_map. apply map_ext_Forall. eapply Forall_impl; [exact Hts|]. simpl. auto. }
  unfold same_search, CompileSQL, CompileSQLHaving, CompileSQLOrphans, IsUnindexedScan. cbn [q_Terms].
  rewrite !(existsb_map_id _ ts), !(existsb_map_id _ (map chip_term ts)).
  split_and!; [f_equal; apply Hmap..|intros r; rewrite !CompilePredicate_forallb, !(forallb_map_id _ (q_Terms _)); f_equal; apply Hmap];
    intros t Ht; destruct (chip_term_cases t Ht) as [->|(v & sf & Ef & Ew & Es & ->)]; try done;
    unfold compileTermSQL, compileHavingTerm, compileOrphanTerm, matchTerm, negate;
    cbn [t_Field t_Wildcard t_StatusFilter t_Negated]; by rewrite ?Ef, ?Ew, ?Es.
Qed.

(** C8. The chips above the search box are search text: for the terms of any
    parsed query whose header terms name valid headers, joining the tokens of
    any selection of chips with spaces (all of them, or all but the one whose
    cross was clicked) parses, to the selected terms themselves except that
    status terms carry the displayed spelling, and both compilers treat the
    result as the selected terms. *)
Theorem chips_reparse `{CaseTables} `{MapRange} (s : string) (q : Query) (ts : list Term) :
  Parse s = Ok q -> Forall header_token (q_Terms q) -> (forall t, t ∈ ts -> t ∈ q_Terms q) ->
  let q' := mkQuery (map chip_term ts) in
  Parse (Join (map cv_Token (chipsFromQuery (mkQuery ts))) " ") = Ok q' /\
  same_search q' (mkQuery ts) /\
  ((forall t, t ∈ ts -> t_Field t <> FieldStatus) -> q' = mkQuery ts).
Proof.
  intros Hp Hh Hsub. pose proof (Parse_sound s q Hp Hh) as Hs. rewrite Forall_forall in Hh, Hs.
  assert (Hts : Forall wf_term ts) by (apply Forall_forall; intros t Ht; by apply Hs, Hsub).
  split_and!.
  - unfold chipsFromQuery. cbn [q_Terms]. rewrite map_map. apply (Parse_words (fun t => cv_Token (chip_of_term t))).
    apply Forall_forall. intros t Ht. by apply chip_token; [apply Hs, Hsub|apply Hh, Hsub].
  - by apply chip_same_search.
  - intros Hst. f_equal. rewrite Forall_forall in Hts. rewrite <- (map_id ts) at 2. apply map_ext_in.
    intros t Ht%list_elem_of_In. destruct (chip_term_cases t (Hts t Ht)) as [E|(v & sf & E & _)]; [done|].
    by destruct (Hst t Ht).
Qed.

Lemma ascii_tables : CaseTables (H := ascii_unicode).
Proof.
  split; [|done]. intros s. simpl. induction s as [|c s IH]; [done|]. cbn [str_map]. rewrite !ContainsByte_cons, IH. f_equal.
  apply Bool.eqb_prop. revert c.
  apply (byte_ind (fun c => Bool.eqb (Ascii.eqb dquote (lower_byte c)) (Ascii.eqb dquote c))). by vm_compute.
Qed.

Definition chip_text : string :=
  "host:*a -status:" +:+ String dquote ("0200" +:+ String dquote (" header.user-agent:" +:+ String dquote ("x y" +:+ String dquote " --z*"))).

#[local] Existing Instance ascii_unicode.

Lemma chips_reparse_witness :
  exists q, Parse chip_text = Ok q /\
    map cv_Token (chipsFromQuery q) = ["host:*a*"; "-status:200"; "header.User-Agent:" +:+ String dquote ("x y" +:+ String dquote ""); "--z*"] /\
    Parse (Join (map cv_Token (chipsFromQuery q)) " ") = Ok (mkQuery (map chip_term (q_Terms q))).
Proof.
  eexists. split; [by vm_compute|]. split; [by vm_compute|].
  eapply (chips_reparse (H := ascii_unicode) (H0 := ascii_tables) (H1 := sorted_range) chip_text); [by vm_compute| |done].
  repeat (constructor; [done|]). constructor.
Defined.
