(* ===== verification/UiViewsFacts.v ===== *)
(** * Theorems about the HTML pages

    Following the list page's next link visits the whole list; what the detail,
    services and configuration pages show. *)
From S2P Require Import Prelude GoLib Record Json JsonFacts Url SearchQL SearchSQL Inspect AdminInspect.
From S2P Require Import AdminInspectFacts Redact GoTime Config UiViews.

Open Scope string_scope.

(** ** Next links *)

Section Follow.
Context `{Unicode} `{MapRange} `{TimeParse} `{TimeFormat}.

(** A browser that opens the list and follows the next links; the clock is read
    anew for every page. *)
Fixpoint follow (rs : ReadSources) (clock : nat -> time) (fuel i : nat) (vals : header) : list RootRow :=
  match fuel with
  | 0 => []
  | S fuel =>
      match requestListHandler rs (clock i) (clock i) vals with
      | ListReadError => []
      | ListPage _ data =>
          (lp_Rows data ++
           match strip_prefix "/ui/requests?" (lp_NextURL data) with
           | Some query => follow rs clock fuel (S i) (ParseQuery query)
           | None => []
           end)%list
      end
  end.

Definition set_cursor (q : InspectQuery) (c : option Cursor) : InspectQuery :=
  mkInspectQuery (iq_Limit q) c (iq_Since q) (iq_Until q) (iq_Query q).

(** The store that alone answers the query. *)
Definition one_store (rs : ReadSources) (q : InspectQuery) (rd : Reader) : Prop :=
  (rs_SQLite rs = Some rd /\ (rs_Memory rs = None \/ hasNonTemporalFilter q = true)) \/
  (rs_SQLite rs = None /\ rs_Memory rs = Some rd /\ hasNonTemporalFilter q = false).

Definition linkable (rows : list RootRow) : Prop :=
  forall r, r ∈ rows -> in_i64 (row_Timestamp r) /\ row_ID r <> "".

(** The cursor of a page is one the parser accepts. *)
Lemma page_cursor_linkable rows n cur page c :
  linkable rows -> page_of rows n cur = (page, Some c) -> in_i64 (cur_Timestamp c) /\ cur_ID c <> "".
Proof.
  intros Hlink Epage. unfold page_of in Epage. injection Epage as _ Hn. destruct (_ <? _)%nat; [|done].
  destruct (after_cursor cur rows !! _) as [r|] eqn:Er; [|done]. injection Hn as <-. simpl.
  apply list_elem_of_lookup_2, elem_of_after_cursor in Er as [Hr _]. by apply Hlink.
Qed.

Lemma gatherRoots_one_store rs q rd rows :
  one_store rs q rd -> Serves rd q rows -> cursor_in_range (iq_Cursor q) -> (1 <= iq_Limit q <= 500)%Z ->
  exists source, gatherRoots q (rs_Memory rs) (rs_SQLite rs)
    = Ok (page_of rows (Z.to_nat (iq_Limit q)) (iq_Cursor q), source).
Proof.
  intros Hone Hs Hc Hl. pose proof (sv_pages (iq_Limit q) (iq_Cursor q) Hc Hl) as Hp. unfold gatherRoots.
  destruct Hone as [[-> [->|Hf]]|(-> & -> & Hf)].
  - rewrite Hp. by destruct (page_of _ _ _); eexists.
  - destruct (rs_Memory rs) as [mem|]; [rewrite Hf|]; rewrite Hp; by destruct (page_of _ _ _); eexists.
  - rewrite Hf, Hp. by destruct (page_of _ _ _); eexists.
Qed.

Lemma EncodeToString_nonempty s : s <> "" -> EncodeToString s <> "".
Proof. by destruct s as [|a [|b [|c s]]]. Qed.

Lemma Encode_nonempty c : Encode c <> "".
Proof. unfold Encode. apply EncodeToString_nonempty. by destruct (Itoa _). Qed.

Lemma Values_Get_insert v k x : Values_Get (<[k := [x]]> v) k = x.
Proof. unfold Values_Get. by rewrite lookup_insert_eq. Qed.

Lemma Values_Get_insert_ne v k k' x : k <> k' -> Values_Get (<[k := x]> v) k' = Values_Get v k'.
Proof. intros. unfold Values_Get. by rewrite lookup_insert_ne. Qed.

Lemma unknown_keys_nil_iff values :
  unknown_keys values = [] <-> forall k, is_Some (values !! k) -> k ∈ knownQueryKeys.
Proof.
  split; [by intros Hn k; apply unknown_keys_nil|]. intros Hk. unfold unknown_keys.
  assert (Hall : Forall (fun kv => kv.1 ∈ knownQueryKeys) (go_range values)).
  { apply Forall_forall. intros [k vs] Hkv%elem_of_go_range. by apply Hk. }
  induction Hall as [|[k vs] l Hx _ IH]; [done|]. simpl in Hx |- *. by rewrite bool_decide_true.
Qed.

(** A query with its cursor replaced. *)
Lemma parseInspectQuery_cursor W q c :
  parseInspectQuery W = (q, []) -> in_i64 (cur_Timestamp c) -> cur_ID c <> "" ->
  parseInspectQuery (<["cursor" := [Encode c]]> W) = (set_cursor q (Some c), []).
Proof.
  intros Hp Ht Hid. pose proof (parseInspectQuery_ok _ _ Hp) as (Hk & _). unfold parseInspectQuery in *.
  destruct (unknown_keys W); [|done].
  assert (unknown_keys (<["cursor" := [Encode c]]> W) = []) as ->.
  { apply unknown_keys_nil_iff. intros k. destruct (decide (k = "cursor")) as [->|Hne].
    - intros _. unfold knownQueryKeys. set_solver.
    - rewrite lookup_insert_ne by done. apply Hk. }
  rewrite Values_Get_insert, !Values_Get_insert_ne by done. revert Hp.
  destruct (optional _ defaultLimit _) as [limit e1], (optional _ None parse_cursor) as [cur e2] eqn:E2,
    (optional _ None (parse_time "since")) as [since e3], (optional _ None (parse_time "until")) as [til e4],
    (optional _ _ parse_q) as [qq e5]. intros [= <- He].
  apply app_eq_nil in He as [-> [-> [-> [-> ->]%app_eq_nil]%app_eq_nil]%app_eq_nil].
  unfold optional. rewrite (proj2 (String.eqb_neq _ _) (Encode_nonempty c)). unfold parse_cursor.
  by rewrite DecodeCursor_Encode.
Qed.

Definition no_empty_values (v : header) : Prop := forall k vs, v !! k = Some vs -> vs <> [].

Lemma overrideQueryParam_parse v key val :
  no_empty_values v -> ParseQuery (overrideQueryParam v key val) = <[key := [val]]> v.
Proof.
  intros Hne. unfold overrideQueryParam, Values_Set.
  replace (<[key := [val]]> (filter _ v)) with (<[key := [val]]> v).
  - apply ParseQuery_Encode. intros k vs. destruct (decide (k = key)) as [->|Hk].
    + rewrite lookup_insert_eq. by intros [= <-].
    + rewrite lookup_insert_ne by done. apply Hne.
  - apply map_eq. intros k. destruct (decide (k = key)) as [->|Hk]; [by rewrite !lookup_insert_eq|].
    rewrite !lookup_insert_ne by done. destruct (v !! k) as [vs|] eqn:E.
    + symmetry. by apply map_lookup_filter_Some.
    + symmetry. apply map_lookup_filter_None. by left.
Qed.

Lemma no_empty_window now v : no_empty_values v -> no_empty_values (with_default_window now v).
Proof.
  intros Hne. unfold with_default_window, Values_Set. destruct (_ && _); [|done]. intros k vs.
  destruct (decide (k = "until")) as [->|]; [rewrite lookup_insert_eq; by intros [= <-]|].
  rewrite lookup_insert_ne by done.
  destruct (decide (k = "since")) as [->|]; [rewrite lookup_insert_eq; by intros [= <-]|].
  rewrite lookup_insert_ne by done. apply Hne.
Qed.

(** A link with a cursor keeps the window of the page it was on. *)
Lemma window_of_link now v c : with_default_window now (<["cursor" := [Encode c]]> v) = <["cursor" := [Encode c]]> v.
Proof.
  unfold with_default_window. rewrite Values_Get_insert, (proj2 (String.eqb_neq _ _) (Encode_nonempty c)).
  by rewrite andb_false_r.
Qed.

Lemma follow_walk rs rd rows q clock :
  (forall t, exists svcs, dropdown_services rs t = Ok svcs) ->
  one_store rs q rd -> (forall c, Serves rd (set_cursor q c) rows) -> linkable rows ->
  (IsUnindexedScan (iq_Query q) = true -> requiresNarrowing q = true) ->
  forall fuel i vals cur,
  no_empty_values vals ->
  parseInspectQuery (with_default_window (clock i) vals) = (set_cursor q cur, []) ->
  follow rs clock fuel i vals = walk (page_of rows (Z.to_nat (iq_Limit q))) fuel cur.
Proof.
  intros Hsvc Hone Hserve Hlink Hscan fuel. induction fuel as [|fuel IH]; intros i vals cur Hne Hp; [done|].
  destruct (parseInspectQuery_ok _ _ Hp) as (_ & Hlim & Hcur). cbn [set_cursor iq_Limit iq_Cursor] in Hlim, Hcur.
  cbn [follow walk]. unfold requestListHandler. destruct (Hsvc (clock i)) as [svcs ->]. rewrite Hp.
  cbn [set_cursor iq_Query].
  replace (IsUnindexedScan (iq_Query q) && negb (requiresNarrowing _)) with false.
  2: { destruct (IsUnindexedScan (iq_Query q)); [|done]. unfold requiresNarrowing in *. simpl.
       by rewrite (Hscan eq_refl). }
  destruct (gatherRoots_one_store rs (set_cursor q cur) rd rows) as [source Hg]; try done.
  { intros c Hc. by apply Hcur. }
  cbn [set_cursor iq_Limit iq_Cursor] in Hg. fold (set_cursor q cur). rewrite Hg.
  destruct (page_of rows (Z.to_nat (iq_Limit q)) cur) as [page next] eqn:Epage. cbn [lp_Rows lp_NextURL].
  f_equal. destruct next as [c|]; [|done]. unfold strip_prefix. rewrite HasPrefix_app, str_drop_app.
  destruct (page_cursor_linkable _ _ _ _ _ Hlink Epage) as [Hct Hcid].
  rewrite overrideQueryParam_parse by by apply no_empty_window.
  apply IH.
  - intros k vs. destruct (decide (k = "cursor")) as [->|Hk]; [rewrite lookup_insert_eq; by intros [= <-]|].
    rewrite lookup_insert_ne by done. by apply no_empty_window.
  - rewrite window_of_link. by apply (parseInspectQuery_cursor _ (set_cursor q cur)).
Qed.

End Follow.

(** The window of a page opened without bounds: the last fifteen minutes. *)
Lemma default_window_bounds `{Unicode} `{MapRange} `{TimeLaws} now vals q :
  Values_Get vals "since" = "" -> Values_Get vals "until" = "" -> Values_Get vals "cursor" = "" ->
  rfc3339_range now -> rfc3339_range (now - defaultExplorerWindow)%Z ->
  parseInspectQuery (with_default_window now vals) = (q, []) ->
  iq_Since q = Some (now - defaultExplorerWindow)%Z /\ iq_Until q = Some now /\ iq_Cursor q = None.
Proof.
  intros Es Eu Ec Hn Hw. unfold with_default_window. rewrite Es, Eu, Ec. cbn [String.eqb andb].
  unfold parseInspectQuery, Values_Set. destruct (unknown_keys _); [|done].
  rewrite Values_Get_insert, (Values_Get_insert_ne _ "until" "since"), Values_Get_insert by done.
  rewrite !Values_Get_insert_ne, Ec by done.
  destruct (optional _ defaultLimit _) as [limit e1], (optional _ _ parse_q) as [qq e5].
  unfold optional. cbn [String.eqb]. rewrite !(proj2 (String.eqb_neq _ _) (format_nonempty _)).
  unfold parse_time. rewrite !parse_format by done. by intros [= <- _].
Qed.

(** C12. Following the next links of the requests page: when one store answers
    the query (and serves pages of [rows] for it, with any cursor), opening the
    page and following the links until there is none shows every row exactly
    once and in order, whatever the clock does between the clicks: each link
    carries the query, the page size and the window of the first page, which
    for a page opened without bounds is the last fifteen minutes before it was
    opened. *)
Theorem next_links_walk `{Unicode} `{MapRange} `{TimeLaws}
    (rs : ReadSources) (rd : Reader) (rows : list RootRow) (clock : nat -> time) (vals : header)
    (q : InspectQuery) (fuel : nat) :
  (forall t, exists svcs, dropdown_services rs t = Ok svcs) ->
  no_empty_values vals -> Values_Get vals "cursor" = "" ->
  parseInspectQuery (with_default_window (clock 0) vals) = (q, []) ->
  (IsUnindexedScan (iq_Query q) = true -> requiresNarrowing q = true) ->
  one_store rs q rd -> (forall c, Serves rd (set_cursor q c) rows) -> linkable rows ->
  length rows < fuel ->
  follow rs clock fuel 0 vals = rows /\
  (Values_Get vals "since" = "" -> Values_Get vals "until" = "" ->
   rfc3339_range (clock 0) -> rfc3339_range (clock 0%nat - defaultExplorerWindow)%Z ->
   iq_Since q = Some (clock 0%nat - defaultExplorerWindow)%Z /\ iq_Until q = Some (clock 0)).
Proof.
  intros Hsvc Hne Hcur Hp Hscan Hone Hserve Hlink Hfuel.
  assert (Hc : q = set_cursor q None).
  { revert Hp. unfold parseInspectQuery. destruct (unknown_keys _); [|done].
    assert (Values_Get (with_default_window (clock 0) vals) "cursor" = "") as ->.
    { unfold with_default_window, Values_Set. destruct (_ && _); [|done]. by rewrite !Values_Get_insert_ne. }
    destruct (optional _ defaultLimit _), (optional _ None (parse_time "since")), (optional _ None (parse_time "until")),
      (optional _ _ parse_q). unfold optional. simpl. by intros [= <- _]. }
  split.
  - rewrite (follow_walk rs rd rows q clock Hsvc Hone Hserve Hlink Hscan fuel 0 vals None) by (done || by rewrite <- Hc).
    destruct (parseInspectQuery_ok _ _ Hp) as (_ & Hl & _).
    apply walk_all; [apply (Hserve None)|lia|done].
  - intros Es Eu Hn Hw. edestruct (default_window_bounds (clock 0) vals q) as (? & ? & _); done.
Qed.

(** Decimal numbers in place of calendar text. *)
Definition decimal_read (s : string) : option time :=
  match s with
  | String c r => if Ascii.eqb c "-" then Z.opp ∘ Z.of_N <$> parse_digits r else Z.of_N <$> parse_digits s
  | "" => None
  end.
Definition decimal_parse : TimeParse := {| parse_rfc3339 := decimal_read |}.
Definition decimal_format : TimeFormat := {| FormatRFC3339Nano := Itoa |}.

Lemma decimal_read_Itoa t : decimal_read (Itoa t) = Some t.
Proof.
  unfold Itoa. destruct (Z.ltb_spec t 0); simpl.
  - rewrite parse_digits_Itoa_N. simpl. f_equal. lia.
  - destruct (Itoa_N_head (Z.abs_N t)) as (c & s & Hs & Hc). pose proof (parse_digits_Itoa_N (Z.abs_N t)) as Hp.
    rewrite Hs in Hp |- *. cbn [decimal_read]. destruct (Ascii.eqb_spec c "-") as [->|_]; [done|].
    rewrite Hp. simpl. f_equal. lia.
Qed.

Lemma decimal_laws : TimeLaws (H := decimal_parse) (H0 := decimal_format).
Proof.
  assert (Hd : forall n, Itoa_N n <> "").
  { intros n. by destruct (Itoa_N_head n) as (c & s & -> & _). }
  split; simpl.
  - intros t. unfold Itoa. by destruct (t <? 0)%Z.
  - intros t _. apply decimal_read_Itoa.
Qed.

#[local] Existing Instances ascii_unicode sorted_range decimal_parse decimal_format decimal_laws.

Definition page_clock (i : nat) : time := (1000 * second + Z.of_nat i * second)%Z.

Lemma next_links_walk_witness :
  follow (mkReadSources None (Some (list_reader stored_rows))) page_clock 4 0 {[ "limit" := ["2"] ]} = stored_rows /\
  exists q, parseInspectQuery (with_default_window (page_clock 0) {[ "limit" := ["2"] ]}) = (q, []) /\
    iq_Since q = Some (100 * second)%Z.
Proof.
  destruct (next_links_walk (mkReadSources None (Some (list_reader stored_rows))) (list_reader stored_rows)
    stored_rows page_clock {[ "limit" := ["2"] ]}
    (mkInspectQuery 2 None (Some (100 * second)%Z) (Some (1000 * second)%Z) (mkQuery [])) 4) as [Hf Hw].
  - intros t. by exists [].
  - intros k vs [_ <-]%lookup_singleton_Some. done.
  - reflexivity.
  - vm_compute. reflexivity.
  - done.
  - left. split; [reflexivity|by left].
  - intros c. apply list_reader_serves, stored_ordered.
  - intros r Hr. unfold stored_rows in Hr. repeat (apply elem_of_cons in Hr as [->|Hr]; [by vm_compute|]).
    by apply elem_of_nil in Hr.
  - simpl. lia.
  - split; [exact Hf|]. eexists. split; [vm_compute; reflexivity|]. reflexivity.
Defined.

(** ** The detail pages *)

Lemma find_sorted {A} (less : A -> A -> bool) `{!StrictWeak less} (f : A -> bool) l :
  sorted_by less l ->
  match List.find f l with
  | Some x => x ∈ l /\ f x = true /\ forall y, y ∈ l -> f y = true -> less y x = false
  | None => forall y, y ∈ l -> f y = false
  end.
Proof.
  induction l as [|x l IH]; [intros _ y Hy; by apply elem_of_nil in Hy|].
  rewrite sorted_by_cons. intros [Hl Hx]. specialize (IH Hl). simpl. destruct (f x) eqn:E.
  - split; [by left|]. split; [done|]. intros y [->|Hy]%elem_of_cons _; [|auto].
    destruct (less x x) eqn:El; [|done]. by rewrite (sw_asym x x) in El.
  - destruct (List.find f l) as [z|].
    + destruct IH as (? & ? & Hz). split; [by right|]. split; [done|].
      intros y [->|Hy]%elem_of_cons Hf; [congruence|auto].
    + intros y [->|Hy]%elem_of_cons; auto.
Qed.

Lemma ev_Kind_response e : ev_Kind e = "response_event" <-> ev_IsResponseEvent e = true.
Proof. by destruct e. Qed.

Lemma ev_Kind_request e : ev_Kind e = "" <-> is_request e = true.
Proof. by destruct e. Qed.

Lemma BodyBase64_decodes v : DecodeString (BodyBase64 v) = Some (cr_Body v).
Proof.
  unfold BodyBase64. destruct (cr_Body v) as [|c s] eqn:E; [done|].
  cbn [String.length Nat.eqb]. apply DecodeString_EncodeToString.
Qed.

(** The part of the event page that comes from the siblings. *)
Lemma event_page_spec events root :
  is_request root = false -> sorted_by sibling_less events ->
  ev_Kind root <> "" /\
  (forall e, e ∈ filter (fun e => is_request e = false) events <-> e ∈ events /\ ev_Kind e <> "") /\
  sorted_by sibling_less (filter (fun e => is_request e = false) events) /\
  (existsb is_request events = false <-> forall r, RRequest r ∉ events).
Proof.
  intros Hr Hs. split; [by rewrite ev_Kind_request, Hr|]. split_and!.
  - intros e. rewrite list_elem_of_filter, ev_Kind_request. destruct (is_request e); intuition congruence.
  - by apply sorted_by_filter.
  - rewrite <- not_true_iff_false, existsb_true_iff. split.
    + intros Hn r Hin. apply Hn. by exists (RRequest r).
    + intros Hn ([r|e|e] & Hin & He); [by destruct (Hn r)|done..].
Qed.

(** What the detail pages are given: a record some store has is always
    shown. A request is shown with all its siblings, its copy-as-cURL data
    decodes to its headers and exactly to its body, and the response tab has
    the oldest response among the siblings, or none when there is none. An
    event is shown with exactly the siblings that are events, oldest first, and
    is called an orphan exactly when no sibling is a request. *)
Lemma detail_page_spec (rs : ReadSources) (id : string) (det : DetailRecord) :
  rs_Memory rs <> None \/ rs_SQLite rs <> None ->
  gatherDetail id (rs_Memory rs) (rs_SQLite rs) = Ok det -> sorted_by sibling_less (dr_Events det) ->
  match requestDetailUIHandler rs id with
  | DetailPage d =>
      dr_Root det = RRequest (dp_Root d) /\ dp_Events d = dr_Events det /\
      (valid_header (cr_Headers (dp_Root d)) ->
       UnmarshalHeader (HeadersJSON (dp_Root d)) = Some (cr_Headers (dp_Root d))) /\
      DecodeString (BodyBase64 (dp_Root d)) = Some (cr_Body (dp_Root d)) /\
      match FirstResponse d with
      | Some e => e ∈ dr_Events det /\ ev_Kind e = "response_event" /\
          forall e', e' ∈ dr_Events det -> ev_Kind e' = "response_event" -> sibling_less e' e = false
      | None => forall e, e ∈ dr_Events det -> ev_Kind e <> "response_event"
      end
  | EventPage d =>
      dr_Root det = ep_Root d /\ ev_Kind (ep_Root d) <> "" /\
      (forall e, e ∈ ep_Events d <-> e ∈ dr_Events det /\ ev_Kind e <> "") /\
      sorted_by sibling_less (ep_Events d) /\
      (ep_HasRequestSibling d = false <-> forall r, RRequest r ∉ dr_Events det)
  | DetailNotFound _ | DetailReadError => False
  end.
Proof.
  intros Hst Hg Hs. assert (Hd : requestDetailUIHandler rs id = detail_page det).
  { unfold requestDetailUIHandler. by destruct (rs_Memory rs), (rs_SQLite rs); try rewrite Hg; [..|destruct Hst]. }
  rewrite Hd. clear Hg Hd Hst. unfold detail_page. destruct (dr_Root det) as [root|e|e] eqn:Er.
  - split; [done|]. split; [done|]. split; [apply UnmarshalHeader_Marshal|]. split; [apply BodyBase64_decodes|].
    unfold FirstResponse. cbn [dp_Events].
    pose proof (find_sorted sibling_less (StrictWeak0 := sibling_less_strict_weak) ev_IsResponseEvent _ Hs) as Hf.
    destruct (List.find _ _) as [e|]; setoid_rewrite ev_Kind_response; [done|].
    intros e He. by rewrite Hf.
  - split; [done|]. by apply (event_page_spec (dr_Events det) (RResponse e)).
  - split; [done|]. by apply (event_page_spec (dr_Events det) (ROutbound e)).
Qed.

(** A store that knows one record. *)
Definition detail_reader (det : DetailRecord) : Reader := {|
  rd_ReadRoots q limit cursor := Ok ([], None);
  rd_ReadDetail id := if String.eqb id (RecordID (dr_Root det)) then Ok det else Err ErrNotFound;
  rd_AggregateRoots q n := Ok (mkAggregation 0 []);
  rd_ServicesSeen since := Ok [];
  rd_ServiceStats since := Ok []
|}.

Definition page_request (id : string) (ts : time) : CapturedRequest :=
  mkCapturedRequest id ts "POST" "/a" None (Some {[ "Host" := ["h"] ]}) [] "body" false 4 "text/plain" "10.0.0.1"
    "svc" "header" "c" "header".
Definition page_response (id : string) (ts : time) : ResponseEvent :=
  mkResponseEvent id ts "c" "header" "svc" "header" 200 None "ok" false 2 "text/plain" 5.

Definition request_detail : DetailRecord :=
  mkDetailRecord (RRequest (page_request "r" 10%Z))
    [RRequest (page_request "s" 20%Z); RResponse (page_response "e" 30%Z); RResponse (page_response "f" 40%Z)].

Lemma detail_page_spec_witness :
  match requestDetailUIHandler (mkReadSources None (Some (detail_reader request_detail))) "r" with
  | DetailPage d => DecodeString (BodyBase64 (dp_Root d)) = Some "body" /\
      FirstResponse d = Some (RResponse (page_response "e" 30%Z))
  | _ => False
  end.
Proof.
  pose proof (detail_page_spec (mkReadSources None (Some (detail_reader request_detail))) "r" request_detail) as Hs.
  destruct (requestDetailUIHandler _ _) as [d|d|i|] eqn:E; [|discriminate E..].
  destruct Hs as (_ & _ & _ & Hb & _); [by right|reflexivity| |].
  - repeat (constructor; [|by repeat constructor]). constructor.
  - vm_compute in E. injection E as <-. split; [exact Hb|reflexivity].
Defined.

(** The request page wraps sibling requests too: they are counted among the
    events but have no kind, so the page shows nothing for them. *)
Lemma request_page_blank_event :
  exists d, requestDetailUIHandler (mkReadSources None (Some (detail_reader request_detail))) "r" = DetailPage d /\
    length (dp_Events d) = 3 /\ length (filter (fun e => ev_Kind e <> "") (dp_Events d)) = 2.
Proof. eexists. split; [reflexivity|]. by vm_compute. Qed.

(** ** The services page *)

(** The status mix adds up: the segments of a card are the classes that occur,
    in order, and their counts sum to the number of responses. *)
Lemma service_card_mix st now :
  let card := buildServiceCard st now in
  sum_list (map sg_Count (sc_Segments card)) = sc_Responses card /\
  Forall (fun sg => 0 < sg_Count sg) (sc_Segments card) /\
  sublist (map (fun sg => (sg_Class sg, sg_Count sg)) (sc_Segments card)) (stat_classes st).
Proof.
  intros card. unfold card, buildServiceCard. cbn [sc_Segments sc_Responses].
  set (n := ss_S2xx st + ss_S3xx st + ss_S4xx st + ss_S5xx st + ss_Other st).
  assert (Hgen : forall l : list (string * nat),
    let segs := omap (fun '(name, count) => if (count =? 0)%nat then None
      else Some (mkSegment name count (f64_mul (f64_div (f64_of_Z (Z.of_nat count)) (f64_of_Z (Z.of_nat n))) (f64_of_Z 100)))) l in
    sum_list (map sg_Count segs) = sum_list (map snd l) /\ Forall (fun sg => 0 < sg_Count sg) segs /\
    sublist (map (fun sg => (sg_Class sg, sg_Count sg)) segs) l).
  { intros l. induction l as [|[name k] l (IH1 & IH2 & IH3)]; [by repeat constructor|].
    intros segs. unfold segs. rewrite omap_cons.
    destruct (Nat.eqb_spec k 0) as [->|Hk]; simpl.
    - split_and!; [done|done|by constructor].
    - split_and!; [exact (f_equal (Nat.add k) IH1)|constructor; [simpl; lia|done]|by constructor]. }
  specialize (Hgen (stat_classes st)). destruct (Nat.ltb_spec 0 n) as [Hn|Hn].
  - destruct Hgen as (-> & ? & ?). split_and!; [unfold n; simpl; lia|done|done].
  - split_and!; [simpl; lia|constructor|apply sublist_nil_l].
Qed.

(** ** The configuration page *)

(** The text a browser shows for markup of tags and the escapes in use. *)
Fixpoint text_of (in_tag : bool) (s : string) : string :=
  match s with
  | "" => ""
  | String c r =>
      if in_tag then text_of (negb (Ascii.eqb c ">")) r
      else if Ascii.eqb c "<" then text_of true r
      else if Ascii.eqb c "&" then
        match r with
        | String "#" (String "3" (String "4" (String ";" t))) => String dquote (text_of false t)
        | String "#" (String "3" (String "9" (String ";" t))) => String "'" (text_of false t)
        | String "a" (String "m" (String "p" (String ";" t))) => String "&" (text_of false t)
        | String "l" (String "t" (String ";" t)) => String "<" (text_of false t)
        | String "g" (String "t" (String ";" t)) => String ">" (text_of false t)
        | _ => String c (text_of false r)
        end
      else String c (text_of false r)
  end.

(** Bytes the escape leaves alone. *)
Definition html_plain (c : ascii) : bool := String.eqb (html_escape_byte c) (String c "").

Lemma text_of_plain c t : html_plain c = true -> text_of false (String c t) = String c (text_of false t).
Proof.
  intros Hp. cbn [text_of]. destruct (Ascii.eqb_spec c "<") as [->|_]; [done|].
  destruct (Ascii.eqb_spec c "&") as [->|_]; done.
Qed.

Lemma text_of_escape_byte c t : c <> "000"%char ->
  text_of false (html_escape_byte c +:+ t) = String c (text_of false t).
Proof.
  intros Hc. destruct (html_plain c) eqn:Hp.
  - unfold html_plain in Hp. apply String.eqb_eq in Hp as Hp'. rewrite Hp'. by apply text_of_plain.
  - unfold html_plain, html_escape_byte in *.
    repeat match goal with |- context [if Ascii.eqb c ?d then _ else _] =>
      destruct (Ascii.eqb_spec c d) as [->|?]; [done|] end.
    destruct (N.eqb_spec (code c) 0) as [E|_]; [|by rewrite String.eqb_refl in Hp].
    destruct Hc. by apply code_inj.
Qed.

Lemma text_of_escape s t : ContainsByte s "000" = false ->
  text_of false (HTMLEscapeString s +:+ t) = s +:+ text_of false t.
Proof.
  induction s as [|c s IH]; [done|]. rewrite ContainsByte_cons. intros Hs. bool_hyps.
  cbn [HTMLEscapeString]. rewrite str_app_assoc, text_of_escape_byte by congruence. simpl. by rewrite IH.
Qed.

(** Inside a tag everything up to the closing bracket is skipped. *)
Lemma text_of_tag k t : ContainsByte k ">" = false -> text_of true (k +:+ String ">" t) = text_of false t.
Proof.
  induction k as [|c k IH]; [done|]. rewrite ContainsByte_cons. intros Hk. bool_hyps.
  cbn [String.append text_of]. rewrite (proj2 (Ascii.eqb_neq c ">")) by congruence. by apply IH.
Qed.

Lemma text_of_open t : text_of false (String "<" t) = text_of true t.
Proof. reflexivity. Qed.

Lemma text_of_app k t : str_forall html_plain k = true -> text_of false (k +:+ t) = k +:+ text_of false t.
Proof.
  induction k as [|c k IH]; [done|]. simpl str_forall. intros Hk. bool_hyps.
  cbn [String.append]. rewrite text_of_plain by done. by rewrite IH.
Qed.

Lemma span_spec f s a b : span f s = (a, b) -> s = a +:+ b /\ str_forall f a = true.
Proof.
  revert a b. induction s as [|c s IH]; intros a b; simpl; [by intros [= <- <-]|].
  destruct (f c) eqn:E; [|by intros [= <- <-]]. destruct (span f s) as [x y]. intros [= <- <-].
  destruct (IH x y eq_refl) as [-> Hx]. simpl. by rewrite E, Hx.
Qed.

Lemma key_char_plain k : str_forall key_char k = true ->
  str_forall html_plain k = true /\ ContainsByte k ">" = false.
Proof.
  induction k as [|c k IH]; [done|]. simpl. rewrite ContainsByte_cons. intros Hk. bool_hyps.
  destruct IH as [-> ->]; [done|].
  assert (Hc : implb (key_char c) (html_plain c && negb (Ascii.eqb ">" c)) = true).
  { revert c H. intros c _. revert c.
    apply (byte_ind (fun c => implb (key_char c) (html_plain c && negb (Ascii.eqb ">" c)))). by vm_compute. }
  rewrite H in Hc. cbn [implb] in Hc. apply andb_true_iff in Hc as [-> ->%negb_true_iff]. done.
Qed.

(** An anchor adds no text. *)
Lemma text_of_anchor line t : text_of false (anchor_line line +:+ t) = text_of false (line +:+ t).
Proof.
  unfold anchor_line. destruct (span key_char line) as [k r] eqn:E. apply span_spec in E as [-> Hk].
  destruct (negb _ && _) eqn:Ec; [|done]. bool_hyps. apply HasPrefix_spec in H0 as [r' ->].
  destruct (key_char_plain _ Hk) as [Hp Hb]. simpl str_drop. clear H Hk.
  replace (("<span id=" +:+ String dquote (k +:+ String dquote (">" +:+ k +:+ "</span>:" +:+ r'))) +:+ t)
    with (String "<" (("span id=" +:+ String dquote (k +:+ String dquote "")) +:+
            String ">" (k +:+ String "<" ("/span" +:+ String ">" (":" +:+ r' +:+ t))))).
  2: { simpl. rewrite !str_app_assoc. simpl. by rewrite !str_app_assoc. }
  rewrite text_of_open, text_of_tag by by rewrite ContainsByte_app, (ContainsByte_cons _ dquote), ContainsByte_app, Hb.
  rewrite str_app_assoc, !text_of_app by done. by rewrite text_of_open, text_of_tag.
Qed.

Lemma Split_prefix e s c : ContainsByte e c = false ->
  Split (e +:+ s) c = match Split s c with p :: ps => (e +:+ p) :: ps | [] => [e] end.
Proof.
  induction e as [|d e IH]; simpl String.append; [by destruct (Split s c) eqn:E; [destruct (Split_nonempty s c)|]|].
  rewrite ContainsByte_cons. intros He. bool_hyps. cbn [Split].
  rewrite (proj2 (Ascii.eqb_neq c d)), IH by done. by destruct (Split s c) eqn:E.
Qed.

(** Escaping neither makes nor removes a line break. *)
Lemma Split_escape s : Split (HTMLEscapeString s) newline = map HTMLEscapeString (Split s newline).
Proof.
  assert (Hd : forall d, implb (negb (Ascii.eqb newline d)) (negb (ContainsByte (html_escape_byte d) newline)) = true).
  { apply byte_ind. by vm_compute. }
  induction s as [|d s IH]; [done|]. cbn [HTMLEscapeString Split]. specialize (Hd d).
  destruct (Ascii.eqb_spec newline d) as [<-|Hne].
  - change (html_escape_byte newline) with (String newline ""). cbn [String.append Split]. by rewrite Ascii.eqb_refl, IH.
  - cbn [negb implb] in Hd. apply negb_true_iff in Hd. rewrite Split_prefix, IH by done.
    pose proof (Split_nonempty s newline). by destruct (Split s newline).
Qed.

(** The page shows the YAML text, byte for byte: escaping and anchors change
    neither its characters nor its lines, and no text becomes markup. *)
Lemma anchors_keep_text y :
  ContainsByte y "000" = false -> text_of false (injectConfigurationAnchors y) = y.
Proof.
  unfold injectConfigurationAnchors. rewrite Split_escape, map_map, <- (Join_Split y newline) at 1.
  rewrite <- (Join_Split y newline) at 3. generalize (Split y newline) as ls.
  assert (Hline : forall l t, ContainsByte l "000" = false ->
    text_of false (anchor_line (HTMLEscapeString l) +:+ t) = l +:+ text_of false t).
  { intros l t Hl. by rewrite text_of_anchor, text_of_escape. }
  induction ls as [|l ls IH]; [done|]. destruct ls as [|l' ls].
  - simpl. intros Hl. rewrite <- (str_app_nil_r (anchor_line _)), Hline by done. apply str_app_nil_r.
  - cbn [map Join] in *. rewrite !ContainsByte_app. intros Hl. bool_hyps. rewrite Hline by done.
    f_equal. change (String newline "" +:+ ?t) with (String newline t).
    rewrite text_of_plain by done. f_equal. by apply IH.
Qed.

(** C30. The configuration page: it does not depend on the admin token, only on
    whether one is set; the body shows exactly the encoded configuration as
    text, whatever strings it contains; and revalidation works: once a page was
    served with an ETag, a request with that ETag gets 304 and any other the
    same page again. *)
Theorem configuration_page_spec `{PageDeps} (cfg : Config) (unredacted : bool) :
  (forall t1 t2 headers, t1 <> "" -> t2 <> "" ->
     configurationUIHandler (with_token cfg t1) unredacted headers
       = configurationUIHandler (with_token cfg t2) unredacted headers) /\
  (forall headers etag body,
     configurationUIHandler cfg unredacted headers = Some (ConfigPage etag body) ->
     (exists text markup, yaml_Encode (display_config cfg) = Some text /\
        configurationTmpl markup unredacted = Some body /\
        (ContainsByte text "000" = false -> text_of false markup = text)) /\
     forall headers', configurationUIHandler cfg unredacted headers' =
       Some (if decide (Header_Get headers' "If-None-Match" = etag) then NotModified else ConfigPage etag body)).
Proof.
  split.
  - intros t1 t2 headers H1 H2. unfold configurationUIHandler, configuration_body.
    assert (Hd : forall t, t <> "" -> display_config (with_token cfg t) = with_token cfg adminTokenMaskSet).
    { intros t Ht. unfold display_config. simpl. by rewrite (proj2 (String.eqb_neq t "")). }
    by rewrite !Hd.
  - intros headers etag body. unfold configurationUIHandler.
    destruct (configuration_body cfg unredacted) as [b|] eqn:Eb; [|done]. simpl.
    destruct (String.eqb _ _); [done|]. intros [= <- <-]. split.
    + unfold configuration_body in Eb. destruct (yaml_Encode (display_config cfg)) as [text|]; [|done]. simpl in Eb.
      exists text, (injectConfigurationAnchors text). split_and!; [done..|apply anchors_keep_text].
    + intros headers'. case_decide as E; [by rewrite E, String.eqb_refl|]. by rewrite (proj2 (String.eqb_neq _ _)).
Qed.

(** An encoder that prints the token, the identity template and a toy digest. *)
Definition plain_page : PageDeps := {|
  yaml_Encode cfg := Some ("token: " +:+ ac_Token (cfg_Admin cfg));
  configurationTmpl markup unredacted := Some markup;
  sha256_Sum256 body := str_take 32 body
|}.

Lemma configuration_page_spec_witness :
  exists etag body,
    configurationUIHandler (H := plain_page) (with_token (Defaults 4) "secret") false ∅ = Some (ConfigPage etag body) /\
    configurationUIHandler (H := plain_page) (with_token (Defaults 4) "other") false ∅ = Some (ConfigPage etag body) /\
    text_of false body = "token: <set>" /\
    configurationUIHandler (H := plain_page) (with_token (Defaults 4) "other") false {[ "If-None-Match" := [etag] ]}
      = Some NotModified.
Proof.
  destruct (configuration_page_spec (H := plain_page) (Defaults 4) false) as [Hi _].
  eexists _, _. split; [rewrite (Hi "secret" "other") by done; vm_compute; reflexivity|].
  split; [vm_compute; reflexivity|]. split; vm_compute; reflexivity.
Defined.
