(* ===== verification/InspectJson.v ===== *)
(** * The JSON of the inspect answers

    The tags of [RootRow], [Aggregation] and the record types, and what
    inspect.go prints with them. The answers of [AdminInspect] become bytes
    here, and the client's side of paging reads those bytes. *)
From S2P Require Import Prelude GoLib Record Json JsonFacts SearchQL SearchSQL Inspect AdminInspect AdminInspectFacts.
From S2P Require Import Url Stdout RedactCmd UiViews UiViewsFacts.

Open Scope string_scope.

(** ** Values *)

Definition jopt {A} (f : A -> json) (o : option A) : json := match o with Some x => f x | None => JNull end.

(** A field tagged [omitempty]. *)
Definition omit_empty (key s : string) : list (string * json) := if String.eqb s "" then [] else [(key, JStr s)].

(** A byte slice prints as base64, a nil one as null; the records do not tell a
    nil body from an empty one, so [nil] does. *)
Definition body_json (nil : bool) (b : string) : json :=
  if String.eqb b "" then (if nil then JNull else JStr "") else JStr (EncodeToString b).

(** ** The wording of field errors *)

Section Wording.
Context `{Printable}.

Definition ParseMsg_text (m : ParseMsg) : string :=
  match m with
  | MsgUnclosedQuote => "unclosed quote"
  | MsgBareDash => "bare '-' is not a valid token"
  | MsgMissingKey => "token must start with a key before ':'"
  | MsgEmptyValue => "empty value after ':'"
  | MsgUnknownKey key => "unknown key " +:+ Quote key
  | MsgNoWildcards key => "wildcards are not supported on field " +:+ Quote key
  | MsgUnknownMethod value => "unknown HTTP method " +:+ Quote value
  | MsgBadStatus => "must be an integer status code (e.g. 200) or class form (e.g. 2xx, 5xx)"
  | MsgBadHasEvents value => "has_events must be true or false, got " +:+ Quote value
  | MsgEmptyHeaderName => "empty header name after 'header.'"
  | MsgHeaderNameWildcard => "wildcards are not supported in header name; use 'headers:' for fuzzy header search"
  | MsgOnlyWildcards => "value must contain a literal between wildcards"
  | MsgInnerWildcard => "wildcards '*' are only allowed at the start or end of a value"
  end.

Definition ParseError_Error (e : ParseError) : string :=
  if String.eqb (pe_Token e) "" then ParseMsg_text (pe_Message e)
  else pe_Token e +:+ ": " +:+ ParseMsg_text (pe_Message e).

(** [cause] is the text of the error that base64 or strconv gave. *)
Definition CursorError_text (cause : string) (e : CursorError) : string :=
  match e with
  | CurBadBase64 => "cursor: invalid base64: " +:+ cause
  | CurMissingColon => "cursor: missing ':' separator"
  | CurBadTimestamp => "cursor: non-integer timestamp part: " +:+ cause
  | CurEmptyID => "cursor: empty id part"
  end.

Definition FieldMsg_text (cause : string) (m : FieldMsg) : string :=
  match m with
  | FmUnknownParameter key => "unknown query parameter " +:+ Quote key
  | FmNotAnInteger => "must be an integer"
  | FmLimitRange max => "must be between 1 and " +:+ Itoa max
  | FmCursor e => CursorError_text cause e
  | FmNotRFC3339 => "must be RFC 3339 (e.g. 2006-01-02T15:04:05Z)"
  | FmQuery e => ParseError_Error e
  | FmNeedsNarrowing => "leading-wildcard queries require a time range (since/until) or an exact service: term"
  | FmBucketsRange max => "must be an integer between 1 and " +:+ Itoa max
  end.
End Wording.

Section Encode.
Context `{TimeJSON} `{Printable}.

Definition row_json (r : RootRow) : option json :=
  ts ← MarshalTime (row_Timestamp r);
  Some (JObj ([("id", JStr (row_ID r)); ("kind", JStr (row_Kind r)); ("timestamp", JStr ts);
    ("service", JStr (row_Service r))] ++ omit_empty "method" (row_Method r) ++ omit_empty "path" (row_Path r) ++
    [("correlation_id", JStr (row_CorrelationID r))] ++ omit_empty "source_ip" (row_SourceIP r) ++
    [("event_count", jopt (fun n => jint (Z.of_nat n)) (row_EventCount r));
     ("has_events", jopt JBool (row_HasEvents r)); ("status", jopt jint (row_Status r))])%list).

(** [writeRootsResponse]. *)
Definition rootsResponse (rows : list RootRow) (nextCur : option string) : option json :=
  rs ← mapM row_json rows;
  Some (JObj [("records", JArr rs); ("next_cursor", jopt JStr nextCur)]).

Definition bucket_json (b : HistogramBucket) : option json :=
  start ← MarshalTime (hb_Start b);
  Some (JObj [("start", JStr start); ("s2xx", jint (Z.of_nat (hb_S2xx b))); ("s3xx", jint (Z.of_nat (hb_S3xx b)));
    ("s4xx", jint (Z.of_nat (hb_S4xx b))); ("s5xx", jint (Z.of_nat (hb_S5xx b))); ("other", jint (Z.of_nat (hb_Other b)))]).

Definition aggregation_json (a : Aggregation) : option json :=
  bs ← mapM bucket_json (ag_Buckets a);
  Some (JObj [("total", jint (Z.of_nat (ag_Total a))); ("buckets", JArr bs)]).

Definition fieldErrorResponse (field msg : string) : json := JObj [("error", JStr msg); ("field", JStr field)].

Definition detailNotFoundResponse (id : string) : json := JObj [("error", JStr "record not found"); ("id", JStr id)].

(** *** The three record types *)

Definition request_json (nil : bool) (r : CapturedRequest) : option json :=
  ts ← MarshalTime (cr_Timestamp r);
  Some (JObj [("id", JStr (cr_ID r)); ("timestamp", JStr ts);
    ("method", JStr (cr_Method r)); ("path", JStr (cr_Path r)); ("query", json_header (cr_Query r));
    ("headers", json_header (cr_Headers r)); ("cookies", json_cookies (cr_Cookies r)); ("body", body_json nil (cr_Body r));
    ("body_truncated", JBool (cr_BodyTruncated r)); ("body_original_size", jint (cr_BodyOriginalSize r));
    ("content_type", JStr (cr_ContentType r)); ("source_ip", JStr (cr_SourceIP r)); ("service", JStr (cr_Service r));
    ("service_source", JStr (cr_ServiceSource r)); ("correlation_id", JStr (cr_CorrelationID r));
    ("correlation_source", JStr (cr_CorrelationSource r))]).

Definition response_json (nil : bool) (r : ResponseEvent) : option json :=
  ts ← MarshalTime (re_Timestamp r);
  Some (JObj [("id", JStr (re_ID r)); ("timestamp", JStr ts);
    ("correlation_id", JStr (re_CorrelationID r)); ("correlation_source", JStr (re_CorrelationSource r));
    ("service", JStr (re_Service r)); ("service_source", JStr (re_ServiceSource r)); ("status", jint (re_Status r));
    ("headers", json_header (re_Headers r)); ("body", body_json nil (re_Body r));
    ("body_truncated", JBool (re_BodyTruncated r)); ("body_original_size", jint (re_BodyOriginalSize r));
    ("content_type", JStr (re_ContentType r)); ("duration_ms", jint (re_DurationMS r))]).

Definition request_half_json (nil : bool) (q : OutboundRequestHalf) : json :=
  JObj [("method", JStr (oq_Method q)); ("path", JStr (oq_Path q)); ("headers", json_header (oq_Headers q));
    ("body", body_json nil (oq_Body q)); ("body_truncated", JBool (oq_BodyTruncated q));
    ("body_original_size", jint (oq_BodyOriginalSize q)); ("content_type", JStr (oq_ContentType q))].

Definition response_half_json (nil : bool) (p : OutboundResponseHalf) : json :=
  JObj [("status", jint (os_Status p)); ("headers", json_header (os_Headers p)); ("body", body_json nil (os_Body p));
    ("body_truncated", JBool (os_BodyTruncated p)); ("body_original_size", jint (os_BodyOriginalSize p));
    ("content_type", JStr (os_ContentType p))].

Definition outbound_json (nils : bool * bool) (r : OutboundEvent) : option json :=
  ts ← MarshalTime (oe_Timestamp r);
  Some (JObj [("id", JStr (oe_ID r)); ("timestamp", JStr ts);
    ("correlation_id", JStr (oe_CorrelationID r)); ("correlation_source", JStr (oe_CorrelationSource r));
    ("service", JStr (oe_Service r)); ("service_source", JStr (oe_ServiceSource r)); ("duration_ms", jint (oe_DurationMS r));
    ("request", request_half_json nils.1 (oe_Request r)); ("response", jopt (response_half_json nils.2) (oe_Response r))]).

(** Which bodies of a record are nil slices. *)
Definition Nils := CRecord -> bool * bool.

Definition record_json (nils : Nils) (r : CRecord) : option json :=
  match r with
  | RRequest v => request_json (nils r).1 v
  | RResponse v => response_json (nils r).1 v
  | ROutbound v => outbound_json (nils r) v
  end.

Definition detail_json (nils : Nils) (d : DetailRecord) : option json :=
  root ← record_json nils (dr_Root d);
  events ← mapM (record_json nils) (dr_Events d);
  Some (JObj [("root", root); ("events", JArr events)]).

(** *** Bodies *)

(** What reaches the client of the JSON endpoints: [None] when the encoder fails
    before it writes. A read error is plain text. *)
Definition inspect_json (nils : Nils) (cause : string) (a : InspectResponse) : option json :=
  match a with
  | RespFieldError e => Some (fieldErrorResponse (fe_field e) (FieldMsg_text cause (fe_message e)))
  | RespReadError => None
  | RespRoots rows next _ _ => rootsResponse rows next
  | RespAggregate agg _ => aggregation_json agg
  | RespDetail d => detail_json nils d
  | RespDetailNotFound id => Some (detailNotFoundResponse id)
  end.

Definition inspect_text (nils : Nils) (cause : string) (a : InspectResponse) : option string :=
  v ← inspect_json nils cause a; Some (print_json v +:+ line_end).

End Encode.

(** ** The client's side *)

Section Client.
Context `{TimeParse}.

Definition jfield (key : string) (v : json) : option json :=
  match v with JObj l => snd <$> List.find (fun kv => String.eqb kv.1 key) l | _ => None end.

(** An absent string reads as empty. *)
Definition str_field (key : string) (v : json) : option string :=
  match jfield key v with Some (JStr s) => Some s | None => Some "" | _ => None end.

Definition nullable {A} (f : json -> option A) (o : option json) : option (option A) :=
  match o with Some JNull | None => Some None | Some v => Some <$> f v end.

Definition read_int (v : json) : option Z := match v with JNum lit => Atoi lit | _ => None end.
Definition read_bool (v : json) : option bool := match v with JBool b => Some b | _ => None end.
Definition read_str (v : json) : option string := match v with JStr s => Some s | _ => None end.

Definition read_row (v : json) : option RootRow :=
  id ← str_field "id" v;
  kind ← str_field "kind" v;
  ts ← str_field "timestamp" v;
  t ← parse_rfc3339 ts;
  service ← str_field "service" v;
  method ← str_field "method" v;
  path ← str_field "path" v;
  corr ← str_field "correlation_id" v;
  ip ← str_field "source_ip" v;
  count ← nullable read_int (jfield "event_count" v);
  has ← nullable read_bool (jfield "has_events" v);
  status ← nullable read_int (jfield "status" v);
  Some (mkRootRow id kind t service method path corr ip (Z.to_nat <$> count) has status).

Definition read_page (v : json) : option (list RootRow * option string) :=
  rows ← (match jfield "records" v with Some (JArr l) => mapM read_row l | _ => None end);
  next ← nullable read_str (jfield "next_cursor" v);
  Some (rows, next).

(** A client that pages through the list: it parses each body and sends the
    cursor it found back as [cursor]. *)
Fixpoint client_walk `{Unicode} `{MapRange} `{TimeJSON} `{Printable} (rs : ReadSources) (nils : Nils) (cause : string)
    (fuel : nat) (vals : header) : option (list RootRow) :=
  match fuel with
  | 0 => Some []
  | S k =>
      body ← inspect_text nils cause (requestsHandler rs vals);
      v ← parse_json body;
      '(rows, next) ← read_page v;
      match next with
      | None => Some rows
      | Some c => rest ← client_walk rs nils cause k (<["cursor" := [c]]> vals); Some (rows ++ rest)%list
      end
  end.
End Client.

(** ** Text *)

Lemma parse_line_clean v : json_ints v = true -> parse_json (print_json v +:+ line_end) = Some (json_clean v).
Proof.
  intros Hok. unfold parse_json. rewrite value_reads_back; [done|done|done|].
  rewrite str_length_app. lia.
Qed.

Lemma parse_line v : json_ok v = true -> parse_json (print_json v +:+ line_end) = Some v.
Proof. intros Hok. rewrite parse_line_clean by (by apply json_ok_ints). by rewrite json_ok_clean. Qed.

Lemma ascii_valid s : is_ascii s = true -> ValidString s = true.
Proof.
  unfold is_ascii, ValidString. induction s as [|c s IH]; [done|]. simpl str_forall. intros [Hc Hs]%andb_true_iff.
  cbn [runes]. rewrite Hc. cbn. by apply IH.
Qed.

Lemma b64_char_ascii n : (code (b64_char n) <? 128)%N = true.
Proof.
  unfold b64_char. destruct (String.get (N.to_nat n) b64_alphabet) as [c|] eqn:E; [|done].
  assert (Hget : forall s i, is_ascii s = true -> String.get i s = Some c -> (code c <? 128)%N = true).
  { intros s. induction s as [|d s IH]; intros i Hs Hg; [done|]. unfold is_ascii in *. simpl in Hs. bool_hyps.
    destruct i as [|i]; simpl in Hg; simplify_eq; [done|]. by eapply IH. }
  by eapply Hget; [|exact E].
Qed.

Lemma EncodeToString_valid s : ValidString (EncodeToString s) = true.
Proof.
  apply ascii_valid. unfold is_ascii.
  induction s as [|a|a b|a b c r IH] using str_ind3; cbn [EncodeToString str_forall]; rewrite ?b64_char_ascii; done.
Qed.

Lemma body_json_ok nil b : json_ok (body_json nil b) = true.
Proof. unfold body_json. destruct (String.eqb b ""); [by destruct nil|]. apply EncodeToString_valid. Qed.

Lemma body_json_inj n1 n2 b1 b2 : body_json n1 b1 = body_json n2 b2 -> b1 = b2.
Proof.
  unfold body_json. destruct (String.eqb_spec b1 "") as [->|H1], (String.eqb_spec b2 "") as [->|H2]; [done|..].
  - destruct n1; [done|]. intros [= Hb]. symmetry in Hb. by apply EncodeToString_nonempty in Hb.
  - destruct n2; [done|]. intros [= Hb]. by apply EncodeToString_nonempty in Hb.
  - intros [= Hb]. apply (f_equal DecodeString) in Hb. rewrite !DecodeString_EncodeToString in Hb. congruence.
Qed.

Lemma omit_empty_ints k s : forallb (fun kv => json_ints kv.2) (omit_empty k s) = true.
Proof. unfold omit_empty. by destruct (String.eqb s ""). Qed.

Lemma jopt_ints {A} (f : A -> json) o : (forall x, json_ints (f x) = true) -> json_ints (jopt f o) = true.
Proof. intros Hf. by destruct o; [apply Hf|]. Qed.

Lemma jopt_ok {A} (f : A -> json) o : (forall x, json_ok (f x) = true) -> json_ok (jopt f o) = true.
Proof. intros Hf. by destruct o; [apply Hf|]. Qed.

(** ** Rows over the wire *)

(** The text of an instant: valid, and read back by [time.Parse]. *)
Class WireTime `{TimeJSON} `{TimeParse} : Prop := {
  wt_valid : forall t s, MarshalTime t = Some s -> ValidString s = true;
  wt_parse : forall t s, MarshalTime t = Some s -> parse_rfc3339 s = Some t
}.

Section Rows.
Context `{WireTime}.

(** A row the encoder takes: a year JSON can express, counts and status of
    machine size. *)
Definition sized_row (r : RootRow) : Prop :=
  is_Some (MarshalTime (row_Timestamp r)) /\
  (forall n, row_EventCount r = Some n -> in_i64 (Z.of_nat n)) /\ (forall z, row_Status r = Some z -> in_i64 z).

Definition row_texts (r : RootRow) : list string :=
  [row_ID r; row_Kind r; row_Service r; row_Method r; row_Path r; row_CorrelationID r; row_SourceIP r].

(** A row it takes as it is: with valid text, too. *)
Definition wire_row (r : RootRow) : Prop :=
  is_Some (MarshalTime (row_Timestamp r)) /\ Forall (fun s => ValidString s = true) (row_texts r) /\
  (forall n, row_EventCount r = Some n -> in_i64 (Z.of_nat n)) /\ (forall z, row_Status r = Some z -> in_i64 z).

(** The row with U+FFFD for what is not UTF-8. *)
Definition clean_row (r : RootRow) : RootRow :=
  mkRootRow (ToValidUTF8 (row_ID r)) (ToValidUTF8 (row_Kind r)) (row_Timestamp r) (ToValidUTF8 (row_Service r))
    (ToValidUTF8 (row_Method r)) (ToValidUTF8 (row_Path r)) (ToValidUTF8 (row_CorrelationID r))
    (ToValidUTF8 (row_SourceIP r)) (row_EventCount r) (row_HasEvents r) (row_Status r).

Lemma wire_row_sized r : wire_row r -> sized_row r /\ clean_row r = r.
Proof.
  intros (Ht & Hv & Hn). split; [done|]. unfold row_texts in Hv. rewrite !Forall_cons in Hv.
  destruct Hv as (?&?&?&?&?&?&?&_), r. unfold clean_row. cbn -[ToValidUTF8 ValidString] in *. by rewrite !ToValidUTF8_valid.
Qed.

Lemma wire_rows_sized rows : Forall wire_row rows -> Forall sized_row rows /\ clean_row <$> rows = rows.
Proof.
  induction 1 as [|r rows Hr _ [IH1 IH2]]; [done|]. destruct (wire_row_sized r Hr) as [Hs Hc].
  split; [by constructor|]. by rewrite fmap_cons, Hc, IH2.
Qed.

(** The member names are ASCII. *)
Ltac clean_keys :=
  repeat match goal with |- context [ToValidUTF8 (String ?c ?r)] => change (ToValidUTF8 (String c r)) with (String c r) end.

Lemma row_json_clean r : sized_row r ->
  exists v, row_json r = Some v /\ json_ints v = true /\ read_row (json_clean v) = Some (clean_row r).
Proof.
  intros ([ts Hts] & Hn & Hs). unfold row_json. rewrite Hts. eexists. split; [done|].
  pose proof (wt_valid _ _ Hts) as Hvt. pose proof (wt_parse _ _ Hts) as Hpt. unfold clean_row.
  destruct r as [id kind t service method path corr ip count has status].
  cbn [row_ID row_Kind row_Timestamp row_Service row_Method row_Path row_CorrelationID row_SourceIP row_EventCount
    row_HasEvents row_Status] in *.
  split.
  - cbn [json_ints]. rewrite !forallb_app, !omit_empty_ints. cbn [forallb fst snd andb json_ints app].
    rewrite !jopt_ints; [done|..]; intros; [apply Itoa_literal|done|apply Itoa_literal].
  - assert (Hcount : nullable read_int (Some (json_clean (jopt (fun n => jint (Z.of_nat n)) count))) = Some (Z.of_nat <$> count)).
    { destruct count as [n|]; [|done]. cbn -[Itoa Atoi]. by rewrite Atoi_Itoa by by apply Hn. }
    assert (Hstatus : nullable read_int (Some (json_clean (jopt jint status))) = Some status).
    { destruct status as [z|]; [|done]. cbn -[Itoa Atoi]. by rewrite Atoi_Itoa by by apply Hs. }
    assert (Hhas : nullable read_bool (Some (json_clean (jopt JBool has))) = Some has) by (by destruct has).
    assert (Hnat : Z.to_nat <$> (Z.of_nat <$> count) = count) by (destruct count; cbn; [by rewrite Nat2Z.id|done]).
    assert (Hpt' : parse_rfc3339 (ToValidUTF8 ts) = Some t) by (by rewrite ToValidUTF8_valid).
    unfold omit_empty. destruct (String.eqb_spec method "") as [->|Hmn], (String.eqb_spec path "") as [->|Hpn],
      (String.eqb_spec ip "") as [->|Hipn];
      cbn [app json_clean map fst snd]; clean_keys; cbn -[nullable jopt json_clean ToValidUTF8];
      rewrite Hpt'; cbn -[nullable jopt json_clean ToValidUTF8];
      rewrite Hcount; cbn -[nullable jopt json_clean ToValidUTF8]; rewrite Hhas; cbn -[nullable jopt json_clean ToValidUTF8];
      rewrite Hstatus; cbn -[nullable jopt json_clean ToValidUTF8];
      by rewrite Hnat.
Qed.

Lemma rows_json_clean rows : Forall sized_row rows ->
  exists vs, mapM row_json rows = Some vs /\ forallb json_ints vs = true /\
    mapM read_row (map json_clean vs) = Some (clean_row <$> rows).
Proof.
  induction 1 as [|r rows Hr _ (vs & Hvs & Hok & Hread)]; [by exists []|].
  destruct (row_json_clean r Hr) as (v & Hv & Hvok & Hvr). exists (v :: vs).
  cbn [mapM forallb map]. rewrite Hv, Hvok, Hok, Hvr. cbn [mbind option_bind]. by rewrite Hvs, Hread.
Qed.

(** A page printed and parsed is the page, up to text that is not UTF-8. *)
Lemma page_read rows next v : Forall sized_row rows -> (forall c, next = Some c -> ValidString c = true) ->
  rootsResponse rows next = Some v -> json_ints v = true /\ read_page (json_clean v) = Some (clean_row <$> rows, next).
Proof.
  intros Hrows Hnext Hv. destruct (rows_json_clean rows Hrows) as (vs & Hvs & Hok & Hread).
  unfold rootsResponse in Hv. rewrite Hvs in Hv. injection Hv as <-. split.
  - cbn [json_ints forallb fst snd]. rewrite Hok. by destruct next.
  - unfold read_page. cbn [json_clean map fst snd]. clean_keys. cbn -[ToValidUTF8]. rewrite Hread. destruct next as [c|]; [|done].
    cbn -[ToValidUTF8]. by rewrite ToValidUTF8_valid by auto.
Qed.

End Rows.

(** ** Paging *)

Section Paging.
Context `{WireTime} `{Unicode} `{MapRange} `{Printable}.

Lemma client_follows rs rd rows q nils cause :
  one_store rs q rd -> (forall c, Serves rd (set_cursor q c) rows) -> linkable rows -> Forall sized_row rows ->
  (IsUnindexedScan (iq_Query q) = true -> requiresNarrowing q = true) ->
  forall fuel vals cur, parseInspectQuery vals = (set_cursor q cur, []) ->
  client_walk rs nils cause fuel vals = Some (clean_row <$> walk (page_of rows (Z.to_nat (iq_Limit q))) fuel cur).
Proof.
  intros Hone Hserve Hlink Hwire Hscan fuel. induction fuel as [|fuel IH]; intros vals cur Hp; [done|].
  destruct (parseInspectQuery_ok _ _ Hp) as (_ & Hlim & Hcur). cbn [set_cursor iq_Limit iq_Cursor] in Hlim, Hcur.
  cbn [client_walk walk]. unfold requestsHandler. rewrite Hp. cbn [set_cursor iq_Query].
  replace (IsUnindexedScan (iq_Query q) && negb (requiresNarrowing _)) with false.
  2: { destruct (IsUnindexedScan (iq_Query q)); [|done]. unfold requiresNarrowing in *. simpl.
       by rewrite (Hscan eq_refl). }
  destruct (gatherRoots_one_store rs (set_cursor q cur) rd rows) as [source Hg]; try done.
  { intros c Hc. by apply Hcur. }
  cbn [set_cursor iq_Limit iq_Cursor] in Hg. fold (set_cursor q cur). rewrite Hg.
  destruct (page_of rows (Z.to_nat (iq_Limit q)) cur) as [page next] eqn:Epage.
  assert (Hpage : Forall sized_row page).
  { unfold page_of in Epage. injection Epage as <- _. apply Forall_take, Forall_forall. intros r Hr.
    apply elem_of_after_cursor in Hr as [Hr _]. rewrite Forall_forall in Hwire. by apply Hwire. }
  unfold inspect_text. cbn [inspect_json].
  destruct (rows_json_clean page Hpage) as (vs & Hvs & _).
  assert (Hv : exists v, rootsResponse page (Encode <$> next) = Some v) by (unfold rootsResponse; rewrite Hvs; by eexists).
  destruct Hv as [v Hv]. rewrite Hv. cbn [mbind option_bind].
  destruct (page_read page (Encode <$> next) v) as [Hok Hread]; [done| |done|].
  { intros c. destruct next; intros [= <-]. apply EncodeToString_valid. }
  rewrite parse_line_clean by done. cbn [mbind option_bind]. rewrite Hread. cbn [mbind option_bind].
  rewrite fmap_app. destruct next as [c|]; [|by rewrite app_nil_r]. change (Encode <$> Some c) with (Some (Encode c)).
  destruct (page_cursor_linkable _ _ _ _ _ Hlink Epage) as [Hct Hcid].
  rewrite (IH _ (Some c)); [done|]. by apply (parseInspectQuery_cursor _ (set_cursor q cur)).
Qed.

(** The whole list, whatever its text. *)
Lemma client_reads_all_clean rs rd rows vals q nils cause fuel :
  parseInspectQuery vals = (q, []) -> iq_Cursor q = None ->
  (IsUnindexedScan (iq_Query q) = true -> requiresNarrowing q = true) ->
  one_store rs q rd -> (forall c, Serves rd (set_cursor q c) rows) -> linkable rows -> Forall sized_row rows ->
  length rows < fuel ->
  client_walk rs nils cause fuel vals = Some (clean_row <$> rows).
Proof.
  intros Hp Hc Hscan Hone Hserve Hlink Hwire Hfuel.
  rewrite (client_follows rs rd rows q nils cause Hone Hserve Hlink Hwire Hscan fuel vals None).
  - destruct (parseInspectQuery_ok _ _ Hp) as (_ & Hl & _). do 2 f_equal. apply walk_all; [apply (Hserve None)|lia|done].
  - rewrite Hp. destruct q. cbn in Hc. by subst.
Qed.

End Paging.

(** C7. Paging through [GET /requests] by its bytes: a client that parses the
    JSON body of each page, keeps the records and sends the [next_cursor] string
    it found back as the [cursor] parameter sees every row of the answering
    store exactly once, in order and field by field as the store has it
    (absent members read as empty), for any admissible query and page size. *)
Theorem client_pages_rows `{WireTime} `{Unicode} `{MapRange} `{Printable} (rs : ReadSources) (rd : Reader) (rows : list RootRow)
    (vals : header) (q : InspectQuery) (nils : Nils) (cause : string) (fuel : nat) :
  parseInspectQuery vals = (q, []) -> iq_Cursor q = None ->
  (IsUnindexedScan (iq_Query q) = true -> requiresNarrowing q = true) ->
  one_store rs q rd -> (forall c, Serves rd (set_cursor q c) rows) -> linkable rows -> Forall wire_row rows ->
  length rows < fuel ->
  client_walk rs nils cause fuel vals = Some rows.
Proof.
  intros Hp Hc Hscan Hone Hserve Hlink [Hsized Hclean]%wire_rows_sized Hfuel.
  rewrite <- Hclean. by apply (client_reads_all_clean rs rd rows vals q).
Qed.

(** ** Details *)

Section Details.
Context `{WireTime} `{Printable}.

(** Text the encoder keeps; a body may hold any bytes. *)
Definition wire_record (r : CRecord) : Prop :=
  is_Some (MarshalTime (RecordTimestamp r)) /\
  match r with
  | RRequest v =>
      valid_texts [cr_ID v; cr_Method v; cr_Path v; cr_ContentType v; cr_SourceIP v; cr_Service v;
        cr_ServiceSource v; cr_CorrelationID v; cr_CorrelationSource v] /\
      valid_header (cr_Query v) /\ valid_header (cr_Headers v) /\ Forall valid_cookie (cr_Cookies v)
  | RResponse v =>
      valid_texts [re_ID v; re_CorrelationID v; re_CorrelationSource v; re_Service v; re_ServiceSource v;
        re_ContentType v] /\ valid_header (re_Headers v)
  | ROutbound v =>
      valid_texts [oe_ID v; oe_CorrelationID v; oe_CorrelationSource v; oe_Service v; oe_ServiceSource v;
        oq_Method (oe_Request v); oq_Path (oe_Request v); oq_ContentType (oe_Request v)] /\
      valid_header (oq_Headers (oe_Request v)) /\
      forall p, oe_Response v = Some p -> valid_texts [os_ContentType p] /\ valid_header (os_Headers p)
  end.

(** Every field of an object literal is fine by hypothesis. *)
Ltac members_ok :=
  cbn -[json_header json_cookies body_json Itoa ValidString];
  repeat match goal with Hx : ?f ?y = true |- context [?f ?y] => rewrite Hx; clear Hx end;
  rewrite ?body_json_ok, ?Itoa_literal; by vm_compute.

Lemma record_json_ok nils r : wire_record r -> exists v, record_json nils r = Some v /\ json_ok v = true.
Proof.
  intros [[ts Hts] Hr]. pose proof (wt_valid _ _ Hts) as Hvt. unfold valid_texts in Hr. rewrite ?Forall_cons in Hr.
  destruct r as [r|r|r]; cbn [record_json RecordTimestamp] in *; unfold request_json, response_json, outbound_json; rewrite Hts;
    (eexists; split; [done|]).
  - rewrite !Forall_cons in Hr. destruct Hr as ((?&?&?&?&?&?&?&?&?&_) & Hq & Hh & Hc).
    apply json_header_ok in Hq, Hh. apply json_cookies_ok in Hc. members_ok.
  - rewrite !Forall_cons in Hr. destruct Hr as ((?&?&?&?&?&?&_) & Hh). apply json_header_ok in Hh. members_ok.
  - rewrite !Forall_cons in Hr. destruct Hr as ((?&?&?&?&?&?&?&?&_) & Hh & Hp). apply json_header_ok in Hh.
    unfold request_half_json. destruct (oe_Response r) as [p|]; cbn [jopt]; [|clear Hp; members_ok].
    destruct (Hp p eq_refl) as [Hx Hph]. clear Hp. rewrite !Forall_cons in Hx. destruct Hx as (?&_).
    apply json_header_ok in Hph. unfold response_half_json. members_ok.
Qed.

(** *** The record is in its JSON, whichever of its bodies were nil *)

Ltac same_members E :=
  injection E; clear E; intros;
  repeat match goal with
  | Hx : json_header _ = json_header _ |- _ => apply json_header_inj in Hx
  | Hx : map json_cookie _ = map json_cookie _ |- _ => apply (f_equal JArr), json_cookies_inj in Hx
  | Hx : Itoa _ = Itoa _ |- _ => apply Itoa_inj in Hx
  | Hx : body_json _ _ = body_json _ _ |- _ => apply body_json_inj in Hx
  end.

Lemma request_half_json_inj n1 n2 q1 q2 : request_half_json n1 q1 = request_half_json n2 q2 -> q1 = q2.
Proof. unfold request_half_json. intros E. same_members E. destruct q1, q2; simpl in *; by subst. Qed.

Lemma response_half_json_inj n1 n2 p1 p2 : response_half_json n1 p1 = response_half_json n2 p2 -> p1 = p2.
Proof. unfold response_half_json. intros E. same_members E. destruct p1, p2; simpl in *; by subst. Qed.

Lemma response_opt_inj n1 n2 o1 o2 :
  jopt (response_half_json n1) o1 = jopt (response_half_json n2) o2 -> o1 = o2.
Proof. destruct o1, o2; try done. cbn [jopt]. intros E. f_equal. by eapply response_half_json_inj. Qed.

Lemma record_json_inj n1 n2 r1 r2 v :
  record_json n1 r1 = Some v -> record_json n2 r2 = Some v -> r1 = r2.
Proof.
  assert (Ht : forall t1 t2 x, MarshalTime t1 = Some x -> MarshalTime t2 = Some x -> t1 = t2).
  { intros t1 t2 x E1%wt_parse E2%wt_parse. congruence. }
  intros E1 E2.
  destruct r1 as [r1|r1|r1], r2 as [r2|r2|r2]; cbn [record_json] in E1, E2;
    unfold request_json, response_json, outbound_json in E1, E2;
    match type of E1 with context [MarshalTime ?t] => destruct (MarshalTime t) as [x1|] eqn:T1; [|done] end;
    match type of E2 with context [MarshalTime ?t] => destruct (MarshalTime t) as [x2|] eqn:T2; [|done] end;
    cbn [mbind option_bind] in E1, E2; rewrite <- E2 in E1; clear E2; try done.
  - same_members E1. subst x2. pose proof (Ht _ _ _ T1 T2). clear Ht T1 T2. destruct r1, r2; simpl in *; by subst.
  - same_members E1. subst x2. pose proof (Ht _ _ _ T1 T2). clear Ht T1 T2. destruct r1, r2; simpl in *; by subst.
  - assert (Hq : oe_Request r1 = oe_Request r2 /\ oe_Response r1 = oe_Response r2).
    { pose proof (f_equal (fun j => match j with
        | Some (JObj [_; _; _; _; _; _; _; (_, q); _]) => q | _ => JNull end) E1) as Eq.
      pose proof (f_equal (fun j => match j with
        | Some (JObj [_; _; _; _; _; _; _; _; (_, p)]) => p | _ => JNull end) E1) as Ep.
      cbv beta iota in Eq, Ep. split; [by eapply request_half_json_inj|by eapply response_opt_inj]. }
    same_members E1. subst x2. pose proof (Ht _ _ _ T1 T2). clear Ht T1 T2. destruct Hq, r1, r2; simpl in *; by subst.
Qed.

Lemma records_json_inj n1 n2 l1 l2 vs :
  mapM (record_json n1) l1 = Some vs -> mapM (record_json n2) l2 = Some vs -> l1 = l2.
Proof.
  rewrite !mapM_Some. intros Hl. revert l2. induction Hl as [|r v l1 vs Hr _ IH]; intros l2 Hl2; inversion Hl2 as [|r' ? l' ? Hr' Hl']; subst; [done|].
  f_equal; [exact (record_json_inj _ _ _ _ _ Hr Hr')|by apply IH].
Qed.

Lemma records_json_ok nils l : Forall wire_record l ->
  exists vs, mapM (record_json nils) l = Some vs /\ forallb json_ok vs = true.
Proof.
  induction 1 as [|r l Hr _ (vs & Hvs & Hok)]; [by exists []|]. destruct (record_json_ok nils r Hr) as (v & Hv & Hvok).
  exists (v :: vs). cbn [mapM forallb]. rewrite Hv, Hvok. cbn [mbind option_bind]. by rewrite Hvs.
Qed.

(** *** Histograms *)

Lemma Itoa_nat_inj m n : Itoa (Z.of_nat m) = Itoa (Z.of_nat n) -> m = n.
Proof. intros E%Itoa_inj. lia. Qed.

Lemma bucket_json_ok b : is_Some (MarshalTime (hb_Start b)) -> exists v, bucket_json b = Some v /\ json_ok v = true.
Proof.
  intros [ts Hts]. unfold bucket_json. rewrite Hts. eexists. split; [done|]. pose proof (wt_valid _ _ Hts).
  members_ok.
Qed.

Lemma bucket_json_inj b1 b2 v : bucket_json b1 = Some v -> bucket_json b2 = Some v -> b1 = b2.
Proof.
  unfold bucket_json. destruct (MarshalTime (hb_Start b1)) as [x1|] eqn:T1; [|done].
  destruct (MarshalTime (hb_Start b2)) as [x2|] eqn:T2; [|done]. cbn [mbind option_bind]. intros E1 E2.
  rewrite <- E2 in E1. injection E1 as ? ? ? ? ? ?. subst x2. apply wt_parse in T1, T2. rewrite T1 in T2.
  repeat match goal with Hx : Itoa _ = Itoa _ |- _ => apply Itoa_nat_inj in Hx end.
  destruct b1, b2; cbn in *; by simplify_eq.
Qed.

(** The answer of the aggregate endpoint parses and determines the histogram. *)
Lemma aggregation_over_the_wire nils cause agg scan :
  Forall (fun b => is_Some (MarshalTime (hb_Start b))) (ag_Buckets agg) ->
  exists text v, inspect_text nils cause (RespAggregate agg scan) = Some text /\ parse_json text = Some v /\
    forall agg', aggregation_json agg' = Some v -> agg' = agg.
Proof.
  intros Hb. assert (Hvs : exists vs, mapM bucket_json (ag_Buckets agg) = Some vs /\ forallb json_ok vs = true).
  { induction Hb as [|b l Hb _ (vs & Hvs & Hok)]; [by exists []|]. destruct (bucket_json_ok b Hb) as (v & Hv & Hvok).
    exists (v :: vs). cbn [mapM forallb]. rewrite Hv, Hvok. cbn [mbind option_bind]. by rewrite Hvs. }
  clear Hb. destruct Hvs as (vs & Hvs & Hok). unfold inspect_text. cbn [inspect_json]. unfold aggregation_json. rewrite Hvs.
  cbn [mbind option_bind]. do 2 eexists. split; [done|]. split.
  - apply parse_line. cbn [json_ok forallb fst snd jint]. rewrite Hok, Itoa_literal. by vm_compute.
  - intros [total bs]. cbn [ag_Buckets ag_Total]. destruct (mapM bucket_json bs) as [vs'|] eqn:Hbs; [|done].
    cbn [mbind option_bind]. intros E. injection E as Htotal ->. apply Itoa_nat_inj in Htotal. subst total.
    destruct agg as [total bs']. cbn in *. f_equal. revert Hbs Hvs. rewrite !mapM_Some. intros Hbs.
    revert bs'. clear Hok. induction Hbs as [|b v bs vs Hv _ IH]; intros bs' Hbs'; inversion Hbs' as [|b' ? l' ? Hb' Hl']; subst; [done|].
    f_equal; [exact (bucket_json_inj _ _ _ Hv Hb')|by apply IH].
Qed.

End Details.

(** C21. A detail over the wire is exact: for records with valid text and dates
    JSON can express, the answer of [GET /requests/{id}] is one JSON value, and
    that value determines the detail it was made from, the root, the events in
    their order and every field of each, among them the exact bytes of every
    body, printable or not. *)
Theorem detail_over_the_wire `{WireTime} `{Printable} (nils : Nils) (cause : string) (d : DetailRecord) :
  wire_record (dr_Root d) -> Forall wire_record (dr_Events d) ->
  exists text v, inspect_text nils cause (RespDetail d) = Some text /\ parse_json text = Some v /\
    forall nils' d', detail_json nils' d' = Some v -> d' = d.
Proof.
  intros Hr He. destruct (record_json_ok nils _ Hr) as (v & Hv & Hok).
  destruct (records_json_ok nils _ He) as (vs & Hvs & Hoks). unfold inspect_text. cbn [inspect_json].
  assert (Hd : detail_json nils d = Some (JObj [("root", v); ("events", JArr vs)])).
  { unfold detail_json. rewrite Hv. cbn [mbind option_bind]. by rewrite Hvs. }
  rewrite Hd. do 2 eexists. split; [done|]. split.
  - apply parse_line. cbn [json_ok forallb fst snd]. rewrite Hok, Hoks. by vm_compute.
  - intros nils' d' Hd'. unfold detail_json in Hd'. destruct (record_json nils' (dr_Root d')) as [v'|] eqn:Hv'; [|done].
    destruct (mapM (record_json nils') (dr_Events d')) as [vs'|] eqn:Hvs'; [|done]. cbn in Hd'. injection Hd' as -> ->.
    destruct d as [root evs], d' as [root' evs']. cbn in *. f_equal.
    + by eapply record_json_inj.
    + by eapply records_json_inj.
Qed.

(** ** Examples *)

(** Decimal numbers in place of calendar text. *)
#[local] Existing Instances ascii_unicode sorted_range decimal_parse decimal_json.

Lemma decimal_wire : WireTime.
Proof.
  split; intros t s [= <-]; [apply Itoa_valid|apply decimal_read_Itoa].
Qed.

#[local] Existing Instance decimal_wire.

Definition no_nils : Nils := fun _ => (false, false).
#[local] Instance all_printable : Printable := {| is_print _ := true |}.

(** Two pages: the second is asked for with the cursor found in the first. *)
Lemma client_pages_rows_witness :
  client_walk (mkReadSources None (Some (list_reader stored_rows))) no_nils "" 4 {[ "limit" := ["2"] ]} =
    Some stored_rows.
Proof.
  apply (client_pages_rows (mkReadSources None (Some (list_reader stored_rows))) (list_reader stored_rows) stored_rows
    {[ "limit" := ["2"] ]} (mkInspectQuery 2 None None None (mkQuery [])) no_nils "" 4).
  - vm_compute. reflexivity.
  - reflexivity.
  - done.
  - left. split; [reflexivity|by left].
  - intros c. apply list_reader_serves, stored_ordered.
  - intros r Hr. unfold stored_rows in Hr. repeat (apply elem_of_cons in Hr as [->|Hr]; [by vm_compute|]).
    by apply elem_of_nil in Hr.
  - unfold stored_rows. repeat (apply Forall_cons_2); [..|apply Forall_nil_2];
      (split; [by eexists|split; [by repeat constructor|split; [by intros n [= <-]|done]]]).
  - simpl. lia.
Defined.

(** A body that is not text, with a sibling whose body is nil. *)
Definition binary_detail : DetailRecord :=
  mkDetailRecord (RResponse (mkResponseEvent "e1" 7%Z "c1" "explicit" "svc" "header" 200 None (String "255" "x") false 2 "" 3))
    [RResponse (mkResponseEvent "e2" 8%Z "c1" "explicit" "svc" "header" 200 None "" false 0 "" 3)].

Lemma detail_over_the_wire_witness : exists text v,
  inspect_text (fun _ => (true, false)) "" (RespDetail binary_detail) = Some text /\ parse_json text = Some v /\
  detail_json no_nils binary_detail <> Some v /\
  forall nils' d', detail_json nils' d' = Some v -> d' = binary_detail.
Proof.
  destruct (detail_over_the_wire (fun _ => (true, false)) "" binary_detail) as (text & v & Ht & Hv & Hd).
  - split; [by eexists|]. split; [by repeat constructor|done].
  - apply Forall_singleton. split; [by eexists|]. split; [by repeat constructor|done].
  - exists text, v. split; [exact Ht|]. split; [exact Hv|]. split; [|exact Hd].
    assert (Hparse : (text ← inspect_text (fun _ => (true, false)) "" (RespDetail binary_detail); parse_json text) = Some v)
      by (rewrite Ht; exact Hv).
    vm_compute in Hparse. injection Hparse as <-. vm_compute. discriminate.
Defined.
