(* ===== verification/AdminServer.v ===== *)
(** * admin/server.go: the routes of the admin port

    With security_headers.go, static.go, healthz.go and the login page. A
    middleware or handler takes the response headers set so far and the shared
    state, and gives the state and the response; [None] is a panic, on which the
    server drops the connection. Bodies stay values; the argument of
    [http.Redirect] is kept as [rp_redirect] beside the Location header made of
    it. The router is class [Chi]. *)
From S2P Require Import Prelude GoLib GoTime Record Json Url Capture Redact Config Auth Events SearchQL SearchSQL.
From S2P Require Import Inspect AdminInspect SqliteOpen UiViews Metrics.

Open Scope string_scope.

(** ** security_headers.go *)

Definition cspHTML : string :=
  "default-src 'none'; script-src 'self'; style-src 'self'; img-src 'self'; connect-src 'self'; base-uri 'none'; form-action 'self'; frame-ancestors 'none'".

Definition jsonSecurityHeaders (h : header) : header :=
  let h := Header_Set h "X-Content-Type-Options" "nosniff" in
  let h := Header_Set h "X-Frame-Options" "DENY" in
  Header_Set h "Referrer-Policy" "no-referrer".

Definition htmlSecurityHeaders (h : header) : header :=
  let h := Header_Set h "Content-Security-Policy" cspHTML in
  let h := Header_Set h "X-Content-Type-Options" "nosniff" in
  let h := Header_Set h "X-Frame-Options" "DENY" in
  Header_Set h "Referrer-Policy" "no-referrer".

(** ** Responses *)

Record SetCookie := mkSetCookie {
  sk_CookieName : string;
  sk_Value : string;
  sk_Path : string;
  sk_Expires : option time;
  sk_MaxAge : Z;
  sk_HttpOnly : bool;
  sk_Secure : bool;
  sk_SameSiteLax : bool
}.

Inductive Payload :=
| BodyEmpty
| BodyText (s : string)
| BodyMetrics (l : list ConstMetric)
| BodyLogin (next : string) (error : bool)
| BodyStatus (j : json)
| BodyInspect (r : InspectResponse)
| BodyList (d : listPageData)
| BodyDetail (d : DetailResponse)
| BodyServices (d : servicesPageData)
| BodyEvents (a : EventsAnswer).

Record Response := mkResponse {
  rp_status : Z;
  rp_header : header;
  rp_redirect : option string;
  rp_cookie : option SetCookie;
  rp_body : Payload
}.

Definition answer (status : Z) (h : header) (body : Payload) : Response := mkResponse status h None None body.

(** A line of a text body. *)
Definition text_line (s : string) : string := s +:+ String "010" "".

(** [http.Error] and [http.NotFound]; of the message of a read error only the
    fixed part is kept. *)
Definition http_Error (h : header) (msg : string) (code : Z) : Response :=
  answer code (Header_Set (Header_Set h "Content-Type" "text/plain; charset=utf-8") "X-Content-Type-Options" "nosniff")
    (BodyText (text_line msg)).

Definition http_NotFound (h : header) : Response := http_Error h "404 page not found" 404.

Definition json_type : string := "application/json; charset=utf-8".
Definition html_type : string := "text/html; charset=utf-8".
Definition text_type : string := "text/plain; charset=utf-8".

Definition typed (h : header) (ct cache : string) : header :=
  Header_Set (Header_Set h "Content-Type" ct) "Cache-Control" cache.

(** *** http.Redirect *)

(** A path and its query, the question mark with the latter. *)
Fixpoint split_query (s : string) : string * string :=
  match s with
  | "" => ("", "")
  | String c r => if Ascii.eqb c "?" then ("", s) else let '(p, q) := split_query r in (String c p, q)
  end.

(** The address it redirects to: the path cleaned, a trailing slash kept, unless
    [url.Parse] fails or finds a host. Every address here begins with a slash,
    so it has no scheme and needs no directory put before it. *)
Definition redirect_address `{WebDeps} (url : string) : string :=
  match url_Parse_Host url with
  | Some "" =>
      let '(p, query) := split_query url in
      let cleaned := Clean p in
      (if HasSuffix p "/" && negb (HasSuffix cleaned "/") then cleaned +:+ "/" else cleaned) +:+ query
  | _ => url
  end.

Fixpoint hexEscapeNonASCII (s : string) : string :=
  match s with
  | "" => ""
  | String c r =>
      if (128 <=? code c)%N
      then String "%" (String (hex_digit (code c / 16)) (String (hex_digit (code c mod 16)) (hexEscapeNonASCII r)))
      else String c (hexEscapeNonASCII r)
  end.

(** net/http escapes what the templates do, but for the zero byte. *)
Fixpoint htmlEscape (s : string) : string :=
  match s with
  | "" => ""
  | String c r => (if (code c =? 0)%N then String c "" else html_escape_byte c) +:+ htmlEscape r
  end.

Definition link_page (url : string) : string :=
  "<a href=" +:+ in_quotes (htmlEscape url) +:+ ">See Other</a>." +:+ String newline (String newline "").

(** Status 303. The Content-Type and the page with the link are for methods that
    expect one. *)
Definition http_Redirect `{WebDeps} (h : header) (r : Request) (url : string) (cookie : option SetCookie) : Response :=
  let hadCT := match h !! "Content-Type" with Some _ => true | None => false end in
  let h := Header_Set h "Location" (hexEscapeNonASCII (redirect_address url)) in
  let get := String.eqb (rq_Method r) "GET" in
  mkResponse 303
    (if negb hadCT && (get || String.eqb (rq_Method r) "HEAD") then Header_Set h "Content-Type" html_type else h)
    (Some url) cookie (if negb hadCT && get then BodyText (link_page (redirect_address url)) else BodyEmpty).

(** ** healthz.go, static.go *)

Definition healthzHandler (h : header) : Response :=
  answer 200 (Header_Set h "Content-Type" text_type) (BodyText "ok").

Definition allowedExtensions : gmap string string :=
  list_to_map [(".css", "text/css; charset=utf-8"); (".js", "application/javascript; charset=utf-8");
               (".png", "image/png"); (".svg", "image/svg+xml"); (".woff2", "font/woff2")].

(** [path.Ext] of a name without slashes: from the last dot on. *)
Fixpoint Ext (s : string) : string :=
  match s with
  | "" => ""
  | String c s' => match Ext s' with "" => if Ascii.eqb c "." then s else "" | e => e end
  end.

Section Static.
Context `{PageDeps}.

(** The embedded tree: the files below [ui/] in the order [fs.WalkDir] visits
    them; [None] is a file that cannot be read. *)
Definition FS : Type := list (string * option string).

Definition buildEtags (fsys : FS) : gmap string string :=
  foldl (fun tags p => match p.2 with Some data => <[p.1 := etag_of data]> tags | None => tags end) ∅ fsys.

Definition ReadFile (fsys : FS) (p : string) : option string :=
  f ← List.find (fun f => String.eqb f.1 p) fsys; f.2.

Definition staticHandler (fsys : FS) (etags : gmap string string) (h : header) (r : Request) : Response :=
  let tail := match strip_prefix "/static/" (rq_Path r) with Some t => t | None => rq_Path r end in
  if (String.eqb tail "" || Contains tail "/")%bool then http_NotFound h else
  match allowedExtensions !! Ext tail with
  | None => http_NotFound h
  | Some ct =>
      let fsPath := "ui/" +:+ tail in
      match etags !! fsPath with
      | None => http_NotFound h
      | Some etag =>
          if String.eqb (Header_Get (rq_Header r) "If-None-Match") etag then answer 304 h BodyEmpty else
          match ReadFile fsys fsPath with
          | None => http_NotFound h
          | Some data => answer 200 (Header_Set (typed h ct "no-cache") "ETag" etag) (BodyText data)
          end
      end
  end.

End Static.

(** ** Routes *)

Inductive Mw := MwHtmlHeaders | MwJsonHeaders | MwCsrf | MwAuth (cookieAuth : bool).

Inductive Endpoint :=
| EpHealthz | EpMetrics | EpLoginPage | EpLoginPost | EpLogout | EpStatic
| EpRoot | EpStatus | EpRequests | EpAggregate | EpDetail
| EpUiRequests | EpUiDetail | EpUiServices | EpUiConfiguration
| EpEvents.

#[export] Instance Endpoint_eq_dec : EqDecision Endpoint.
Proof. solve_decision. Defined.

Record Route := mkRoute { ro_method : string; ro_pattern : string; ro_chain : list Mw; ro_endpoint : Endpoint }.

Definition routes : list Route :=
  let group pattern e := mkRoute "GET" pattern [MwHtmlHeaders; MwAuth true] e in
  [mkRoute "GET" "/healthz" [MwJsonHeaders] EpHealthz;
   mkRoute "GET" "/metrics" [MwJsonHeaders] EpMetrics;
   mkRoute "GET" "/login" [MwHtmlHeaders] EpLoginPage;
   mkRoute "POST" "/auth/login" [MwHtmlHeaders; MwCsrf] EpLoginPost;
   mkRoute "POST" "/auth/logout" [MwHtmlHeaders; MwCsrf] EpLogout;
   mkRoute "GET" "/static/*" [MwJsonHeaders] EpStatic;
   group "/" EpRoot;
   group "/status" EpStatus;
   group "/requests" EpRequests;
   group "/requests/aggregate" EpAggregate;
   group "/requests/{id}" EpDetail;
   group "/ui/requests" EpUiRequests;
   group "/ui/requests/{id}" EpUiDetail;
   group "/ui/services" EpUiServices;
   group "/ui/configuration" EpUiConfiguration;
   mkRoute "POST" "/events" [MwJsonHeaders; MwAuth false] EpEvents].

Definition literal (pattern : string) : bool := negb (ContainsByte pattern "{" || ContainsByte pattern "*").

(** The chi router: the route it picks for a request and the [id] parameter.
    [routePath] is the path it matches against. *)
Class Chi := {
  chi_route : list Route -> Request -> option (Route * string);
  routePath : Request -> string
}.

(** A picked route is one that was registered, for the request's method; a
    pattern without parameters wins over the others. *)
Class ChiLaws `{Chi} : Prop := {
  chi_registered : forall rs req ro id, chi_route rs req = Some (ro, id) -> ro ∈ rs /\ ro_method ro = rq_Method req;
  chi_literal : forall rs req ro, ro ∈ rs -> literal (ro_pattern ro) = true ->
    ro_method ro = rq_Method req -> ro_pattern ro = routePath req ->
    (forall ro', ro' ∈ rs -> ro_method ro' = ro_method ro -> ro_pattern ro' = ro_pattern ro -> ro' = ro) ->
    exists id, chi_route rs req = Some (ro, id)
}.

(** ** The server *)

Record AdminState := mkAdminState {
  as_sessions : SessionStore;
  as_limiter : AuthLimiter;
  as_queue : option Queue;
  as_events : EventsCounters
}.

Definition set_sessions (st : AdminState) (s : SessionStore) : AdminState :=
  mkAdminState s (as_limiter st) (as_queue st) (as_events st).
Definition set_limiter (st : AdminState) (l : AuthLimiter) : AdminState :=
  mkAdminState (as_sessions st) l (as_queue st) (as_events st).

Record Server (W : Type) := mkServer {
  sv_cfg : AdminConfig;
  sv_timeouts : TimeoutsConfig;
  sv_sources : MetricSources W;
  sv_prom : Prom W;
  sv_events : EventsOptions;
  sv_config_page : string;
  sv_fs : FS;
  sv_etags : gmap string string;
  sv_version : string;
  sv_build : string
}.
Arguments mkServer {W}.
Arguments sv_cfg {W}.
Arguments sv_timeouts {W}.
Arguments sv_sources {W}.
Arguments sv_prom {W}.
Arguments sv_events {W}.
Arguments sv_config_page {W}.
Arguments sv_fs {W}.
Arguments sv_etags {W}.
Arguments sv_version {W}.
Arguments sv_build {W}.

Definition authFailures {W} (limiter : W -> AuthLimiter) (s : MetricSources W) : MetricSources W :=
  let 'mkMetricSources a b c d e f g h i j k l m n o p q r s t u _ _ _ x y z := s in
  mkMetricSources a b c d e f g h i j k l m n o p q r s t u
    (Some (fun w => InvalidTokenTotal (limiter w))) (Some (fun w => RateLimitedTotal (limiter w)))
    (Some (fun w => CSRFBlockedTotal (limiter w))) x y z.

(** What the environment supplies to one request: clock readings, the session id
    drawn, the parsed login form, the request URI, the readers over the current
    stores, and for the events endpoint its clock, ids, declared length and the
    queue's other users. *)
Record Inputs (W : Type) := mkInputs {
  in_now : time;
  in_page_now : time * time;
  in_session : option string;
  in_form : LoginForm;
  in_uri : string;
  in_readers : ReadSources;
  in_draw : nat -> Draw;
  in_length : Z;
  in_others : nat -> Queue -> Queue;
  in_world : AdminState -> W
}.
Arguments in_now {W}.
Arguments in_page_now {W}.
Arguments in_session {W}.
Arguments in_form {W}.
Arguments in_uri {W}.
Arguments in_readers {W}.
Arguments in_draw {W}.
Arguments in_length {W}.
Arguments in_others {W}.
Arguments in_world {W}.

Definition NewState (queue : option Queue) : AdminState :=
  mkAdminState NewSessionStore NewAuthLimiter queue NewEventsCounters.

Section Serve.
Context `{Unicode} `{MapRange} `{TimeParse} `{TimeFormat} `{JsonDeps} `{WebDeps} `{PageDeps} {W : Type}.

(** [New]: the bind policy first; the configuration page is rendered here, once.
    [w] is the process state at that moment. *)
Definition New (cfg : AdminConfig) (sources : MetricSources W) (limiter : W -> AuthLimiter) (events : EventsOptions)
    (effective : Config) (fsys : FS) (version build : string) (w : W) : option (result BindError (Server W)) :=
  match Guard (ac_Bind cfg) (negb (String.eqb (ac_Token cfg) "")) (ac_InsecureListen cfg) with
  | Err e => Some (Err e)
  | Ok _ =>
      let sources := normalize (authFailures limiter sources) in
      unredacted ← call_source (mt_Unredacted sources) w;
      page ← configuration_body effective unredacted;
      Some (Ok (mkServer cfg (cfg_Timeouts effective) sources (Prom_New (promSources sources version build)) events
                  page fsys (buildEtags fsys) version build))
  end.

(** The warning about an unreachable admin port. *)
Definition warns_no_token (cfg : AdminConfig) : bool :=
  match Guard (ac_Bind cfg) (negb (String.eqb (ac_Token cfg) "")) (ac_InsecureListen cfg) with
  | Ok ReasonLoopbackDefault => String.eqb (ac_Token cfg) ""
  | _ => false
  end.

(** *** Handlers that write only headers and a value *)

Definition loginPageHandler (h : header) (r : Request) : Response :=
  let next := Values_Get (rq_Query r) "next" in
  let next := if negb (isSafePath next) then "" else next in
  answer 200 (Header_Set h "Content-Type" html_type) (BodyLogin next (String.eqb (Values_Get (rq_Query r) "err") "1")).

Definition rootRedirectHandler (h : header) (r : Request) : Response := http_Redirect h r "/ui/requests" None.

Definition session_cookie (cfg : AdminConfig) (value : string) (expires : option time) (maxAge : Z) : SetCookie :=
  mkSetCookie sessionCookieName value "/" expires maxAge true (ac_SessionSecure cfg) true.

Definition login_response (cfg : AdminConfig) (h : header) (r : Request) (a : LoginAnswer) : Response :=
  match a with
  | LoginRateLimited secs =>
      answer 429 (Header_Set (Header_Set h "Retry-After" (Itoa secs)) "Content-Type" text_type) (BodyText (text_line "rate limited"))
  | LoginBadRequest => http_Error h "bad request" 400
  | LoginMissingToken => http_Error h "missing token" 400
  | LoginRefused next => answer 401 (Header_Set h "Content-Type" html_type) (BodyLogin next true)
  | LoginInternalError => http_Error h "internal error" 500
  | LoginOk value expires maxAge location => http_Redirect h r location (Some (session_cookie cfg value (Some expires) maxAge))
  end.

(** The login page a refused browser is sent to. *)
Definition login_url (uri : string) : string := "/login?next=" +:+ QueryEscape uri.

Definition gate_response (h : header) (r : Request) (uri : string) (a : GateAnswer) : option Response :=
  match a with
  | GateNext => None
  | GateRateLimited secs =>
      Some (answer 429 (Header_Set (Header_Set h "Retry-After" (Itoa secs)) "Content-Type" text_type) (BodyText (text_line "rate limited")))
  | GateLoginRedirect => Some (http_Redirect h r (login_url uri) None)
  | GateUnauthorized =>
      Some (answer 401 (Header_Set (Header_Set h "WWW-Authenticate" ("Bearer realm=" +:+ in_quotes "httpcatch"))
                          "Content-Type" text_type) (BodyText (text_line "unauthorized")))
  end.

Definition source_text (s : readSource) : string :=
  match s with
  | readSourceMemory => "memory"
  | readSourceSQLite => "sqlite"
  | readSourceMemorySQLite => "memory+sqlite"
  | readSourceNone => "none"
  end.

Definition scan_header (scan : bool) (h : header) : header :=
  if scan then Header_Set h "X-Httpcatch-Scan" "leading-wildcard-indexed" else h.

(** The headers of the three JSON endpoints; [scan] is whether the query is an
    unindexed scan. *)
Definition inspect_response (h : header) (scan : bool) (a : InspectResponse) : Response :=
  match a with
  | RespFieldError _ => answer (resp_status a) (Header_Set h "Content-Type" json_type) (BodyInspect a)
  | RespReadError => http_Error (scan_header scan (typed h json_type "no-store")) "read error" (resp_status a)
  | RespRoots _ _ _ source =>
      answer (resp_status a) (Header_Set (scan_header scan (typed h json_type "no-store")) "X-Httpcatch-Read-Source" (source_text source))
        (BodyInspect a)
  | _ => answer (resp_status a) (scan_header scan (typed h json_type "no-store")) (BodyInspect a)
  end.

Definition scans (values : header) : bool := IsUnindexedScan (iq_Query (fst (parseInspectQuery values))).

Definition events_response (h : header) (a : EventsAnswer) : Response :=
  match a with
  | EvAccepted => answer (ev_status a) h BodyEmpty
  | EvNoPipeline => http_Error h "events pipeline not configured" (ev_status a)
  | _ => answer (ev_status a) (Header_Set h "Content-Type" json_type) (BodyEvents a)
  end.

Definition list_response (h : header) (a : ListResponse) : Response :=
  match a with
  | ListPage status data => answer status (typed h html_type "no-store") (BodyList data)
  | ListReadError => http_Error h "read error" 500
  end.

Definition detail_response (h : header) (a : DetailResponse) : Response :=
  let h := typed h html_type "no-store" in
  match a with
  | DetailReadError => http_Error h "read error" (detail_status a)
  | _ => answer (detail_status a) h (BodyDetail a)
  end.

Definition config_response (h : header) (page : string) (r : Request) : Response :=
  if String.eqb (Header_Get (rq_Header r) "If-None-Match") (etag_of page) then answer 304 h BodyEmpty
  else answer 200 (Header_Set (typed h html_type "no-cache") "ETag" (etag_of page)) (BodyText page).

(** *** Middleware chain and dispatch *)

Abbreviation outcome := (AdminState * Response)%type.

(** The middlewares around an endpoint, outermost first; [k] is the endpoint. *)
Fixpoint run_chain (srv : Server W) (inp : Inputs W) (req : Request) (chain : list Mw) (h : header) (st : AdminState)
    (k : header -> AdminState -> option outcome) : option outcome :=
  match chain with
  | [] => k h st
  | MwHtmlHeaders :: rest => run_chain srv inp req rest (htmlSecurityHeaders h) st k
  | MwJsonHeaders :: rest => run_chain srv inp req rest (jsonSecurityHeaders h) st k
  | MwCsrf :: rest =>
      let '(same, l) := csrfOriginCheck (as_limiter st) req in
      let st := set_limiter st l in
      if same then run_chain srv inp req rest h st k else Some (st, http_Error h "forbidden" 403)
  | MwAuth cookieAuth :: rest =>
      let '(a, l) := Middleware (ac_Token (sv_cfg srv)) cookieAuth (as_sessions st) (as_limiter st) (in_now inp) req in
      let st := set_limiter st l in
      match gate_response h req (in_uri inp) a with
      | None => run_chain srv inp req rest h st k
      | Some resp => Some (st, resp)
      end
  end.

Definition run_endpoint (srv : Server W) (inp : Inputs W) (req : Request) (id : string) (e : Endpoint) (h : header)
    (st : AdminState) : option outcome :=
  let rs := in_readers inp in
  let values := rq_Query req in
  match e with
  | EpHealthz => Some (st, healthzHandler h)
  | EpMetrics => Some (st, answer 200 h (BodyMetrics (Collect (pr_collector (sv_prom srv)) (in_world inp st))))
  | EpLoginPage => Some (st, loginPageHandler h req)
  | EpLoginPost =>
      let '(a, sessions, l) := loginPostHandler (sv_cfg srv) (as_sessions st) (as_limiter st) (in_now inp) (in_session inp)
                                 req (in_form inp) in
      Some (set_limiter (set_sessions st sessions) l, login_response (sv_cfg srv) h req a)
  | EpLogout =>
      Some (set_sessions st (logoutHandler (as_sessions st) req),
            http_Redirect h req "/login" (Some (session_cookie (sv_cfg srv) "" None (-1))))
  | EpStatic => Some (st, staticHandler (sv_fs srv) (sv_etags srv) h req)
  | EpRoot => Some (st, rootRedirectHandler h req)
  | EpStatus =>
      j ← statusHandler (sv_sources srv) (sv_version srv) (sv_build srv) (in_world inp st);
      Some (st, answer 200 (typed h json_type "no-store") (BodyStatus j))
  | EpRequests => Some (st, inspect_response h (scans values) (requestsHandler rs values))
  | EpAggregate => Some (st, inspect_response h (scans values) (requestsAggregateHandler rs values))
  | EpDetail => Some (st, inspect_response h false (requestDetailHandler rs id))
  | EpUiRequests =>
      Some (st, list_response h (requestListHandler rs (fst (in_page_now inp)) (snd (in_page_now inp)) values))
  | EpUiDetail => Some (st, detail_response h (requestDetailUIHandler rs id))
  | EpUiServices =>
      page ← servicesUIHandler rs (snd (in_page_now inp));
      Some (st, answer 200 (typed h html_type "no-store") (BodyServices page))
  | EpUiConfiguration => Some (st, config_response h (sv_config_page srv) req)
  | EpEvents =>
      r ← eventsHandler (sv_events srv) (in_others inp) (in_draw inp) (in_now inp) (in_length inp) (rq_Body req)
            (as_queue st) (as_events st);
      let '(a, queue, counters, _) := r in
      Some (mkAdminState (as_sessions st) (as_limiter st) queue counters, events_response h a)
  end.

Context `{Chi}.

(** One request through the router. An unknown path or method gets chi's own
    answer, which no middleware of the program touches: [None] for the route. *)
Inductive Served :=
| Unrouted
| Answered (e : Endpoint) (st : AdminState) (resp : Response)
| Panicked (e : Endpoint).

Definition ServeHTTP (srv : Server W) (inp : Inputs W) (st : AdminState) (req : Request) : Served :=
  match chi_route routes req with
  | None => Unrouted
  | Some (ro, id) =>
      match run_chain srv inp req (ro_chain ro) ∅ st (run_endpoint srv inp req id (ro_endpoint ro)) with
      | None => Panicked (ro_endpoint ro)
      | Some (st', resp) => Answered (ro_endpoint ro) st' resp
      end
  end.

End Serve.
