(* ===== verification/AdminServerFacts.v ===== *)
(** * Theorems about the admin port

    What a request can change or see without a credential, the headers of every
    answer, the way back from the login page, the static files. *)
From S2P Require Import Prelude GoLib GoTime Record Json Url Capture Redact Config Auth AuthFacts Events SearchQL SearchSQL.
From S2P Require Import Inspect AdminInspect UiViews Metrics AdminServer.

Open Scope string_scope.

(** ** Headers *)

Lemma Header_Get_Set h k v k' :
  Header_Get (Header_Set h k v) k' =
  if decide (CanonicalMIMEHeaderKey k = CanonicalMIMEHeaderKey k') then v else Header_Get h k'.
Proof.
  unfold Header_Get, Header_Set. case_decide as He.
  - by rewrite <- He, lookup_insert_eq.
  - by rewrite lookup_insert_ne.
Qed.

(** The hardening headers every chain sets; [csp] asks for the content policy of
    the HTML routes as well. *)
Definition hardened (csp : bool) (h : header) : Prop :=
  Header_Get h "X-Content-Type-Options" = "nosniff" /\ Header_Get h "X-Frame-Options" = "DENY" /\
  Header_Get h "Referrer-Policy" = "no-referrer" /\
  (csp = true -> Header_Get h "Content-Security-Policy" = cspHTML).

Definition hardening_key (k : string) : bool :=
  bool_decide (CanonicalMIMEHeaderKey k ∈ CanonicalMIMEHeaderKey <$>
    ["X-Content-Type-Options"; "X-Frame-Options"; "Referrer-Policy"; "Content-Security-Policy"]).

Lemma hardened_Set csp h k v : hardening_key k = false -> hardened csp h -> hardened csp (Header_Set h k v).
Proof.
  unfold hardening_key. rewrite bool_decide_eq_false. intros Hk (H1 & H2 & H3 & H4).
  unfold hardened. rewrite !Header_Get_Set. cbn [fmap list_fmap] in Hk.
  rewrite !decide_False; [done|..]; intros He; apply Hk; rewrite He; set_solver.
Qed.

Lemma hardened_nosniff csp h : hardened csp h -> hardened csp (Header_Set h "X-Content-Type-Options" "nosniff").
Proof.
  intros (H1 & H2 & H3 & H4). unfold hardened. rewrite !Header_Get_Set.
  rewrite decide_True by done. by rewrite !decide_False by by vm_compute.
Qed.

Lemma hardened_html h : hardened true (htmlSecurityHeaders h).
Proof. unfold hardened, htmlSecurityHeaders. rewrite !Header_Get_Set. by vm_compute. Qed.

Lemma hardened_json h : hardened false (jsonSecurityHeaders h).
Proof. unfold hardened, jsonSecurityHeaders. rewrite !Header_Get_Set. by vm_compute. Qed.

(** Every handler adds headers of its own and keeps the hardening ones. *)
Ltac harden :=
  repeat first
    [ assumption
    | apply hardened_nosniff
    | apply hardened_Set; [reflexivity|]
    | progress cbn [rp_header]
    | progress unfold http_NotFound, http_Error, http_Redirect, answer, typed, scan_header
    | match goal with |- hardened _ (rp_header (match ?x with _ => _ end)) => destruct x end
    | match goal with |- hardened _ (match ?x with _ => _ end) => destruct x end ].

Section Admin.
Context `{Unicode} `{MapRange} `{TimeParse} `{TimeFormat} `{JsonDeps} `{WebDeps} `{PageDeps} {W : Type}.
Implicit Types (srv : Server W) (inp : Inputs W) (st : AdminState) (req : Request) (e : Endpoint).

Lemma run_endpoint_hardened srv inp req id e csp h st st' resp : hardened csp h ->
  run_endpoint srv inp req id e h st = Some (st', resp) -> hardened csp (rp_header resp).
Proof.
  intros Hh Hrun. destruct e; cbn in Hrun.
  all: repeat case_step; simplify_option_eq; repeat case_step; simplify_eq.
  all: unfold healthzHandler, loginPageHandler, login_response, staticHandler, inspect_response, list_response,
    detail_response, config_response, events_response; harden.
Qed.

Lemma gate_response_hardened csp h req uri a resp : hardened csp h -> gate_response h req uri a = Some resp ->
  hardened csp (rp_header resp).
Proof. intros Hh Hg. destruct a; cbn in Hg; simplify_eq; harden. Qed.

(** Running a chain from hardened headers. *)
Lemma run_chain_hardened srv inp req chain csp h st k st' resp : hardened csp h ->
  (forall m, m ∈ chain -> match m with MwCsrf | MwAuth _ => True | _ => False end) ->
  (forall h st, hardened csp h -> k h st = Some (st', resp) -> hardened csp (rp_header resp)) ->
  run_chain srv inp req chain h st k = Some (st', resp) -> hardened csp (rp_header resp).
Proof.
  intros Hh Hchain Hk. revert st. induction chain as [|m chain IH]; intros st Hrun; [by eapply Hk|].
  assert (Hrest : forall m, m ∈ chain -> match m with MwCsrf | MwAuth _ => True | _ => False end)
    by (intros; apply Hchain; by right).
  specialize (Hchain m ltac:(left)). destruct m; try done; cbn in Hrun; repeat case_step; simplify_eq; eauto.
  - harden.
  - by eapply gate_response_hardened.
Qed.

Definition html_endpoint (e : Endpoint) : bool :=
  match e with EpHealthz | EpMetrics | EpStatic | EpEvents => false | _ => true end.

(** The chain of a route, by its endpoint. *)
Definition chain_of (e : Endpoint) : list Mw :=
  match e with
  | EpHealthz | EpMetrics | EpStatic => [MwJsonHeaders]
  | EpLoginPage => [MwHtmlHeaders]
  | EpLoginPost | EpLogout => [MwHtmlHeaders; MwCsrf]
  | EpEvents => [MwJsonHeaders; MwAuth false]
  | _ => [MwHtmlHeaders; MwAuth true]
  end.

Lemma route_chain ro : ro ∈ routes -> ro_chain ro = chain_of (ro_endpoint ro).
Proof. revert ro. apply Forall_forall. by repeat constructor. Qed.

Lemma run_chain_html srv inp req chain h st k :
  run_chain srv inp req (MwHtmlHeaders :: chain) h st k = run_chain srv inp req chain (htmlSecurityHeaders h) st k.
Proof. done. Qed.

Lemma run_chain_json srv inp req chain h st k :
  run_chain srv inp req (MwJsonHeaders :: chain) h st k = run_chain srv inp req chain (jsonSecurityHeaders h) st k.
Proof. done. Qed.

(** The chain of a request that got an answer, run by hand. *)
Lemma ServeHTTP_answered `{ChiLaws} srv inp st req e st' resp :
  ServeHTTP srv inp st req = Answered e st' resp ->
  exists id, run_chain srv inp req (chain_of e) ∅ st (run_endpoint srv inp req id e) = Some (st', resp).
Proof.
  unfold ServeHTTP. intros Hs. destruct (chi_route routes req) as [[ro id]|] eqn:Hro; [|done].
  apply chi_registered in Hro as [Hro _]. rewrite (route_chain _ Hro) in Hs.
  exists id. by repeat case_step; simplify_eq.
Qed.

(** C35. Every answer of a route of the admin port, refusals and errors included,
    carries the hardening headers, and on the routes that render HTML the
    content policy; no handler overwrites them. *)
Theorem answers_hardened `{ChiLaws} srv inp st req e st' resp :
  ServeHTTP srv inp st req = Answered e st' resp -> hardened (html_endpoint e) (rp_header resp).
Proof.
  intros (id & Hrun)%ServeHTTP_answered.
  assert (Hk : forall h st, hardened (html_endpoint e) h ->
    run_endpoint srv inp req id e h st = Some (st', resp) -> hardened (html_endpoint e) (rp_header resp))
    by (intros; by eapply run_endpoint_hardened).
  revert Hrun Hk. generalize (run_endpoint srv inp req id e). intros k Hrun Hk.
  destruct e; cbn [chain_of] in Hrun; rewrite ?run_chain_html, ?run_chain_json in Hrun;
    (eapply run_chain_hardened; [apply hardened_json || apply hardened_html| |exact Hk|exact Hrun]);
    apply Forall_forall; by repeat constructor.
Qed.

(** ** Credentials *)

(** Routes behind the gate. *)
Definition private (e : Endpoint) : bool :=
  match e with EpHealthz | EpMetrics | EpLoginPage | EpLoginPost | EpLogout | EpStatic => false | _ => true end.

(** The address is not locked out and the request carries the token or, except
    on the events endpoint, a live session. *)
Definition admitted srv inp st req e : Prop :=
  (Allowed (as_limiter st) (in_now inp) (ClientIP (rq_RemoteAddr req))).1 = true /\
  (bearer_ok (ac_Token (sv_cfg srv)) req \/
   (e <> EpEvents /\ cookie_ok (as_sessions st) (in_now inp) req)).

(** A refusal: nothing but the status, a fixed text or the way to the login page. *)
Definition refusal inp (resp : Response) : Prop :=
  (rp_status resp = 429%Z /\ rp_body resp = BodyText (text_line "rate limited")) \/
  (rp_status resp = 401%Z /\ rp_body resp = BodyText (text_line "unauthorized")) \/
  (rp_status resp = 303%Z /\ rp_redirect resp = Some (login_url (in_uri inp)) /\
   (rp_body resp = BodyEmpty \/ rp_body resp = BodyText (link_page (redirect_address (login_url (in_uri inp)))))).

Definition same_store (st st' : AdminState) : Prop :=
  as_sessions st' = as_sessions st /\ as_queue st' = as_queue st /\ as_events st' = as_events st.

Lemma gate_response_refusal inp h req a resp : gate_response h req (in_uri inp) a = Some resp -> refusal inp resp.
Proof.
  unfold refusal. destruct a; cbn [gate_response]; intros; simplify_eq; cbn; auto.
  do 2 right. split_and!; [done..|]. case_match; auto.
Qed.

(** A private route either lets an admitted request through or refuses. *)
Lemma gate_chain srv inp req h st k e cookieAuth st' resp : cookieAuth = negb (bool_decide (e = EpEvents)) ->
  run_chain srv inp req [MwAuth cookieAuth] h st k = Some (st', resp) ->
  (admitted srv inp st req e /\ exists l, k h (set_limiter st l) = Some (st', resp)) \/
  (refusal inp resp /\ same_store st st').
Proof.
  intros -> Hrun. cbn in Hrun.
  pose proof (Middleware_gate (ac_Token (sv_cfg srv)) (negb (bool_decide (e = EpEvents))) (as_sessions st)
    (as_limiter st) (in_now inp) req) as Hgate. cbv zeta in Hgate.
  destruct (Middleware _ _ _ _ _ _) as [a l] eqn:Hm. unfold admitted.
  destruct (Allowed _ _ _) as [allowed l1]. destruct Hgate as (Hnext & _).
  destruct (gate_response h req (in_uri inp) a) as [resp'|] eqn:Hg; simplify_eq.
  - right. split; [by eapply gate_response_refusal|done].
  - left. assert (a = GateNext) as -> by (by destruct a). destruct Hnext as [Hnext _].
    destruct (Hnext eq_refl) as [? Hc]. split; [|by eexists]. split; [done|].
    rewrite negb_true_iff, bool_decide_eq_false in Hc. done.
Qed.

(** What an endpoint other than its own leaves alone. *)
Lemma run_endpoint_store srv inp req id e h st st' resp : run_endpoint srv inp req id e h st = Some (st', resp) ->
  (e <> EpEvents -> as_queue st' = as_queue st /\ as_events st' = as_events st) /\
  (e <> EpLoginPost -> e <> EpLogout -> as_sessions st' = as_sessions st).
Proof.
  intros Hrun. destruct e; cbn in Hrun; repeat case_step; simplify_option_eq; repeat case_step; simplify_eq; done.
Qed.

Lemma login_sessions cfg store l now draw r form a store' l' :
  loginPostHandler cfg store l now draw r form = (a, store', l') ->
  store' = store \/ (lf_token form = ac_Token cfg /\ ac_Token cfg <> "").
Proof.
  unfold loginPostHandler, checkBearer. intros Hl. repeat case_step; simplify_eq; bool_hyps; auto; try (by left).
  all: repeat case_step; simplify_eq; bool_hyps; auto; by left.
Qed.

(** The two routes that change sessions, behind the origin check. *)
Lemma csrf_chain srv inp req h st k st' resp :
  run_chain srv inp req [MwCsrf] h st k = Some (st', resp) ->
  (isSameOrigin req = true /\ k h st = Some (st', resp)) \/ same_store st st'.
Proof.
  cbn. unfold csrfOriginCheck. destruct (isSameOrigin req) eqn:Ho; cbn; intros Hrun; simplify_eq; [left|by right].
  split; [done|]. by destruct st.
Qed.

(** A private route: the endpoint runs for an admitted request only. *)
Lemma private_served srv inp st req id e st' resp : private e = true ->
  run_chain srv inp req (chain_of e) ∅ st (run_endpoint srv inp req id e) = Some (st', resp) ->
  (admitted srv inp st req e /\ exists h l, run_endpoint srv inp req id e h (set_limiter st l) = Some (st', resp)) \/
  (refusal inp resp /\ same_store st st').
Proof.
  intros He Hrun. destruct e; try done; cbn [chain_of] in Hrun; rewrite ?run_chain_html, ?run_chain_json in Hrun;
    (eapply gate_chain in Hrun as [(Ha & l & Hk)|Hr]; [left; eauto|by right|reflexivity]).
Qed.

(** A public route: the endpoint runs, login and logout from the same origin. *)
Lemma public_served srv inp st req id e st' resp : private e = false ->
  run_chain srv inp req (chain_of e) ∅ st (run_endpoint srv inp req id e) = Some (st', resp) ->
  (exists h, (e = EpLoginPost \/ e = EpLogout -> isSameOrigin req = true) /\
     run_endpoint srv inp req id e h st = Some (st', resp)) \/ same_store st st'.
Proof.
  intros He Hrun. destruct e; try done; cbn [chain_of] in Hrun; rewrite ?run_chain_html, ?run_chain_json in Hrun;
    try (left; eexists; split; [intros [?|?]; done|exact Hrun]);
    (apply csrf_chain in Hrun as [[Ho Hk]|Hs]; [left; eexists; split; [intros _; done|exact Hk]|by right]).
Qed.

(** C33. Without a credential the admin port gives away and changes nothing. A
    private route answers a request only if its address is not locked out and it
    carries the configured token or a live session (the events endpoint: the
    token); otherwise the answer is a bare refusal and sessions, queue and event
    counters stay as they were. The queue and its counters change only through
    the events endpoint with the token. Sessions change only from the same
    origin, by logging out or by logging in with the token. *)
Theorem admin_gate `{ChiLaws} srv inp st req e st' resp :
  ServeHTTP srv inp st req = Answered e st' resp ->
  (private e = true -> admitted srv inp st req e \/ (refusal inp resp /\ same_store st st')) /\
  (as_queue st' <> as_queue st \/ as_events st' <> as_events st ->
     e = EpEvents /\ admitted srv inp st req EpEvents /\ bearer_ok (ac_Token (sv_cfg srv)) req) /\
  (as_sessions st' <> as_sessions st ->
     isSameOrigin req = true /\
     (e = EpLogout \/
      (e = EpLoginPost /\ lf_token (in_form inp) = ac_Token (sv_cfg srv) /\ ac_Token (sv_cfg srv) <> ""))).
Proof.
  intros (id & Hrun)%ServeHTTP_answered.
  destruct (private e) eqn:He.
  - destruct (private_served _ _ _ _ _ _ _ _ He Hrun) as [(Ha & h & l & Hk)|[Hr Hs]];
      [|split; [by right|]; destruct Hs as (-> & -> & ->); split; [intros [?|?]|]; done].
    apply run_endpoint_store in Hk as [Hq Hsess]. cbn in Hq, Hsess. split_and!.
    + by left.
    + intros Hch. destruct (decide (e = EpEvents)) as [->|Hne]; [|destruct (Hq Hne); naive_solver].
      destruct Ha as [Hal [Hb|[? _]]]; [|done]. split_and!; [done|split; [done|by left]|done].
    + intros Hch. exfalso. apply Hch, Hsess; by intros ->.
  - destruct (public_served _ _ _ _ _ _ _ _ He Hrun) as [(h & Ho & Hk)|Hs];
      [|split; [done|]; destruct Hs as (-> & -> & ->); split; [intros [?|?]|]; done].
    pose proof (run_endpoint_store _ _ _ _ _ _ _ _ _ Hk) as [Hq Hsess]. split_and!; [done| |].
    + intros Hch. assert (Hne : e <> EpEvents) by (by intros ->). destruct (Hq Hne). naive_solver.
    + intros Hch. destruct (decide (e = EpLogout)) as [->|Hlo]; [split; [apply Ho|]; by auto|].
      destruct (decide (e = EpLoginPost)) as [->|Hli]; [|by rewrite Hsess in Hch by done].
      split; [apply Ho; by auto|]. right. split; [done|]. cbn in Hk.
      destruct (loginPostHandler _ _ _ _ _ _ _) as [[a s] l] eqn:Hl. simplify_eq. cbn in Hch.
      apply login_sessions in Hl as [Hl|Hl]; done.
Qed.

(** ** Routes with a fixed path *)

Lemma routes_distinct ro ro' : ro ∈ routes -> ro' ∈ routes -> ro_method ro' = ro_method ro ->
  ro_pattern ro' = ro_pattern ro -> ro' = ro.
Proof.
  assert (Hnd : NoDup ((fun ro => (ro_method ro, ro_pattern ro)) <$> routes)) by (apply (bool_decide_unpack _); by vm_compute).
  intros [i Hi]%list_elem_of_lookup [j Hj]%list_elem_of_lookup Hm Hp.
  enough (i = j) by (subst; congruence).
  eapply (NoDup_lookup _ _ _ (ro_method ro, ro_pattern ro)); [exact Hnd|..].
  - by rewrite list_lookup_fmap, Hi.
  - rewrite list_lookup_fmap, Hj. cbn. by rewrite Hm, Hp.
Qed.

(** A request for a fixed path runs the chain of its endpoint. *)
Lemma serve_literal `{ChiLaws} srv inp st req ro : ro ∈ routes -> literal (ro_pattern ro) = true ->
  ro_method ro = rq_Method req -> ro_pattern ro = routePath req ->
  exists id, ServeHTTP srv inp st req =
    match run_chain srv inp req (chain_of (ro_endpoint ro)) ∅ st (run_endpoint srv inp req id (ro_endpoint ro)) with
    | None => Panicked (ro_endpoint ro)
    | Some (st', resp) => Answered (ro_endpoint ro) st' resp
    end.
Proof.
  intros Hro Hlit Hm Hp. destruct (chi_literal routes req ro) as [id Hid]; [done..|by intros; apply routes_distinct|].
  exists id. unfold ServeHTTP. by rewrite Hid, (route_chain _ Hro).
Qed.

(** The probe of a load balancer is answered in every state, locked out or not. *)
Lemma healthz_always `{ChiLaws} srv inp st req : rq_Method req = "GET" -> routePath req = "/healthz" ->
  exists resp, ServeHTTP srv inp st req = Answered EpHealthz st resp /\
    rp_status resp = 200%Z /\ rp_body resp = BodyText "ok".
Proof.
  intros Hm Hp. destruct (serve_literal srv inp st req (mkRoute "GET" "/healthz" [MwJsonHeaders] EpHealthz)) as [id ->];
    [by left|done..|]. by eexists.
Qed.

(** ** The way to the login page and back *)

Lemma login_query uri : ParseQuery ("next=" +:+ QueryEscape uri) = {["next" := [uri]]}.
Proof.
  change ("next=" +:+ QueryEscape uri) with (encode_pair "next" uri). unfold ParseQuery.
  rewrite Split_single by (by apply encode_pair_no_byte). cbn [foldl]. by rewrite parse_part_pair.
Qed.

(** C34. The way through the login page. Following the redirect of a refused
    browser opens a login page whose form holds the address it asked for; when
    that form is posted from the same origin with the configured token, and the
    client is not locked out, the answer sets a session cookie, sends the
    browser back to that address (with its path cleaned, as net/http does it),
    and a request with the cookie is
    authenticated until the session expires. *)
Theorem login_flow `{ChiLaws} srv inp st page post uri query sid :
  isSafePath uri = true -> login_url uri = "/login?" +:+ query ->
  rq_Method page = "GET" -> routePath page = "/login" -> rq_Query page = ParseQuery query ->
  rq_Method post = "POST" -> routePath post = "/auth/login" -> isSameOrigin post = true ->
  ac_Token (sv_cfg srv) <> "" -> in_form inp = mkLoginForm false (ac_Token (sv_cfg srv)) uri ->
  in_session inp = Some sid ->
  (Allowed (as_limiter st) (in_now inp) (ClientIP (rq_RemoteAddr post))).1 = true ->
  let expires := (in_now inp + ac_SessionTTL (sv_cfg srv))%Z in
  (exists resp, ServeHTTP srv inp st page = Answered EpLoginPage st resp /\ rp_status resp = 200%Z /\
     rp_body resp = BodyLogin uri false) /\
  (exists st' resp cookie, ServeHTTP srv inp st post = Answered EpLoginPost st' resp /\ rp_status resp = 303%Z /\
     rp_redirect resp = Some uri /\
     Header_Get (rp_header resp) "Location" = hexEscapeNonASCII (redirect_address uri) /\
     rp_cookie resp = Some cookie /\
     sk_CookieName cookie = sessionCookieName /\ sk_Value cookie = sid /\ sk_HttpOnly cookie = true /\
     sk_Secure cookie = ac_SessionSecure (sv_cfg srv) /\
     forall req now, request_cookie req sessionCookieName = Some sid -> (now < expires)%Z ->
       authenticate req (ac_Token (sv_cfg srv)) (as_sessions st') now true = true).
Proof.
  intros Hsafe Hurl Hm1 Hp1 Hq Hm2 Hp2 Ho Htok Hform Hsid Hal expires. split.
  - assert (query = "next=" +:+ QueryEscape uri) as -> by (by unfold login_url in Hurl; cbn in Hurl; simplify_eq).
    destruct (serve_literal srv inp st page (mkRoute "GET" "/login" [MwHtmlHeaders] EpLoginPage)) as [id ->];
      [do 2 right; left|done..|]. eexists. split; [reflexivity|]. split; [done|].
    cbn [answer rp_body]. unfold loginPageHandler. rewrite Hq, login_query. unfold Values_Get.
    rewrite lookup_singleton_eq, lookup_singleton_ne by done. cbn. by rewrite Hsafe.
  - destruct (serve_literal srv inp st post (mkRoute "POST" "/auth/login" [MwHtmlHeaders; MwCsrf] EpLoginPost))
      as [id ->]; [do 3 right; left|done..|].
    cbn [chain_of ro_endpoint]. rewrite run_chain_html. cbn [run_chain]. unfold csrfOriginCheck. rewrite Ho. cbn [negb].
    cbn [run_endpoint]. unfold loginPostHandler. cbn [as_limiter as_sessions set_limiter].
    destruct (Allowed (as_limiter st) (in_now inp) (ClientIP (rq_RemoteAddr post))) as [allowed l]. cbn in Hal. subst.
    rewrite Hform. cbn [negb lf_bad lf_token lf_next]. unfold checkBearer.
    rewrite (proj2 (String.eqb_neq _ _)) by done. rewrite String.eqb_refl. cbn [negb].
    rewrite Hsid. cbn [Create]. rewrite Hsafe. eexists _, _, _. split; [reflexivity|].
    split_and!; [done|done|by cbn [login_response http_Redirect rp_header]; rewrite Hm2, andb_false_r, Header_Get_Set|done..|].
    intros req now Hc Hnow. unfold authenticate. destruct (_ && _)%bool; [done|]. rewrite Hc.
    cbn. unfold Validate. rewrite lookup_insert_eq. unfold After. cbn. by apply Z.ltb_lt.
Qed.

(** ** Static files *)

Lemma static_served fsys h req data : rp_status (staticHandler fsys (buildEtags fsys) h req) = 200%Z ->
  rp_body (staticHandler fsys (buildEtags fsys) h req) = BodyText data ->
  exists name ct, (rq_Path req = "/static/" +:+ name \/ rq_Path req = name) /\ Contains name "/" = false /\
    allowedExtensions !! Ext name = Some ct /\ ("ui/" +:+ name, Some data) ∈ fsys.
Proof.
  unfold staticHandler. set (name := match strip_prefix _ _ with Some t => t | None => _ end).
  destruct (_ || _)%bool eqn:Hn; [done|]. apply orb_false_iff in Hn as [_ Hn].
  destruct (allowedExtensions !! Ext name) as [ct|] eqn:Hct; [|done].
  destruct (buildEtags fsys !! _); [|done]. destruct (String.eqb _ _); [done|].
  destruct (ReadFile fsys ("ui/" +:+ name)) as [d|] eqn:Hread; [|done]. cbn. intros _ [= <-].
  exists name, ct. split_and!; [|done..|].
  - subst name. destruct (strip_prefix "/static/" (rq_Path req)) eqn:Hs; [|by right].
    left. revert Hs. unfold strip_prefix. case_match eqn:Hp; [|done]. intros [= <-].
    apply HasPrefix_spec in Hp as [rest ->]. by symmetry; f_equal.
  - unfold ReadFile in Hread. destruct (List.find _ fsys) as [[p o]|] eqn:Hf; [|done]. cbn in Hread. subst o.
    apply find_some in Hf as [Hin He]. cbn in He. apply String.eqb_eq in He as ->. by apply list_elem_of_In.
Qed.

End Admin.

(** ** Witnesses *)

(** A router: fixed paths first, then patterns by their fixed beginning. *)
Definition pattern_prefix (p : string) : string := before_byte (before_byte p "{") "*".

Definition exact_chi : Chi := {|
  chi_route rs req :=
    match List.find (fun ro => literal (ro_pattern ro) && String.eqb (ro_method ro) (rq_Method req)
                                 && String.eqb (ro_pattern ro) (rq_Path req))%bool rs with
    | Some ro => Some (ro, "")
    | None =>
        ro ← List.find (fun ro => negb (literal (ro_pattern ro)) && String.eqb (ro_method ro) (rq_Method req)
                                    && HasPrefix (rq_Path req) (pattern_prefix (ro_pattern ro)))%bool rs;
        Some (ro, str_drop (String.length (pattern_prefix (ro_pattern ro))) (rq_Path req))
    end;
  routePath := rq_Path
|}.

Lemma exact_chi_laws : @ChiLaws exact_chi.
Proof.
  split.
  - intros rs req ro id. cbn. destruct (List.find _ rs) as [ro'|] eqn:Hf.
    + intros [= <- <-]. apply find_some in Hf as [Hin Hb]. bool_hyps. split; [by apply list_elem_of_In|done].
    + destruct (List.find _ rs) as [ro'|] eqn:Hf' in |- *; cbn; [|done].
      intros [= <- <-]. apply find_some in Hf' as [Hin Hb]. bool_hyps. split; [by apply list_elem_of_In|done].
  - intros rs req ro Hin Hlit Hm Hp Huniq. cbn in *. destruct (List.find _ rs) as [ro'|] eqn:Hf.
    + apply find_some in Hf as [Hin' Hb]. bool_hyps.
      rewrite (Huniq ro'); [by eexists|by apply list_elem_of_In|congruence..].
    + exfalso. apply find_none with (x := ro) in Hf; [|by apply list_elem_of_In].
      by rewrite Hlit, Hm, Hp, !String.eqb_refl in Hf.
Qed.

Module Sample.
#[local] Existing Instances ascii_unicode sorted_range exact_chi exact_chi_laws.

#[local] Instance parse : TimeParse := {| parse_rfc3339 _ := None |}.
#[local] Instance format : TimeFormat := {| FormatRFC3339Nano := Itoa |}.
#[local] Instance payloads : JsonDeps := {|
  unmarshal_response _ := None; unmarshal_outbound _ := None; unmarshal_array _ := None |}.
#[local] Instance web : WebDeps := {|
  url_Parse_Host _ := None; uni_EqualFold := String.eqb; parse_ip_loopback h := Some (String.eqb h "127.0.0.1") |}.
#[local] Instance pages : PageDeps := {|
  yaml_Encode cfg := Some ""; configurationTmpl markup _ := Some markup; sha256_Sum256 body := str_take 32 body |}.

Definition cfg : AdminConfig := mkAdminConfig "127.0.0.1:8081" "secret" false (3600 * second)%Z true.
Definition sources : MetricSources unit :=
  mkMetricSources None None None None None None None None None None None None None None None None None None None None
    None None None None None None None.
Definition srv : Server unit :=
  mkServer cfg (cfg_Timeouts (Defaults 1)) (normalize sources) (Prom_New (promSources (normalize sources) "dev" "unknown"))
    (mkEventsOptions 0 0 0) "" [] ∅ "dev" "unknown".
Definition st : AdminState := NewState (Some (NewQueue 4)).
Definition request (method path : string) (h : header) : Request :=
  mkRequest method path (ParseQuery "next=%2Fui%2Frequests%3Fq%3Dx") h "admin:8081" "192.0.2.1:4711" [] (mkBody "" false).
Definition uri : string := "/ui/requests?q=x".
Definition inp : Inputs unit :=
  mkInputs unit (1000 * second)%Z (0, 0)%Z (Some "id-1") (mkLoginForm false "secret" uri) uri
    (mkReadSources None None) (fun _ => mkDraw 0%Z "" "") 0 (fun _ q => q) (fun _ => tt).

Lemma admin_gate_witness : exists e st' resp,
  ServeHTTP srv inp st (request "GET" "/status" ∅) = Answered e st' resp /\ rp_status resp = 401%Z /\
  (admitted srv inp st (request "GET" "/status" ∅) e \/ (refusal inp resp /\ same_store st st')).
Proof.
  destruct (ServeHTTP srv inp st (request "GET" "/status" ∅)) as [|e st' resp|e] eqn:E;
    [by vm_compute in E| |by vm_compute in E].
  exists e, st', resp. split; [done|].
  assert (rp_status resp = 401%Z /\ private e = true) as [? He] by (vm_compute in E; injection E as <- _ <-; done).
  split; [done|]. by apply (admin_gate srv inp st (request "GET" "/status" ∅) e st' resp E).
Defined.

Lemma answers_hardened_witness : exists st' resp,
  ServeHTTP srv inp st (request "GET" "/ui/requests" {["Accept" := ["text/html"]]}) = Answered EpUiRequests st' resp /\
  hardened true (rp_header resp).
Proof.
  destruct (ServeHTTP srv inp st (request "GET" "/ui/requests" {["Accept" := ["text/html"]]})) as [|e st' resp|e] eqn:E;
    [by vm_compute in E| |by vm_compute in E].
  assert (e = EpUiRequests) as -> by (vm_compute in E; by injection E as <- _ _).
  exists st', resp. split; [done|]. exact (answers_hardened srv inp st _ EpUiRequests st' resp E).
Defined.

Lemma login_flow_witness : exists resp,
  ServeHTTP srv inp st (request "GET" "/login" ∅) = Answered EpLoginPage st resp /\ rp_body resp = BodyLogin uri false.
Proof.
  destruct (login_flow srv inp st (request "GET" "/login" ∅) (request "POST" "/auth/login" ∅) uri
    ("next=" +:+ QueryEscape uri) "id-1") as [(resp & Hr & _ & Hb) _]; [by vm_compute..|].
  by exists resp.
Defined.
End Sample.
