(* ===== verification/App.v ===== *)
(** * app/app.go: putting the program together

    [Build] wires the components; opening the SQLite store goes through the
    environment of [SqliteOpen]. What the metrics and the status page read is a
    function of the process state [Live]. *)
From S2P Require Import Prelude GoLib GoTime Record Json Url Capture Pipeline Redact Config Auth Events.
From S2P Require Import SearchQL SearchSQL Inspect MemorySink MemoryReader AdminInspect AdminInspectFacts Sqlite SqliteOpen SqliteReader.
From S2P Require Import Stdout UiViews Metrics AdminServer.

Open Scope string_scope.

(** ** The state the accessors read *)

Record Live := mkLive {
  lv_pool : Pool;
  lv_redactionErrors : Z;
  lv_events : EventsCounters;
  lv_limiter : AuthLimiter;
  lv_memory : MemorySink;
  lv_db : Database
}.

(** *** Exported totals of counters.go, queue.go, events_counters.go and the rest *)

Definition CapturedTotal (w : Live) : Z := cn_captured (pl_counters (lv_pool w)).
Definition CaptureErrorsTotal (w : Live) : Z := cn_bodyReadErrors (pl_counters (lv_pool w)).
Definition CapturedWithoutCorrelationTotal (w : Live) : Z := cn_withoutCorrelation (pl_counters (lv_pool w)).
Definition CapturedWithoutServiceTotal (w : Live) : Z := cn_withoutService (pl_counters (lv_pool w)).
Definition DroppedTotal (w : Live) : Z := qu_dropped (pl_queue (lv_pool w)).
Definition PanicsCount (w : Live) : Z := pl_panics (lv_pool w).
Definition RedactionErrorsTotal (w : Live) : Z := lv_redactionErrors w.
Definition EventsIngestedResponseTotal (w : Live) : Z := ec_ingestedResponse (lv_events w).
Definition EventsIngestedOutboundTotal (w : Live) : Z := ec_ingestedOutbound (lv_events w).
Definition EventsRejectedTotal (reason : RejectReason) (w : Live) : Z := ec_rejected (lv_events w) reason.
Definition EventsDroppedQueueFullTotal (w : Live) : Z := ec_droppedQueueFull (lv_events w).
Definition MemoryErrorsTotal (w : Live) : Z := se_memory (pl_errors (lv_pool w)).
Definition SQLiteErrorsTotal (w : Live) : Z := se_sqlite (pl_errors (lv_pool w)).
Definition StdoutErrorsTotal (w : Live) : Z := se_stdout (pl_errors (lv_pool w)).

Section App.
Context `{Unicode} `{MapRange} `{RedactDeps} `{TimeJSON} `{WebDeps} `{PageDeps} `{Target} (E : Engine).

(** ** Build *)

Inductive BuildError := BuildSQLite (e : OpenError) | BuildRuleset (e : RulesetError) | BuildAdmin (e : BindError).

Record App := mkApp {
  app_Cfg : Config;
  app_Pool : Pool;
  app_Handler : HandlerOptions;
  app_Memory : option MemorySink;
  app_SQLite : bool;
  app_Ruleset : Ruleset;
  app_Admin : Server Live
}.

Definition stdout_sink (w : Writer) : Sink :=
  mkSink "stdout" (fun log r => match snd (Stdout_Write w (write_all w NewWriterSink log) r) with
                                | Some _ => WriteErr
                                | None => WriteOk
                                end) [].

Definition memory_sink : Sink := mkSink "memory" (fun _ _ => WriteOk) [].

(** The accessors of the orphan gauges: memory if there is one, else SQLite,
    whose errors read as zero. *)
Definition orphan_source (mem sqlite : bool) (pick : Z * Z -> Z) : option (Live -> Z) :=
  if mem then Some (fun w => let '(r, o) := OrphanCounts (lv_memory w) in pick (Z.of_nat r, Z.of_nat o))
  else if sqlite then
    Some (fun w => match SQLite_OrphanCounts E (lv_db w) with Ok counts => pick counts | Err _ => 0%Z end)
  else None.

Definition build_sources (mem sqlite : bool) (ruleset : Ruleset) : MetricSources Live := {|
  mt_CapturedTotal := Some CapturedTotal;
  mt_DroppedTotal := Some DroppedTotal;
  mt_CaptureErrorsTotal := Some CaptureErrorsTotal;
  mt_CapturedWithoutCorrelationTotal := Some CapturedWithoutCorrelationTotal;
  mt_CapturedWithoutServiceTotal := Some CapturedWithoutServiceTotal;
  mt_RedactionErrorsTotal := Some RedactionErrorsTotal;
  mt_WorkerPanicsTotal := Some PanicsCount;
  mt_Unredacted := Some (fun _ => IsUnredacted ruleset);
  mt_EventsIngestedResponseTotal := Some EventsIngestedResponseTotal;
  mt_EventsIngestedOutboundTotal := Some EventsIngestedOutboundTotal;
  mt_EventsRejectedInvalidJSONTotal := Some (EventsRejectedTotal RejectReasonInvalidJSON);
  mt_EventsRejectedPayloadTooLargeTotal := Some (EventsRejectedTotal RejectReasonPayloadTooLarge);
  mt_EventsRejectedUnknownTypeTotal := Some (EventsRejectedTotal RejectReasonUnknownType);
  mt_EventsRejectedMissingTypeTotal := Some (EventsRejectedTotal RejectReasonMissingType);
  mt_EventsRejectedMissingRequiredFieldTotal := Some (EventsRejectedTotal RejectReasonMissingRequiredField);
  mt_EventsRejectedEmptyBatchTotal := Some (EventsRejectedTotal RejectReasonEmptyBatch);
  mt_EventsRejectedBatchTooLargeTotal := Some (EventsRejectedTotal RejectReasonBatchTooLarge);
  mt_EventsRejectedBodyTooLargeTotal := Some (EventsRejectedTotal RejectReasonBodyTooLarge);
  mt_EventsDroppedQueueFullTotal := Some EventsDroppedQueueFullTotal;
  mt_OrphansResponse := orphan_source mem sqlite fst;
  mt_OrphansOutbound := orphan_source mem sqlite snd;
  mt_AuthFailuresInvalidTokenTotal := None;
  mt_AuthFailuresRateLimitedTotal := None;
  mt_AuthFailuresCSRFBlockedTotal := None;
  mt_SinkWriteErrorsMemoryTotal := Some MemoryErrorsTotal;
  mt_SinkWriteErrorsSQLiteTotal := Some SQLiteErrorsTotal;
  mt_SinkWriteErrorsStdoutTotal := Some StdoutErrorsTotal
|}.

(** What [Build] takes from outside: the writer behind stdout, what writing to
    the SQLite store answers, sinks added by the caller, the embedded files, the
    linked version, and the state at that moment. *)
Record BuildEnv := mkBuildEnv {
  be_stdout : Writer;
  be_sqliteWrite : list CRecord -> CRecord -> WriteResult;
  be_extraSinks : list Sink;
  be_fs : FS;
  be_version : string;
  be_build : string;
  be_live : Live
}.

Definition build_sinks (be : BuildEnv) (cfg : Config) : list Sink :=
  let s := cfg_Sinks cfg in
  ((if sc_Stdout s then [stdout_sink (be_stdout be)] else []) ++
   (if sc_Memory s then [memory_sink] else []) ++
   (if sc_SQLite s then [mkSink NameSQLite (be_sqliteWrite be) []] else []) ++ be_extraSinks be)%list.

(** Everything after the stores: [None] is the panic of a page that cannot be
    rendered. *)
Definition build_rest (be : BuildEnv) (cfg : Config) : option (result BuildError App) :=
  let s := cfg_Sinks cfg in
  match NewRuleset (cfg_Redaction cfg) with
  | Err e => Some (Err (BuildRuleset e))
  | Ok ruleset =>
      let mem := if sc_Memory s then Some (NewMemorySink (sc_MemoryCapacity s)) else None in
      srv ← New (cfg_Admin cfg) (build_sources (sc_Memory s) (sc_SQLite s) ruleset) lv_limiter
              (mkEventsOptions (cfg_BodyCap cfg) (cfg_MaxEventsPayload cfg) (cfg_MaxEventsPerBatch cfg))
              cfg (be_fs be) (be_version be) (be_build be) (be_live be);
      Some (match srv with
            | Err e => Err (BuildAdmin e)
            | Ok srv =>
                Ok (mkApp cfg (NewPool (cfg_Workers cfg) (cfg_QueueSize cfg) (build_sinks be cfg))
                      (mkHandlerOptions (cfg_ServiceHeader cfg) (cfg_BodyCap cfg)) mem (sc_SQLite s) ruleset srv)
            end)
  end.

Definition Build (be : BuildEnv) (cfg : Config) : prog (option (result BuildError App)) :=
  if sc_SQLite (cfg_Sinks cfg) then
    run! opened <- NewSQLiteSink (sc_SQLitePath (cfg_Sinks cfg));
    match opened with
    | Err e => ret (Some (Err (BuildSQLite e)))
    | Ok _ => ret (build_rest be cfg)
    end
  else ret (build_rest be cfg).

(** The readers over the current stores. *)
Definition app_readers (a : App) (w : Live) : ReadSources :=
  mkReadSources (match app_Memory a with Some _ => Some (memory_reader (lv_memory w)) | None => None end)
    (if app_SQLite a then Some (sqlite_reader E (lv_db w)) else None).

(** ** EmitStartupWarnings *)

Inductive Warning :=
| ZeroSinksWarning | UnredactedWarning | UnboundedBodyCapWarning | UnboundedEventsPayloadWarning
| UnboundedEventsBatchWarning | PlaintextSessionCookieWarning.

Definition warn_if (b : bool) (w : Warning) : list Warning := if b then [w] else [].

Definition EmitStartupWarnings (a : App) : list Warning :=
  let cfg := app_Cfg a in
  let admin := cfg_Admin cfg in
  (warn_if (length (pl_sinks (app_Pool a)) =? 0)%nat ZeroSinksWarning ++
   warn_if (IsUnredacted (app_Ruleset a)) UnredactedWarning ++
   warn_if (cfg_BodyCap cfg =? 0)%Z UnboundedBodyCapWarning ++
   warn_if (cfg_MaxEventsPayload cfg =? 0)%Z UnboundedEventsPayloadWarning ++
   warn_if (cfg_MaxEventsPerBatch cfg =? 0)%Z UnboundedEventsBatchWarning ++
   warn_if (match Guard (ac_Bind admin) (negb (String.eqb (ac_Token admin) "")) (ac_InsecureListen admin) with
            | Ok ReasonTokenConfigured => negb (ac_SessionSecure admin)
            | _ => false
            end) PlaintextSessionCookieWarning)%list.

(** ** What Serve starts *)

(** The sweeper that is started with the store, if any. *)
Definition sweeper_plan (a : App) : option (SweeperPolicy * duration) :=
  let r := sc_Retention (cfg_Sinks (app_Cfg a)) in
  if app_SQLite a && ((sr_MaxAge r >? 0) || (sr_MaxCount r >? 0))%Z
  then Some (mkSweeperPolicy (sr_MaxAge r) (sr_MaxCount r), sweeper_interval (sr_Interval r))
  else None.

Definition capture_addr (a : App) : string :=
  if String.eqb (cfg_CaptureBind (app_Cfg a)) "" then "0.0.0.0:" +:+ Itoa (cfg_CapturePort (app_Cfg a))
  else cfg_CaptureBind (app_Cfg a).
End App.
