(* ===== verification/AppFacts.v ===== *)
(** * Theorems about the assembled program

    What [Build] puts together and when it refuses; what metrics and status page
    show of the running pool. *)
From S2P Require Import Prelude GoLib GoTime Record Json Url Capture Pipeline PipelineFacts Redact RedactFacts Config Auth.
From S2P Require Import Events SearchQL SearchSQL Inspect MemorySink MemoryReader AdminInspect AdminInspectFacts.
From S2P Require Import Sqlite SqliteOpen SqliteReader SqliteFacts Stdout UiViews Metrics AdminServer ConfigFacts App.

Open Scope string_scope.

(** ** Series by name *)

Definition reason_text (r : RejectReason) : string :=
  match r with
  | RejectReasonInvalidJSON => "invalid_json"
  | RejectReasonPayloadTooLarge => "payload_too_large"
  | RejectReasonUnknownType => "unknown_type"
  | RejectReasonMissingType => "missing_type"
  | RejectReasonMissingRequiredField => "missing_required_field"
  | RejectReasonEmptyBatch => "empty_batch"
  | RejectReasonBatchTooLarge => "batch_too_large"
  | RejectReasonBodyTooLarge => "body_too_large"
  end.

Section Built.
Context `{Unicode} `{MapRange} `{RedactDeps} `{TimeJSON} `{WebDeps} `{PageDeps} `{Target} (E : Engine).
Implicit Types (be : BuildEnv) (cfg : Config) (app : App) (w : Live).

Lemma build_rest_ok be cfg app : build_rest E be cfg = Some (Ok app) ->
  exists ruleset srv reason,
    NewRuleset (cfg_Redaction cfg) = Ok ruleset /\
    Guard (ac_Bind (cfg_Admin cfg)) (negb (String.eqb (ac_Token (cfg_Admin cfg)) "")) (ac_InsecureListen (cfg_Admin cfg))
      = Ok reason /\
    app = mkApp cfg (NewPool (cfg_Workers cfg) (cfg_QueueSize cfg) (build_sinks be cfg))
            (mkHandlerOptions (cfg_ServiceHeader cfg) (cfg_BodyCap cfg))
            (if sc_Memory (cfg_Sinks cfg) then Some (NewMemorySink (sc_MemoryCapacity (cfg_Sinks cfg))) else None)
            (sc_SQLite (cfg_Sinks cfg)) ruleset srv /\
    sv_cfg srv = cfg_Admin cfg /\ sv_timeouts srv = cfg_Timeouts cfg /\
    sv_sources srv = normalize (authFailures lv_limiter (build_sources E (sc_Memory (cfg_Sinks cfg)) (sc_SQLite (cfg_Sinks cfg)) ruleset)) /\
    sv_prom srv = Prom_New (promSources (sv_sources srv) (be_version be) (be_build be)) /\
    sv_version srv = be_version be /\ sv_build srv = be_build be.
Proof.
  unfold build_rest, New. intros Hb. destruct (NewRuleset _) as [ruleset|]; [|done].
  destruct (Guard _ _ _) as [reason|]; [|done].
  destruct (call_source _ _) as [u|]; [|done]. cbn in Hb.
  destruct (configuration_body _ _) as [page|]; [|done]. cbn in Hb. injection Hb as <-.
  by eexists ruleset, _, reason.
Qed.

Definition bind_guard cfg : result BindError Reason :=
  Guard (ac_Bind (cfg_Admin cfg)) (negb (String.eqb (ac_Token (cfg_Admin cfg)) "")) (ac_InsecureListen (cfg_Admin cfg)).

Lemma build_rest_err be cfg e : build_rest E be cfg = Some (Err e) ->
  match e with
  | BuildSQLite _ => False
  | BuildRuleset e => NewRuleset (cfg_Redaction cfg) = Err e
  | BuildAdmin e => (exists ruleset, NewRuleset (cfg_Redaction cfg) = Ok ruleset) /\ bind_guard cfg = Err e
  end.
Proof.
  unfold build_rest, New, bind_guard. intros Hb. destruct (NewRuleset _) as [ruleset|]; [|by simplify_eq].
  destruct (Guard _ _ _) as [reason|]; [|simplify_option_eq; by eauto].
  destruct (call_source _ _) as [u|]; [|done]. cbn in Hb. by destruct (configuration_body _ _).
Qed.

Lemma build_rest_none be cfg : build_rest E be cfg = None ->
  (exists reason, bind_guard cfg = Ok reason) /\
  exists ruleset, NewRuleset (cfg_Redaction cfg) = Ok ruleset /\ configuration_body cfg (IsUnredacted ruleset) = None.
Proof.
  unfold build_rest, New, bind_guard. intros Hb. destruct (NewRuleset _) as [ruleset|]; [|done].
  destruct (Guard _ _ _) as [reason|]; [|done]. cbn in Hb. split; [by eexists|].
  destruct (configuration_body cfg (IsUnredacted ruleset)) eqn:Hc; [done|]. by eexists.
Qed.

(** What the bind policy accepts. *)
Lemma Guard_ok bind token insecure reason : Guard bind (negb (String.eqb token "")) insecure = Ok reason ->
  exists host port, SplitHostPort bind = Ok (host, port) /\ (isLoopback host = true \/ token <> "" \/ insecure = true).
Proof.
  unfold Guard. destruct (SplitHostPort bind) as [[host port]|]; [|done]. intros Hg. exists host, port. split; [done|].
  destruct (isLoopback host); [by left|]. destruct (String.eqb_spec token ""); [|by auto]. destruct insecure; [by auto|done].
Qed.

Lemma Build_rest be cfg env t t' out : Build E be cfg env t = (t', Some (Ok out)) -> build_rest E be cfg = Some (Ok out).
Proof.
  unfold Build, and_then. destruct (sc_SQLite (cfg_Sinks cfg)); [|by intros [= _ ->]].
  destruct (NewSQLiteSink _ env t) as [t1 [u|e]]; by intros [= _ ->].
Qed.

Lemma build_sinks_fresh be cfg : fresh_sinks (be_extraSinks be) -> fresh_sinks (build_sinks be cfg).
Proof.
  intros Hf s. unfold build_sinks. rewrite !elem_of_app.
  intros [Hs|[Hs|[Hs|Hs]]]; [..|by apply Hf]; case_match; set_solver.
Qed.

(** Orphaned response and outbound events, by the store that counts them. *)
Definition orphan_counts cfg w : Z * Z :=
  if sc_Memory (cfg_Sinks cfg) then
    let '(responses, outbounds) := OrphanCounts (lv_memory w) in (Z.of_nat responses, Z.of_nat outbounds)
  else if sc_SQLite (cfg_Sinks cfg) then
    match SQLite_OrphanCounts E (lv_db w) with Ok counts => counts | Err _ => (0, 0)%Z end
  else (0, 0)%Z.

(** The accessor [Build] installs for a gauge reads that count. *)
Lemma orphan_source_counts cfg w (pick : Z * Z -> Z) : pick (0, 0)%Z = 0%Z ->
  match coalesce 0%Z (orphan_source E (sc_Memory (cfg_Sinks cfg)) (sc_SQLite (cfg_Sinks cfg)) pick) with
  | Some f => f w
  | None => 0%Z
  end = pick (orphan_counts cfg w).
Proof.
  intros Hp. unfold orphan_source, orphan_counts. destruct (sc_Memory _); [cbn; by destruct (OrphanCounts _)|].
  destruct (sc_SQLite _); [cbn; by destruct (SQLite_OrphanCounts _ _)|by rewrite Hp].
Qed.

(** The series at a position of the scrape. *)
Ltac series i :=
  match goal with |- scraped (newCollector ?src) ?w _ _ = _ =>
    let Hs := fresh in pose proof (scraped_at src w i _ eq_refl) as Hs; exact Hs end.

(** C36. The metrics and the status page of the assembled program tell what
    happened. In every state the pool of a built program can reach, the capture
    series are the numbers of captured, dropped, failed, unattributed and
    uncorrelated requests in its history, and of panicked records, modulo 2^64;
    every other series reads the counter of its component: redaction errors,
    events, authentication failures, sink errors; the orphan gauges are the
    counts of the ring, without a ring those of SQLite (zero when that read
    fails), without either zero; the build identity is the linked one; and the
    status page shows the same numbers. *)
Theorem scrape_accounts redact be cfg env t t' app w :
  Build E be cfg env t = (t', Some (Ok app)) -> fresh_sinks (be_extraSinks be) ->
  reachable redact (app_Handler app) (app_Pool app) (lv_pool w) ->
  let h := pl_history (lv_pool w) in
  let shows name labels n := scraped (pr_collector (sv_prom (app_Admin app))) w name labels = Some (f64_of_Z n) in
  let number (P : Offer -> bool) := wrap_u64 (count P h) in
  shows "httpcatch_captured_total" [] (number is_captured) /\
  shows "httpcatch_dropped_total" [] (number is_dropped) /\
  shows "httpcatch_capture_errors_total" [] (number is_body_error) /\
  shows "httpcatch_captured_without_correlation_total" [] (number lacks_correlation) /\
  shows "httpcatch_captured_without_service_total" [] (number lacks_service) /\
  shows "httpcatch_redaction_errors_total" [] (lv_redactionErrors w) /\
  shows "httpcatch_worker_panics_total" [] (wrap_u64 (count fi_panicked (pl_finished (lv_pool w)))) /\
  shows "httpcatch_events_ingested_total" ["response"] (ec_ingestedResponse (lv_events w)) /\
  shows "httpcatch_events_ingested_total" ["outbound"] (ec_ingestedOutbound (lv_events w)) /\
  (forall r, shows "httpcatch_events_rejected_total" [reason_text r] (ec_rejected (lv_events w) r)) /\
  shows "httpcatch_events_dropped_queue_full_total" [] (ec_droppedQueueFull (lv_events w)) /\
  shows "httpcatch_orphans" ["response"] (orphan_counts cfg w).1 /\
  shows "httpcatch_orphans" ["outbound"] (orphan_counts cfg w).2 /\
  shows "httpcatch_auth_failures_total" ["invalid_token"] (al_invalidToken (lv_limiter w)) /\
  shows "httpcatch_auth_failures_total" ["rate_limited"] (al_rateLimited (lv_limiter w)) /\
  shows "httpcatch_auth_failures_total" ["csrf_blocked"] (al_csrfBlocked (lv_limiter w)) /\
  shows "httpcatch_sink_write_errors_total" ["memory"] (se_memory (pl_errors (lv_pool w))) /\
  shows "httpcatch_sink_write_errors_total" ["sqlite"] (se_sqlite (pl_errors (lv_pool w))) /\
  shows "httpcatch_sink_write_errors_total" ["stdout"] (se_stdout (pl_errors (lv_pool w))) /\
  shows "httpcatch_build_info" [be_version be; be_build be] 1%Z /\
  statusHandler (sv_sources (app_Admin app)) (sv_version (app_Admin app)) (sv_build (app_Admin app)) w = Some (JObj
    [("unredacted", JBool (IsUnredacted (app_Ruleset app)));
     ("counters", JObj [("dropped_total", JNum (Itoa (number is_dropped)));
                        ("captured_without_correlation_total", JNum (Itoa (number lacks_correlation)));
                        ("captured_without_service_total", JNum (Itoa (number lacks_service)));
                        ("redaction_errors_total", JNum (Itoa (lv_redactionErrors w)))]);
     ("version", JStr (be_version be)); ("build_time", JStr (be_build be))]).
Proof.
  intros Hb Hf Hr. apply Build_rest in Hb. apply build_rest_ok in Hb as (ruleset & srv & reason & _ & _ & -> & _ & _ & Hs & Hp & Hv & Hbt).
  cbn [app_Handler app_Pool app_Admin app_Ruleset] in *.
  assert (Hinv : pool_inv redact (lv_pool w)).
  { eapply reachable_inv; [|exact Hr]. by apply build_sinks_fresh. }
  cbv zeta. rewrite Hp, Hs, Hv, Hbt. cbn [pr_collector Prom_New].
  rewrite <- (pi_captured _ _ Hinv), <- (pi_dropped _ _ Hinv), <- (pi_errors _ _ Hinv), <- (pi_correlation _ _ Hinv),
    <- (pi_service _ _ Hinv), <- (pi_panics _ _ Hinv).
  split_and!.
  - series 0.
  - series 1.
  - series 2.
  - series 3.
  - series 4.
  - series 5.
  - series 6.
  - series 7.
  - series 8.
  - intros []; [series 9|series 10|series 11|series 12|series 13|series 14|series 15|series 16].
  - series 17.
  - rewrite <- (orphan_source_counts cfg w fst eq_refl). destruct (sc_Memory _), (sc_SQLite _); series 18.
  - rewrite <- (orphan_source_counts cfg w snd eq_refl). destruct (sc_Memory _), (sc_SQLite _); series 19.
  - series 20.
  - series 21.
  - series 22.
  - series 23.
  - series 24.
  - series 25.
  - series 26.
  - reflexivity.
Qed.

(** ** When Build refuses, and what it builds *)

(** The trace of [Build]: the opening of the store, when one is configured. *)
Lemma Build_cases be cfg env t out : Build E be cfg env [] = (t, out) ->
  (exists e, sc_SQLite (cfg_Sinks cfg) = true /\ out = Some (Err (BuildSQLite e)) /\
     NewSQLiteSink (sc_SQLitePath (cfg_Sinks cfg)) env [] = (t, Err e) /\
     run_shape (sc_SQLitePath (cfg_Sinks cfg)) t (Err e)) \/
  (out = build_rest E be cfg /\
   if sc_SQLite (cfg_Sinks cfg)
   then NewSQLiteSink (sc_SQLitePath (cfg_Sinks cfg)) env [] = (t, Ok tt) /\ run_shape (sc_SQLitePath (cfg_Sinks cfg)) t (Ok tt)
   else t = []).
Proof.
  unfold Build. destruct (sc_SQLite (cfg_Sinks cfg)); [|by intros [= <- <-]; right].
  unfold and_then. destruct (NewSQLiteSink_adds (sc_SQLitePath (cfg_Sinks cfg)) env []) as (t1 & res & -> & Hs).
  destruct res as [[]|e]; intros [= <- <-]; [by right|]. left. by exists e.
Qed.

(** A start that fails after the store was opened leaves it open. *)
Lemma Build_leaves_store_open be cfg env t e : Build E be cfg env [] = (t, Some (Err e)) ->
  sc_SQLite (cfg_Sinks cfg) = true -> (forall e', e <> BuildSQLite e') ->
  held t = [StmtHandle sqliteInsertEvent; StmtHandle sqliteInsertRequest; DBHandle].
Proof.
  intros [(e' & _ & He & _)|[_ Hs]]%Build_cases Hsql Hne; [by injection He as ->; destruct (Hne e')|].
  rewrite Hsql in Hs. destruct Hs as [_ Hs]. destruct Hs as (pre & file & post & _ & _ & _ & _ & _ & Hh). done.
Qed.

Definition sink_names (s : SinksConfig) : list string :=
  ((if sc_Stdout s then ["stdout"] else []) ++ (if sc_Memory s then ["memory"] else []) ++
   (if sc_SQLite s then ["sqlite"] else []))%list.

Lemma build_sinks_names be cfg :
  sk_Name <$> build_sinks be cfg = (sink_names (cfg_Sinks cfg) ++ (sk_Name <$> be_extraSinks be))%list.
Proof. unfold build_sinks, sink_names. rewrite !fmap_app, <- !app_assoc. repeat case_match; reflexivity. Qed.

(** A retention policy of a valid configuration bounds age or count, not both. *)
Lemma sweeper_plan_valid app : valid (app_Cfg app) -> app_SQLite app = sc_SQLite (cfg_Sinks (app_Cfg app)) ->
  match sweeper_plan app with
  | Some (pol, interval) => sc_SQLite (cfg_Sinks (app_Cfg app)) = true /\ (0 < interval)%Z /\
      ((0 < sp_MaxAge pol /\ sp_MaxCount pol = 0) \/ (sp_MaxAge pol = 0 /\ 0 < sp_MaxCount pol))%Z
  | None => let r := sc_Retention (cfg_Sinks (app_Cfg app)) in (sr_MaxAge r = 0 /\ sr_MaxCount r = 0)%Z
  end.
Proof.
  intros V Hs. destruct (v_retention _ V) as [(Ha & Hc & Hi & Hx) Hoff]. unfold sweeper_plan. rewrite Hs.
  destruct (sc_SQLite _); cbn [andb].
  - destruct ((_ >? 0) || (_ >? 0))%Z eqn:Hset.
    + cbn. apply orb_true_iff in Hset. rewrite !Z.gtb_lt in Hset. split_and!; [done| |lia].
      unfold sweeper_interval, defaultSweeperInterval, second. case_match eqn:Hl; bool_hyps; lia.
    + apply orb_false_iff in Hset as [Hset1 Hset2]. rewrite !Z.gtb_ltb, !Z.ltb_ge in *. cbn. lia.
  - destruct (Hoff eq_refl) as (? & ? & _). done.
Qed.

(** C37. From a configuration that loaded to a program. The program starts
    exactly when its store opens (if it has one), its redaction rules compile
    and the bind policy accepts the admin address, and then it runs with that
    ruleset; each of the three failures is reported as what it is, with no handle
    held when the store did not open, and a configuration page that cannot be
    rendered panics. A built program has the enabled sinks in order, queue, pool
    and ring of the configured sizes, an open store if and only if it is
    enabled, a retention sweeper that bounds age or count but not both, and an
    admin address that is loopback, guarded by a token, or explicitly allowed. *)
Theorem Build_loaded `{YamlDeps} cpus file cenv cfg be env : Load cpus file cenv = Ok cfg ->
  let '(t, out) := Build E be cfg env [] in
  let opened := NewSQLiteSink (sc_SQLitePath (cfg_Sinks cfg)) env [] in
  let store_ok t := if sc_SQLite (cfg_Sinks cfg) then opened = (t, Ok tt) else t = [] in
  let guard := Guard (ac_Bind (cfg_Admin cfg)) (negb (String.eqb (ac_Token (cfg_Admin cfg)) "")) (ac_InsecureListen (cfg_Admin cfg)) in
  match out with
  | Some (Err (BuildSQLite e)) =>
      sc_SQLite (cfg_Sinks cfg) = true /\ opened = (t, Err e) /\ held t = []
  | Some (Err (BuildRuleset e)) => store_ok t /\ NewRuleset (cfg_Redaction cfg) = Err e
  | Some (Err (BuildAdmin e)) =>
      store_ok t /\ (exists ruleset, NewRuleset (cfg_Redaction cfg) = Ok ruleset) /\ guard = Err e
  | None =>
      store_ok t /\ (exists reason, guard = Ok reason) /\
      exists ruleset, NewRuleset (cfg_Redaction cfg) = Ok ruleset /\ configuration_body cfg (IsUnredacted ruleset) = None
  | Some (Ok app) =>
      store_ok t /\ (exists reason, guard = Ok reason) /\
      NewRuleset (cfg_Redaction cfg) = Ok (app_Ruleset app) /\ app_Cfg app = cfg /\
      let pool := app_Pool app in
      sk_Name <$> pl_sinks pool = (sink_names (cfg_Sinks cfg) ++ (sk_Name <$> be_extraSinks be))%list /\
      Z.of_nat (qu_cap (pl_queue pool)) = cfg_QueueSize cfg /\
      Z.of_nat (length (pl_workers pool)) = cfg_Workers cfg /\
      (Z.of_nat ∘ ms_capacity) <$> app_Memory app =
        (if sc_Memory (cfg_Sinks cfg) then Some (sc_MemoryCapacity (cfg_Sinks cfg)) else None) /\
      (if sc_SQLite (cfg_Sinks cfg) then run_shape (sc_SQLitePath (cfg_Sinks cfg)) t (Ok tt) else t = []) /\
      (match sweeper_plan app with
       | Some (pol, interval) => sc_SQLite (cfg_Sinks cfg) = true /\ (0 < interval)%Z /\
           ((0 < sp_MaxAge pol /\ sp_MaxCount pol = 0) \/ (sp_MaxAge pol = 0 /\ 0 < sp_MaxCount pol))%Z
       | None => let r := sc_Retention (cfg_Sinks cfg) in (sr_MaxAge r = 0 /\ sr_MaxCount r = 0)%Z
       end) /\
      (exists host port, SplitHostPort (ac_Bind (cfg_Admin cfg)) = Ok (host, port) /\
         (isLoopback host = true \/ ac_Token (cfg_Admin cfg) <> "" \/ ac_InsecureListen (cfg_Admin cfg) = true)) /\
      capture_addr app = cfg_CaptureBind cfg
  end.
Proof.
  intros HL. destruct (Load_valid _ _ _ _ HL) as [V Hn].
  destruct (Build E be cfg env []) as [t out] eqn:HB.
  apply Build_cases in HB as [(e & Hsql & -> & Ho & pre & f & post & _ & _ & _ & Hh & _)|[-> Hs]]; [done|].
  cbv zeta. assert (Hst : if sc_SQLite (cfg_Sinks cfg) then NewSQLiteSink (sc_SQLitePath (cfg_Sinks cfg)) env [] = (t, Ok tt) else t = [])
    by (destruct (sc_SQLite _); [by destruct Hs|done]).
  destruct (build_rest E be cfg) as [[app|e]|] eqn:Hb.
  - apply build_rest_ok in Hb as (ruleset & srv & reason & Hr & Hg & -> & _). cbn [app_Pool app_Memory app_Ruleset app_Cfg].
    destruct (valid_sizes cfg (build_sinks be cfg) V) as (Hq & Hw & Hm). split_and!; try done.
    + by eexists.
    + apply build_sinks_names.
    + destruct (sc_Memory (cfg_Sinks cfg)); [|done]. cbn. f_equal. exact Hm.
    + destruct (sc_SQLite _); [by destruct Hs|done].
    + by apply sweeper_plan_valid.
    + by apply Guard_ok in Hg.
    + unfold capture_addr. cbn. by rewrite (proj2 (String.eqb_neq _ _)).
  - apply build_rest_err in Hb. by destruct e.
  - by apply build_rest_none in Hb.
Qed.
End Built.

(** ** Witnesses *)

Module Sample.
#[local] Existing Instances ascii_unicode sorted_range literal_deps decimal_json.

#[local] Instance web : WebDeps := {|
  url_Parse_Host _ := None; uni_EqualFold := String.eqb; parse_ip_loopback h := Some (String.eqb h "127.0.0.1") |}.
#[local] Instance pages : PageDeps := {|
  yaml_Encode cfg := Some ""; configurationTmpl markup _ := Some markup; sha256_Sum256 body := str_take 32 body |}.
#[local] Instance linux : Target := Unix.
#[local] Instance no_file : YamlDeps := {| yaml_Unmarshal _ := None |}.

Definition engine : Engine := list_engine (fun _ _ _ => Ok []).
Definition live : Live :=
  mkLive (NewPool 2 1024 []) 0 NewEventsCounters NewAuthLimiter (NewMemorySink 1000) (mkDatabase [] []).
Definition build_env : BuildEnv := mkBuildEnv (fun s => (s, true)) (fun _ _ => WriteOk) [] [] "dev" "unknown" live.
(** Memory and SQLite, with a token on a public address. *)
Definition env (name : string) : string :=
  if String.eqb name "HTTPCATCH_SINKS" then "memory,sqlite"
  else if String.eqb name "HTTPCATCH_ADMIN_BIND" then "10.0.0.1:8081"
  else if String.eqb name "HTTPCATCH_ADMIN_TOKEN" then "secret" else "".
Definition config : result ConfigError Config := Load 2 None env.
Definition system : Env := fun _ c => match c with Lstat _ => NotExist | _ => Done end.

(** The program starts. *)
Lemma starts cfg : config = Ok cfg ->
  exists t app, Build engine build_env cfg system [] = (t, Some (Ok app)) /\
    sink_names (cfg_Sinks cfg) = ["memory"; "sqlite"] /\ pl_history (app_Pool app) = [].
Proof.
  intros Hc. destruct (Build engine build_env cfg system []) as [t out] eqn:Hb.
  assert (Hok : match config with
    | Ok cfg => match (Build engine build_env cfg system []).2 with
                | Some (Ok app) => bool_decide (sink_names (cfg_Sinks cfg) = ["memory"; "sqlite"]) &&
                    (length (pl_history (app_Pool app)) =? 0)%nat
                | _ => false
                end
    | Err _ => false end = true) by (by vm_compute).
  rewrite Hc, Hb in Hok. cbn [snd] in Hok. destruct out as [[app|]|]; try done. apply andb_true_iff in Hok as [Hs Hh].
  exists t, app. split_and!; [done|by apply bool_decide_eq_true in Hs|].
  apply Nat.eqb_eq in Hh. by apply nil_length_inv.
Qed.

Definition built_sinks : option (list string) :=
  match config with
  | Ok cfg => match (Build engine build_env cfg system []).2 with
              | Some (Ok app) => Some (sk_Name <$> pl_sinks (app_Pool app))
              | _ => None
              end
  | Err _ => None
  end.

Lemma Build_loaded_witness : built_sinks = Some ["memory"; "sqlite"].
Proof.
  unfold built_sinks. destruct config as [cfg|e] eqn:Hc; [|by vm_compute in Hc].
  pose proof (Build_loaded engine 2 None env cfg build_env system Hc) as HB.
  destruct (starts cfg Hc) as (t & app & Hb & Hn & _). rewrite Hb in *. destruct HB as (_ & _ & _ & _ & HB & _). cbn [snd].
  by rewrite HB, Hn.
Defined.

Lemma scrape_accounts_witness :
  match config with
  | Ok cfg => match (Build engine build_env cfg system []).2 with
              | Some (Ok app) => forall w, lv_pool w = app_Pool app ->
                  scraped (pr_collector (sv_prom (app_Admin app))) w "httpcatch_captured_total" [] = Some (f64_of_Z 0)
              | _ => False
              end
  | Err _ => False
  end.
Proof.
  destruct config as [cfg|e] eqn:Hc; [|by vm_compute in Hc].
  destruct (starts cfg Hc) as (t & app & Hb & _ & Hh). rewrite Hb. cbn [snd]. intros w Hw.
  assert (Hr : reachable Some (app_Handler app) (app_Pool app) (lv_pool w)) by (rewrite Hw; apply rtc_refl).
  pose proof (proj1 (scrape_accounts engine Some build_env cfg system [] t app w Hb
    ltac:(intros s Hs; by apply elem_of_nil in Hs) Hr)) as HS.
  rewrite Hw, Hh in HS. exact HS.
Defined.
End Sample.
