(* ===== verification/EndToEnd.v ===== *)
(** * From the capture port to the admin port

    The assembled program of [App] run as a whole: records enter through the
    queue, the workers of the pool redact them and hand them to the sinks, and
    the admin port reads the stores those sinks fill. The ring starts empty; the
    SQLite file may hold rows of earlier runs. *)
From S2P Require Import Prelude GoLib GoTime Record Json JsonFacts Url Capture Pipeline PipelineFacts Redact RedactFacts Config Auth.
From S2P Require Import Events SearchQL SearchSQL Inspect MemorySink MemoryReader MemoryReaderFacts AdminInspect AdminInspectFacts.
From S2P Require Import Sqlite SqliteOpen SqliteReader SqliteFacts SqliteDetailFacts Stdout UiViews Metrics AdminServer AdminServerFacts.
From S2P Require Import StoresFacts RedactCmd UiViewsFacts InspectJson App AppFacts.

Open Scope string_scope.

(** ** The stores behind the port *)

(** Where [build_sinks] puts the two stores among the sinks. *)
Definition memory_position (s : SinksConfig) : nat := if sc_Stdout s then 1 else 0.
Definition sqlite_position (s : SinksConfig) : nat := memory_position s + if sc_Memory s then 1 else 0.

Definition handed_to (st : Pool) (k : nat) : list CRecord := default [] (sk_log <$> pl_sinks st !! k).

(** The ring is what the writes to the memory sink made of it. The tables hold
    some of the records they held when the program started ([older], written by
    earlier runs to the same file) and of those handed to the SQLite sink: a
    write may have failed and a sweep may have deleted. *)
Record stores_of (older : list CRecord) (s : SinksConfig) (w : Live) : Prop := {
  so_ring : lv_memory w = written (sc_MemoryCapacity s) (handed_to (lv_pool w) (memory_position s));
  so_tables : exists l, lv_db w = database_of l /\
    l ⊆+ (older ++ handed_to (lv_pool w) (sqlite_position s))%list /\ Forall storable l
}.

(** The records, with headers and bodies, that an answer carries. List rows,
    statistics and metrics have no field that redaction touches. *)
Definition detail_records (d : DetailRecord) : list CRecord := dr_Root d :: dr_Events d.

Definition payload_records (p : Payload) : list CRecord :=
  match p with
  | BodyInspect (RespDetail d) => detail_records d
  | BodyDetail (DetailPage d) => RRequest (dp_Root d) :: dp_Events d
  | BodyDetail (EventPage d) => ep_Root d :: ep_Events d
  | _ => []
  end.

Section EndToEnd.
Context `{Unicode} `{MapRange} `{RedactDeps} `{TimeJSON} `{WebDeps} `{PageDeps} `{Target} (E : Engine).
Context `{TimeParse} `{TimeFormat} `{JsonDeps} `{Chi}.
Implicit Types (be : BuildEnv) (cfg : Config) (app : App) (w : Live).

(** *** The redactor of the workers *)

(** The shared error counter has no influence on the redacted record, so a
    worker's redaction is a function of the record. *)
Lemma json_paths_errs rules b e e' :
  (fold_left json_path_step rules (b, e)).1 = (fold_left json_path_step rules (b, e')).1.
Proof.
  revert b e e'. induction rules as [|path rules IH]; intros b e e'; [done|]. cbn [fold_left json_path_step].
  destruct (negb _); [apply IH|]. destruct (sjson_Set _ _ _); apply IH.
Qed.

Lemma applyJSONPathRulesBody_errs b ct rules e e' :
  (applyJSONPathRulesBody b ct rules e).1 = (applyJSONPathRulesBody b ct rules e').1.
Proof. unfold applyJSONPathRulesBody. repeat case_match; [done..|]. apply json_paths_errs. Qed.

Lemma redact_half_errs r e e' hs b ct : (redact_half r e hs b ct).1 = (redact_half r e' hs b ct).1.
Proof.
  unfold redact_half. pose proof (applyJSONPathRulesBody_errs b ct (rs_jsonPaths r) e e') as Hb.
  destruct (applyJSONPathRulesBody b ct _ e), (applyJSONPathRulesBody b ct _ e'). cbn in Hb. by subst.
Qed.

Lemma Redact_errs r e e' rec : (Redact r e rec).1 = (Redact r e' rec).1.
Proof.
  unfold Redact. destruct (IsUnredacted r); [done|]. destruct rec as [v|v|v].
  - unfold redactCapturedRequest.
    pose proof (applyJSONPathRulesBody_errs (cr_Body v) (cr_ContentType v) (rs_jsonPaths r) e e') as Hb.
    destruct (applyJSONPathRulesBody _ _ _ e), (applyJSONPathRulesBody _ _ _ e'). cbn in Hb. subst.
    by rewrite applyRegexRulesCaptured_eq.
  - unfold redactResponseEvent. pose proof (redact_half_errs r e e' (re_Headers v) (re_Body v) (re_ContentType v)) as Hb.
    destruct (redact_half _ e _ _ _) as [[??]?], (redact_half _ e' _ _ _) as [[??]?]. cbn in Hb. by simplify_eq.
  - unfold redactOutboundEvent. set (q := oe_Request v).
    pose proof (redact_half_errs r e e' (oq_Headers q) (oq_Body q) (oq_ContentType q)) as Hb.
    destruct (redact_half _ e _ _ _) as [[h1 b1] e1], (redact_half _ e' _ _ _) as [[h2 b2] e2]. cbn in Hb. simplify_eq.
    destruct (oe_Response v) as [p|]; [|done].
    pose proof (redact_half_errs r e1 e2 (os_Headers p) (os_Body p) (os_ContentType p)) as Hb.
    destruct (redact_half _ e1 _ _ _) as [[??]?], (redact_half _ e2 _ _ _) as [[??]?]. cbn in Hb. by simplify_eq.
Qed.

Definition redacted (app : App) (rec : CRecord) : CRecord := (Redact (app_Ruleset app) 0 rec).1.
Definition app_redact (app : App) (rec : CRecord) : option CRecord := Some (redacted app rec).

Lemma redacted_keys app rec :
  RecordID (redacted app rec) = RecordID rec /\ RecordCorrelationID (redacted app rec) = RecordCorrelationID rec.
Proof. destruct (Redact_keeps_metadata (app_Ruleset app) 0 rec) as (_ & ? & ? & _). done. Qed.

Lemma omap_app_redact app (l : list CRecord) : omap (app_redact app) l = redacted app <$> l.
Proof. induction l as [|r l IH]; [done|]. cbn. by rewrite IH. Qed.

(** *** What the stores hold *)

Lemma step_sinks redact opts st st' : step redact opts st st' -> length (pl_sinks st') = length (pl_sinks st).
Proof. destruct 1; cbn; by rewrite ?length_insert. Qed.

Lemma reachable_sinks redact opts st st' :
  reachable redact opts st st' -> length (pl_sinks st') = length (pl_sinks st).
Proof. induction 1 as [|x y z Hs _ IH]; [done|]. by rewrite IH, (step_sinks _ _ _ _ Hs). Qed.

Lemma memory_sink_at be cfg :
  sc_Memory (cfg_Sinks cfg) = true -> memory_position (cfg_Sinks cfg) < length (build_sinks be cfg).
Proof.
  intros Hm. unfold memory_position, build_sinks. rewrite Hm. destruct (sc_Stdout _); cbn; lia.
Qed.

Lemma handed_app_redact app be cfg st k :
  fresh_sinks (be_extraSinks be) ->
  reachable (app_redact app) (app_Handler app) (NewPool (cfg_Workers cfg) (cfg_QueueSize cfg) (build_sinks be cfg)) st ->
  handed_to st k ⊆+ redacted app <$> accepted (pl_history st).
Proof.
  intros Hf Hr. assert (Hinv : pool_inv (app_redact app) st).
  { eapply reachable_inv; [|exact Hr]. by apply build_sinks_fresh. }
  unfold handed_to. destruct (pl_sinks st !! k) as [s|] eqn:Hs; [|apply submseteq_nil_l]. cbn.
  rewrite <- omap_app_redact. by eapply inv_redactions.
Qed.

(** *** Details come from the readers *)

(** Every record of a gathered detail was returned by one of the readers. *)
Lemma mergeDetailSiblings_from p q e :
  e ∈ detail_records (mergeDetailSiblings p q) -> e ∈ detail_records p \/ e ∈ detail_records q.
Proof.
  unfold detail_records, mergeDetailSiblings. cbn [dr_Root dr_Events]. rewrite !elem_of_cons.
  rewrite (SliceStable_perm sibling_less), elem_of_app. intros [->|[He|[He _]%append_unseen_spec]]; tauto.
Qed.

Lemma gatherDetail_from id mem sql d e :
  gatherDetail id mem sql = Ok d -> e ∈ detail_records d ->
  exists rd d', (mem = Some rd \/ sql = Some rd) /\ rd_ReadDetail rd id = Ok d' /\ e ∈ detail_records d'.
Proof.
  unfold gatherDetail. intros Hg He.
  destruct mem as [mem|]; [destruct (rd_ReadDetail mem id) as [dm|[]] eqn:Hm|];
    (destruct sql as [sql|]; [destruct (rd_ReadDetail sql id) as [ds|[]] eqn:Hs|]);
    cbn in Hg; simplify_eq; try (by eauto 6).
  apply mergeDetailSiblings_from in He as [He|He]; eauto 6.
Qed.

(** With every sibling already there, merging adds nothing. *)
Lemma append_unseen_nil seen es : (forall e, e ∈ es -> RecordID e ∈ seen) -> append_unseen seen es = [].
Proof.
  revert seen. induction es as [|x es IH]; intros seen Hs; [done|]. cbn.
  rewrite bool_decide_eq_true_2 by (apply Hs; left). apply IH. intros e He. apply Hs. by right.
Qed.

Lemma ReadDetail_members cap rs id d e :
  ReadDetail (written cap rs) id = Some d -> e ∈ detail_records d -> e ∈ rs.
Proof.
  intros Hd He. pose proof (ReadDetail_spec cap rs id) as Hs. cbv zeta in Hs. rewrite Hd in Hs.
  destruct Hs as ((b & a & Hall & _) & _ & Hev & _).
  assert (Hin : e ∈ take (Z.to_nat (Z.max 1 cap)) (rev rs)).
  { apply elem_of_cons in He as [->|He]; [|by apply Hev in He as [? _]]. rewrite Hall. set_solver. }
  apply elem_of_take in Hin as (i & Hi & _). apply list_elem_of_lookup_2 in Hi.
  by rewrite list_elem_of_In, <- in_rev, <- list_elem_of_In in Hi.
Qed.

Lemma SQLite_members (HE : answers_details E) l id d e :
  Forall storable l -> SQLite_ReadDetail E (database_of l) id = Ok d -> e ∈ detail_records d ->
  exists r, r ∈ l /\ e = stored r.
Proof.
  intros Hst Hd He. pose proof (ReadDetail_back E HE l Hst id) as Hb. rewrite Hd in Hb.
  destruct Hb as (r & Hr & _ & Hroot & Hev & _). apply elem_of_cons in He as [->|He]; [eauto|].
  rewrite Hev in He. apply list_elem_of_fmap in He as (x & -> & [_ Hx]%list_elem_of_filter). eauto.
Qed.

(** *** The answers of the port *)

Lemma redirect_records h r url cookie : payload_records (rp_body (http_Redirect h r url cookie)) = [].
Proof. unfold http_Redirect. cbn [rp_body]. by case_match. Qed.

Lemma run_chain_records srv (inp : Inputs Live) req chain h st k st' resp e :
  run_chain srv inp req chain h st k = Some (st', resp) -> e ∈ payload_records (rp_body resp) ->
  exists h' st1, k h' st1 = Some (st', resp).
Proof.
  revert h st. induction chain as [|m chain IH]; intros h st Hrun He; [by eauto|]. cbn [run_chain] in Hrun.
  destruct m; try (by eapply IH).
  - destruct (csrfOriginCheck _ _) as [[] l]; [by eapply IH|]. simplify_eq. by apply elem_of_nil in He.
  - destruct (Middleware _ _ _ _ _ _) as [a l]. destruct a; cbn [gate_response] in Hrun; [by eapply IH|..];
      simplify_eq; rewrite ?redirect_records in He; by apply elem_of_nil in He.
Qed.

Lemma inspect_records h scan a :
  payload_records (rp_body (inspect_response h scan a)) = match a with RespDetail d => detail_records d | _ => [] end.
Proof. by destruct a. Qed.

Lemma detail_handler_records rs id d :
  requestDetailHandler rs id = RespDetail d -> gatherDetail id (rs_Memory rs) (rs_SQLite rs) = Ok d.
Proof. unfold requestDetailHandler. intros Hd. repeat case_match; by simplify_eq. Qed.

Lemma ui_detail_records h rs id e :
  e ∈ payload_records (rp_body (detail_response h (requestDetailUIHandler rs id))) ->
  exists d, gatherDetail id (rs_Memory rs) (rs_SQLite rs) = Ok d /\ e ∈ detail_records d.
Proof.
  assert (Hpage : forall d, e ∈ payload_records (rp_body (detail_response h (detail_page d))) -> e ∈ detail_records d).
  { intros [root evs]. unfold detail_page, detail_records. destruct root; cbn; [done|..]; rewrite !elem_of_cons, list_elem_of_filter; tauto. }
  unfold requestDetailUIHandler. intros He.
  destruct (rs_Memory rs) as [mem|], (rs_SQLite rs) as [sql|]; try (by apply elem_of_nil in He);
    (destruct (gatherDetail _ _ _) as [d|[]]; [by exists d; auto|by apply elem_of_nil in He..]).
Qed.

(** Only the two detail endpoints answer with records, those of one detail. *)
Lemma run_endpoint_records srv (inp : Inputs Live) req id ep h st st' resp e :
  run_endpoint srv inp req id ep h st = Some (st', resp) -> e ∈ payload_records (rp_body resp) ->
  exists d, gatherDetail id (rs_Memory (in_readers inp)) (rs_SQLite (in_readers inp)) = Ok d /\ e ∈ detail_records d.
Proof.
  intros Hrun He. destruct ep; cbn [run_endpoint] in Hrun; try (simplify_eq; unfold rootRedirectHandler in *; rewrite ?redirect_records in He; by apply elem_of_nil in He).
  - destruct (loginPostHandler _ _ _ _ _ _ _) as [[a ?] ?]. simplify_eq.
    destruct a; cbn [login_response] in He; rewrite ?redirect_records in He; by apply elem_of_nil in He.
  - simplify_eq. unfold staticHandler in He. repeat case_match; by apply elem_of_nil in He.
  - destruct (statusHandler _ _ _ _); [|done]. cbn in Hrun. simplify_eq. by apply elem_of_nil in He.
  - simplify_eq. rewrite inspect_records in He. unfold requestsHandler in He.
    repeat case_match; try done; by apply elem_of_nil in He.
  - simplify_eq. rewrite inspect_records in He. unfold requestsAggregateHandler in He.
    repeat case_match; try done; by apply elem_of_nil in He.
  - simplify_eq. rewrite inspect_records in He.
    destruct (requestDetailHandler _ _) as [| | | |d|] eqn:Hd; try (by apply elem_of_nil in He).
    exists d. split; [by apply detail_handler_records|done].
  - simplify_eq. by destruct (requestListHandler _ _ _ _); apply elem_of_nil in He.
  - simplify_eq. by eapply ui_detail_records.
  - destruct (servicesUIHandler _ _); [|done]. cbn in Hrun. simplify_eq. by apply elem_of_nil in He.
  - simplify_eq. unfold config_response in He. case_match; by apply elem_of_nil in He.
  - destruct (eventsHandler _ _ _ _ _ _ _ _) as [[[[a ?] ?] ?]|]; [|done]. cbn in Hrun. simplify_eq.
    by destruct a; apply elem_of_nil in He.
Qed.

(** *** Safety *)

Lemma header_maps_stored r : header_maps (stored r) = header_maps r.
Proof. destruct r as [v|v|v]; cbn; [done..|]. by destruct (oe_Response v). Qed.

Lemma stored_request r v : stored r = RRequest v -> r = RRequest v.
Proof. by destruct r. Qed.

(** The form in which a store gives back the redaction of [r]. *)
Definition served_as (app : App) (r e : CRecord) : Prop := e = redacted app r \/ e = stored (redacted app r).

(** Every value under a listed header or query key is the marker. *)
Definition listed_masked (app : App) (e : CRecord) : Prop :=
  (forall m, m ∈ header_maps e -> masked (app_Ruleset app) (rs_headers (app_Ruleset app)) m) /\
  (forall v, e = RRequest v -> masked (app_Ruleset app) (rs_queryParams (app_Ruleset app)) (cr_Query v)).

Lemma stored_masked app x : listed_masked app x -> listed_masked app (stored x).
Proof.
  intros [Hm Hq]. split; [intros m; rewrite header_maps_stored; apply Hm|]. intros v Hv%stored_request. by apply Hq.
Qed.

Lemma served_masked app r e : served_as app r e -> IsUnredacted (app_Ruleset app) = false -> listed_masked app e.
Proof.
  intros He Hu. assert (Hr : listed_masked app (redacted app r)).
  { split; [intros m; by apply Redact_masks_headers|]. intros v Hv. by eapply Redact_masks_query. }
  destruct He as [-> | ->]; [done|by apply stored_masked].
Qed.

(** A record read from the stores of a running program. *)
Lemma readers_serve_redactions (HE : answers_details E) be cfg app older w rd id d e :
  fresh_sinks (be_extraSinks be) ->
  reachable (app_redact app) (app_Handler app) (NewPool (cfg_Workers cfg) (cfg_QueueSize cfg) (build_sinks be cfg)) (lv_pool w) ->
  stores_of older (cfg_Sinks cfg) w ->
  (rd = memory_reader (lv_memory w) \/ rd = sqlite_reader E (lv_db w)) -> rd_ReadDetail rd id = Ok d ->
  e ∈ detail_records d ->
  (exists r, r ∈ accepted (pl_history (lv_pool w)) /\ served_as app r e) \/ (exists x, x ∈ older /\ e = stored x).
Proof.
  intros Hf Hr [Hring (l & Hdb & Hl & Hst)] Hrd Hd He.
  assert (Hacc : forall k x, x ∈ handed_to (lv_pool w) k ->
    exists r, r ∈ accepted (pl_history (lv_pool w)) /\ x = redacted app r).
  { intros k x Hx. eapply elem_of_submseteq in Hx; [|eapply handed_app_redact; [exact Hf|exact Hr]].
    apply list_elem_of_fmap in Hx as (r & -> & Hin). eauto. }
  destruct Hrd as [-> | ->]; cbn in Hd.
  - destruct (ReadDetail _ _) as [d'|] eqn:Hd'; [|done]. injection Hd as ->. rewrite Hring in Hd'. left.
    destruct (Hacc _ _ (ReadDetail_members _ _ _ _ _ Hd' He)) as (r & Hin & ->). exists r. split; [done|by left].
  - rewrite Hdb in Hd. destruct (SQLite_members HE l id d e Hst Hd He) as (x & Hx & ->).
    eapply elem_of_submseteq, elem_of_app in Hx as [Hx|Hx]; [right; by exists x| |exact Hl].
    destruct (Hacc _ x Hx) as (r & Hin & ->). left. exists r. split; [done|by right].
Qed.


(** *** Completeness *)

Definition sibling (r e : CRecord) : Prop :=
  RecordID e <> RecordID r /\ RecordCorrelationID e = RecordCorrelationID r.

#[local] Instance sibling_dec r e : Decision (sibling r e).
Proof. unfold sibling. apply _. Defined.

(** A ring that never wrapped has every record. *)
Lemma ReadDetail_complete cap rs r :
  NoDup (RecordID <$> rs) -> (Z.of_nat (length rs) <= Z.max 1 cap)%Z -> r ∈ rs ->
  exists d, ReadDetail (written cap rs) (RecordID r) = Some d /\ dr_Root d = r /\
    dr_Events d ≡ₚ filter (sibling r) rs /\ sorted_by sibling_less (dr_Events d).
Proof.
  intros Hnd Hlen Hr. unfold ReadDetail. rewrite snapshot_written, take_ge by (rewrite length_rev; lia).
  assert (Hp : rev rs ≡ₚ rs) by (symmetry; apply Permutation_rev).
  destruct (List.find _ (rev rs)) as [root|] eqn:Ef.
  - apply find_some in Ef as [Hin Hid%String.eqb_eq]. rewrite <- list_elem_of_In, Hp in Hin.
    assert (root = r) as -> by (by eapply same_record). eexists. split_and!; [done|done| |]; cbn [dr_Events].
    + rewrite (SliceStable_perm record_less), Hp. by apply Permutation_refl', filter_ext_elem.
    + apply SliceStable_sorted, sibling_less_strict_weak.
  - rewrite <- Hp, list_elem_of_In in Hr. apply (find_none _ _ Ef) in Hr. by rewrite String.eqb_refl in Hr.
Qed.

Lemma redacted_ids app (l : list CRecord) : RecordID <$> (redacted app <$> l) = RecordID <$> l.
Proof. rewrite <- list_fmap_compose. apply list_fmap_ext. intros i r _. apply redacted_keys. Qed.

Lemma redacted_siblings app r (l : list CRecord) :
  filter (sibling (redacted app r)) (redacted app <$> l) = redacted app <$> filter (sibling r) l.
Proof.
  induction l as [|e l IH]; [done|]. rewrite fmap_cons, !filter_cons, IH.
  rewrite (decide_ext (sibling (redacted app r) (redacted app e)) (sibling r e)).
  - by case_decide.
  - unfold sibling. destruct (redacted_keys app r) as [-> ->], (redacted_keys app e) as [-> ->]. done.
Qed.

(** With memory's detail complete, the tables add to it only what earlier runs
    left. *)
Definition left_over (older : list CRecord) (r e : CRecord) : Prop := exists x, x ∈ older /\ sibling r x /\ e = stored x.

Lemma merge_complete (HE : answers_details E) l older rs r dm ds :
  Forall storable l -> l ⊆+ (older ++ rs)%list -> NoDup (RecordID <$> (older ++ rs)%list) -> r ∈ rs ->
  dr_Root dm = r -> dr_Events dm ≡ₚ filter (sibling r) rs -> sorted_by sibling_less (dr_Events dm) ->
  SQLite_ReadDetail E (database_of l) (RecordID r) = Ok ds ->
  dr_Root (mergeDetailSiblings dm ds) = r /\ sorted_by sibling_less (dr_Events (mergeDetailSiblings dm ds)) /\
  exists extra, dr_Events (mergeDetailSiblings dm ds) ≡ₚ (filter (sibling r) rs ++ extra)%list /\ Forall (left_over older r) extra.
Proof.
  intros Hst Hl Hnd Hr Hroot Hev Hs Hd. pose proof (ReadDetail_back E HE l Hst (RecordID r)) as Hb. rewrite Hd in Hb.
  destruct Hb as (r' & Hr' & Hid & _ & Hsib & _).
  assert (r' = r) as ->.
  { eapply same_record; [exact Hnd|by eapply elem_of_submseteq|apply elem_of_app; by right|done]. }
  unfold mergeDetailSiblings. cbn [dr_Root dr_Events]. split_and!; [done|apply SliceStable_sorted, sibling_less_strict_weak|].
  eexists. split; [rewrite (SliceStable_perm sibling_less); apply Permutation_app; [exact Hev|reflexivity]|].
  apply Forall_forall.
  intros e [He Hnew]%append_unseen_spec. rewrite Hsib in He.
  apply list_elem_of_fmap in He as (x & -> & [Hx Hin]%list_elem_of_filter).
  assert (Hsx : sibling r x) by (unfold sibling, sibling_of in *; by bool_hyps).
  eapply elem_of_submseteq, elem_of_app in Hin as [Hin|Hin]; [by exists x| |exact Hl]. destruct Hnew.
  rewrite elem_of_union, elem_of_list_to_set, list_elem_of_fmap. right. exists x.
  destruct (stored_keys x) as (Hk & _). split; [exact Hk|]. rewrite Hev. by apply list_elem_of_filter.
Qed.

Definition detail_route : Route := mkRoute "GET" "/requests/{id}" [MwHtmlHeaders; MwAuth true] EpDetail.

(** What a drained pool without panics handed to the memory sink. *)
Lemma handed_drained app be cfg st :
  fresh_sinks (be_extraSinks be) -> sc_Memory (cfg_Sinks cfg) = true ->
  reachable (app_redact app) (app_Handler app) (NewPool (cfg_Workers cfg) (cfg_QueueSize cfg) (build_sinks be cfg)) st ->
  drained st -> (forall f, f ∈ pl_finished st -> fi_panicked f = false) ->
  handed_to st (memory_position (cfg_Sinks cfg)) ≡ₚ redacted app <$> accepted (pl_history st).
Proof.
  intros Hf Hm Hr Hd Hp. assert (Hinv : pool_inv (app_redact app) st).
  { eapply reachable_inv; [|exact Hr]. by apply build_sinks_fresh. }
  destruct (lookup_lt_is_Some_2 (pl_sinks st) (memory_position (cfg_Sinks cfg))) as [s Hs].
  { rewrite (reachable_sinks _ _ _ _ Hr). by apply memory_sink_at. }
  unfold handed_to. rewrite Hs. cbn. pose proof (inv_delivered _ _ Hinv Hd Hp _ _ Hs) as Hl.
  apply (omap_perm id) in Hl. revert Hl. rewrite <- omap_app_redact.
  assert (Ho : forall l : list CRecord, omap id (Some <$> l) = l) by (intros l; induction l; cbn; by f_equal).
  assert (Hr' : forall l : list CRecord, omap id (app_redact app <$> l) = omap (app_redact app) l)
    by (intros l; induction l; cbn; by f_equal).
  by rewrite Ho, Hr'.
Qed.

(** The detail gathered for an id whose record memory has, with all siblings. *)
Lemma gather_complete (HE : answers_details E) cap older rs l r sqlite :
  NoDup (RecordID <$> (older ++ rs)%list) -> (Z.of_nat (length rs) <= Z.max 1 cap)%Z -> r ∈ rs ->
  Forall storable l -> l ⊆+ (older ++ rs)%list ->
  exists d extra, gatherDetail (RecordID r) (Some (memory_reader (written cap rs)))
      (if sqlite : bool then Some (sqlite_reader E (database_of l)) else None) = Ok d /\
    dr_Root d = r /\ sorted_by sibling_less (dr_Events d) /\
    dr_Events d ≡ₚ (filter (sibling r) rs ++ extra)%list /\ Forall (left_over older r) extra /\
    (sqlite = false -> extra = []).
Proof.
  intros Hnd Hlen Hr Hst Hl.
  assert (Hnd' : NoDup (RecordID <$> rs)) by (rewrite fmap_app in Hnd; by apply NoDup_app in Hnd as (_ & _ & ?)).
  destruct (ReadDetail_complete cap rs r Hnd' Hlen Hr) as (dm & Hdm & Hroot & Hev & Hso).
  unfold gatherDetail. cbn [rd_ReadDetail memory_reader]. rewrite Hdm.
  assert (Hmem : exists d extra, Ok (E := ReadError) dm = Ok d /\ dr_Root d = r /\ sorted_by sibling_less (dr_Events d) /\
    dr_Events d ≡ₚ (filter (sibling r) rs ++ extra)%list /\ Forall (left_over older r) extra /\ (sqlite = false -> extra = []))
    by (exists dm, []; by rewrite app_nil_r).
  destruct sqlite; [|exact Hmem]. cbn [rd_ReadDetail sqlite_reader].
  destruct (SQLite_ReadDetail E (database_of l) (RecordID r)) as [ds|[]] eqn:Hs; try exact Hmem.
  - destruct (merge_complete HE l older rs r dm ds) as (Hr' & Hso' & extra & Hev' & Hx); try done.
    by exists (mergeDetailSiblings dm ds), extra.
  - pose proof (ReadDetail_back E HE l Hst (RecordID r)) as Hb. by rewrite Hs in Hb.
Qed.

(** The route of a detail, for a caller the gate lets through. *)
Lemma detail_endpoint (srv : Server Live) inp st req id l mem d :
  rs_Memory (in_readers inp) = Some mem ->
  gatherDetail id (rs_Memory (in_readers inp)) (rs_SQLite (in_readers inp)) = Ok d ->
  chi_route routes req = Some (detail_route, id) ->
  Middleware (ac_Token (sv_cfg srv)) true (as_sessions st) (as_limiter st) (in_now inp) req = (GateNext, l) ->
  exists resp, ServeHTTP srv inp st req = Answered EpDetail (set_limiter st l) resp /\
    rp_status resp = 200%Z /\ rp_body resp = BodyInspect (RespDetail d).
Proof.
  intros Hm Hg Hroute Hgate. rewrite Hm in Hg. unfold ServeHTTP. rewrite Hroute. cbn [ro_chain ro_endpoint detail_route run_chain].
  rewrite Hgate. cbn [gate_response run_endpoint]. unfold requestDetailHandler.
  rewrite Hm, Hg. by eexists.
Qed.

(** C2. What was accepted is served: once the pool of a program with the memory
    sink has drained without a panic and no more records were accepted than the
    ring holds, the admin port answers the id of every accepted record, for any
    caller the gate lets through, with status 200, the redaction of that very
    record, and, oldest first, the redactions of all other accepted records of
    its correlation id, each once, whatever SQLite lost or swept. From a SQLite
    file with rows of earlier runs, those of the same correlation id may join
    them; nothing else does. *)
Theorem accepted_records_served (HE : answers_details E) be cfg env t t' app older w r :
  Build E be cfg env t = (t', Some (Ok app)) -> fresh_sinks (be_extraSinks be) ->
  reachable (app_redact app) (app_Handler app) (app_Pool app) (lv_pool w) -> stores_of older (cfg_Sinks cfg) w ->
  sc_Memory (cfg_Sinks cfg) = true -> drained (lv_pool w) ->
  (forall f, f ∈ pl_finished (lv_pool w) -> fi_panicked f = false) ->
  let acc := accepted (pl_history (lv_pool w)) in
  NoDup (RecordID <$> (older ++ acc)%list) -> (Z.of_nat (length acc) <= sc_MemoryCapacity (cfg_Sinks cfg))%Z -> r ∈ acc ->
  exists d extra, dr_Root d = redacted app r /\
    dr_Events d ≡ₚ ((redacted app <$> filter (sibling r) acc) ++ extra)%list /\
    Forall (left_over older r) extra /\ (sc_SQLite (cfg_Sinks cfg) = false -> extra = []) /\
    sorted_by sibling_less (dr_Events d) /\
    forall inp st req l, in_readers inp = app_readers E app w ->
      chi_route routes req = Some (detail_route, RecordID r) ->
      Middleware (ac_Token (cfg_Admin cfg)) true (as_sessions st) (as_limiter st) (in_now inp) req = (GateNext, l) ->
      exists resp, ServeHTTP (app_Admin app) inp st req = Answered EpDetail (set_limiter st l) resp /\
        rp_status resp = 200%Z /\ rp_body resp = BodyInspect (RespDetail d).
Proof.
  intros Hb Hf Hr [Hring (tl & Hdb & Htl & Hst)] Hm Hd Hp acc Hnd Hcap Hin.
  apply Build_rest, build_rest_ok in Hb as (ruleset & srv & reason & _ & _ & Happ & Hcfg & _).
  assert (HP : app_Pool app = NewPool (cfg_Workers cfg) (cfg_QueueSize cfg) (build_sinks be cfg)) by (by rewrite Happ).
  rewrite HP in Hr. pose proof (handed_drained app be cfg _ Hf Hm Hr Hd Hp) as Hh. fold acc in Hh.
  set (mem := handed_to (lv_pool w) (memory_position (cfg_Sinks cfg))) in *.
  destruct (gather_complete HE (sc_MemoryCapacity (cfg_Sinks cfg)) older mem tl (redacted app r) (sc_SQLite (cfg_Sinks cfg)))
    as (d & extra & Hg & Hroot & Hso & Hev & Hx & Hoff); try done.
  { by rewrite Hh, fmap_app, redacted_ids, <- fmap_app. }
  { rewrite Hh, length_fmap. lia. }
  { rewrite Hh. by apply list_elem_of_fmap_2. }
  { rewrite Hh, Htl. apply submseteq_app; [done|]. by eapply handed_app_redact. }
  rewrite (proj1 (redacted_keys app r)), <- Hring, <- Hdb in Hg. rewrite Hh, redacted_siblings in Hev.
  exists d, extra. split_and!; [done..| |done|done|].
  { eapply Forall_impl; [exact Hx|]. intros e (x & Hin' & Hs & ->). exists x. split_and!; [done| |done].
    unfold sibling in *. by destruct (redacted_keys app r) as [<- <-]. }
  intros inp st req l Hi Hroute Hgate.
  assert (Hrs : in_readers inp = mkReadSources (Some (memory_reader (lv_memory w)))
    (if sc_SQLite (cfg_Sinks cfg) then Some (sqlite_reader E (lv_db w)) else None)).
  { rewrite Hi, Happ. unfold app_readers. cbn. by rewrite Hm. }
  eapply detail_endpoint; [by rewrite Hrs|by rewrite Hrs|done|]. by rewrite Happ; cbn [app_Admin]; rewrite Hcfg.
Qed.

(** *** The list *)

Lemma redacted_kind app r : Kind (redacted app r) = Kind r.
Proof.
  destruct (Redact_keeps_metadata (app_Ruleset app) 0 r) as (Hm & _). unfold redacted.
  by destruct ((Redact (app_Ruleset app) 0 r).1), r.
Qed.

(** A row shows nothing that redaction touches. *)
Lemma row_for_redacted app l r : row_for (redacted app <$> l) (redacted app r) = row_for l r.
Proof.
  assert (Hn : forall corr, length (filter (fun e => Kind e <> KindRequest /\ RecordCorrelationID e = corr) (redacted app <$> l)) =
    length (filter (fun e => Kind e <> KindRequest /\ RecordCorrelationID e = corr) l)).
  { intros corr. induction l as [|e l IH]; [done|]. rewrite fmap_cons, !filter_cons.
    rewrite redacted_kind, (proj2 (redacted_keys app e)). case_decide; cbn; by rewrite IH. }
  destruct (Redact_keeps_metadata (app_Ruleset app) 0 r) as (Hm & _). fold (redacted app r) in Hm.
  destruct (redacted app r) as [v|v|v], r as [x|x|x]; try done; injection Hm; intros; cbn; [|congruence..].
  rewrite Hn. repeat match goal with Hx : ?f v = ?f x |- _ => rewrite Hx; clear Hx end. done.
Qed.

Lemma shown_perm l1 l2 q r : l1 ≡ₚ l2 -> shown l1 q r -> shown l2 q r.
Proof.
  intros Hp. assert (Ho : forall k, orphan k l1 r -> orphan k l2 r).
  { intros k [Hk Hn]. split; [done|]. intros x Hx. apply Hn. by rewrite Hp. }
  unfold shown. destruct r; naive_solver.
Qed.

(** What the list says about a record can be encoded, whatever its text: a year
    JSON expresses, numbers of machine size, an id. *)
Definition listable (l : list CRecord) (r : CRecord) : Prop :=
  sized_row (row_for l r) /\ in_i64 (RecordTimestamp r) /\ RecordID r <> "".

(** The rows over a ring that never wrapped. *)
Lemma roots_complete cap rs l q row :
  (Z.of_nat (length rs) <= Z.max 1 cap)%Z -> rs ≡ₚ l ->
  row ∈ roots (written cap rs) q <-> exists r, r ∈ l /\ shown l q r /\ row = row_for l r.
Proof.
  intros Hlen Hp. rewrite roots_are_shown_records. cbv zeta. rewrite take_ge by (rewrite length_rev; lia).
  assert (Hl : rev rs ≡ₚ l) by (rewrite <- Permutation_rev; done).
  split; intros (r & Hr & Hs & ->); exists r; split_and!.
  - by rewrite <- Hl.
  - by eapply shown_perm.
  - by apply row_for_perm.
  - by rewrite Hl.
  - by eapply shown_perm.
  - symmetry. by apply row_for_perm.
Qed.

(** A search with no store but memory: one empty page. *)
Lemma search_without_sqlite `{!WireTime} `{Printable} rs mem vals q nils cause fuel :
  rs_Memory rs = Some mem -> rs_SQLite rs = None -> parseInspectQuery vals = (q, []) ->
  (IsUnindexedScan (iq_Query q) = true -> requiresNarrowing q = true) -> hasNonTemporalFilter q = true ->
  client_walk rs nils cause (S fuel) vals = Some [].
Proof.
  intros Hm Hs Hq Hscan Hnt. cbn [client_walk]. unfold requestsHandler. rewrite Hq.
  replace (IsUnindexedScan (iq_Query q) && negb (requiresNarrowing q)) with false
    by (destruct (IsUnindexedScan (iq_Query q)); [by rewrite (Hscan eq_refl)|done]).
  unfold gatherRoots. rewrite Hm, Hs, Hnt. by vm_compute.
Qed.

(** C3. Everything captured is listed. With the memory store alone, once the
    pool has drained without a panic and the ring holds everything accepted, a
    client that pages through [GET /requests] by the JSON bodies, whatever time
    window and page size it asks for, gets in strictly descending (timestamp,
    id) order exactly one row per accepted record the window shows: every request
    in it, with its fields as captured and the number of its events, and the
    events in it whose request was never captured; bytes that are not UTF-8 read
    as U+FFFD. A query with search terms gets one empty list, since memory alone
    does not answer searches. *)
Theorem captured_requests_listed `{!WireTime} `{Printable} be cfg env t t' app older w vals q nils cause fuel :
  Build E be cfg env t = (t', Some (Ok app)) -> fresh_sinks (be_extraSinks be) ->
  reachable (app_redact app) (app_Handler app) (app_Pool app) (lv_pool w) -> stores_of older (cfg_Sinks cfg) w ->
  sc_Memory (cfg_Sinks cfg) = true -> sc_SQLite (cfg_Sinks cfg) = false -> drained (lv_pool w) ->
  (forall f, f ∈ pl_finished (lv_pool w) -> fi_panicked f = false) ->
  let acc := accepted (pl_history (lv_pool w)) in
  NoDup (RecordID <$> acc) -> (Z.of_nat (length acc) <= sc_MemoryCapacity (cfg_Sinks cfg))%Z ->
  (forall r, r ∈ acc -> listable acc r) ->
  parseInspectQuery vals = (q, []) -> iq_Cursor q = None ->
  (IsUnindexedScan (iq_Query q) = true -> requiresNarrowing q = true) -> length acc < fuel ->
  exists rows, client_walk (app_readers E app w) nils cause fuel vals = Some (clean_row <$> rows) /\ rows_ordered rows /\
    if hasNonTemporalFilter q then rows = []
    else forall row, row ∈ rows <->
      exists r, r ∈ acc /\ shown (redacted app <$> acc) q (redacted app r) /\ row = row_for acc r.
Proof.
  intros Hb Hf Hr [Hring _] Hm Hsql Hd Hp acc Hnd Hcap Hlist Hq Hcur Hscan Hfuel.
  apply Build_rest, build_rest_ok in Hb as (ruleset & srv & reason & _ & _ & Happ & Hcfg & _).
  assert (Hrs : app_readers E app w = mkReadSources (Some (memory_reader (lv_memory w))) None).
  { rewrite Happ. unfold app_readers. cbn. by rewrite Hm, Hsql. }
  destruct (hasNonTemporalFilter q) eqn:Hnt.
  { exists []. destruct fuel as [|fuel]; [lia|]. rewrite Hrs. split; [by eapply search_without_sqlite|].
    by split; [constructor|]. }
  assert (HP : app_Pool app = NewPool (cfg_Workers cfg) (cfg_QueueSize cfg) (build_sinks be cfg)) by (by rewrite Happ).
  rewrite HP in Hr. pose proof (handed_drained app be cfg _ Hf Hm Hr Hd Hp) as Hh. fold acc in Hh.
  set (mem := handed_to (lv_pool w) (memory_position (cfg_Sinks cfg))) in *.
  assert (Hlen : (Z.of_nat (length mem) <= Z.max 1 (sc_MemoryCapacity (cfg_Sinks cfg)))%Z)
    by (rewrite Hh, length_fmap; lia).
  assert (Hids : NoDup (RecordID <$> mem)) by (by rewrite Hh, redacted_ids).
  assert (Hrows : forall row, row ∈ roots (lv_memory w) q <->
    exists r, r ∈ acc /\ shown (redacted app <$> acc) q (redacted app r) /\ row = row_for acc r).
  { intros row. rewrite Hring, (roots_complete _ _ (redacted app <$> acc)) by done. split.
    - intros (x & (r & -> & Hin)%list_elem_of_fmap & Hsh & ->). exists r. by rewrite row_for_redacted.
    - intros (r & Hin & Hsh & ->). exists (redacted app r). rewrite row_for_redacted. by split; [apply list_elem_of_fmap_2|]. }
  exists (roots (lv_memory w) q). split_and!; [|by rewrite Hring; apply roots_ordered, snapshot_ids|exact Hrows].
  rewrite Hrs. eapply (client_reads_all_clean _ (memory_reader (lv_memory w)) _ _ q); [done|done|done|by right|..].
  - intros c. rewrite Hring. exact (memory_reader_serves _ (set_cursor q c) (snapshot_ids _ _ Hids)).
  - intros row (r & Hin & _ & ->)%Hrows. destruct (Hlist r Hin) as (_ & Ht & Hid). by destruct r.
  - apply Forall_forall. intros row (r & Hin & _ & ->)%Hrows. by destruct (Hlist r Hin).
  - rewrite Hring. pose proof (roots_bound (sc_MemoryCapacity (cfg_Sinks cfg)) mem q) as Hbound.
    pose proof (Permutation_length Hh) as Hl. rewrite length_fmap in Hl. lia.
Qed.
End EndToEnd.

(** ** Example: two response events of one correlation id

    [sq] is whether the second sink is SQLite. *)

Module Sample.
#[local] Existing Instances ascii_unicode sorted_range literal_deps decimal_json decimal_parse decimal_format exact_chi.

#[local] Instance web : WebDeps := {|
  url_Parse_Host _ := None; uni_EqualFold := String.eqb; parse_ip_loopback h := Some (String.eqb h "127.0.0.1") |}.
#[local] Instance pages : PageDeps := {|
  yaml_Encode cfg := Some ""; configurationTmpl markup _ := Some markup; sha256_Sum256 body := str_take 32 body |}.
#[local] Instance linux : Target := Unix.
#[local] Instance all_printable : Printable := {| is_print _ := true |}.
#[local] Existing Instance decimal_wire.
#[local] Instance payloads : JsonDeps := {|
  unmarshal_response _ := None; unmarshal_outbound _ := None; unmarshal_array _ := None |}.

Definition engine : Engine := list_engine run_details.
Definition system : SqliteOpen.Env := fun _ c => match c with Lstat _ => NotExist | _ => Done end.
Definition empty_live : Live :=
  mkLive (NewPool 2 1024 []) 0 NewEventsCounters NewAuthLimiter (NewMemorySink 1000) (mkDatabase [] []).
Definition other_sinks (sq : bool) : list Sink := if sq then [] else [mkSink "other" (fun _ _ => WriteOk) []].
Definition build_env (sq : bool) : BuildEnv :=
  mkBuildEnv (fun s => (s, true)) (fun _ _ => WriteOk) (other_sinks sq) [] "dev" "unknown" empty_live.

Lemma extra_sinks_fresh sq : fresh_sinks (be_extraSinks (build_env sq)).
Proof. intros s. change (be_extraSinks (build_env sq)) with (other_sinks sq). destruct sq; set_solver. Qed.

Definition config (sq : bool) : Config :=
  let d := Defaults 2 in
  mkConfig (cfg_CapturePort d) (cfg_CaptureBind d) (cfg_QueueSize d) (cfg_BodyCap d) (cfg_MaxEventsPayload d)
    (cfg_MaxEventsPerBatch d) (cfg_Workers d) (cfg_ServiceHeader d) (cfg_LogFormat d) (cfg_Timeouts d)
    (mkSinks false true 1000 sq "./httpcatch.db" (mkRetention 0%Z 0 0%Z))
    (mkRedactionConfig ["Authorization"] [] [] [] []) (mkAdminConfig "127.0.0.1:8081" "secret" false 0%Z false) (cfg_Inspect d).

Definition event (id : string) (ts : time) : CRecord :=
  RResponse (mkResponseEvent id ts "c1" "explicit" "svc" "header" 200
    (Some {["Authorization" := ["Bearer t"]]}) "" false 0 "" 3).

(** A row an earlier run without rules left in the SQLite file. *)
Definition earlier : CRecord := event "e0" 5%Z.

(** One event through queue, worker 0, redactor and both sinks. *)
Definition through (app : App) (r : CRecord) (st : Pool) : Pool :=
  mkPool (pl_queue st) (pl_counters st) (pl_workers st)
    ((fun s => (sink_write s (redacted app r)).1) <$> pl_sinks st) (pl_errors st) (pl_panics st)
    (OfferEvent r :: pl_history st) (mkFinished r (length (pl_sinks st)) false :: pl_finished st).

Definition quiet (s : Sink) : Prop := forall log r, sk_Write s log r = WriteOk.

Lemma run_through app st s1 s2 r n :
  pl_sinks st = [s1; s2] -> quiet s1 -> quiet s2 -> pl_queue st = mkQueue [] (S n) 0 false -> pl_workers st = [Idle; Idle] ->
  reachable (app_redact app) (app_Handler app) st (through app r st).
Proof.
  intros Hs Hq1 Hq2 Hqu Hw. destruct st as [q c ws sinks errs panics h fs]. cbn in *. subst.
  eapply rtc_l; [apply (step_event _ _ _ r (mkQueue [r] (S n) 0 false) true); reflexivity|].
  eapply rtc_l; [apply (step_take _ _ _ 0 r (mkQueue [] (S n) 0 false)); reflexivity|].
  eapply rtc_l; [eapply (step_redact _ _ _ 0 r); reflexivity|].
  eapply rtc_l; [eapply (step_write _ _ _ 0 r _ 0 s1 _ WriteOk); [reflexivity..| |done]; unfold sink_write; by rewrite Hq1|].
  eapply rtc_l; [eapply (step_write _ _ _ 0 r _ 1 s2 _ WriteOk); [reflexivity..| |done]; unfold sink_write; by rewrite Hq2|].
  eapply rtc_l; [eapply (step_done _ _ _ 0 r); reflexivity|]. apply rtc_refl.
Qed.

Lemma built_app sq : exists t app, Build engine (build_env sq) (config sq) system [] = (t, Some (Ok app)).
Proof.
  destruct (Build engine (build_env sq) (config sq) system []) as [t out] eqn:Hb.
  assert (Hok : match (Build engine (build_env sq) (config sq) system []).2 with Some (Ok _) => true | _ => false end = true)
    by (destruct sq; by vm_compute).
  rewrite Hb in Hok. cbn in Hok. destruct out as [[app|]|]; try done. by exists t, app.
Qed.

Lemma built_parts sq t app : Build engine (build_env sq) (config sq) system [] = (t, Some (Ok app)) ->
  app_Pool app = NewPool 2 1024 (build_sinks (build_env sq) (config sq)) /\ app_Ruleset app = hide_auth.
Proof.
  intros Hb%Build_rest. apply build_rest_ok in Hb as (ruleset & srv & reason & Hr & _ & -> & _). split; [done|].
  cbn. destruct sq; vm_compute in Hr; by injection Hr as <-.
Qed.

Definition two_events (app : App) : Pool := through app (event "e2" 20%Z) (through app (event "e1" 10%Z) (app_Pool app)).

Lemma two_reachable sq t app : Build engine (build_env sq) (config sq) system [] = (t, Some (Ok app)) ->
  reachable (app_redact app) (app_Handler app) (app_Pool app) (two_events app).
Proof.
  intros [Hp _]%built_parts. unfold two_events. rewrite Hp.
  unfold reachable. destruct sq; etrans; eapply run_through; try reflexivity; by intros ? ?.
Qed.

Lemma two_state sq t app : Build engine (build_env sq) (config sq) system [] = (t, Some (Ok app)) ->
  drained (two_events app) /\ (forall f, f ∈ pl_finished (two_events app) -> fi_panicked f = false) /\
  accepted (pl_history (two_events app)) = [event "e2" 20%Z; event "e1" 10%Z].
Proof.
  intros [Hp _]%built_parts. unfold two_events, drained, through. rewrite Hp. cbn. split_and!; [done|..|done].
  - set_solver.
  - set_solver.
Qed.

Definition world (app : App) : Live :=
  let log k := handed_to (two_events app) k in
  mkLive (two_events app) 0 NewEventsCounters NewAuthLimiter (written 1000 (log 0))
    (database_of (earlier :: log 1)).

Definition masked_event (id : string) (ts : time) : CRecord :=
  RResponse (mkResponseEvent id ts "c1" "explicit" "svc" "header" 200
    (Some {["Authorization" := [Redacted]]}) "" false 0 "" 3).

Lemma redacted_event sq t app id ts : Build engine (build_env sq) (config sq) system [] = (t, Some (Ok app)) ->
  redacted app (event id ts) = masked_event id ts.
Proof. intros [_ Hr]%built_parts. unfold redacted. rewrite Hr. reflexivity. Qed.

Lemma world_logs sq t app k : Build engine (build_env sq) (config sq) system [] = (t, Some (Ok app)) -> k < 2 ->
  handed_to (two_events app) k = [masked_event "e1" 10%Z; masked_event "e2" 20%Z].
Proof.
  intros Hb Hk. rewrite <- !(redacted_event sq t app) by done. apply built_parts in Hb as [Hp _].
  unfold handed_to, two_events. rewrite Hp. destruct k as [|[|k]], sq; first [reflexivity|lia].
Qed.

Lemma world_stores sq t app : Build engine (build_env sq) (config sq) system [] = (t, Some (Ok app)) ->
  stores_of [earlier] (cfg_Sinks (config sq)) (world app).
Proof.
  intros Hb. split; [done|]. exists (earlier :: handed_to (two_events app) 1). split_and!; [done..|].
  rewrite (world_logs sq t) by (done || lia).
  assert (Hh : forall v, ValidString v = true -> valid_header (Some {["Authorization" := [v]]}))
    by (intros v Hv m [= <-]; apply map_Forall_singleton; by repeat constructor).
  repeat (apply Forall_cons_2); [..|apply Forall_nil_2];
    (split; [unfold in_i64, two63; cbn; lia|by apply Hh]).
Qed.

Definition request : Request :=
  mkRequest "GET" "/requests/e1" ∅ {["Authorization" := ["Bearer secret"]]} "admin:8081" "192.0.2.1:4711" [] (mkBody "" false).
Definition caller (app : App) : Inputs Live :=
  mkInputs Live 0%Z (0, 0)%Z None (mkLoginForm false "" "") "" (app_readers engine app (world app))
    (fun _ => mkDraw 0%Z "" "") 0 (fun _ q => q) (fun _ => world app).

(** The detail of the first event: the second with its header masked, and what
    the earlier run left, if anything. *)
Lemma accepted_records_served_witness : exists app d extra st' resp,
  ServeHTTP (app_Admin app) (caller app) (NewState None) request = Answered EpDetail st' resp /\
  rp_body resp = BodyInspect (RespDetail d) /\ dr_Root d = masked_event "e1" 10%Z /\
  dr_Events d ≡ₚ masked_event "e2" 20%Z :: extra /\ Forall (left_over [earlier] (event "e1" 10%Z)) extra.
Proof.
  destruct (built_app true) as (t & app & Hb). pose proof (two_reachable true t app Hb) as Hr. pose proof (world_stores true t app Hb) as Hs.
  destruct (two_state true t app Hb) as (Hd & Hf & Ha).
  destruct (accepted_records_served engine run_details_answers (build_env true) (config true) system [] t app [earlier] (world app)
    (event "e1" 10%Z) Hb) as (d & extra & Hroot & Hev & Hx & _ & _ & Hserve); cbn [world lv_pool] in *.
  - exact (extra_sinks_fresh true).
  - exact Hr.
  - exact Hs.
  - reflexivity.
  - exact Hd.
  - exact Hf.
  - rewrite Ha. apply (bool_decide_unpack _). vm_compute. exact I.
  - rewrite Ha. vm_compute. done.
  - rewrite Ha. right. left.
  - destruct (Hserve (caller app) (NewState None) request (Middleware "secret" true NewSessionStore NewAuthLimiter 0%Z request).2) as (resp & Hresp & _ & Hbody);
      [reflexivity|reflexivity|vm_compute; reflexivity|].
    exists app, d, extra. eexists _, resp. split; [exact Hresp|]. split; [exact Hbody|]. rewrite Hroot, (redacted_event true t app) by done.
    split; [done|]. split; [|exact Hx]. rewrite Hev, Ha. rewrite <- (redacted_event true t app) by done. reflexivity.
Defined.

(** The same answer seen from the safety side. *)
Definition served_ids : list string :=
  match Build engine (build_env true) (config true) system [] with
  | (_, Some (Ok app)) =>
      match ServeHTTP (app_Admin app) (caller app) (NewState None) request with
      | Answered _ _ resp => RecordID <$> payload_records (rp_body resp)
      | _ => []
      end
  | _ => []
  end.


Lemma two_listable r : r ∈ [event "e2" 20%Z; event "e1" 10%Z] -> listable [event "e2" 20%Z; event "e1" 10%Z] r.
Proof.
  intros Hr. repeat (apply elem_of_cons in Hr as [->|Hr]; [|]); [..|by apply elem_of_nil in Hr].
  all: split; [|done]; split; [by eexists|split; [done|by intros z [= <-]]].
Qed.

Lemma first_shown :
  shown [masked_event "e2" 20%Z; masked_event "e1" 10%Z] (mkInspectQuery 1 None None None (mkQuery [])) (masked_event "e1" 10%Z).
Proof.
  split_and!; [done|done|]. cbn. split_and!; [done| |done]. split; [done|].
  intros x Hx. repeat (apply elem_of_cons in Hx as [Hx|Hx]; [discriminate Hx|]). by apply elem_of_nil in Hx.
Qed.

(** Two pages of one row: the orphan response is on one of them. *)
Lemma captured_requests_listed_witness : exists app rows,
  client_walk (app_readers engine app (world app)) no_nils "" 3 {["limit" := ["1"]]} = Some rows /\
  row_for [event "e2" 20%Z; event "e1" 10%Z] (event "e1" 10%Z) ∈ rows.
Proof.
  destruct (built_app false) as (t & app & Hb). pose proof (two_state false t app Hb) as (Hd & Hf & Ha).
  destruct (captured_requests_listed engine (build_env false) (config false) system [] t app [earlier] (world app) {["limit" := ["1"]]}
    (mkInspectQuery 1 None None None (mkQuery [])) no_nils "" 3 Hb) as (rows & Hw & _ & Hrows); cbn [world lv_pool] in *.
  - exact (extra_sinks_fresh false).
  - exact (two_reachable false t app Hb).
  - exact (world_stores false t app Hb).
  - reflexivity.
  - reflexivity.
  - exact Hd.
  - exact Hf.
  - rewrite Ha. apply (bool_decide_unpack _). vm_compute. exact I.
  - rewrite Ha. vm_compute. done.
  - rewrite Ha. apply two_listable.
  - vm_compute. reflexivity.
  - reflexivity.
  - done.
  - rewrite Ha. simpl. lia.
  - assert (Hrow : row_for [event "e2" 20%Z; event "e1" 10%Z] (event "e1" 10%Z) ∈ rows).
    2: { eexists app, _. split; [exact Hw|]. apply list_elem_of_fmap. eexists. split; [|exact Hrow]. reflexivity. }
    apply Hrows. exists (event "e1" 10%Z). rewrite Ha. split_and!; [right; left| |done].
    cbn [fmap list_fmap]. rewrite !(redacted_event false t app) by done. apply first_shown.
Defined.
End Sample.
