(* ===== verification/Main.v ===== *)
(** * cmd/httpcatch/main.go: the command line

    [None] for the parsed flags is the flag package exiting on its own. The
    program either ends with an exit code before it serves, or serves. *)
From S2P Require Import Prelude GoLib GoTime Record Json Url Capture Pipeline Redact Config ConfigFacts Auth Events.
From S2P Require Import SearchQL SearchSQL Inspect MemorySink AdminInspect Sqlite SqliteOpen SqliteReader Stdout.
From S2P Require Import UiViews Metrics AdminServer App AppFacts RedactCmd.

Open Scope string_scope.

Definition splitSubcommand (args : list string) : string * list string :=
  match args with
  | [] => ("", [])
  | first :: rest => if HasPrefix first "-" then ("", args) else (first, rest)
  end.

Section Main.
Context `{Unicode} `{MapRange} `{RedactDeps} `{TimeJSON} `{WebDeps} `{PageDeps} `{Target} `{YamlDeps} `{Printable} `{SampleDeps}.
Variable E : Engine.

Inductive ServeStart :=
| FlagExit
| ConfigFailed (e : ConfigError)
| BuildFailed (e : BuildError)
| BuildPanicked
| Serves (logJSON : bool) (warnings : list Warning) (app : App).

(** The flags of a command line, the files and variables, the processors, the
    operating system below the store, and what [Build] takes. *)
Record Machine := mkMachine {
  mc_serveFlags : list string -> option string;
  mc_redactFlags : list string -> option Flags;
  mc_ReadFile : string -> option string;
  mc_Getenv : string -> string;
  mc_cpus : Z;
  mc_system : SqliteOpen.Env;
  mc_build : BuildEnv;
  mc_write_ok : bool
}.

Definition config_file (m : Machine) (path : string) : option (option string) :=
  if String.eqb path "" then None else Some (mc_ReadFile m path).

Definition serve (m : Machine) (args : list string) : ServeStart :=
  match mc_serveFlags m args with
  | None => FlagExit
  | Some path =>
      match Load (mc_cpus m) (config_file m path) (mc_Getenv m) with
      | Err e => ConfigFailed e
      | Ok cfg =>
          match snd (Build E (mc_build m) cfg (mc_system m) []) with
          | None => BuildPanicked
          | Some (Err e) => BuildFailed e
          | Some (Ok app) => Serves (String.eqb (cfg_LogFormat cfg) "json") (EmitStartupWarnings app) app
          end
      end
  end.

Inductive Outcome := Exit (code : Z) (stdout : string) | Running (start : ServeStart).

Definition main (m : Machine) (args : list string) : Outcome :=
  let '(sub, rest) := splitSubcommand args in
  if String.eqb sub "redact" then
    match Run (mc_cpus m) (RedactCmd.mkEnv (mc_redactFlags m rest) (mc_ReadFile m) (mc_Getenv m) (mc_write_ok m)) with
    | Ok out => Exit 0 out
    | Err e => Exit (exit_code e) ""
    end
  else if (String.eqb sub "serve" || String.eqb sub "")%bool then
    match serve m rest with
    | ConfigFailed _ | BuildFailed _ => Exit 1 ""
    | start => Running start
    end
  else Exit 2 "".

(** No arguments, or flags alone, mean [serve]. *)
Lemma serve_is_default m args : (forall first rest, args = first :: rest -> HasPrefix first "-" = true) ->
  main m args = main m ("serve" :: args).
Proof.
  intros Hflag. unfold main. destruct args as [|first rest]; [done|]. unfold splitSubcommand.
  by rewrite (Hflag first rest eq_refl).
Qed.

(** The program serves only what loaded and was built. *)
Lemma serves_built m args json warnings app : main m args = Running (Serves json warnings app) ->
  exists path cfg t, Load (mc_cpus m) (config_file m path) (mc_Getenv m) = Ok cfg /\
    Build E (mc_build m) cfg (mc_system m) [] = (t, Some (Ok app)) /\ warnings = EmitStartupWarnings app.
Proof.
  unfold main, serve. intros Hm. destruct (splitSubcommand args) as [sub rest].
  destruct (String.eqb sub "redact"); [by case_match|]. destruct (_ || _)%bool; [|done].
  destruct (mc_serveFlags m rest) as [path|]; [|done].
  destruct (Load _ _ _) as [cfg|] eqn:HL; [|done].
  destruct (Build _ _ _ _ _) as [t [[app'|]|]] eqn:HB; try done. cbn in Hm. injection Hm as _ <- <-.
  by exists path, cfg, t.
Qed.

(** The session cookie of a public, token-guarded admin port without the
    [Secure] attribute is warned about. *)
Lemma plaintext_cookie_warned app host port :
  SplitHostPort (ac_Bind (cfg_Admin (app_Cfg app))) = Ok (host, port) -> isLoopback host = false ->
  ac_Token (cfg_Admin (app_Cfg app)) <> "" ->
  PlaintextSessionCookieWarning ∈ EmitStartupWarnings app <-> ac_SessionSecure (cfg_Admin (app_Cfg app)) = false.
Proof.
  intros Hs Hl Ht. unfold EmitStartupWarnings, Guard. rewrite Hs, Hl, (proj2 (String.eqb_neq _ _)) by done. cbn [negb].
  unfold warn_if. rewrite !elem_of_app. destruct (ac_SessionSecure _); cbn; split; intros Hin; try done.
  - exfalso. repeat (destruct Hin as [Hin|Hin]; [by case_match; set_solver|]). by apply elem_of_nil in Hin.
  - set_solver.
Qed.
End Main.

Example split_flags : splitSubcommand ["-config"; "c.yaml"] = ("", ["-config"; "c.yaml"]).
Proof. reflexivity. Qed.
Example split_redact : splitSubcommand ["redact"; "in.json"] = ("redact", ["in.json"]).
Proof. reflexivity. Qed.
